(* ===== verification/_CoqProject ===== *)
-Q . S2P
Prelude.v
Strconv.v
Stream.v
Json.v
JsonCodec.v
JsonString.v
GoFmt.v
GoTime.v
GoBase64.v
GoSha256.v
Act.v
Protocol.v
Payload.v
Activity.v
LogLine.v
Delivery.v
HttpDelivery.v
Debezium.v
Consumer.v
Polling.v
Config.v
Provision.v
Admin.v
Connector.v
Catalog.v
App.v
Wiring.v
Ending.v
ControlStore.v
Pipeline.v
Bootstrap.v
Control.v
Fleet.v
Member.v
Lifecycle.v
Handles.v
Operator.v
Serving.v
Cli.v
