(* ===== verification/Prelude.v ===== *)
(** * Postie: a verification development (root file)

    Postie streams the rows inserted into PostgreSQL tables to HTTP
    destinations.  The provision command inspects a source table, creates the
    Kafka topic and the Debezium connector that capture it, waits for the
    capture to run and registers the stream in a PostgreSQL control store.
    The engine then runs one Kafka consumer group per destination: a partition
    worker decodes each captured record, applies the destination's filter,
    posts the envelope until it gets a terminal answer, saves a skip, and
    commits the offset.  A reconcile loop holds the consumers to the wanted
    state: it reads the control store, inspects every source, blocks what can
    no longer be delivered faithfully, and grants a short lease to dispatch.

    ** Files

    Standard-library semantics, nothing mapped: [Prelude] (results, errors,
    strings, lists), [Strconv], [Json], [JsonCodec], [JsonString], [GoFmt],
    [GoTime], [GoBase64], [GoSha256], and [Act], programs that call the outside
    world.  The rest follows the code under src/internal:

    - [Stream]: stream/stream.go.
    - [Protocol]: protocol/protocol.go, acknowledgements, filters, envelope.
    - [Payload]: protocol/payload.go, values by column type.
    - [Activity]: activity/log.go, the ring buffer read through cursors, and
      [LogLine], the lines of JSON its writer gets.
    - [Delivery]: delivery/processor.go and worker.go.
    - [HttpDelivery]: adapters/httpdelivery/client.go.
    - [Debezium]: adapters/debezium/decode.go.  [Connector]: connector.go.
    - [Consumer]: adapters/kafka/consumer.go, with [Polling] for what its poll
      loop hands to the workers.  [Admin]: admin.go.
    - [Config]: config/config.go, validate.go, load.go.
    - [Provision]: provision/contract.go, inspect.go, service.go.
    - [Catalog]: adapters/sourcepg/sourcepg.go.
    - [ControlStore]: adapters/controlpg/store.go, streams.go, subscriptions.go.
    - [Control]: control/state.go, service.go, reconcile.go.
    - [App], [Wiring], [Lifecycle]: app/app.go.  [Bootstrap]: app/bootstrap.go.
    - [Handles]: opening, pinging and closing in adapters/controlpg/store.go,
      kafka/admin.go and sourcepg/sourcepg.go.
    - [Operator]: adapters/operator/server.go.
    - [Cli]: cmd/postie/main.go.

    Five files put components together that the program runs together, and
    add no code of their own but the composition: [Pipeline] (the wired
    consumer on the store's tables and the HTTP client), [Fleet] (the protocol
    of one worker among others, over the tables), [Member] (the control
    service as such a worker), [Serving] (the operator API on that service)
    and [Ending] (how the wired consumer comes to an end).

    ** How a component is modelled

    Pure code is functions.  A [(T, error)] pair is [result]; an error keeps
    its format string and arguments.  Code that calls something else is
    written once against a type class of the calls it makes and proved for
    every instance: [Delivery.World], [Provision.Infra], [Control.Env],
    [Consumer.Kafka], [Admin.KafkaAdmin], [Operator.Backend], [Catalog.Server],
    [Bootstrap.Startup], [Cli.Command], [Handles.Driver].  A call answers as it likes and moves
    the world as it likes.  Properties of the order of calls run the same
    program on a traced world, an instance of the same class that records
    every call with its answer; a simulation carries them back.

    Concurrency appears where components share memory.  In [Control] and
    [Consumer] a critical section under the lock is one update, and a call
    made outside the lock comes back with the sections other goroutines ran
    while it was in flight; in [Control] others also run before every section,
    and the machine keeps every state it was ever in, so that a property holds
    of what a goroutine may see in the middle of a pass.  In [ControlStore] a call is one statement or one
    transaction; in [Bootstrap], [Pipeline] and [Fleet] other clients run calls
    between any two.  A statement may fail, and in [Pipeline] and [Member] it
    may also be done with its answer lost.

    Machine integers keep their width: offsets, revisions, cursors and the
    nanosecond deadlines are [Z] with the wrap-around written where the code
    can reach it.

    ** How the components meet

    - [Wiring] makes a consumer's process function from one delivery worker
      per topic.  The worker's world is the consumer's machine, so one trace
      shows both: [nothing_lost] follows a record from the poll to the commit.
    - [Pipeline] gives that machine the tables of [ControlStore] and the client
      of [HttpDelivery] behind its lease fence: [committed_accounted] finds,
      behind a commit, the skip rows and the acknowledged requests themselves,
      and [at_least_once] chains the workers a partition has over restarts.
    - [Member] runs [Control]'s service on the tables of [ControlStore] among
      other workers of the same scope.  [Fleet] says what every worker may do;
      [service_in_fleet] shows that between any two consecutive states the
      service does at most one thing the protocol allows, and
      [pause_confirmed] that a pause confirmed by one worker holds in all.
    - [Serving] puts [Operator]'s handlers on [Control]'s machine and
      [Activity]'s log; with [Member]'s fleet below, a reply says what the
      fleet does: [pause_reply], [logs_reply].
    - [Ending] gives the wired consumer a clock and states what each goroutine
      relies on of the others.  A context that is over ends the partition
      worker, from a backoff of its delivery worker up ([worker_returns]), and
      then [Run], which waits for the workers ([consumer_returns]).  That the
      workers are gone by a deadline is a condition of the second theorem; the
      first says of each that it is.
    - [Bootstrap] makes provisioning's world from the control store, with
      other clients interleaved: [provision_recorded_all].
    - [App] joins configuration, provisioning and decoding:
      [captured_iff].
    - [Lifecycle] runs [Control]'s service beside the HTTP server and its
      handlers, as labelled steps of one state, from [New] to the return of
      [Run]: [shutdown_order], [run_returns].
    - [Handles] states what [Bootstrap]'s calls promise about connections,
      proves it of the adapters and follows them through [Lifecycle]'s steps
      and the provision command: [engine_closes], [provision_closes].
    - [Cli] runs [Config]'s loading, [Bootstrap]'s command, and [Lifecycle]'s
      engine on a schedule of its goroutines, whose activity log is the
      standard output: [serve_exit].

    ** What the theorems show

    - Delivery: at least once from the log of a partition to the destination
      or the skips, over restarts; no record is committed before its outcome,
      nothing is sent after an answer or a recorded skip, the first terminal
      answer is the outcome, and a worker returns once its context ends.
    - Consumer: a partition worker follows an abstract protocol; commits are
      permitted, owned, and never overtaken by a revocation; what is routed to
      a worker is a contiguous block of what was polled for its partition;
      revocation waits for its workers; lost history blocks the source; a
      worker returns once its context is over, and a canceled consumer ends.
    - Control: a block is final from its second section on, also against an
      inspection under way, a subscription shown as paused never has a running
      consumer, an unhealthy pass stops everything, a change is confirmed only
      when every live worker reached it, and a confirmed pause then holds in
      the whole fleet; and how far the dispatch fence can outlive the lease in
      the store.
    - Control store: blocks, registrations, skips and markers are never taken
      back and revisions never fall.
    - Provisioning: refinement of its specification, what success and each
      inspection verdict rest on, unambiguous names, termination; the topic,
      the connector and the catalog facts it uses are exactly those the
      adapters saw.
    - Decoding and conversion: exact acceptance conditions, ranges, decimal
      equality for floats, round trips of timestamps and identifiers.
    - Life cycle: consumers are stopped before the server is drained and the
      resources are closed, [Run] can always return once it should, and no
      start, failed start or command leaves a connection open.
    - Surfaces: the operator token, the outcome of a change request, exit
      codes and output of the commands and of serving, validity of a
      configuration.

    ** Fuel

    A loop that the code leaves only on an outside answer takes fuel and
    returns [None] when it runs out; a [None] is a run cut short, not a
    result.  [worker_returns], [consumer_returns], [provision_terminates],
    [provision_returns], [ensure_topic_returns] and [change_returns] give fuel
    that is enough once the context ends, and safety properties about traces
    also hold for cut runs.  [Control.start_loop] is a main loop, meant to run
    until told to stop; a schedule of [Lifecycle.Run] that ends before [Run]
    returns is cut short in the same way.  [Activity.Read] has fuel for its 1000 entries,
    enough by [read_refines]; the JSON parser's is enough by [parse_iff].
    Elsewhere recursion is structural.

    ** Not modelled

    - The inside of net/http: a server is its listener and a count of
      handlers.
    - The YAML library (a document is the tree it gives), the Kafka, Connect
      and PostgreSQL servers, the TLS and HTTP transports: parameters or
      interfaces, with what is relied on stated as hypotheses.
    - What the prefix of a fatal line is (any text); signals; percent-escaped request paths; the memory model
      below a critical section. *)

From stdpp Require Export base gmap strings list fin_maps.
From Stdlib Require Export Ascii ZArith Lia.

(** ** Results

    Go's [(T, error)] pair: either the value or the error.  Components choose
    their own error type [E]; the do-notation is stdpp's. *)
Inductive result (E A : Type) : Type :=
| Ok (a : A)
| Err (e : E).
Arguments Ok {E A} a.
Arguments Err {E A} e.

#[export] Instance result_ret (E : Type) : MRet (result E) := fun A a => Ok a.
#[export] Instance result_bind (E : Type) : MBind (result E) := fun A B f m =>
  match m with Ok a => f a | Err e => Err e end.
#[export] Instance result_fmap (E : Type) : FMap (result E) := fun A B f m =>
  match m with Ok a => Ok (f a) | Err e => Err e end.

#[export] Instance result_eq_dec {E A : Type} `{EqDecision E, EqDecision A} :
  EqDecision (result E A).
Proof. solve_decision. Defined.

(** An option read as "missing value is this error". *)
Definition ok_or {E A : Type} (e : E) (o : option A) : result E A :=
  match o with Some a => Ok a | None => Err e end.

Definition is_ok {E A : Type} (r : result E A) : bool :=
  match r with Ok _ => true | Err _ => false end.

(** A check that fails with [e]: Go's [if cond { return err }]. *)
Definition reject_if {E : Type} (cond : bool) (e : E) : result E unit :=
  if cond then Err e else Ok tt.

(** ** Errors

    [fmt.Errorf] and [errors.New] values: the format string and its string
    arguments, unformatted, so a statement about what an error mentions is a
    statement about [args].  [Wrapf] is [%w]; the two context errors are
    [context.Canceled] and [context.DeadlineExceeded]. *)
Inductive error : Type :=
| Errorf (format : string) (args : list string)
| Wrapf (format : string) (args : list string) (inner : error)
| Canceled
| DeadlineExceeded.

#[export] Instance error_eq_dec : EqDecision error.
Proof. solve_decision. Defined.

Definition errorf {A : Type} (format : string) (args : list string) : result error A :=
  Err (Errorf format args).

(** [errors.Is] for a sentinel: the error itself or anything it wraps. *)
Fixpoint error_is (e target : error) : bool :=
  bool_decide (e = target) ||
  match e with
  | Wrapf _ _ inner => error_is inner target
  | _ => false
  end.

(** ** Lemmas on results *)
Section Results.
Context {E A B : Type}.
Implicit Types (m : result E A) (f : A -> result E B).

Lemma bind_Ok m f (b : B) : (m ≫= f) = Ok b <-> exists a, m = Ok a /\ f a = Ok b.
Proof. destruct m; cbn; naive_solver. Qed.

Lemma bind_Err m f (e : E) :
  (m ≫= f) = Err e <-> m = Err e \/ exists a, m = Ok a /\ f a = Err e.
Proof. destruct m; cbn; naive_solver. Qed.

Lemma reject_if_Ok (c : bool) (e : E) (u : unit) : reject_if c e = Ok u <-> c = false.
Proof. unfold reject_if. destruct c, u; naive_solver. Qed.

Lemma reject_bind (c : bool) (e : E) (f : unit -> result E B) (b : B) :
  (reject_if c e ≫= f) = Ok b <-> c = false /\ f tt = Ok b.
Proof. destruct c; cbn; naive_solver. Qed.

Lemma ok_or_Ok (e : E) (o : option A) (a : A) : ok_or e o = Ok a <-> o = Some a.
Proof. destruct o; cbn; naive_solver. Qed.
End Results.

(** ** Strings

    A Go [string] or [[]byte] is the sequence of its bytes: Rocq's [string],
    whose characters are 8-bit.  stdpp gives equality and countability; these
    are the append and length lemmas the parsers use. *)
#[global] Arguments String.append !s1 s2 /.

Lemma str_app_nil_r (s : string) : s +:+ "" = s.
Proof. induction s as [|c s IH]; cbn; [done|by rewrite IH]. Qed.

Lemma str_app_assoc (s t u : string) : (s +:+ t) +:+ u = s +:+ (t +:+ u).
Proof. induction s as [|c s IH]; cbn; [done|by rewrite IH]. Qed.

Lemma str_length_app (s t : string) :
  String.length (s +:+ t) = String.length s + String.length t.
Proof. induction s as [|c s IH]; cbn; [done|by rewrite IH]. Qed.

Lemma str_app_cons (c : ascii) (s t : string) : String c s +:+ t = String c (s +:+ t).
Proof. done. Qed.

Lemma str_app_nil_l (s : string) : "" +:+ s = s.
Proof. done. Qed.

(** Induction on a string by length, for scanners that take several bytes. *)
Lemma str_length_ind (P : string -> Prop) :
  (forall s, (forall t, (String.length t < String.length s)%nat -> P t) -> P s) -> forall s, P s.
Proof.
  intros H s. remember (String.length s) as n eqn:Hn. revert s Hn.
  induction n as [n IH] using lt_wf_ind. intros s ->. apply H. intros t Ht. by apply (IH _ Ht).
Qed.

(** Every character of a string satisfies [p]. *)
Fixpoint str_forallb (p : ascii -> bool) (s : string) : bool :=
  match s with
  | EmptyString => true
  | String c s' => p c && str_forallb p s'
  end.

Lemma str_forallb_app (p : ascii -> bool) (s t : string) :
  str_forallb p (s +:+ t) = str_forallb p s && str_forallb p t.
Proof. induction s as [|c s IH]; cbn; [done|]. by rewrite IH, andb_assoc. Qed.

Lemma str_forallb_impl (p q : ascii -> bool) (s : string) :
  (forall c, p c = true -> q c = true) ->
  str_forallb p s = true -> str_forallb q s = true.
Proof.
  intros Hpq. induction s as [|c s IH]; cbn; [done|].
  rewrite !andb_true_iff. naive_solver.
Qed.

(** The longest prefix whose characters satisfy [p], and the rest. *)
Fixpoint str_span (p : ascii -> bool) (s : string) : string * string :=
  match s with
  | EmptyString => (EmptyString, EmptyString)
  | String c s' =>
      if p c then let '(a, b) := str_span p s' in (String c a, b)
      else (EmptyString, s)
  end.

(** What [str_span] leaves: nothing, or a character that fails [p]. *)
Definition str_stops (p : ascii -> bool) (s : string) : bool :=
  match s with EmptyString => true | String c _ => negb (p c) end.

Lemma str_span_spec (p : ascii -> bool) (s : string) :
  s = (str_span p s).1 +:+ (str_span p s).2 /\
  str_forallb p (str_span p s).1 = true /\ str_stops p (str_span p s).2 = true.
Proof.
  induction s as [|c s IH]; cbn; [done|].
  destruct (p c) eqn:Hc; cbn; [|by rewrite Hc].
  destruct (str_span p s) as [a b]; cbn in *. rewrite Hc. cbn.
  destruct IH as (-> & ? & ?); auto.
Qed.

Lemma str_span_app (p : ascii -> bool) (a b : string) :
  str_forallb p a = true -> str_stops p b = true -> str_span p (a +:+ b) = (a, b).
Proof.
  intros Ha Hb. induction a as [|c a IH]; cbn in *.
  - destruct b as [|c b]; cbn in *; [done|]. by destruct (p c).
  - apply andb_true_iff in Ha as [-> Ha]. by rewrite (IH Ha).
Qed.

(** [strings.Repeat], [s[:n]] and [s[n:]]. *)
Fixpoint str_repeat (n : nat) (s : string) : string :=
  match n with O => EmptyString | S n => s +:+ str_repeat n s end.

Fixpoint str_take (n : nat) (s : string) : string :=
  match n, s with
  | S n, String c s' => String c (str_take n s')
  | _, _ => EmptyString
  end.

Fixpoint str_drop (n : nat) (s : string) : string :=
  match n, s with
  | S n, String _ s' => str_drop n s'
  | O, _ => s
  | S _, EmptyString => EmptyString
  end.

Lemma str_take_drop (n : nat) (s : string) : str_take n s +:+ str_drop n s = s.
Proof.
  revert s. induction n as [|n IH]; intros [|c s]; cbn; try done. by rewrite IH.
Qed.

Lemma str_length_take (n : nat) (s : string) :
  String.length (str_take n s) = n `min` String.length s.
Proof. revert s. induction n as [|n IH]; intros [|c s]; cbn; auto. Qed.

Lemma str_length_drop (n : nat) (s : string) :
  String.length (str_drop n s) = String.length s - n.
Proof. revert s. induction n as [|n IH]; intros [|c s]; cbn; auto. Qed.

Lemma str_take_app (a b : string) : str_take (String.length a) (a +:+ b) = a.
Proof. induction a as [|c a IH]; [by destruct b|]. cbn. by rewrite IH. Qed.

Lemma str_drop_app (n : nat) (a b : string) : str_drop (String.length a + n) (a +:+ b) = str_drop n b.
Proof. by induction a as [|c a IH]. Qed.

Lemma str_forallb_take (p : ascii -> bool) (n : nat) (s : string) :
  str_forallb p s = true -> str_forallb p (str_take n s) = true /\ str_forallb p (str_drop n s) = true.
Proof.
  intros H. rewrite <- (str_take_drop n s), str_forallb_app in H. by apply andb_true_iff.
Qed.

(** [strings.CutPrefix]: the rest of [s] after [p], if [s] starts with it. *)
Fixpoint strip_prefix (p s : string) : option string :=
  match p, s with
  | EmptyString, _ => Some s
  | String a p', String b s' => if Ascii.eqb a b then strip_prefix p' s' else None
  | String _ _, EmptyString => None
  end.

Lemma strip_prefix_Some (p s r : string) : strip_prefix p s = Some r <-> s = p +:+ r.
Proof.
  revert s. induction p as [|a p IH]; intros s; cbn; [naive_solver|].
  destruct s as [|b s]; [naive_solver|].
  destruct (Ascii.eqb_spec a b) as [->|Hne]; [rewrite IH|]; naive_solver.
Qed.

Lemma strip_prefix_app (p r : string) : strip_prefix p (p +:+ r) = Some r.
Proof. by apply strip_prefix_Some. Qed.

Definition HasPrefix (s p : string) : bool := bool_decide (is_Some (strip_prefix p s)).

(** ** Automation *)
Create HintDb postie.
Create Rewrite HintDb str.
Create Rewrite HintDb bool_props.
#[export] Hint Rewrite str_app_nil_r str_app_assoc str_length_app str_app_cons
  str_app_nil_l : str.
#[export] Hint Rewrite andb_true_iff orb_true_iff negb_true_iff orb_false_iff
  andb_false_iff negb_false_iff bool_decide_eq_true bool_decide_eq_false
  Z.leb_le Z.ltb_lt Z.leb_gt Z.ltb_ge Z.eqb_eq Z.eqb_neq : bool_props.
#[export] Hint Resolve str_span_spec strip_prefix_app : postie.

(** Linear arithmetic with quotients and remainders. *)
Ltac zdiv := Z.div_mod_to_equations; lia.

(** Normalises strings to right-nested appends. *)
Ltac str_norm := autorewrite with str.

(** Turns boolean guards in hypotheses and the goal into propositions. *)
Ltac bools := autorewrite with bool_props in *.

(** Splits an [Ok] equation of a monadic block into its successful steps. *)
Ltac inv_ok :=
  repeat match goal with
  | H : Ok _ = Ok _ |- _ => injection H as H
  | H : Err _ = Ok _ |- _ => discriminate H
  | H : Ok _ = Err _ |- _ => discriminate H
  | H : errorf _ _ = Ok _ |- _ => discriminate H
  | H : mret _ = Ok _ |- _ => injection H as H
  | H : (_ ≫= _) = Ok _ |- _ =>
      apply bind_Ok in H; let x := fresh "v" in let H1 := fresh "Hok" in
      destruct H as (x & H1 & H)
  | H : reject_if _ _ = Ok _ |- _ => apply reject_if_Ok in H
  | H : ok_or _ _ = Ok _ |- _ => apply ok_or_Ok in H
  end.
