(* ===== verification/Strconv.v ===== *)
(** * Strconv: the Go standard library's text functions the program calls

    [strconv.ParseUint], [ParseInt], [Atoi], [FormatUint]/[Itoa] in base 10,
    [strings.TrimSpace], [IndexByte], [IndexAny], [TrimLeft], [TrimRight] and
    [Contains], over byte strings.  Standard-library semantics, not code of
    the repository: nothing here is mapped to a source line. *)

From S2P Require Import Prelude.
Local Open Scope Z_scope.

(** ** Bytes and digits *)
Definition byte_val (c : ascii) : Z := Z.of_N (N_of_ascii c).
Definition byte_of (n : Z) : ascii := ascii_of_N (Z.to_N n).

Definition in_range (lo hi : Z) (c : ascii) : bool :=
  (lo <=? byte_val c) && (byte_val c <=? hi).
Definition is_digit (c : ascii) : bool := in_range 48 57 c.
Definition digit_val (c : ascii) : Z := byte_val c - 48.
Definition digit_char (d : Z) : ascii := byte_of (d + 48).

Lemma byte_val_range (c : ascii) : 0 <= byte_val c < 256.
Proof. unfold byte_val. pose proof (N_ascii_bounded c). lia. Qed.

Lemma byte_val_of (n : Z) : 0 <= n < 256 -> byte_val (byte_of n) = n.
Proof. intros ?. unfold byte_val, byte_of. rewrite N_ascii_embedding; lia. Qed.

Lemma byte_of_val (c : ascii) : byte_of (byte_val c) = c.
Proof. unfold byte_val, byte_of. by rewrite N2Z.id, ascii_N_embedding. Qed.

Lemma byte_val_inj (a b : ascii) : byte_val a = byte_val b -> a = b.
Proof. intros H. by rewrite <- (byte_of_val a), H, byte_of_val. Qed.

Lemma is_digit_spec (c : ascii) : is_digit c = true <-> 0 <= digit_val c <= 9.
Proof. unfold is_digit, in_range, digit_val. bools. lia. Qed.

Lemma digit_char_spec (d : Z) :
  0 <= d <= 9 -> is_digit (digit_char d) = true /\ digit_val (digit_char d) = d.
Proof.
  intros ?. unfold is_digit, in_range, digit_val, digit_char.
  rewrite byte_val_of by lia. bools. lia.
Qed.

Lemma digit_char_val (c : ascii) : digit_char (digit_val c) = c.
Proof. unfold digit_char, digit_val. by rewrite Z.sub_add, byte_of_val. Qed.

(** ** Decimal values *)
Definition all_digits (s : string) : bool := str_forallb is_digit s.

(** The number a digit string denotes, most significant digit first. *)
Fixpoint dec_acc (s : string) (acc : Z) : Z :=
  match s with
  | EmptyString => acc
  | String c s' => dec_acc s' (10 * acc + digit_val c)
  end.
Definition dec_value (s : string) : Z := dec_acc s 0.

Lemma dec_acc_split (s : string) (acc : Z) :
  dec_acc s acc = acc * 10 ^ Z.of_nat (String.length s) + dec_value s.
Proof.
  unfold dec_value. revert acc. induction s as [|c s IH]; intros acc; cbn [dec_acc String.length].
  - cbn. lia.
  - rewrite IH, (IH (10 * 0 + _)), Nat2Z.inj_succ, Z.pow_succ_r by lia. ring.
Qed.

Lemma dec_value_app (s t : string) :
  dec_value (s +:+ t) = dec_value s * 10 ^ Z.of_nat (String.length t) + dec_value t.
Proof.
  unfold dec_value at 1 2. generalize 0. induction s as [|c s IH]; intros acc; cbn [dec_acc String.append].
  - apply dec_acc_split.
  - apply IH.
Qed.

Lemma dec_value_cons (c : ascii) (s : string) :
  dec_value (String c s) = digit_val c * 10 ^ Z.of_nat (String.length s) + dec_value s.
Proof. unfold dec_value at 1. cbn [dec_acc]. rewrite dec_acc_split. lia. Qed.

Lemma dec_value_bounds (s : string) :
  all_digits s = true -> 0 <= dec_value s < 10 ^ Z.of_nat (String.length s).
Proof.
  induction s as [|c s IH]; cbn [all_digits str_forallb]; [cbn; lia|].
  intros [Hc Hs]%andb_true_iff. apply is_digit_spec in Hc. specialize (IH Hs).
  rewrite dec_value_cons. cbn [String.length]. rewrite Nat2Z.inj_succ, Z.pow_succ_r by lia. nia.
Qed.

(** ** strconv.ParseUint and ParseInt, base 10 *)
Inductive num_error : Type := ErrSyntax | ErrRange.

(** One digit of [ParseUint]'s loop on a [uint64] accumulator. *)
Definition parse_uint_step (bits : Z) (n : Z) (c : ascii) : result num_error Z :=
  if negb (is_digit c) then Err ErrSyntax
  else if (2 ^ 64 - 1) / 10 + 1 <=? n then Err ErrRange
  else
    let n := (n * 10) mod 2 ^ 64 in
    let n1 := (n + digit_val c) mod 2 ^ 64 in
    if (n1 <? n) || (2 ^ bits - 1 <? n1) then Err ErrRange else Ok n1.

Fixpoint parse_uint_loop (bits : Z) (s : string) (n : Z) : result num_error Z :=
  match s with
  | EmptyString => Ok n
  | String c s' => n1 ← parse_uint_step bits n c; parse_uint_loop bits s' n1
  end.

Definition ParseUint (s : string) (bits : Z) : result num_error Z :=
  if bool_decide (s = "") then Err ErrSyntax else parse_uint_loop bits s 0.

Definition split_plus_minus (s : string) : bool * string :=
  match s with
  | String "+" r => (false, r)
  | String "-" r => (true, r)
  | _ => (false, s)
  end.

Definition ParseInt (s : string) (bits : Z) : result num_error Z :=
  if bool_decide (s = "") then Err ErrSyntax
  else
    let '(neg, digits) := split_plus_minus s in
    let finish (un : Z) :=
      let cutoff := 2 ^ (bits - 1) in
      if negb neg && (cutoff <=? un) then Err ErrRange
      else if neg && (cutoff <? un) then Err ErrRange
      else Ok (if neg then - un else un) in
    match ParseUint digits bits with
    | Ok un => finish un
    | Err ErrRange => finish (2 ^ bits - 1)
    | Err ErrSyntax => Err ErrSyntax
    end.

(** [strconv.Atoi]: a 64-bit [ParseInt]. *)
Definition Atoi (s : string) : result num_error Z := ParseInt s 64.

Lemma parse_uint_step_ok (bits n : Z) (c : ascii) :
  0 < bits <= 64 -> 0 <= n <= 2 ^ bits - 1 ->
  parse_uint_step bits n c =
    if negb (is_digit c) then Err ErrSyntax
    else if 2 ^ bits - 1 <? 10 * n + digit_val c then Err ErrRange
    else Ok (10 * n + digit_val c).
Proof.
  intros Hbits Hn. unfold parse_uint_step.
  destruct (is_digit c) eqn:Hc; cbn [negb]; [|done]. apply is_digit_spec in Hc.
  assert (Hle : 2 ^ bits <= 2 ^ 64) by (apply Z.pow_le_mono_r; lia).
  assert (Hpos : 0 < 2 ^ bits) by (apply Z.pow_pos_nonneg; lia).
  change (2 ^ 64) with 18446744073709551616 in *.
  change ((18446744073709551616 - 1) / 10 + 1) with 1844674407370955162.
  destruct (Z.leb_spec 1844674407370955162 n) as [Hbig|Hsmall].
  - destruct (Z.ltb_spec (2 ^ bits - 1) (10 * n + digit_val c)); [done|lia].
  - rewrite (Z.mod_small (n * 10)) by lia.
    destruct (Z.ltb_spec (2 ^ bits - 1) (10 * n + digit_val c)) as [Hov|Hfit].
    + destruct (Z.lt_ge_cases (n * 10 + digit_val c) 18446744073709551616) as [Hlt|Hge].
      * rewrite Z.mod_small by lia.
        destruct (Z.ltb_spec (2 ^ bits - 1) (n * 10 + digit_val c)); [by rewrite orb_true_r|lia].
      * replace ((n * 10 + digit_val c) mod 18446744073709551616)
          with (n * 10 + digit_val c - 18446744073709551616)
          by (apply (Z.mod_unique _ _ 1); lia).
        destruct (Z.ltb_spec (n * 10 + digit_val c - 18446744073709551616) (n * 10)); [done|lia].
    + rewrite Z.mod_small by lia.
      destruct (Z.ltb_spec (n * 10 + digit_val c) (n * 10)); [lia|].
      destruct (Z.ltb_spec (2 ^ bits - 1) (n * 10 + digit_val c)); [lia|].
      cbn. f_equal. lia.
Qed.

Lemma parse_uint_loop_ok (bits : Z) (s : string) (n v : Z) :
  0 < bits <= 64 -> 0 <= n <= 2 ^ bits - 1 ->
  parse_uint_loop bits s n = Ok v <->
  all_digits s = true /\ v = dec_acc s n /\ v <= 2 ^ bits - 1.
Proof.
  intros Hbits. revert n. induction s as [|c s IH]; intros n Hn; cbn [parse_uint_loop].
  - cbn. naive_solver lia.
  - rewrite parse_uint_step_ok by done. unfold all_digits. cbn [str_forallb dec_acc].
    destruct (is_digit c) eqn:Hc; cbn [negb andb]; [|cbn; naive_solver].
    apply is_digit_spec in Hc.
    destruct (Z.ltb_spec (2 ^ bits - 1) (10 * n + digit_val c)) as [Hov|Hfit]; cbn.
    + split; [done|]. intros (Hd & -> & Hle). rewrite dec_acc_split in Hle.
      pose proof (dec_value_bounds s Hd).
      assert (0 < 10 ^ Z.of_nat (String.length s)) by (apply Z.pow_pos_nonneg; lia). nia.
    + apply IH. lia.
Qed.

(** [ParseUint] accepts exactly the non-empty digit strings whose value fits. *)
Lemma ParseUint_ok (s : string) (bits v : Z) :
  0 < bits <= 64 ->
  ParseUint s bits = Ok v <->
  s <> "" /\ all_digits s = true /\ v = dec_value s /\ v <= 2 ^ bits - 1.
Proof.
  intros Hbits. unfold ParseUint. case_bool_decide as Hs; [naive_solver|].
  assert (0 < 2 ^ bits) by (apply Z.pow_pos_nonneg; lia).
  rewrite parse_uint_loop_ok by lia. unfold dec_value. naive_solver.
Qed.

Lemma parse_uint_loop_err (bits : Z) (s : string) (n : Z) :
  0 < bits <= 64 -> 0 <= n <= 2 ^ bits - 1 ->
  parse_uint_loop bits s n = Err ErrSyntax -> all_digits s = false.
Proof.
  intros Hbits. revert n. induction s as [|c s IH]; intros n Hn; cbn [parse_uint_loop]; [done|].
  rewrite parse_uint_step_ok by done. unfold all_digits. cbn [str_forallb].
  destruct (is_digit c) eqn:Hc; cbn [negb andb]; [|done]. apply is_digit_spec in Hc.
  destruct (Z.ltb_spec (2 ^ bits - 1) (10 * n + digit_val c)); cbn; [done|]. apply IH. lia.
Qed.

(** The signed decimal value of a literal with an optional sign. *)
Definition signed_value (s : string) : Z :=
  let '(neg, digits) := split_plus_minus s in
  if neg then - dec_value digits else dec_value digits.

(** The range checks that end [ParseInt], on a magnitude already parsed. *)
Lemma finish_ok (neg : bool) (d : string) (v cutoff : Z) :
  0 <= dec_value d -> d <> "" -> all_digits d = true -> 0 < cutoff ->
  (if negb neg && (cutoff <=? dec_value d) then @Err num_error Z ErrRange
   else if neg && (cutoff <? dec_value d) then Err ErrRange
   else Ok (if neg then - dec_value d else dec_value d)) = Ok v <->
  d <> "" /\ all_digits d = true /\
  v = (if neg then - dec_value d else dec_value d) /\ - cutoff <= v < cutoff.
Proof.
  intros H0 Hd0 Hd Hc. destruct neg; cbn [negb andb].
  - destruct (Z.ltb_spec cutoff (dec_value d)); (split; [intros [=]|intros (_ & _ & -> & ?)]);
      subst; auto with lia; f_equal; lia.
  - destruct (Z.leb_spec cutoff (dec_value d)); (split; [intros [=]|intros (_ & _ & -> & ?)]);
      subst; auto with lia; f_equal; lia.
Qed.

(** [ParseInt] accepts exactly the optionally signed, non-empty digit strings
    whose value fits a signed integer of [bits] bits. *)
Lemma ParseInt_ok (s : string) (bits v : Z) :
  1 < bits <= 64 ->
  ParseInt s bits = Ok v <->
  (split_plus_minus s).2 <> "" /\ all_digits (split_plus_minus s).2 = true /\
  v = signed_value s /\ - 2 ^ (bits - 1) <= v < 2 ^ (bits - 1).
Proof.
  intros Hbits. unfold ParseInt, signed_value.
  assert (Hdbl : 2 ^ bits = 2 * 2 ^ (bits - 1)).
  { rewrite <- Z.pow_succ_r by lia. f_equal. lia. }
  assert (Hp : 2 ^ 1 <= 2 ^ (bits - 1)) by (apply Z.pow_le_mono_r; lia).
  case_bool_decide as Hs; [subst; cbn; split; [done|]; by intros (? & _)|].
  destruct (split_plus_minus s) as [neg d]; cbn [fst snd].
  pose proof (ParseUint_ok d bits) as Hspec.
  destruct (ParseUint d bits) as [un|[]] eqn:Hu.
  - destruct (proj1 (Hspec un ltac:(lia)) eq_refl) as (Hd0 & Hd & -> & Hle).
    clear Hspec Hu Hs. pose proof (dec_value_bounds d Hd) as Hb.
    apply (finish_ok neg d v (2 ^ (bits - 1))); auto; lia.
  - assert (Hall : d <> "" -> all_digits d = false).
    { intros Hd0. unfold ParseUint in Hu. rewrite bool_decide_eq_false_2 in Hu by done.
      eapply (parse_uint_loop_err bits); [| |exact Hu]; lia. }
    split; [done|]. intros (Hd0 & Hd & _). rewrite Hall in Hd; done.
  - assert (Hno : d <> "" -> all_digits d = true -> 2 ^ bits - 1 < dec_value d).
    { intros ??. destruct (Z.lt_ge_cases (2 ^ bits - 1) (dec_value d)); [done|].
      assert (@Err num_error Z ErrRange = Ok (dec_value d)) by (apply Hspec; auto; lia).
      done. }
    clear Hspec Hu Hs. destruct neg; cbn [negb andb].
    + destruct (Z.ltb_spec (2 ^ (bits - 1)) (2 ^ bits - 1)); [|lia].
      split; [done|]. intros (Hd0 & Hd & -> & Hv). specialize (Hno Hd0 Hd). lia.
    + destruct (Z.leb_spec (2 ^ (bits - 1)) (2 ^ bits - 1)); [|lia].
      split; [done|]. intros (Hd0 & Hd & -> & Hv). specialize (Hno Hd0 Hd). lia.
Qed.

Lemma split_plus_minus_digits (sg d : string) :
  sg = "" \/ sg = "+" \/ sg = "-" -> all_digits d = true -> d <> "" ->
  (split_plus_minus (sg +:+ d)).2 = d.
Proof.
  intros [->|[->| ->]] Hd Hne; [|done..]. destruct d as [|c d]; [done|]. cbn.
  destruct c as [[] [] [] [] [] [] [] []]; done.
Qed.

(** ** strconv.FormatUint and Itoa *)
Fixpoint format_uint_go (fuel : nat) (n : Z) (acc : string) : string :=
  match fuel with
  | O => acc
  | S f =>
      let acc := String (digit_char (n mod 10)) acc in
      if n <? 10 then acc else format_uint_go f (n / 10) acc
  end.

(** The fuel is the number's bit length, never less than its digit count. *)
Definition FormatUint (n : Z) : string := format_uint_go (S (Z.to_nat (Z.log2 n))) n "".

Definition Itoa (n : Z) : string :=
  if n <? 0 then String "-" (FormatUint (- n)) else FormatUint n.

Lemma format_uint_go_spec (fuel : nat) (n : Z) (acc : string) :
  0 <= n < 2 ^ Z.of_nat fuel -> (0 < fuel)%nat ->
  exists d, format_uint_go fuel n acc = d +:+ acc /\
    all_digits d = true /\ d <> "" /\ dec_value d = n /\
    (n <> 0 -> forall r, d <> String "0" r) /\ (n = 0 -> d = "0") /\
    (forall k, 1 <= k -> n < 10 ^ k -> Z.of_nat (String.length d) <= k).
Proof.
  revert n acc. induction fuel as [|fuel IH]; intros n acc Hn Hf; [lia|]. clear Hf.
  cbn [format_uint_go].
  pose proof (Z.mod_pos_bound n 10 ltac:(lia)) as Hm.
  pose proof (Z.div_mod n 10 ltac:(lia)) as Hdm.
  destruct (digit_char_spec (n mod 10)) as [Hdig Hval]; [lia|].
  destruct (Z.ltb_spec n 10) as [Hlt|Hge].
  - exists (String (digit_char (n mod 10)) ""). rewrite (Z.mod_small n) in * by lia.
    split_and!; [done| |done| | | |].
    + unfold all_digits. cbn. by rewrite Hdig.
    + unfold dec_value. cbn [dec_acc]. lia.
    + intros Hne r [= H0 _]. apply Hne. rewrite <- Hval, H0. reflexivity.
    + intros ->. reflexivity.
    + cbn. lia.
  - rewrite Nat2Z.inj_succ, Z.pow_succ_r in Hn by lia.
    destruct (IH (n / 10) (String (digit_char (n mod 10)) acc))
      as (d & -> & Hd & Hd0 & Hv & Hz & _ & Hlen).
    { split; [apply Z.div_pos; lia|]. apply Z.div_lt_upper_bound; lia. }
    { destruct fuel; [|lia]. cbn in Hn. lia. }
    exists (d +:+ String (digit_char (n mod 10)) "").
    split_and!.
    + by rewrite str_app_assoc.
    + unfold all_digits in *. rewrite str_forallb_app, Hd. cbn. by rewrite Hdig.
    + by destruct d.
    + rewrite dec_value_app, Hv. cbn [String.length].
      change (10 ^ Z.of_nat 1) with 10. unfold dec_value. cbn [dec_acc]. lia.
    + intros Hne r Heq. destruct d as [|c d]; [done|]. injection Heq as -> Heq.
      apply (Hz ltac:(lia) d). done.
    + lia.
    + intros k Hk Hnk. rewrite str_length_app. cbn [String.length].
      assert (Hk2 : 2 <= k).
      { destruct (Z.eq_dec k 1) as [->|]; [cbn in Hnk; lia|lia]. }
      assert (Z.of_nat (String.length d) <= k - 1); [|lia].
      apply Hlen; [lia|]. apply Z.div_lt_upper_bound; [lia|].
      rewrite <- Z.pow_succ_r by lia. by replace (Z.succ (k - 1)) with k by lia.
Qed.

Lemma FormatUint_spec (n : Z) : 0 <= n ->
  all_digits (FormatUint n) = true /\ FormatUint n <> "" /\
  dec_value (FormatUint n) = n /\
  (forall k, 1 <= k -> n < 10 ^ k -> Z.of_nat (String.length (FormatUint n)) <= k).
Proof.
  intros Hn. unfold FormatUint.
  destruct (format_uint_go_spec (S (Z.to_nat (Z.log2 n))) n "")
    as (d & -> & ? & ? & ? & _ & _ & ?); [|lia|rewrite str_app_nil_r; auto].
  rewrite Nat2Z.inj_succ, Z2Nat.id by apply Z.log2_nonneg.
  destruct (Z.eq_dec n 0) as [->|]; [cbn; lia|].
  pose proof (Z.log2_spec n ltac:(lia)). lia.
Qed.

(** Printing then parsing is the identity on the representable range. *)
Lemma ParseUint_FormatUint (n bits : Z) :
  0 < bits <= 64 -> 0 <= n <= 2 ^ bits - 1 -> ParseUint (FormatUint n) bits = Ok n.
Proof.
  intros Hb Hn. destruct (FormatUint_spec n) as (? & ? & ? & _); [lia|].
  apply ParseUint_ok; [done|]. naive_solver lia.
Qed.

Lemma FormatUint_inj (m n : Z) : 0 <= m -> 0 <= n -> FormatUint m = FormatUint n -> m = n.
Proof.
  intros Hm Hn H. destruct (FormatUint_spec m) as (_ & _ & <- & _); [done|].
  rewrite H. by destruct (FormatUint_spec n) as (_ & _ & -> & _).
Qed.

Lemma Itoa_inj (m n : Z) : Itoa m = Itoa n -> m = n.
Proof.
  unfold Itoa. assert (Hs : forall k, 0 <= k -> forall r, FormatUint k <> String "-" r).
  { intros k Hk r Hr. destruct (FormatUint_spec k Hk) as (Hd & _). rewrite Hr in Hd. done. }
  destruct (Z.ltb_spec m 0), (Z.ltb_spec n 0); cbn; intros Heq.
  - injection Heq as Heq%FormatUint_inj; lia.
  - symmetry in Heq. by apply Hs in Heq.
  - by apply Hs in Heq.
  - apply FormatUint_inj in Heq; lia.
Qed.

(** ** Package strings *)

(** The width in bytes of the Unicode white space a string starts with, 0 for
    none: the ASCII spaces, U+0085, U+00A0, U+1680, U+2000 to U+200A, U+2028,
    U+2029, U+202F, U+205F and U+3000. *)
Definition ascii_space (c : ascii) : bool :=
  in_range 9 13 c || (byte_val c =? 32).
Definition space2 (a b : ascii) : bool :=
  (byte_val a =? 194) && ((byte_val b =? 133) || (byte_val b =? 160)).
Definition space3 (a b c : ascii) : bool :=
  let '(x, y, z) := (byte_val a, byte_val b, byte_val c) in
  ((x =? 225) && (y =? 154) && (z =? 128)) ||
  ((x =? 226) && (y =? 128) && (in_range 128 138 c || (z =? 168) || (z =? 169) || (z =? 175))) ||
  ((x =? 226) && (y =? 129) && (z =? 159)) ||
  ((x =? 227) && (y =? 128) && (z =? 128)).

Fixpoint trim_left_space (s : string) : string :=
  match s with
  | EmptyString => s
  | String a r1 =>
      if ascii_space a then trim_left_space r1
      else match r1 with
           | EmptyString => s
           | String b r2 =>
               if space2 a b then trim_left_space r2
               else match r2 with
                    | EmptyString => s
                    | String c r3 => if space3 a b c then trim_left_space r3 else s
                    end
           end
  end.

Fixpoint str_rev_acc (s acc : string) : string :=
  match s with EmptyString => acc | String c s' => str_rev_acc s' (String c acc) end.
Definition str_rev (s : string) : string := str_rev_acc s "".

(** [TrimRightFunc] works backwards: the same scan on the reversed bytes. *)
Fixpoint trim_left_space_rev (s : string) : string :=
  match s with
  | EmptyString => s
  | String a r1 =>
      if ascii_space a then trim_left_space_rev r1
      else match r1 with
           | EmptyString => s
           | String b r2 =>
               if space2 b a then trim_left_space_rev r2
               else match r2 with
                    | EmptyString => s
                    | String c r3 => if space3 c b a then trim_left_space_rev r3 else s
                    end
           end
  end.

Definition TrimSpace (s : string) : string :=
  str_rev (trim_left_space_rev (str_rev (trim_left_space s))).

(** [strings.TrimLeft] and [TrimRight] with a one-character cutset. *)
Definition TrimLeft (s : string) (c : ascii) : string := (str_span (Ascii.eqb c) s).2.
Definition TrimRight (s : string) (c : ascii) : string :=
  str_rev (str_span (Ascii.eqb c) (str_rev s)).2.

(** [strings.IndexByte] and [IndexAny], [None] for -1. *)
Fixpoint index_pred (p : ascii -> bool) (s : string) : option nat :=
  match s with
  | EmptyString => None
  | String a s' => if p a then Some O else S <$> index_pred p s'
  end.
Definition IndexByte (s : string) (c : ascii) : option nat := index_pred (Ascii.eqb c) s.

Lemma index_pred_app (p : ascii -> bool) (a b : string) :
  str_forallb (fun c => negb (p c)) a = true ->
  index_pred p (a +:+ b) = Nat.add (String.length a) <$> index_pred p b.
Proof.
  induction a as [|c a IH]; cbn; [by destruct (index_pred p b)|].
  intros [Hc Ha]%andb_true_iff. apply negb_true_iff in Hc. rewrite Hc, IH by done.
  by destruct (index_pred p b).
Qed.

Lemma str_rev_acc_app (s acc : string) : str_rev_acc s acc = str_rev s +:+ acc.
Proof.
  unfold str_rev. revert acc. induction s as [|c s IH]; intros acc; cbn; [done|].
  by rewrite IH, (IH (String c "")), str_app_assoc.
Qed.

Lemma str_rev_cons (c : ascii) (s : string) : str_rev (String c s) = str_rev s +:+ String c "".
Proof. unfold str_rev at 1. cbn. by rewrite str_rev_acc_app. Qed.

Lemma str_rev_app (s t : string) : str_rev (s +:+ t) = str_rev t +:+ str_rev s.
Proof.
  induction s as [|c s IH]; cbn [String.append].
  - by rewrite str_app_nil_r.
  - by rewrite !str_rev_cons, IH, str_app_assoc.
Qed.

Lemma str_rev_involutive (s : string) : str_rev (str_rev s) = s.
Proof. induction s as [|c s IH]; [done|]. by rewrite str_rev_cons, str_rev_app, IH. Qed.

(** No white space starts at this byte. *)
Definition plain_byte (c : ascii) : bool := negb (ascii_space c) && (byte_val c <? 128).

Lemma trim_left_space_plain (c : ascii) (s : string) :
  plain_byte c = true -> trim_left_space (String c s) = String c s.
Proof.
  unfold plain_byte. intros [Hc Hv]%andb_true_iff. cbn [trim_left_space].
  apply negb_true_iff in Hc. rewrite Hc. apply Z.ltb_lt in Hv.
  destruct s as [|b s]; [done|].
  replace (space2 c b) with false by (symmetry; unfold space2; bools; lia).
  destruct s as [|d s]; [done|].
  by replace (space3 c b d) with false by (symmetry; unfold space3; bools; lia).
Qed.

Lemma trim_left_space_rev_plain (c : ascii) (s : string) :
  plain_byte c = true -> trim_left_space_rev (String c s) = String c s.
Proof.
  unfold plain_byte. intros [Hc Hv]%andb_true_iff. cbn [trim_left_space_rev].
  apply negb_true_iff in Hc. rewrite Hc. apply Z.ltb_lt in Hv.
  destruct s as [|b s]; [done|].
  replace (space2 b c) with false by (symmetry; unfold space2; bools; lia).
  destruct s as [|d s]; [done|].
  by replace (space3 d b c) with false by (symmetry; unfold space3, in_range; bools; lia).
Qed.

(** A string that starts and ends with plain bytes is its own trimming. *)
Lemma TrimSpace_plain (c d : ascii) (s t : string) :
  String c s = t +:+ String d "" -> plain_byte c = true -> plain_byte d = true ->
  TrimSpace (String c s) = String c s.
Proof.
  intros Heq Hc Hd. unfold TrimSpace. rewrite trim_left_space_plain by done.
  rewrite Heq, str_rev_app. cbn [str_rev str_rev_acc].
  rewrite str_app_cons, str_app_nil_l, trim_left_space_rev_plain by done.
  by rewrite str_rev_cons, str_rev_involutive.
Qed.

(** What is trimmed neither starts nor ends with ASCII white space. *)
Lemma trim_left_space_head (s : string) : str_stops ascii_space (trim_left_space s) = true.
Proof.
  induction s as [s IH] using str_length_ind. destruct s as [|a r]; [done|]. cbn [trim_left_space].
  destruct (ascii_space a) eqn:Ha; [apply IH; cbn; lia|].
  repeat case_match; try (apply IH; cbn; lia); cbn; by rewrite Ha.
Qed.

Lemma trim_left_space_rev_suffix (s : string) :
  (exists p, s = p +:+ trim_left_space_rev s) /\ str_stops ascii_space (trim_left_space_rev s) = true.
Proof.
  induction s as [s IH] using str_length_ind.
  assert (Hc : forall p r, p <> "" -> s = p +:+ r -> trim_left_space_rev s = trim_left_space_rev r ->
    (exists q, s = q +:+ trim_left_space_rev s) /\ str_stops ascii_space (trim_left_space_rev s) = true).
  { intros p r Hp Hs ->. destruct (IH r) as [[q Hq] Hst].
    { rewrite Hs, str_length_app. destruct p; [done|cbn; lia]. }
    split; [|done]. exists (p +:+ q). by rewrite str_app_assoc, <- Hq. }
  destruct s as [|a r]; [split; [by exists ""|done]|].
  destruct (ascii_space a) eqn:Ha.
  { apply (Hc (String a "") r); [done..|]. cbn [trim_left_space_rev]. by rewrite Ha. }
  assert (Hself : trim_left_space_rev (String a r) = String a r ->
    (exists q, String a r = q +:+ trim_left_space_rev (String a r)) /\
    str_stops ascii_space (trim_left_space_rev (String a r)) = true).
  { intros ->. split; [by exists ""|cbn; by rewrite Ha]. }
  destruct r as [|b r]; [apply Hself; cbn [trim_left_space_rev]; by rewrite Ha|].
  destruct (space2 b a) eqn:H2.
  { apply (Hc (String a (String b "")) r); [done..|]. cbn [trim_left_space_rev]. by rewrite Ha, H2. }
  destruct r as [|c r]; [apply Hself; cbn [trim_left_space_rev]; by rewrite Ha, H2|].
  destruct (space3 c b a) eqn:H3.
  { apply (Hc (String a (String b (String c ""))) r); [done..|]. cbn [trim_left_space_rev]. by rewrite Ha, H2, H3. }
  apply Hself. cbn [trim_left_space_rev]. by rewrite Ha, H2, H3.
Qed.

Lemma TrimSpace_ends (s : string) :
  str_stops ascii_space (TrimSpace s) = true /\ str_stops ascii_space (str_rev (TrimSpace s)) = true.
Proof.
  unfold TrimSpace. rewrite str_rev_involutive.
  destruct (trim_left_space_rev_suffix (str_rev (trim_left_space s))) as [[p Hp] Hst]. split; [|done].
  pose proof (trim_left_space_head s) as Hh.
  assert (Ht : trim_left_space s = str_rev (trim_left_space_rev (str_rev (trim_left_space s))) +:+ str_rev p).
  { rewrite <- str_rev_app, <- Hp. by rewrite str_rev_involutive. }
  rewrite Ht in Hh. by destruct (str_rev (trim_left_space_rev _)).
Qed.
