(* ===== verification/Stream.v ===== *)
(** * Stream: identities, names and records shared by every component

    Models [internal/stream/stream.go]: plain data, the supported column
    types, and generations. *)

From S2P Require Import Prelude Strconv.
Local Open Scope Z_scope.

(** ** Column types *)

(** [stream.PGType] is a string type; the eleven constants are its known
    values and everything else is a type Postie does not support. *)
Definition PGType : Type := string.
Definition PGInt2 : PGType := "int2".
Definition PGInt4 : PGType := "int4".
Definition PGInt8 : PGType := "int8".
Definition PGFloat4 : PGType := "float4".
Definition PGFloat8 : PGType := "float8".
Definition PGBool : PGType := "bool".
Definition PGJSON : PGType := "json".
Definition PGBytea : PGType := "bytea".
Definition PGTimestamp : PGType := "timestamp".
Definition PGTimestamptz : PGType := "timestamptz".
Definition PGText : PGType := "text".

(** Go's [a == b] on strings. *)
Definition str_eqb (a b : string) : bool := bool_decide (a = b).

(** [slices.Contains] on strings. *)
Definition str_mem (x : string) (l : list string) : bool := bool_decide (x ∈ l).

Definition Supported (t : PGType) : bool :=
  str_mem t [PGInt2; PGInt4; PGInt8; PGFloat4; PGFloat8; PGBool; PGJSON; PGBytea;
    PGTimestamp; PGTimestamptz; PGText].

Definition Integer (t : PGType) : bool :=
  str_eqb t PGInt2 || str_eqb t PGInt4 || str_eqb t PGInt8.

(** ** Data *)
Record Column : Type := mkColumn { Name : string; Type_ : PGType }.

Record Identity : Type := mkIdentity {
  Table : string;
  SerialColumn : string;
  PartitioningColumn : string;
  EventIDColumn : string;
  Partitions : Z;                       (* int32 *)
  Columns : list Column }.

Record Names : Type := mkNames {
  TopicPrefix : string; Topic : string; Connector : string; Slot : string; Publication : string }.

(** [stream.Generation] is an [int]; zero is invalid. *)
Definition Generation : Type := Z.
Definition Valid (g : Generation) : bool := 1 <=? g.
Definition GenString (g : Generation) : string := Itoa g.

Record Scope : Type := mkScope {
  Namespace : string; Environment : string; ScopeGeneration : Generation }.

(** A topic UUID is its sixteen bytes. *)
Record Registration : Type := mkRegistration {
  RegSourceID : string;
  RegIdentity : Identity;
  RegNames : Names;
  TopicID : list Z;
  Blocked : string }.

Record Source : Type := mkSource {
  ID : string;
  Description : string;
  SrcTable : string;
  SrcColumns : list string;
  SrcSerialColumn : string;
  SrcPartitioningColumn : string }.

Record Record_ : Type := mkRecord {
  RecSource : Source;
  Payload : string;
  RecTopic : string;
  RecPartition : Z;                     (* int32 *)
  RecOffset : Z;                        (* int64 *)
  EventID : string;
  AggregateID : string;
  EventName : string;
  RecGeneration : Generation;
  Replay : bool }.

Record RawRecord : Type := mkRawRecord {
  RawTopic : string;
  RawPartition : Z;                     (* int32 *)
  RawOffset : Z;                        (* int64 *)
  LeaderEpoch : Z;                      (* int32 *)
  Key : string;
  Value : string;
  Historical : bool }.

(** The zero values of the two structs a lookup can miss. *)
Definition zeroIdentity : Identity := mkIdentity "" "" "" "" 0 [].
Definition zeroNames : Names := mkNames "" "" "" "" "".
Definition zeroRegistration : Registration :=
  mkRegistration "" zeroIdentity zeroNames (replicate 16 0) "".

#[export] Instance Column_eq_dec : EqDecision Column.
Proof. solve_decision. Defined.
#[export] Instance Identity_eq_dec : EqDecision Identity.
Proof. solve_decision. Defined.
#[export] Instance Names_eq_dec : EqDecision Names.
Proof. solve_decision. Defined.
#[export] Instance Scope_eq_dec : EqDecision Scope.
Proof. solve_decision. Defined.
#[export] Instance Registration_eq_dec : EqDecision Registration.
Proof. solve_decision. Defined.
#[export] Instance Source_eq_dec : EqDecision Source.
Proof. solve_decision. Defined.
#[export] Instance Record_eq_dec : EqDecision Record_.
Proof. solve_decision. Defined.

#[export] Instance RawRecord_eq_dec : EqDecision RawRecord.
Proof. solve_decision. Defined.

(** Scopes key the tables of the control store. *)
#[export] Program Instance Scope_countable : Countable Scope :=
  inj_countable' (fun s => (Namespace s, Environment s, ScopeGeneration s))
    (fun '(n, e, g) => mkScope n e g) _.
Next Obligation. by intros []. Qed.

(** ** Lemmas *)
Lemma str_eqb_true (a b : string) : str_eqb a b = true <-> a = b.
Proof. unfold str_eqb. by rewrite bool_decide_eq_true. Qed.

Lemma str_eqb_false (a b : string) : str_eqb a b = false <-> a <> b.
Proof. unfold str_eqb. by rewrite bool_decide_eq_false. Qed.

Lemma str_mem_true (x : string) (l : list string) : str_mem x l = true <-> x ∈ l.
Proof. unfold str_mem. by rewrite bool_decide_eq_true. Qed.

Lemma str_mem_false (x : string) (l : list string) : str_mem x l = false <-> x ∉ l.
Proof. unfold str_mem. by rewrite bool_decide_eq_false. Qed.

Lemma Integer_Supported (t : PGType) : Integer t = true -> Supported t = true.
Proof.
  unfold Integer. rewrite !orb_true_iff, !str_eqb_true. intros [[->| ->]| ->]; reflexivity.
Qed.

#[export] Hint Rewrite str_eqb_true str_eqb_false str_mem_true str_mem_false : bool_props.
