(* ===== verification/Json.v ===== *)
(** * Json: the text grammar of [encoding/json]

    The concrete syntax the Go scanner accepts, as a lossless tree: printing a
    parsed tree gives back the very bytes, white space included, so a
    [json.RawMessage] is the printing of a subtree.  [parse] is the scanner
    ([json.Valid], [checkValid]); [parse_iff] says it accepts exactly the
    well-formed texts of nesting at most 10000, which is also the proof that
    its fuel is always enough.  Standard-library semantics, not mapped. *)

From S2P Require Import Prelude Strconv.
Local Open Scope Z_scope.

Definition dquote : ascii := "034".
Definition is_ws (c : ascii) : bool :=
  let v := byte_val c in (v =? 32) || (v =? 9) || (v =? 13) || (v =? 10).

(** ** Numbers *)
Record number : Type := Number {
  num_neg : bool;
  num_int : string;
  num_frac : option string;                       (* digits after the point *)
  num_exp : option (ascii * string * string);     (* e or E, sign, digits *)
}.

Definition digits1 (s : string) : bool := negb (bool_decide (s = "")) && all_digits s.

Definition wf_int (s : string) : bool :=
  bool_decide (s = "0") ||
  (digits1 s && match s with String c _ => negb (Ascii.eqb c "0") | _ => false end).
Definition wf_exp (e : ascii * string * string) : bool :=
  let '(l, sg, d) := e in
  (Ascii.eqb l "e" || Ascii.eqb l "E") &&
  (bool_decide (sg = "") || bool_decide (sg = "+") || bool_decide (sg = "-")) && digits1 d.
Definition wf_number (n : number) : bool :=
  wf_int (num_int n) && match num_frac n with None => true | Some f => digits1 f end
  && match num_exp n with None => true | Some e => wf_exp e end.

Definition print_frac (f : option string) : string :=
  match f with None => "" | Some d => String "." d end.
Definition print_exp (e : option (ascii * string * string)) : string :=
  match e with None => "" | Some (l, sg, d) => String l (sg +:+ d) end.
Definition print_number (n : number) : string :=
  (if num_neg n then "-" else "") +:+ num_int n +:+ print_frac (num_frac n) +:+ print_exp (num_exp n).

Definition scan_sign (s : string) : bool * string :=
  match s with String "-" r => (true, r) | _ => (false, s) end.

Definition scan_int (s : string) : option (string * string) :=
  match s with
  | String c r =>
      if Ascii.eqb c "0" then Some ("0", r)
      else if is_digit c then let '(ds, r') := str_span is_digit r in Some (String c ds, r')
      else None
  | EmptyString => None
  end.

(** One or more digits. *)
Definition scan_digits1 (s : string) : option (string * string) :=
  let '(ds, r) := str_span is_digit s in
  if bool_decide (ds = "") then None else Some (ds, r).

Definition scan_frac (s : string) : option (option string * string) :=
  match s with
  | String "." r => '(ds, r') ← scan_digits1 r; Some (Some ds, r')
  | _ => Some (None, s)
  end.

Definition scan_exp_sign (s : string) : string * string :=
  match s with
  | String "+" r => ("+", r)
  | String "-" r => ("-", r)
  | _ => ("", s)
  end.

Definition scan_exp (s : string) : option (option (ascii * string * string) * string) :=
  match s with
  | String c r =>
      if Ascii.eqb c "e" || Ascii.eqb c "E" then
        let '(sg, r1) := scan_exp_sign r in
        '(ds, r2) ← scan_digits1 r1; Some (Some (c, sg, ds), r2)
      else Some (None, s)
  | EmptyString => Some (None, s)
  end.

Definition scan_number (s : string) : option (number * string) :=
  let '(neg, s1) := scan_sign s in
  '(i, s2) ← scan_int s1;
  '(f, s3) ← scan_frac s2;
  '(e, s4) ← scan_exp s3;
  Some (Number neg i f e, s4).

(** The text after a number does not continue it. *)
Definition num_char (c : ascii) : bool :=
  is_digit c || Ascii.eqb c "." || Ascii.eqb c "e" || Ascii.eqb c "E".
Definition num_stops (s : string) : bool := str_stops num_char s.

Lemma digits1_spec (s : string) : digits1 s = true <-> s <> "" /\ all_digits s = true.
Proof. unfold digits1. bools. tauto. Qed.

Lemma scan_digits1_sound (s ds r : string) :
  scan_digits1 s = Some (ds, r) -> s = ds +:+ r /\ digits1 ds = true /\ str_stops is_digit r = true.
Proof.
  unfold scan_digits1. destruct (str_span_spec is_digit s) as (Hs & Hd & Hr).
  destruct (str_span is_digit s) as [a b]; cbn in *.
  case_bool_decide; [done|]. intros [= <- <-]. rewrite digits1_spec. auto.
Qed.

Lemma scan_digits1_app (ds r : string) :
  digits1 ds = true -> str_stops is_digit r = true -> scan_digits1 (ds +:+ r) = Some (ds, r).
Proof.
  intros [Hne Hd]%digits1_spec Hr. unfold scan_digits1. rewrite str_span_app by done.
  by rewrite bool_decide_eq_false_2.
Qed.

Lemma scan_sign_sound (s r : string) (neg : bool) :
  scan_sign s = (neg, r) -> s = (if neg then "-" else "") +:+ r.
Proof. destruct s as [|c s]; cbn; [by intros [= <- <-]|]. repeat case_match; naive_solver. Qed.

Lemma scan_int_sound (s i r : string) :
  scan_int s = Some (i, r) -> s = i +:+ r /\ wf_int i = true.
Proof.
  destruct s as [|c s]; cbn; [done|].
  destruct (Ascii.eqb_spec c "0") as [->|Hc]; [intros [= <- <-]; done|].
  destruct (is_digit c) eqn:Hd; [|done].
  destruct (str_span_spec is_digit s) as (Hs & Hall & _).
  destruct (str_span is_digit s) as [a b]; cbn in *. intros [= <- <-].
  split; [by rewrite str_app_cons, <- Hs|].
  unfold wf_int, digits1, all_digits. cbn. rewrite Hd, Hall.
  destruct (Ascii.eqb_spec c "0"); [done|]. by rewrite orb_true_r.
Qed.

Lemma scan_frac_sound (s r : string) (f : option string) :
  scan_frac s = Some (f, r) ->
  s = print_frac f +:+ r /\ match f with None => true | Some d => digits1 d end = true.
Proof.
  destruct s as [|c s]; [intros [= <- <-]; done|].
  destruct (decide (c = "."%char)) as [->|Hc].
  - cbn. intros ([ds r'] & Hs & [= <- <-])%bind_Some.
    apply scan_digits1_sound in Hs as (-> & ? & _). auto.
  - intros H. assert (Hf : scan_frac (String c s) = Some (None, String c s)).
    { unfold scan_frac. repeat case_match; congruence. }
    rewrite Hf in H. injection H as <- <-. done.
Qed.

Lemma scan_exp_sound (s r : string) (e : option (ascii * string * string)) :
  scan_exp s = Some (e, r) ->
  s = print_exp e +:+ r /\ match e with None => true | Some x => wf_exp x end = true.
Proof.
  destruct s as [|c s]; cbn; [intros [= <- <-]; done|].
  destruct (Ascii.eqb c "e" || Ascii.eqb c "E") eqn:Hc; [|by intros [= <- <-]].
  assert (Hsg : exists sg r1, scan_exp_sign s = (sg, r1) /\ s = sg +:+ r1 /\
     (bool_decide (sg = "") || bool_decide (sg = "+") || bool_decide (sg = "-")) = true).
  { destruct s as [|x s]; cbn; [by exists "", ""|].
    repeat case_match; subst; eauto 6. }
  destruct Hsg as (sg & r1 & -> & -> & Hok).
  intros ([ds r2] & Hs & [= <- <-])%bind_Some.
  apply scan_digits1_sound in Hs as (-> & Hd & _). cbn.
  rewrite str_app_assoc. split; [done|]. by rewrite Hc, Hok, Hd.
Qed.

Lemma scan_number_sound (s r : string) (n : number) :
  scan_number s = Some (n, r) -> s = print_number n +:+ r /\ wf_number n = true.
Proof.
  unfold scan_number. destruct (scan_sign s) as [neg s1] eqn:Hsign.
  apply scan_sign_sound in Hsign.
  intros ([i s2] & Hi & ([f s3] & Hf & ([e s4] & He & [= <- <-])%bind_Some)%bind_Some)%bind_Some.
  apply scan_int_sound in Hi as [-> Hi]. apply scan_frac_sound in Hf as [-> Hf].
  apply scan_exp_sound in He as [-> He].
  unfold print_number, wf_number; cbn. rewrite Hi, Hf, He, Hsign.
  split; [by rewrite !str_app_assoc|done].
Qed.

Lemma str_stops_weaken (p q : ascii -> bool) (s : string) :
  (forall c, p c = true -> q c = true) -> str_stops q s = true -> str_stops p s = true.
Proof.
  intros Hpq. destruct s as [|c s]; cbn; [done|]. rewrite !negb_true_iff.
  intros Hq. destruct (p c) eqn:Hp; [|done]. by rewrite (Hpq c Hp) in Hq.
Qed.

Lemma num_stops_digit (s : string) : num_stops s = true -> str_stops is_digit s = true.
Proof. apply str_stops_weaken. intros c Hc. unfold num_char. by rewrite Hc. Qed.

Lemma scan_sign_print (neg : bool) (s : string) :
  (forall r, s <> String "-" r) -> scan_sign ((if neg then "-" else "") +:+ s) = (neg, s).
Proof.
  intros Hs. destruct neg; [done|]. cbn. destruct s as [|c s]; [done|].
  destruct (decide (c = "-"%char)) as [->|Hc]; [by destruct (Hs s)|].
  cbn. repeat case_match; congruence.
Qed.

Lemma scan_int_print (i r : string) :
  wf_int i = true -> str_stops is_digit r = true -> scan_int (i +:+ r) = Some (i, r).
Proof.
  unfold wf_int. intros Hi Hr. bools. destruct Hi as [->|[Hd Hz]]; [done|].
  apply digits1_spec in Hd as [Hne Hd]. destruct i as [|c i]; [done|].
  unfold all_digits in Hd. cbn in Hd. apply andb_true_iff in Hd as [Hc Hd].
  cbn. apply negb_true_iff in Hz. rewrite Hz, Hc, str_span_app by done. done.
Qed.

Lemma stops_frac (f : option string) (r : string) :
  str_stops is_digit r = true -> str_stops is_digit (print_frac f +:+ r) = true.
Proof. by destruct f. Qed.

Lemma stops_exp (e : option (ascii * string * string)) (r : string) :
  match e with None => true | Some x => wf_exp x end = true ->
  str_stops is_digit r = true -> str_stops is_digit (print_exp e +:+ r) = true.
Proof.
  destruct e as [[[l sg] d]|]; cbn; [|done]. intros [[Hl _]%andb_true_iff _]%andb_true_iff _.
  apply orb_true_iff in Hl as [->%Ascii.eqb_eq| ->%Ascii.eqb_eq]; done.
Qed.

Lemma scan_frac_print (f : option string) (r : string) :
  match f with None => true | Some d => digits1 d end = true ->
  str_stops is_digit r = true -> str_stops (Ascii.eqb ".") r = true ->
  scan_frac (print_frac f +:+ r) = Some (f, r).
Proof.
  intros Hf Hr Hp. destruct f as [d|]; cbn.
  - by rewrite scan_digits1_app.
  - destruct r as [|c r]; [done|]. unfold str_stops in Hp. apply negb_true_iff, Ascii.eqb_neq in Hp.
    unfold scan_frac. repeat case_match; congruence.
Qed.

Lemma scan_exp_print (e : option (ascii * string * string)) (r : string) :
  match e with None => true | Some x => wf_exp x end = true -> num_stops r = true ->
  scan_exp (print_exp e +:+ r) = Some (e, r).
Proof.
  intros He Hr. destruct e as [[[l sg] d]|]; cbn.
  - cbn in He. apply andb_true_iff in He as [He Hd]. apply andb_true_iff in He as [Hl Hsg].
    rewrite Hl, str_app_assoc.
    assert (Hs : scan_exp_sign (sg +:+ d +:+ r) = (sg, d +:+ r)).
    { bools. destruct Hsg as [[->| ->]| ->]; [|done|done].
      apply digits1_spec in Hd as [Hne Hd]. destruct d as [|c d]; [done|].
      unfold all_digits in Hd. cbn in Hd |- *. apply andb_true_iff in Hd as [Hc _].
      repeat case_match; try done; subst; discriminate Hc. }
    rewrite Hs. by rewrite scan_digits1_app by (done || by apply num_stops_digit).
  - destruct r as [|c r]; [done|]. unfold num_stops, str_stops, num_char in Hr. bools.
    destruct Hr as [[[_ _] H1] H2]. cbn. by rewrite H1, H2.
Qed.

Lemma scan_number_print (n : number) (r : string) :
  wf_number n = true -> num_stops r = true ->
  scan_number (print_number n +:+ r) = Some (n, r).
Proof.
  destruct n as [neg i f e]. unfold wf_number, print_number. cbn.
  intros [[Hi Hf]%andb_true_iff He]%andb_true_iff Hr.
  assert (Hd : str_stops is_digit (print_exp e +:+ r) = true)
    by (apply stops_exp; [done|by apply num_stops_digit]).
  unfold scan_number. rewrite !str_app_assoc, scan_sign_print.
  2:{ intros x Hx. destruct i as [|c i]; [done|]. injection Hx as -> _.
      unfold wf_int in Hi. bools. destruct Hi as [?|[[_ Hd']%digits1_spec _]]; done. }
  rewrite scan_int_print by (done || by apply stops_frac). cbn.
  rewrite scan_frac_print; [|done|done|].
  - cbn. by rewrite scan_exp_print.
  - destruct e as [[[l sg] d]|]; cbn.
    + cbn in He. bools. destruct He as [[[->%Ascii.eqb_eq| ->%Ascii.eqb_eq] _] _]; done.
    + destruct r as [|c r]; [done|]. unfold num_stops, str_stops, num_char in *. bools.
      destruct Hr as [[[_ H] _] _]. by rewrite Ascii.eqb_sym.
Qed.

(** ** String bodies: the raw text between the quotes *)
Definition is_hex (c : ascii) : bool :=
  is_digit c || in_range 97 102 c || in_range 65 70 c.
(** The escape letters other than [u]. *)
Definition is_simple_escape (c : ascii) : bool :=
  Ascii.eqb c "b" || Ascii.eqb c "f" || Ascii.eqb c "n" || Ascii.eqb c "r" ||
  Ascii.eqb c "t" || Ascii.eqb c "\" || Ascii.eqb c "/" || Ascii.eqb c dquote.

(** Reads to the closing quote; the body is returned as written. *)
Fixpoint scan_string (s : string) : option (string * string) :=
  match s with
  | EmptyString => None
  | String c r =>
      if Ascii.eqb c dquote then Some ("", r)
      else if Ascii.eqb c "\" then
        match r with
        | EmptyString => None
        | String e r1 =>
            if is_simple_escape e then
              '(b, q) ← scan_string r1; Some (String c (String e b), q)
            else if Ascii.eqb e "u" then
              match r1 with
              | String h1 (String h2 (String h3 (String h4 r2))) =>
                  if is_hex h1 && is_hex h2 && is_hex h3 && is_hex h4 then
                    '(b, q) ← scan_string r2;
                    Some (String c (String e (String h1 (String h2 (String h3 (String h4 b))))), q)
                  else None
              | _ => None
              end
            else None
        end
      else if byte_val c <? 32 then None
      else '(b, q) ← scan_string r; Some (String c b, q)
  end.

Definition wf_body (b : string) : bool :=
  bool_decide (scan_string (b +:+ String dquote "") = Some (b, "")).

Ltac scan_cases :=
  repeat match goal with
  | H : None = Some _ |- _ => discriminate H
  | H : Some _ = Some _ |- _ => injection H as H
  | H : (_ ≫= _) = Some _ |- _ => apply bind_Some in H as ([? ?] & ? & H)
  | H : (if ?b then _ else _) = Some _ |- _ => destruct b eqn:?
  | H : match ?s with EmptyString => _ | String _ _ => _ end = Some _ |- _ => destruct s
  end.

Lemma scan_string_sound (s b r : string) :
  scan_string s = Some (b, r) ->
  s = b +:+ String dquote r /\ forall t, scan_string (b +:+ String dquote t) = Some (b, t).
Proof.
  revert b r. induction s as [s IH] using str_length_ind. intros b r H.
  destruct s as [|c s]; [done|]. cbn in H.
  destruct (Ascii.eqb_spec c dquote) as [->|Hq]; [by injection H as <- <-|].
  apply Ascii.eqb_neq in Hq.
  destruct (Ascii.eqb c "\") eqn:Hb.
  - destruct s as [|e s]; [done|]. destruct (is_simple_escape e) eqn:He.
    + scan_cases. apply IH in H0 as [-> Hr]; [|cbn; lia]. subst. split; [done|].
      intros t. cbn. by rewrite Hq, Hb, He, Hr.
    + destruct (Ascii.eqb e "u") eqn:Hu; [|done].
      destruct s as [|h1 [|h2 [|h3 [|h4 s]]]]; try done.
      destruct (is_hex h1 && is_hex h2 && is_hex h3 && is_hex h4) eqn:Hh; [|done].
      scan_cases. apply IH in H0 as [-> Hr]; [|cbn; lia]. subst. split; [done|].
      intros t. cbn. by rewrite Hq, Hb, He, Hu, Hh, Hr.
  - destruct (byte_val c <? 32) eqn:Hc; [done|]. scan_cases.
    apply IH in H0 as [-> Hr]; [|cbn; lia]. subst. split; [done|].
    intros t. cbn. by rewrite Hq, Hb, Hc, Hr.
Qed.

Lemma scan_string_wf (s b r : string) :
  scan_string s = Some (b, r) -> s = b +:+ String dquote r /\ wf_body b = true.
Proof. intros [-> H]%scan_string_sound. split; [done|]. by apply bool_decide_eq_true, H. Qed.

Lemma scan_string_print (b r : string) :
  wf_body b = true -> scan_string (b +:+ String dquote r) = Some (b, r).
Proof. intros H%bool_decide_eq_true. by apply scan_string_sound in H as [_ H]. Qed.

(** ** Values *)

(** An array element or object member with the white space around it:
    [pre value post], and [pre "key" mid : gap value post]. *)
Record elem (A : Type) : Type := Elem { e_pre : string; e_val : A; e_post : string }.
Arguments Elem {A}. Arguments e_pre {A}. Arguments e_val {A}. Arguments e_post {A}.
Record member (A : Type) : Type := Member {
  m_pre : string; m_key : string; m_mid : string; m_gap : string; m_val : A; m_post : string }.
Arguments Member {A}. Arguments m_pre {A}. Arguments m_key {A}. Arguments m_mid {A}.
Arguments m_gap {A}. Arguments m_val {A}. Arguments m_post {A}.

(** The [ws] of an array or object is the white space of an empty one. *)
#[local] Unset Elimination Schemes.
Inductive cst : Type :=
| CNull
| CBool (b : bool)
| CNum (n : number)
| CStr (body : string)
| CArr (ws : string) (es : list (elem cst))
| CObj (ws : string) (ms : list (member cst)).
#[local] Set Elimination Schemes.

Section CstInd.
Variable P : cst -> Prop.
Hypothesis Hnull : P CNull.
Hypothesis Hbool : forall b, P (CBool b).
Hypothesis Hnum : forall n, P (CNum n).
Hypothesis Hstr : forall b, P (CStr b).
Hypothesis Harr : forall ws es, Forall (fun e => P (e_val e)) es -> P (CArr ws es).
Hypothesis Hobj : forall ws ms, Forall (fun m => P (m_val m)) ms -> P (CObj ws ms).

Fixpoint cst_ind (c : cst) : P c :=
  match c with
  | CNull => Hnull
  | CBool b => Hbool b
  | CNum n => Hnum n
  | CStr b => Hstr b
  | CArr ws es =>
      Harr ws es ((fix go (l : list (elem cst)) : Forall (fun e => P (e_val e)) l :=
        match l with
        | [] => Forall_nil_2 _
        | e :: l => Forall_cons_2 _ e l (cst_ind (e_val e)) (go l)
        end) es)
  | CObj ws ms =>
      Hobj ws ms ((fix go (l : list (member cst)) : Forall (fun m => P (m_val m)) l :=
        match l with
        | [] => Forall_nil_2 _
        | m :: l => Forall_cons_2 _ m l (cst_ind (m_val m)) (go l)
        end) ms)
  end.
End CstInd.

Definition qstr (body : string) : string := String dquote (body +:+ String dquote "").

(** Comma-separated. *)
Fixpoint commas (l : list string) : string :=
  match l with
  | [] => ""
  | [s] => s
  | s :: l => s +:+ String "," (commas l)
  end.

Fixpoint print (c : cst) : string :=
  match c with
  | CNull => "null"
  | CBool true => "true"
  | CBool false => "false"
  | CNum n => print_number n
  | CStr b => qstr b
  | CArr ws es =>
      String "[" (ws +:+ commas (map (fun e => e_pre e +:+ print (e_val e) +:+ e_post e) es)
        +:+ "]")
  | CObj ws ms =>
      String "{" (ws +:+ commas (map (fun m =>
        m_pre m +:+ qstr (m_key m) +:+ m_mid m +:+ String ":" (m_gap m +:+ print (m_val m)
          +:+ m_post m)) ms) +:+ "}")
  end.

Definition print_elem (e : elem cst) : string := e_pre e +:+ print (e_val e) +:+ e_post e.
Definition print_member (m : member cst) : string :=
  m_pre m +:+ qstr (m_key m) +:+ m_mid m +:+ String ":" (m_gap m +:+ print (m_val m) +:+ m_post m).

(** [maxNestingDepth]. *)
Definition max_depth : N := 10000.

Definition all_ws (s : string) : bool := str_forallb is_ws s.
#[global] Arguments all_ws : simpl never.
#[global] Arguments wf_body : simpl never.

Fixpoint wf (d : N) (c : cst) : bool :=
  match c with
  | CNull | CBool _ => true
  | CNum n => wf_number n
  | CStr b => wf_body b
  | CArr ws es =>
      (d <? max_depth)%N && all_ws ws && (bool_decide (es = []) || bool_decide (ws = "")) &&
      forallb (fun e => all_ws (e_pre e) && all_ws (e_post e) && wf (d + 1) (e_val e)) es
  | CObj ws ms =>
      (d <? max_depth)%N && all_ws ws && (bool_decide (ms = []) || bool_decide (ws = "")) &&
      forallb (fun m => all_ws (m_pre m) && wf_body (m_key m) && all_ws (m_mid m) &&
        all_ws (m_gap m) && all_ws (m_post m) && wf (d + 1) (m_val m)) ms
  end.

(** [pre "key" mid : gap], up to the value of a member. *)
Definition scan_key (s : string) : option (string * string * string * string * string) :=
  let '(pre, s1) := str_span is_ws s in
  s2 ← strip_prefix (String dquote "") s1;
  '(key, s3) ← scan_string s2;
  let '(mid, s4) := str_span is_ws s3 in
  s5 ← strip_prefix ":" s4;
  let '(gap, s6) := str_span is_ws s5 in
  Some (pre, key, mid, gap, s6).

(** [parse_value n d s] reads one value at nesting [d]; every container level
    and every element costs one unit of [n]. *)
Fixpoint parse_value (n : nat) (d : N) (s : string) {struct n} : option (cst * string) :=
  match n with
  | O => None
  | S n =>
    match s with
    | EmptyString => None
    | String c r =>
      if Ascii.eqb c "[" then
        if (d <? max_depth)%N then
          let '(ws, r1) := str_span is_ws r in
          match strip_prefix "]" r1 with
          | Some r2 => Some (CArr ws [], r2)
          | None => '(es, r2) ← parse_elems n (d + 1) r; Some (CArr "" es, r2)
          end
        else None
      else if Ascii.eqb c "{" then
        if (d <? max_depth)%N then
          let '(ws, r1) := str_span is_ws r in
          match strip_prefix "}" r1 with
          | Some r2 => Some (CObj ws [], r2)
          | None => '(ms, r2) ← parse_members n (d + 1) r; Some (CObj "" ms, r2)
          end
        else None
      else if Ascii.eqb c dquote then '(b, r1) ← scan_string r; Some (CStr b, r1)
      else match strip_prefix "null" s with
      | Some r1 => Some (CNull, r1)
      | None => match strip_prefix "true" s with
        | Some r1 => Some (CBool true, r1)
        | None => match strip_prefix "false" s with
          | Some r1 => Some (CBool false, r1)
          | None => '(x, r1) ← scan_number s; Some (CNum x, r1)
          end
        end
      end
    end
  end
with parse_elems (n : nat) (d : N) (s : string) {struct n} : option (list (elem cst) * string) :=
  match n with
  | O => None
  | S n =>
    let '(pre, s1) := str_span is_ws s in
    '(v, s2) ← parse_value n d s1;
    let '(post, s3) := str_span is_ws s2 in
    match s3 with
    | String c s4 =>
        if Ascii.eqb c "," then '(es, r) ← parse_elems n d s4; Some (Elem pre v post :: es, r)
        else if Ascii.eqb c "]" then Some ([Elem pre v post], s4)
        else None
    | EmptyString => None
    end
  end
with parse_members (n : nat) (d : N) (s : string) {struct n} : option (list (member cst) * string) :=
  match n with
  | O => None
  | S n =>
    '(pre, key, mid, gap, s6) ← scan_key s;
    '(v, s7) ← parse_value n d s6;
    let '(post, s8) := str_span is_ws s7 in
    match s8 with
    | String c s9 =>
        if Ascii.eqb c "," then
          '(ms, r) ← parse_members n d s9; Some (Member pre key mid gap v post :: ms, r)
        else if Ascii.eqb c "}" then Some ([Member pre key mid gap v post], s9)
        else None
    | EmptyString => None
    end
  end.

(** A whole text: one value surrounded by white space. *)
Definition parse (s : string) : option (string * cst * string) :=
  let '(ws1, s1) := str_span is_ws s in
  '(v, s2) ← parse_value (S (2 * String.length s1)) 0 s1;
  let '(ws2, s3) := str_span is_ws s2 in
  if bool_decide (s3 = "") then Some (ws1, v, ws2) else None.

Definition Valid (s : string) : bool := bool_decide (is_Some (parse s)).

Example parse_array : Valid " [1, -2.5e+3, null, [ ], [true,false]] " = true.
Proof. vm_compute. reflexivity. Qed.

(** ** Soundness: what is parsed is well formed and prints to what was read *)
Lemma span_ws (s a b : string) :
  str_span is_ws s = (a, b) -> s = a +:+ b /\ all_ws a = true /\ str_stops is_ws b = true.
Proof. intros H. pose proof (str_span_spec is_ws s) as Hs. by rewrite H in Hs. Qed.

Lemma print_arr_nil (ws : string) : print (CArr ws []) = String "[" (ws +:+ "]").
Proof. done. Qed.
Lemma print_arr (es : list (elem cst)) :
  print (CArr "" es) = String "[" (commas (map print_elem es) +:+ "]").
Proof. done. Qed.
Lemma print_obj (ms : list (member cst)) :
  print (CObj "" ms) = String "{" (commas (map print_member ms) +:+ "}").
Proof. done. Qed.

Definition wf_elem (d : N) (e : elem cst) : bool :=
  all_ws (e_pre e) && all_ws (e_post e) && wf d (e_val e).
Definition wf_member (d : N) (m : member cst) : bool :=
  all_ws (m_pre m) && wf_body (m_key m) && all_ws (m_mid m) &&
  all_ws (m_gap m) && all_ws (m_post m) && wf d (m_val m).

Lemma commas_cons (s : string) (l : list string) (r : string) :
  l <> [] -> commas (s :: l) +:+ r = s +:+ String "," (commas l +:+ r).
Proof. destruct l; [done|]. intros _. cbn [commas]. by rewrite str_app_assoc. Qed.

Definition value_sound (n : nat) : Prop := forall d s c r,
  parse_value n d s = Some (c, r) -> s = print c +:+ r /\ wf d c = true.
Definition elems_sound (n : nat) : Prop := forall d s es r,
  parse_elems n d s = Some (es, r) ->
  es <> [] /\ s = commas (map print_elem es) +:+ String "]" r /\ forallb (wf_elem d) es = true.
Definition members_sound (n : nat) : Prop := forall d s ms r,
  parse_members n d s = Some (ms, r) ->
  ms <> [] /\ s = commas (map print_member ms) +:+ String "}" r /\ forallb (wf_member d) ms = true.

Lemma value_sound_step (n : nat) : elems_sound n -> members_sound n -> value_sound (S n).
Proof.
  intros He Hm d s c r H. destruct s as [|a s]; [done|]. cbn [parse_value] in H.
  destruct (Ascii.eqb_spec a "[") as [->|_].
  { destruct (d <? max_depth)%N eqn:Hd; [|done].
    destruct (str_span is_ws s) as [ws r1] eqn:Hw. apply span_ws in Hw as (Hs & Hws & _).
    destruct (strip_prefix "]" r1) as [r2|] eqn:Hp.
    - injection H as <- <-. apply strip_prefix_Some in Hp as ->. subst s.
      rewrite print_arr_nil. split; [by str_norm|]. cbn. by rewrite Hd, Hws.
    - apply bind_Some in H as ([es r2] & H & [= <- <-]). apply He in H as (Hne & -> & Hwf).
      rewrite print_arr. split; [by str_norm|]. cbn. rewrite Hd, orb_true_r. exact Hwf. }
  destruct (Ascii.eqb_spec a "{") as [->|_].
  { destruct (d <? max_depth)%N eqn:Hd; [|done].
    destruct (str_span is_ws s) as [ws r1] eqn:Hw. apply span_ws in Hw as (Hs & Hws & _).
    destruct (strip_prefix "}" r1) as [r2|] eqn:Hp.
    - injection H as <- <-. apply strip_prefix_Some in Hp as ->. subst s.
      cbn. split; [by str_norm|]. by rewrite Hd, Hws.
    - apply bind_Some in H as ([ms r2] & H & [= <- <-]). apply Hm in H as (Hne & -> & Hwf).
      rewrite print_obj. split; [by str_norm|]. cbn. rewrite Hd, orb_true_r. exact Hwf. }
  destruct (Ascii.eqb_spec a dquote) as [->|_].
  { apply bind_Some in H as ([b r1] & H & [= <- <-]). apply scan_string_wf in H as [-> Hb].
    split; [cbn; by str_norm|done]. }
  destruct (strip_prefix "null" _) as [r1|] eqn:Hp.
  { injection H as <- <-. by apply strip_prefix_Some in Hp as ->. }
  clear Hp. destruct (strip_prefix "true" _) as [r1|] eqn:Hp.
  { injection H as <- <-. by apply strip_prefix_Some in Hp as ->. }
  clear Hp. destruct (strip_prefix "false" _) as [r1|] eqn:Hp.
  { injection H as <- <-. by apply strip_prefix_Some in Hp as ->. }
  apply bind_Some in H as ([x r1] & H & [= <- <-]). by apply scan_number_sound in H.
Qed.

Lemma elems_sound_step (n : nat) : value_sound n -> elems_sound n -> elems_sound (S n).
Proof.
  intros Hv He d s es r H. cbn [parse_elems] in H.
  destruct (str_span is_ws s) as [pre s1] eqn:Hw. apply span_ws in Hw as (-> & Hpre & _).
  apply bind_Some in H as ([v s2] & Hval & H). apply Hv in Hval as [-> Hwf].
  destruct (str_span is_ws s2) as [post s3] eqn:Hw. apply span_ws in Hw as (-> & Hpost & _).
  destruct s3 as [|c s4]; [done|].
  destruct (Ascii.eqb_spec c ",") as [->|_].
  - apply bind_Some in H as ([es' r'] & H & [= <- <-]). apply He in H as (Hne & -> & Hall).
    split; [done|]. split.
    + cbn [map]. rewrite commas_cons by (by destruct es'). unfold print_elem at 1. cbn. by str_norm.
    + cbn. unfold wf_elem at 1. cbn. by rewrite Hpre, Hpost, Hwf.
  - destruct (Ascii.eqb_spec c "]") as [->|_]; [|done]. injection H as <- <-.
    split; [done|]. split; [cbn; unfold print_elem; cbn; by str_norm|].
    cbn. unfold wf_elem. cbn. by rewrite Hpre, Hpost, Hwf.
Qed.

Lemma scan_key_sound (s pre key mid gap r : string) :
  scan_key s = Some (pre, key, mid, gap, r) ->
  s = pre +:+ qstr key +:+ mid +:+ String ":" (gap +:+ r) /\
  all_ws pre = true /\ wf_body key = true /\ all_ws mid = true /\ all_ws gap = true.
Proof.
  unfold scan_key, qstr.
  destruct (str_span is_ws s) as [pre' s1] eqn:Hw. apply span_ws in Hw as (-> & Hpre & _).
  intros (s2 & Hq & ([key' s3] & Hk & H)%bind_Some)%bind_Some.
  apply strip_prefix_Some in Hq as ->. apply scan_string_wf in Hk as [-> Hkey].
  destruct (str_span is_ws s3) as [mid' s4] eqn:Hw. apply span_ws in Hw as (-> & Hmid & _).
  apply bind_Some in H as (s5 & Hc & H). apply strip_prefix_Some in Hc as ->.
  destruct (str_span is_ws s5) as [gap' s6] eqn:Hw. apply span_ws in Hw as (-> & Hgap & _).
  injection H as <- <- <- <- <-. split; [by str_norm|done].
Qed.

Lemma members_sound_step (n : nat) : value_sound n -> members_sound n -> members_sound (S n).
Proof.
  intros Hv Hm d s ms r H. cbn [parse_members] in H.
  apply bind_Some in H as ([[[[pre key] mid] gap] s6] & Hk & H).
  apply scan_key_sound in Hk as (-> & Hpre & Hkey & Hmid & Hgap).
  apply bind_Some in H as ([v s7] & Hval & H). apply Hv in Hval as [-> Hwf].
  destruct (str_span is_ws s7) as [post s8] eqn:Hw. apply span_ws in Hw as (-> & Hpost & _).
  destruct s8 as [|c s9]; [done|].
  destruct (Ascii.eqb_spec c ",") as [->|_].
  - apply bind_Some in H as ([ms' r'] & H & [= <- <-]). apply Hm in H as (Hne & -> & Hall).
    split; [done|]. split.
    + cbn [map]. rewrite commas_cons by (by destruct ms').
      unfold print_member at 1, qstr. cbn. by str_norm.
    + cbn. unfold wf_member at 1. cbn. by rewrite Hpre, Hkey, Hmid, Hgap, Hpost, Hwf.
  - destruct (Ascii.eqb_spec c "}") as [->|_]; [|done]. injection H as <- <-.
    split; [done|]. split; [cbn; unfold print_member, qstr; cbn; by str_norm|].
    cbn. unfold wf_member. cbn. by rewrite Hpre, Hkey, Hmid, Hgap, Hpost, Hwf.
Qed.

Lemma parser_sound (n : nat) : value_sound n /\ elems_sound n /\ members_sound n.
Proof.
  induction n as [|n (Hv & He & Hm)]; [by split_and!; intros ?|].
  split_and!; [by apply value_sound_step|by apply elems_sound_step|by apply members_sound_step].
Qed.

(** ** Completeness: a well-formed text is parsed back to its tree *)
Definition opening (c : ascii) : bool :=
  Ascii.eqb c "[" || Ascii.eqb c "{" || Ascii.eqb c dquote || Ascii.eqb c "n" ||
  Ascii.eqb c "t" || Ascii.eqb c "f" || Ascii.eqb c "-" || is_digit c.

Lemma wf_number_head (n : number) : wf_number n = true ->
  exists c t, print_number n = String c t /\ (c = "-"%char \/ is_digit c = true).
Proof.
  destruct n as [neg i f e]. unfold wf_number, print_number, wf_int. cbn. intros H. bools.
  destruct neg; [eauto|]. destruct H as [[[->|[Hd _]] _] _]; [by eexists _, _; split; [|right]|].
  apply digits1_spec in Hd as [Hne Hd]. destruct i as [|c i]; [done|].
  unfold all_digits in Hd. cbn in Hd. apply andb_true_iff in Hd as [Hc _].
  eexists _, _. split; [done|]. auto.
Qed.

Lemma print_head (d : N) (c : cst) : wf d c = true ->
  exists a t, print c = String a t /\ opening a = true.
Proof.
  intros H. destruct c; cbn in *; try (eexists _, _; split; [reflexivity|reflexivity]).
  - destruct b; by eexists _, _.
  - apply wf_number_head in H as (a & t & -> & Ha). eexists _, _. split; [done|].
    unfold opening. destruct Ha as [->|Ha]; [done|]. by rewrite Ha, orb_true_r.
Qed.

Lemma ws_not_opening (c : ascii) : opening c = true -> is_ws c = false.
Proof.
  unfold opening, is_ws. intros H. destruct (is_digit c) eqn:Hd.
  - apply is_digit_spec in Hd. unfold digit_val in Hd. clear H. cbv zeta.
    rewrite !orb_false_iff, !Z.eqb_neq. lia.
  - rewrite !orb_true_iff in H. destruct_or! H;
      [apply Ascii.eqb_eq in H as ->; reflexivity..|done].
Qed.

Lemma ws_num_stops (w r : string) :
  all_ws w = true -> str_stops is_ws r = true -> num_stops r = true -> num_stops (w +:+ r) = true.
Proof.
  destruct w as [|c w]; [done|]. unfold all_ws, num_stops. cbn. intros [Hc _]%andb_true_iff _ _.
  unfold is_ws in Hc. unfold num_char, is_digit, in_range. apply negb_true_iff.
  rewrite !orb_false_iff, !Ascii.eqb_neq.
  assert (Hv : byte_val c = 32 \/ byte_val c = 9 \/ byte_val c = 13 \/ byte_val c = 10)
    by (cbv zeta in Hc; rewrite !orb_true_iff, !Z.eqb_eq in Hc; tauto).
  split_and!; [rewrite andb_false_iff, !Z.leb_gt; lia|intros ->; vm_compute in Hv; naive_solver..].
Qed.

Lemma opening_stops (d : N) (c : cst) (r : string) :
  wf d c = true -> str_stops is_ws (print c +:+ r) = true.
Proof. intros (a & t & -> & Ha)%print_head. cbn. by rewrite (ws_not_opening a Ha). Qed.

Lemma opening_not (d : N) (c : cst) (r : string) (x : ascii) :
  wf d c = true -> opening x = false -> strip_prefix (String x "") (print c +:+ r) = None.
Proof.
  intros (a & t & -> & Ha)%print_head Hx. cbn.
  destruct (Ascii.eqb_spec x a) as [->|]; [congruence|done].
Qed.

Lemma span_ws_app (w r : string) :
  all_ws w = true -> str_stops is_ws r = true -> str_span is_ws (w +:+ r) = (w, r).
Proof. apply str_span_app. Qed.

Definition len (s : string) : nat := String.length s.

Definition value_complete (c : cst) : Prop := forall n d r,
  wf d c = true -> num_stops r = true -> (2 * len (print c) < n)%nat ->
  parse_value n d (print c +:+ r) = Some (c, r).

Lemma len_cons (x y : string) (l : list string) :
  len (commas (x :: y :: l)) = (len x + S (len (commas (y :: l))))%nat.
Proof. unfold len. cbn [commas]. by rewrite str_length_app. Qed.

(** A printed value followed by white space and a delimiter is read back. *)
Lemma value_then (c : cst) (post rest : string) (n : nat) (d : N) :
  value_complete c -> wf d c = true -> all_ws post = true ->
  num_stops rest = true -> str_stops is_ws rest = true -> (2 * len (print c) < n)%nat ->
  parse_value n d (print c +:+ post +:+ rest) = Some (c, post +:+ rest) /\
  str_span is_ws (post +:+ rest) = (post, rest).
Proof. intros Hv Hwf Hp Hr1 Hr2 Hn. split; [apply Hv; auto using ws_num_stops|by apply span_ws_app]. Qed.

Lemma elems_complete (es : list (elem cst)) :
  Forall (fun e => value_complete (e_val e)) es -> es <> [] ->
  forall n d r, forallb (wf_elem d) es = true ->
  (2 * len (commas (map print_elem es)) + 1 < n)%nat ->
  parse_elems n d (commas (map print_elem es) +:+ String "]" r) = Some (es, r).
Proof.
  intros HP. induction HP as [|[pre v post] es Hv HP IH]; [done|].
  intros _ n d r Hwf Hn. destruct n as [|n]; [lia|]. cbn [parse_elems].
  cbn [forallb] in Hwf. apply andb_true_iff in Hwf as [Hwf Hall].
  unfold wf_elem in Hwf. cbn in Hwf, Hv. rewrite !andb_true_iff in Hwf.
  destruct Hwf as ((Hpre & Hpost) & Hwv).
  assert (Hlen : (len (print v) <= len (print_elem (Elem pre v post)))%nat)
    by (unfold print_elem, len; cbn; rewrite !str_length_app; lia).
  destruct es as [|e2 es]; cbn [map] in *.
  - cbn [commas] in *. destruct (value_then v post (String "]" r) n d) as [H1 H2]; [done..|lia|].
    unfold print_elem. cbn [e_pre e_val e_post].
    rewrite !str_app_assoc, span_ws_app by (done || by eapply opening_stops).
    rewrite H1. cbn [mbind option_bind]. by rewrite H2.
  - rewrite len_cons in Hn. rewrite commas_cons by done.
    destruct (value_then v post (String "," (commas (map print_elem (e2 :: es)) +:+ String "]" r)) n d)
      as [H1 H2]; [done..|lia|].
    unfold print_elem at 1. cbn [e_pre e_val e_post map] in *.
    rewrite !str_app_assoc, span_ws_app by (done || by eapply opening_stops).
    rewrite H1. cbn [mbind option_bind]. rewrite H2. cbn [Ascii.eqb Bool.eqb].
    rewrite IH; [done..|lia].
Qed.

Lemma scan_key_print (d : N) (c : cst) (pre key mid gap r : string) :
  all_ws pre = true -> wf_body key = true -> all_ws mid = true -> all_ws gap = true ->
  wf d c = true ->
  scan_key (pre +:+ qstr key +:+ mid +:+ String ":" (gap +:+ print c +:+ r)) =
    Some (pre, key, mid, gap, print c +:+ r).
Proof.
  intros Hpre Hkey Hmid Hgap Hwf. unfold scan_key, qstr. rewrite span_ws_app by done.
  rewrite str_app_cons. cbn [strip_prefix]. rewrite Ascii.eqb_refl. cbn [mbind option_bind].
  rewrite str_app_assoc, str_app_cons, str_app_nil_l, scan_string_print by done.
  cbn [mbind option_bind]. rewrite span_ws_app by done. cbn [strip_prefix].
  rewrite Ascii.eqb_refl. cbn [mbind option_bind].
  by rewrite span_ws_app by (done || by eapply opening_stops).
Qed.

Lemma members_complete (ms : list (member cst)) :
  Forall (fun m => value_complete (m_val m)) ms -> ms <> [] ->
  forall n d r, forallb (wf_member d) ms = true ->
  (2 * len (commas (map print_member ms)) + 1 < n)%nat ->
  parse_members n d (commas (map print_member ms) +:+ String "}" r) = Some (ms, r).
Proof.
  intros HP. induction HP as [|[pre key mid gap v post] ms Hv HP IH]; [done|].
  intros _ n d r Hwf Hn. destruct n as [|n]; [lia|]. cbn [parse_members].
  cbn [forallb] in Hwf. apply andb_true_iff in Hwf as [Hwf Hall].
  unfold wf_member in Hwf. cbn in Hwf, Hv. rewrite !andb_true_iff in Hwf.
  destruct Hwf as (((((Hpre & Hkey) & Hmid) & Hgap) & Hpost) & Hwv).
  assert (Hlen : (len (print v) <= len (print_member (Member pre key mid gap v post)))%nat).
  { unfold print_member, qstr, len. cbn [m_pre m_key m_mid m_gap m_val m_post].
    repeat (rewrite !str_length_app || cbn [String.length]). lia. }
  assert (Hp : forall rest, print_member (Member pre key mid gap v post) +:+ rest =
    pre +:+ qstr key +:+ mid +:+ String ":" (gap +:+ print v +:+ post +:+ rest))
    by (intros rest; unfold print_member; cbn [m_pre m_key m_mid m_gap m_val m_post]; by str_norm).
  destruct ms as [|m2 ms]; cbn [map] in *.
  - cbn [commas] in *. destruct (value_then v post (String "}" r) n d) as [H1 H2]; [done..|lia|].
    rewrite Hp, (scan_key_print d) by done. cbn [mbind option_bind].
    rewrite H1. cbn [mbind option_bind]. by rewrite H2.
  - rewrite len_cons in Hn. rewrite commas_cons by done.
    destruct (value_then v post (String "," (commas (map print_member (m2 :: ms)) +:+ String "}" r)) n d)
      as [H1 H2]; [done..|lia|].
    cbn [map] in *. rewrite Hp, (scan_key_print d) by done. cbn [mbind option_bind].
    rewrite H1. cbn [mbind option_bind]. rewrite H2. cbn [Ascii.eqb Bool.eqb].
    rewrite IH; [done..|lia].
Qed.

Lemma strip_null_other (a : ascii) (s : string) (p : string) (x : ascii) :
  a <> x -> strip_prefix (String x p) (String a s) = None.
Proof. intros Hne. cbn. destruct (Ascii.eqb_spec x a); [congruence|done]. Qed.

Lemma parse_value_num (n : nat) (d : N) (x : number) (r : string) :
  wf_number x = true -> num_stops r = true ->
  parse_value (S n) d (print_number x +:+ r) = Some (CNum x, r).
Proof.
  intros Hx Hr. pose proof (scan_number_print x r Hx Hr) as Hs.
  destruct (wf_number_head x Hx) as (a & t & Hp & Ha). rewrite Hp in *. cbn [parse_value String.append] in *.
  assert (Hne : forall y, opening y = true -> is_digit y = false -> y <> "-"%char -> a <> y)
    by (intros y _ Hy Hm ->; destruct Ha; congruence).
  repeat match goal with
  | |- context [Ascii.eqb a ?y] =>
      rewrite (proj2 (Ascii.eqb_neq a y)) by (apply Hne; done)
  end.
  rewrite !strip_null_other by (apply Hne; done). by rewrite Hs.
Qed.

(** The container case: the first byte inside is not the closing bracket, so
    the reader goes to the element or member loop. *)
Lemma arr_complete (es : list (elem cst)) :
  Forall (fun e => value_complete (e_val e)) es -> es <> [] -> value_complete (CArr "" es).
Proof.
  intros IH Hes n d r Hwf Hr Hn. destruct n as [|n]; [lia|].
  cbn [wf] in Hwf. rewrite !andb_true_iff in Hwf. destruct Hwf as (((Hd & _) & _) & Hall).
  rewrite print_arr in *. rewrite str_app_cons, str_app_assoc, str_app_cons, str_app_nil_l.
  cbn [parse_value Ascii.eqb Bool.eqb]. rewrite Hd.
  unfold len in Hn. cbn [String.length] in Hn. rewrite str_length_app in Hn. cbn in Hn.
  assert (He : parse_elems n (d + 1) (commas (map print_elem es) +:+ String "]" r) = Some (es, r))
    by (apply elems_complete; [done..|unfold len; lia]).
  destruct es as [|[pre v post] es]; [done|].
  destruct (str_span is_ws _) as [w r1] eqn:Hw.
  assert (Hp : strip_prefix "]" r1 = None); [|by rewrite Hp, He].
  cbn [forallb] in Hall. rewrite !andb_true_iff in Hall.
  destruct Hall as (((Hpre & Hpost) & Hv) & _). cbn in Hpre, Hpost, Hv.
  assert (Hgo : exists y, commas (map print_elem (Elem pre v post :: es)) +:+ String "]" r =
    pre +:+ print v +:+ y).
  { destruct es as [|e es]; cbn [map]; [cbn [commas]|rewrite commas_cons by done];
      unfold print_elem at 1; cbn [e_pre e_val e_post]; eexists; by rewrite !str_app_assoc. }
  destruct Hgo as (y & Hy). rewrite Hy, span_ws_app in Hw by (done || by eapply opening_stops).
  injection Hw as <- <-. by eapply opening_not.
Qed.

Lemma obj_complete (ms : list (member cst)) :
  Forall (fun m => value_complete (m_val m)) ms -> ms <> [] -> value_complete (CObj "" ms).
Proof.
  intros IH Hms n d r Hwf Hr Hn. destruct n as [|n]; [lia|].
  cbn [wf] in Hwf. rewrite !andb_true_iff in Hwf. destruct Hwf as (((Hd & _) & _) & Hall).
  rewrite print_obj in *. rewrite str_app_cons, str_app_assoc, str_app_cons, str_app_nil_l.
  cbn [parse_value Ascii.eqb Bool.eqb]. rewrite Hd.
  unfold len in Hn. cbn [String.length] in Hn. rewrite str_length_app in Hn. cbn in Hn.
  assert (He : parse_members n (d + 1) (commas (map print_member ms) +:+ String "}" r) = Some (ms, r))
    by (apply members_complete; [done..|unfold len; lia]).
  destruct (str_span is_ws _) as [w r1] eqn:Hw.
  assert (Hp : strip_prefix "}" r1 = None); [|by rewrite Hp, He].
  destruct n as [|n]; [done|]. cbn [parse_members] in He.
  apply bind_Some in He as ([[[[pre key] mid] gap] s6] & Hk & _).
  apply scan_key_sound in Hk as (Hk & Hpre & _). rewrite Hk in Hw.
  unfold qstr in Hw. rewrite !str_app_cons, span_ws_app in Hw by done. by injection Hw as <- <-.
Qed.

Lemma value_complete_all (c : cst) : value_complete c.
Proof.
  induction c as [|b|x|b|ws es IH|ws ms IH] using cst_ind.
  1-4: intros n d r Hwf Hr Hn; (destruct n as [|n]; [lia|]).
  - done.
  - by destruct b.
  - by apply parse_value_num.
  - unfold print, qstr. rewrite str_app_cons. cbn [parse_value].
    rewrite str_app_assoc, str_app_cons, str_app_nil_l. by rewrite scan_string_print.
  - destruct (decide (es = [])) as [->|Hes]; intros n d r Hwf Hr Hn.
    + destruct n as [|n]; [lia|]. cbn [wf] in Hwf. rewrite !andb_true_iff in Hwf.
      destruct Hwf as (((Hd & Hws) & _) & _). rewrite print_arr_nil, str_app_cons.
      cbn [parse_value Ascii.eqb Bool.eqb]. by rewrite Hd, str_app_assoc, span_ws_app.
    + assert (ws = "") as ->; [|by apply arr_complete].
      cbn [wf] in Hwf. bools. tauto.
  - destruct (decide (ms = [])) as [->|Hms]; intros n d r Hwf Hr Hn.
    + destruct n as [|n]; [lia|]. cbn [wf] in Hwf. rewrite !andb_true_iff in Hwf.
      destruct Hwf as (((Hd & Hws) & _) & _). cbn [print map commas].
      rewrite str_app_cons, str_app_nil_l. cbn [parse_value Ascii.eqb Bool.eqb].
      by rewrite Hd, str_app_assoc, span_ws_app.
    + assert (ws = "") as ->; [|by apply obj_complete].
      cbn [wf] in Hwf. bools. tauto.
Qed.

(** The scanner accepts exactly white space, a well-formed value, white space;
    in particular its fuel never runs out. *)
Lemma parse_iff (s ws1 ws2 : string) (c : cst) :
  parse s = Some (ws1, c, ws2) <->
  s = ws1 +:+ print c +:+ ws2 /\ all_ws ws1 = true /\ all_ws ws2 = true /\ wf 0 c = true.
Proof.
  unfold parse. split.
  - destruct (str_span is_ws s) as [w1 s1] eqn:Hw. apply span_ws in Hw as (-> & Hw1 & _).
    intros ([v s2] & Hv & H)%bind_Some. apply parser_sound in Hv as [-> Hwf].
    destruct (str_span is_ws s2) as [w2 s3] eqn:Hw. apply span_ws in Hw as (-> & Hw2 & _).
    case_bool_decide; [|done]. injection H as <- <- <-. subst. by rewrite str_app_nil_r.
  - intros (-> & Hw1 & Hw2 & Hwf).
    rewrite span_ws_app by (done || by eapply opening_stops).
    rewrite value_complete_all; [|done| |].
    + cbn. rewrite <- (str_app_nil_r ws2), span_ws_app by done. by rewrite str_app_nil_r.
    + rewrite <- (str_app_nil_r ws2). by apply ws_num_stops.
    + unfold len. rewrite str_length_app. lia.
Qed.

Lemma parse_print (c : cst) : wf 0 c = true -> parse (print c) = Some ("", c, "").
Proof. intros H. apply parse_iff. by rewrite str_app_nil_r. Qed.

Lemma Valid_iff (s : string) :
  Valid s = true <-> exists ws1 c ws2,
    s = ws1 +:+ print c +:+ ws2 /\ all_ws ws1 = true /\ all_ws ws2 = true /\ wf 0 c = true.
Proof.
  unfold Valid. rewrite bool_decide_eq_true. split.
  - intros [[[ws1 c] ws2] H%parse_iff]. eauto.
  - intros (ws1 & c & ws2 & H%parse_iff). eauto.
Qed.

(** A well-formed value nested anywhere is well formed at the top. *)
Lemma wf_mono (c : cst) (d d' : N) : (d' <= d)%N -> wf d c = true -> wf d' c = true.
Proof.
  revert d d'. induction c as [|b|x|b|ws es IH|ws ms IH] using cst_ind; intros d d' Hle Hwf;
    try exact Hwf; cbn [wf] in *; rewrite !andb_true_iff in *; destruct Hwf as (((Hd & Hws) & Hne) & Hall);
    (split; [split; [split; [|done]|done]|]);
    [apply N.ltb_lt in Hd; apply N.ltb_lt; lia| |apply N.ltb_lt in Hd; apply N.ltb_lt; lia|].
  all: rewrite forallb_forall in *; intros x Hx; specialize (Hall x Hx);
    rewrite !andb_true_iff in *; rewrite Forall_forall in IH;
    apply list_elem_of_In in Hx; destruct_and!; split_and!; try done;
    eapply (IH x Hx); [|eassumption]; lia.
Qed.
