(* ===== verification/JsonCodec.v ===== *)
(** * JsonCodec: decoding and encoding over the JSON grammar

    [json.Unmarshal] into the targets the program uses (a raw-message map, a
    string, a string pointer, [map[string]any], a struct with optional string
    fields), [json.Compact], and [json.Marshal] of strings, raw messages and
    raw-message maps, following [encoding/json]: last duplicate key wins,
    struct fields match case-insensitively, invalid UTF-8 becomes U+FFFD, HTML
    characters are escaped on output.  Standard-library semantics, not mapped. *)

From stdpp Require Import sorting.
From S2P Require Import Prelude Strconv Json.
Local Open Scope Z_scope.

(** ** UTF-8 *)
Definition rune_error : Z := 65533.
Definition cont (c : ascii) : bool := in_range 128 191 c.

(** [utf8.DecodeRune]: the rune and its width; an invalid first byte is
    [RuneError] of width 1. *)
Definition decode_rune (s : string) : Z * nat :=
  let bad := (rune_error, 1%nat) in
  match s with
  | EmptyString => (rune_error, 0%nat)
  | String a r =>
    let x := byte_val a in
    if x <? 128 then (x, 1%nat)
    else if in_range 194 223 a then
      match r with
      | String b _ => if cont b then ((x - 192) * 64 + (byte_val b - 128), 2%nat) else bad
      | _ => bad
      end
    else if in_range 224 239 a then
      match r with
      | String b (String c _) =>
          let lo := if x =? 224 then 160 else 128 in
          let hi := if x =? 237 then 159 else 191 in
          if in_range lo hi b && cont c then
            ((x - 224) * 4096 + (byte_val b - 128) * 64 + (byte_val c - 128), 3%nat)
          else bad
      | _ => bad
      end
    else if in_range 240 244 a then
      match r with
      | String b (String c (String d _)) =>
          let lo := if x =? 240 then 144 else 128 in
          let hi := if x =? 244 then 143 else 191 in
          if in_range lo hi b && cont c && cont d then
            ((x - 240) * 262144 + (byte_val b - 128) * 4096 + (byte_val c - 128) * 64
              + (byte_val d - 128), 4%nat)
          else bad
      | _ => bad
      end
    else bad
  end.

Definition is_surrogate (r : Z) : bool := (55296 <=? r) && (r <? 57344).

(** [utf8.EncodeRune]; a surrogate or an out-of-range value encodes U+FFFD. *)
Definition encode_rune (r : Z) : string :=
  let r := if (r <? 0) || (1114111 <? r) || is_surrogate r then rune_error else r in
  if r <? 128 then String (byte_of r) ""
  else if r <? 2048 then
    String (byte_of (192 + r / 64)) (String (byte_of (128 + r mod 64)) "")
  else if r <? 65536 then
    String (byte_of (224 + r / 4096)) (String (byte_of (128 + r / 64 mod 64))
      (String (byte_of (128 + r mod 64)) ""))
  else
    String (byte_of (240 + r / 262144)) (String (byte_of (128 + r / 4096 mod 64))
      (String (byte_of (128 + r / 64 mod 64)) (String (byte_of (128 + r mod 64)) ""))).

(** ** Unquoting a string body *)
Definition hex_val (c : ascii) : Z :=
  if is_digit c then byte_val c - 48
  else if in_range 97 102 c then byte_val c - 87 else byte_val c - 55.

(** [getu4]: the value of a leading \uXXXX. *)
Definition getu4 (s : string) : option Z :=
  match s with
  | String b (String u (String h1 (String h2 (String h3 (String h4 _))))) =>
      if Ascii.eqb b "\" && Ascii.eqb u "u" && is_hex h1 && is_hex h2 && is_hex h3 && is_hex h4
      then Some (((hex_val h1 * 16 + hex_val h2) * 16 + hex_val h3) * 16 + hex_val h4)
      else None
  | _ => None
  end.

Definition simple_escape_value (e : ascii) : option ascii :=
  if Ascii.eqb e dquote || Ascii.eqb e "\" || Ascii.eqb e "/" || Ascii.eqb e "'" then Some e
  else if Ascii.eqb e "b" then Some (byte_of 8)
  else if Ascii.eqb e "f" then Some (byte_of 12)
  else if Ascii.eqb e "n" then Some (byte_of 10)
  else if Ascii.eqb e "r" then Some (byte_of 13)
  else if Ascii.eqb e "t" then Some (byte_of 9)
  else None.

(** [utf16.DecodeRune] of a surrogate pair. *)
Definition decode_pair (r1 r2 : Z) : option Z :=
  if (55296 <=? r1) && (r1 <? 56320) && (56320 <=? r2) && (r2 <? 57344)
  then Some ((r1 - 55296) * 1024 + (r2 - 56320) + 65536) else None.

(** One unit at the front of a body: the bytes it stands for and its width. *)
Definition unquote_unit (s : string) : option (string * nat) :=
  match s with
  | EmptyString => None
  | String c r =>
      if Ascii.eqb c "\" then
        match r with
        | EmptyString => None
        | String e _ =>
            match simple_escape_value e with
            | Some v => Some (String v "", 2%nat)
            | None =>
                rr ← getu4 s;
                if is_surrogate rr then
                  match getu4 (str_drop 6 s) ≫= decode_pair rr with
                  | Some dec => Some (encode_rune dec, 12%nat)
                  | None => Some (encode_rune rune_error, 6%nat)
                  end
                else Some (encode_rune rr, 6%nat)
            end
        end
      else if Ascii.eqb c dquote || (byte_val c <? 32) then None
      else if byte_val c <? 128 then Some (String c "", 1%nat)
      else let '(rr, size) := decode_rune s in Some (encode_rune rr, size)
  end.

(** Walks the body; [skip] bytes already belong to the unit just emitted. *)
Fixpoint unquote_go (s : string) (skip : nat) : option string :=
  match s with
  | EmptyString => Some ""
  | String _ r =>
      match skip with
      | S k => unquote_go r k
      | O => '(out, width) ← unquote_unit s;
             rest ← unquote_go r (width - 1); Some (out +:+ rest)
      end
  end.

Definition unquote (body : string) : option string := unquote_go body 0.

(** ** Quoting a string ([appendString] with HTML escaping) *)
Definition hex_digit (d : Z) : ascii := if d <? 10 then byte_of (48 + d) else byte_of (87 + d).
Definition u00 (c : ascii) : string :=
  "\u00" +:+ String (hex_digit (byte_val c / 16)) (String (hex_digit (byte_val c mod 16)) "").

Definition html_safe (c : ascii) : bool :=
  in_range 32 127 c && negb (Ascii.eqb c dquote || Ascii.eqb c "\" || Ascii.eqb c "<" ||
    Ascii.eqb c ">" || Ascii.eqb c "&").

Definition quote_unit (s : string) : string * nat :=
  match s with
  | EmptyString => ("", 0%nat)
  | String c _ =>
      if byte_val c <? 128 then
        (if html_safe c then String c ""
         else if Ascii.eqb c "\" || Ascii.eqb c dquote then String "\" (String c "")
         else if byte_val c =? 8 then "\b"
         else if byte_val c =? 12 then "\f"
         else if byte_val c =? 10 then "\n"
         else if byte_val c =? 13 then "\r"
         else if byte_val c =? 9 then "\t"
         else u00 c, 1%nat)
      else
        let '(rr, size) := decode_rune s in
        if (rr =? rune_error) && (size =? 1)%nat then ("\ufffd", 1%nat)
        else if rr =? 8232 then ("\u2028", size)
        else if rr =? 8233 then ("\u2029", size)
        else (str_take size s, size)
  end.

Fixpoint quote_go (s : string) (skip : nat) : string :=
  match s with
  | EmptyString => ""
  | String _ r =>
      match skip with
      | S k => quote_go r k
      | O => let '(out, width) := quote_unit s in out +:+ quote_go r (width - 1)
      end
  end.

Definition quote_body (s : string) : string := quote_go s 0.
Definition MarshalString (s : string) : string := qstr (quote_body s).

(** ** Compact *)

(** The HTML escaping [appendCompact] applies inside strings. *)
Fixpoint html_escape (b : string) : string :=
  match b with
  | EmptyString => ""
  | String c r =>
      if Ascii.eqb c "<" || Ascii.eqb c ">" || Ascii.eqb c "&" then u00 c +:+ html_escape r
      else match r with
      | String d (String e r') =>
          if (byte_val c =? 226) && (byte_val d =? 128) && ((byte_val e =? 168) || (byte_val e =? 169))
          then "\u202" +:+ String (hex_digit (byte_val e mod 16)) (html_escape r')
          else String c (html_escape r)
      | _ => String c (html_escape r)
      end
  end.

(** Drops insignificant white space and rewrites every string body with [f]. *)
Fixpoint compact_cst (f : string -> string) (c : cst) : cst :=
  match c with
  | CStr b => CStr (f b)
  | CArr _ es => CArr "" (map (fun e => Elem "" (compact_cst f (e_val e)) "") es)
  | CObj _ ms =>
      CObj "" (map (fun m => Member "" (f (m_key m)) "" "" (compact_cst f (m_val m)) "") ms)
  | _ => c
  end.

Definition compact_with (f : string -> string) (s : string) : option string :=
  '(_, c, _) ← parse s; Some (print (compact_cst f c)).

(** [json.Compact], and the compaction [json.Marshal] applies to a raw message. *)
Definition Compact (s : string) : option string := compact_with id s.
Definition MarshalRaw (s : string) : option string :=
  if bool_decide (s = "") then Some "null" else compact_with html_escape s.

(** ** Unmarshal *)

(** The decoded key and raw value of each member, in order. *)
Definition entries (ms : list (member cst)) : list (string * string) :=
  map (fun m => (default "" (unquote (m_key m)), print (m_val m))) ms.

Definition store_entries (m0 : gmap string string) (l : list (string * string)) : gmap string string :=
  foldl (fun m '(k, v) => <[k := v]> m) m0 l.

(** Decoding a value into a [map[string]json.RawMessage] variable holding
    [m0] ([None] is the nil map): null makes it nil, an object adds its
    members, anything else is a type error. *)
Definition decode_raw_map (m0 : option (gmap string string)) (c : cst) :
  option (option (gmap string string)) :=
  match c with
  | CNull => Some None
  | CObj _ ms => Some (Some (store_entries (default ∅ m0) (entries ms)))
  | _ => None
  end.

Definition UnmarshalRawMap (data : string) : option (option (gmap string string)) :=
  '(_, c, _) ← parse data; decode_raw_map None c.

(** Into a [*string]: null is nil. *)
Definition decode_string_ptr (c : cst) : option (option string) :=
  match c with
  | CNull => Some None
  | CStr b => Some <$> unquote b
  | _ => None
  end.
Definition UnmarshalStringPtr (data : string) : option (option string) :=
  '(_, c, _) ← parse data; decode_string_ptr c.

(** Into a [string] that is empty: null leaves it empty. *)
Definition UnmarshalString (data : string) : option string := default "" <$> UnmarshalStringPtr data.

(** [strconv.ParseFloat] of a JSON number: an error exactly when the value
    rounds to an infinity of that width, half the last unit above the largest
    finite value.  The exponent is accumulated the way Go does, stopping once
    it reaches 10000. *)
Fixpoint exp_acc (s : string) (e : Z) : Z :=
  match s with
  | EmptyString => e
  | String c r => exp_acc r (if e <? 10000 then e * 10 + digit_val c else e)
  end.
Definition exp_value (e : option (ascii * string * string)) : Z :=
  match e with
  | None => 0
  | Some (_, sg, d) => if bool_decide (sg = "-") then - exp_acc d 0 else exp_acc d 0
  end.
Definition float_limit (bits : Z) : Z :=
  if bits =? 32 then 2 ^ 128 - 2 ^ 103 else 2 ^ 1024 - 2 ^ 970.
Definition float_in_range (bits : Z) (n : number) : bool :=
  let frac := default "" (num_frac n) in
  let m := dec_value (num_int n +:+ frac) in
  let e := exp_value (num_exp n) - Z.of_nat (String.length frac) in
  if 0 <=? e then m * 10 ^ e <? float_limit bits else m <? float_limit bits * 10 ^ (- e).

(** Decoding into an [any]: only a number out of [float64] range fails. *)
Fixpoint any_ok (c : cst) : bool :=
  match c with
  | CNum n => float_in_range 64 n
  | CArr _ es => forallb (fun e => any_ok (e_val e)) es
  | CObj _ ms => forallb (fun m => any_ok (m_val m)) ms
  | _ => true
  end.

(** Into a [map[string]any]: [Some true] a non-nil map, [Some false] nil. *)
Definition UnmarshalAnyMap (data : string) : option bool :=
  '(_, c, _) ← parse data;
  match c with
  | CNull => Some false
  | CObj _ _ => if any_ok c then Some true else None
  | _ => None
  end.

(** Struct field names match exactly or after folding: ASCII letters, and the
    two other runes whose case-folding orbit holds an ASCII letter (U+017F,
    U+212A). Enough to compare with an ASCII field name. *)
Fixpoint fold_name (s : string) : string :=
  match s with
  | EmptyString => ""
  | String c r =>
      if in_range 97 122 c then String (byte_of (byte_val c - 32)) (fold_name r)
      else match r with
      | String d r1 =>
          if (byte_val c =? 197) && (byte_val d =? 191) then String "S" (fold_name r1)
          else match r1 with
          | String e r2 =>
              if (byte_val c =? 226) && (byte_val d =? 132) && (byte_val e =? 170)
              then String "K" (fold_name r2) else String c (fold_name r)
          | EmptyString => String c (fold_name r)
          end
      | EmptyString => String c (fold_name r)
      end
  end.
Definition field_matches (field key : string) : bool :=
  bool_decide (key = field) || bool_decide (fold_name key = fold_name field).

(** ** Marshal of a raw-message map: keys in byte order *)
Definition str_le (a b : string) : Prop := String.leb a b = true.
#[export] Instance str_le_dec : RelDecision str_le := fun a b => decide (String.leb a b = true).

Definition sorted_keys (m : gmap string string) : list string :=
  merge_sort str_le (map_to_list m).*1.

Definition MarshalRawMap (m : gmap string string) : option string :=
  parts ← mapM (fun k => v ← m !! k; out ← MarshalRaw v;
    Some (MarshalString k +:+ String ":" out)) (sorted_keys m);
  Some (String "{" (commas parts +:+ "}")).

(** ** Lemmas *)

(** A body is a sequence of units, each consumed whole by the scanner. *)
Lemma getu4_hex (h1 h2 h3 h4 : ascii) (t : string) :
  is_hex h1 && is_hex h2 && is_hex h3 && is_hex h4 = true ->
  is_Some (getu4 (String "\" (String "u" (String h1 (String h2 (String h3 (String h4 t))))))).
Proof. intros H. unfold getu4. cbn. rewrite H. eauto. Qed.

Lemma decode_rune_width (c : ascii) (s : string) :
  let w := (decode_rune (String c s)).2 in (1 <= w <= String.length (String c s))%nat.
Proof. unfold decode_rune. repeat case_match; cbn; lia. Qed.

(** Text that needs no escaping in either direction: printable ASCII without
    quote, backslash, angle brackets or ampersand. *)
Definition plain_text (s : string) : bool := str_forallb html_safe s.

Lemma html_safe_spec (c : ascii) : html_safe c = true ->
  32 <= byte_val c < 128 /\ c <> dquote /\ c <> "\"%char /\ c <> "<"%char /\ c <> ">"%char /\ c <> "&"%char.
Proof.
  unfold html_safe, in_range. rewrite !andb_true_iff, negb_true_iff, !orb_false_iff, !Ascii.eqb_neq,
    !Z.leb_le. naive_solver lia.
Qed.

Lemma quote_plain (s : string) : plain_text s = true -> quote_body s = s.
Proof.
  unfold quote_body. induction s as [|c s IH]; [done|]. unfold plain_text. cbn.
  intros [Hc Hs]%andb_true_iff. pose proof (html_safe_spec c Hc) as (Hv & _).
  rewrite (proj2 (Z.ltb_lt _ _)) by lia. rewrite Hc. cbn. by rewrite IH.
Qed.

Lemma unquote_plain (s : string) : plain_text s = true -> unquote s = Some s.
Proof.
  unfold unquote. induction s as [|c s IH]; [done|]. unfold plain_text. cbn.
  intros [Hc Hs]%andb_true_iff. pose proof (html_safe_spec c Hc) as (Hv & Hq & Hb & _).
  rewrite (proj2 (Ascii.eqb_neq _ _) Hb), (proj2 (Ascii.eqb_neq _ _) Hq).
  rewrite (proj2 (Z.ltb_ge _ _)) by lia. rewrite (proj2 (Z.ltb_lt _ _)) by lia.
  cbn. by rewrite IH.
Qed.

Lemma wf_body_plain (s : string) : plain_text s = true -> wf_body s = true.
Proof.
  intros H. apply bool_decide_eq_true. induction s as [|c s IH]; [done|].
  unfold plain_text in H. cbn in *. apply andb_true_iff in H as [Hc Hs].
  pose proof (html_safe_spec c Hc) as (Hv & Hq & Hb & _).
  rewrite (proj2 (Ascii.eqb_neq _ _) Hb), (proj2 (Ascii.eqb_neq _ _) Hq).
  rewrite (proj2 (Z.ltb_ge _ _)) by lia. by rewrite IH.
Qed.

(** *** Raw messages *)

(** A raw message: the text of one well-formed value, nothing around it. *)
Definition is_raw (s : string) : Prop := exists c, s = print c /\ wf 0 c = true.

Lemma is_raw_Valid (s : string) : is_raw s -> Valid s = true.
Proof. intros (c & -> & Hc). unfold Valid. by rewrite parse_print. Qed.

Lemma store_entries_lookup (m0 : gmap string string) (l : list (string * string)) (k v : string) :
  store_entries m0 l !! k = Some v -> m0 !! k = Some v \/ In (k, v) l.
Proof.
  unfold store_entries. revert m0. induction l as [|[k' v'] l IH]; intros m0; cbn; [auto|].
  intros [H|H]%IH; [|auto]. destruct (decide (k' = k)) as [->|Hne].
  - rewrite lookup_insert_eq in H. injection H as ->. auto.
  - rewrite lookup_insert_ne in H by done. auto.
Qed.

Lemma member_wf (ws : string) (ms : list (member cst)) (m : member cst) :
  wf 0 (CObj ws ms) = true -> In m ms -> wf 0 (m_val m) = true /\ wf_body (m_key m) = true.
Proof.
  cbn [wf]. rewrite !andb_true_iff, forallb_forall. intros (_ & Hall) Hin.
  specialize (Hall m Hin). rewrite !andb_true_iff in Hall. destruct_and!.
  split; [|done]. eapply wf_mono; [|eassumption]. lia.
Qed.

Lemma UnmarshalRawMap_Some (s : string) (m : gmap string string) :
  UnmarshalRawMap s = Some (Some m) <->
  exists ws1 ws ms ws2, parse s = Some (ws1, CObj ws ms, ws2) /\ m = store_entries ∅ (entries ms).
Proof.
  unfold UnmarshalRawMap. split.
  - intros ([[ws1 c] ws2] & Hp & H)%bind_Some. destruct c; try done. injection H as <-. eauto 6.
  - intros (ws1 & ws & ms & ws2 & -> & ->). done.
Qed.

(** Every value of a decoded raw-message map is a raw message. *)
Lemma UnmarshalRawMap_raw (s : string) (m : gmap string string) (k v : string) :
  UnmarshalRawMap s = Some (Some m) -> m !! k = Some v -> is_raw v.
Proof.
  intros (ws1 & ws & ms & ws2 & Hp & ->)%UnmarshalRawMap_Some Hk.
  apply parse_iff in Hp as (_ & _ & _ & Hwf).
  apply store_entries_lookup in Hk as [Hk|Hin]; [by rewrite lookup_empty in Hk|].
  unfold entries in Hin. apply in_map_iff in Hin as (x & [= _ <-] & Hx).
  eexists. split; [done|]. by eapply member_wf.
Qed.

(** *** Trimming a raw message does nothing *)
Lemma plain_byte_opening (c : ascii) : opening c = true -> plain_byte c = true.
Proof.
  unfold opening, plain_byte, ascii_space, in_range. intros H. destruct (is_digit c) eqn:Hd.
  - apply is_digit_spec in Hd. unfold digit_val in Hd. clear H.
    rewrite andb_true_iff, negb_true_iff, orb_false_iff, andb_false_iff, !Z.leb_gt, Z.eqb_neq, Z.ltb_lt.
    lia.
  - rewrite !orb_true_iff in H. destruct_or! H; [apply Ascii.eqb_eq in H as ->; reflexivity..|done].
Qed.

Lemma is_digit_plain (c : ascii) : is_digit c = true -> plain_byte c = true.
Proof. intros H. apply plain_byte_opening. unfold opening. by rewrite H, orb_true_r. Qed.

Lemma digits_last (s : string) : digits1 s = true ->
  exists t d, s = t +:+ String d "" /\ is_digit d = true.
Proof.
  intros [Hne Hd]%digits1_spec. clear -Hne Hd. induction s as [|c s IH]; [done|].
  unfold all_digits in *. cbn in Hd. apply andb_true_iff in Hd as [Hc Hd].
  destruct s as [|c2 s]; [by exists "", c|].
  destruct (IH ltac:(done) Hd) as (t & d & -> & ?). by exists (String c t), d.
Qed.

Lemma wf_int_digits (i : string) : wf_int i = true -> digits1 i = true.
Proof. unfold wf_int. bools. intros [->|[? _]]; done. Qed.

Lemma print_number_last (n : number) : wf_number n = true ->
  exists t d, print_number n = t +:+ String d "" /\ is_digit d = true.
Proof.
  destruct n as [neg i f e]. unfold wf_number, print_number. cbn.
  intros [[Hi%wf_int_digits Hf]%andb_true_iff He]%andb_true_iff.
  destruct e as [[[l sg] d]|]; cbn in *.
  { apply andb_true_iff in He as [_ (t & x & -> & ?)%digits_last].
    exists ((if neg then "-" else "") +:+ i +:+ print_frac f +:+ String l (sg +:+ t)), x.
    by str_norm. }
  destruct f as [d|]; cbn in *.
  { apply digits_last in Hf as (t & x & -> & ?).
    exists ((if neg then "-" else "") +:+ i +:+ String "." t), x. by str_norm. }
  apply digits_last in Hi as (t & x & -> & ?). exists ((if neg then "-" else "") +:+ t), x. by str_norm.
Qed.

Lemma print_last (c : cst) : wf 0 c = true ->
  exists t d, print c = t +:+ String d "" /\ plain_byte d = true.
Proof.
  intros H. destruct c as [|b|n|b|ws es|ws ms]; cbn [wf] in H.
  - by exists "nul", "l"%char.
  - destruct b; [by exists "tru", "e"%char|by exists "fals", "e"%char].
  - apply print_number_last in H as (t & d & Hp & Hd). exists t, d. split; [done|by apply is_digit_plain].
  - exists (String dquote b), dquote. done.
  - eexists (String "[" (ws +:+ _)), "]"%char. split; [cbn; f_equal; by rewrite str_app_assoc|done].
  - eexists (String "{" (ws +:+ _)), "}"%char. split; [cbn; f_equal; by rewrite str_app_assoc|done].
Qed.

Lemma TrimSpace_raw (s : string) : is_raw s -> TrimSpace s = s.
Proof.
  intros (c & -> & Hc). destruct (print_head 0 c Hc) as (a & t & Ha & Hop).
  destruct (print_last c Hc) as (t' & d & Hd & Hpd). rewrite Ha in *.
  by apply (TrimSpace_plain a d t t'); [|apply plain_byte_opening|].
Qed.

(** *** Compaction *)

Lemma compact_raw (f : string -> string) (c : cst) :
  wf 0 c = true -> compact_with f (print c) = Some (print (compact_cst f c)).
Proof. intros H. unfold compact_with. by rewrite parse_print. Qed.

Lemma compact_wf (f : string -> string) (c : cst) (d : N) :
  (forall b, wf_body b = true -> wf_body (f b) = true) ->
  wf d c = true -> wf d (compact_cst f c) = true.
Proof.
  intros Hf. revert d. induction c as [|b|x|b|ws es IH|ws ms IH] using cst_ind; intros d H.
  1-3: exact H.
  - by apply Hf.
  - cbn [wf compact_cst] in *. rewrite !andb_true_iff in *. destruct H as (((Hd & _) & _) & Hall).
    split; [split; [done|apply orb_true_iff; by right]|].
    rewrite forallb_forall in *. intros y (x & <- & Hx)%in_map_iff. specialize (Hall x Hx).
    rewrite Forall_forall in IH. cbn. rewrite !andb_true_iff in *. destruct Hall as (_ & Hv).
    split; [done|]. apply (IH x); [by apply list_elem_of_In|done].
  - cbn [wf compact_cst] in *. rewrite !andb_true_iff in *. destruct H as (((Hd & _) & _) & Hall).
    split; [split; [done|apply orb_true_iff; by right]|].
    rewrite forallb_forall in *. intros y (x & <- & Hx)%in_map_iff. specialize (Hall x Hx).
    rewrite Forall_forall in IH. cbn. rewrite !andb_true_iff in *.
    destruct Hall as (((((_ & Hk) & _) & _) & _) & Hv).
    split_and!; try done; [by apply Hf|]. apply (IH x); [by apply list_elem_of_In|done].
Qed.

(** *** Unquoting never fails on a body the scanner accepts *)

(** How a well-formed body starts. *)
Inductive body_view : string -> Prop :=
| BVNil : body_view ""
| BVEscape e r : is_simple_escape e = true -> wf_body r = true -> body_view (String "\" (String e r))
| BVUnicode h1 h2 h3 h4 r :
    is_hex h1 && is_hex h2 && is_hex h3 && is_hex h4 = true -> wf_body r = true ->
    body_view (String "\" (String "u" (String h1 (String h2 (String h3 (String h4 r))))))
| BVPlain c r :
    c <> dquote -> c <> "\"%char -> 32 <= byte_val c -> wf_body r = true -> body_view (String c r).

Lemma wf_body_view (b : string) : wf_body b = true -> body_view b.
Proof.
  intros H%bool_decide_eq_true. destruct b as [|c b]; [constructor|]. cbn in H.
  destruct (Ascii.eqb_spec c dquote) as [->|Hq]; [done|].
  destruct (Ascii.eqb_spec c "\") as [->|Hb].
  - destruct b as [|e b]; [cbn in H; done|]. cbn in H.
    destruct (is_simple_escape e) eqn:He.
    + scan_cases. constructor; [done|]. apply bool_decide_eq_true. by subst.
    + destruct (Ascii.eqb_spec e "u") as [->|]; [|done].
      destruct b as [|h1 [|h2 [|h3 [|h4 b]]]]; cbn in H; try (repeat case_match; done).
      destruct (is_hex h1 && is_hex h2 && is_hex h3 && is_hex h4) eqn:Hh; [|done].
      scan_cases. constructor; [done|]. apply bool_decide_eq_true. by subst.
  - destruct (Z.ltb_spec (byte_val c) 32); [done|]. scan_cases.
    constructor; [done..|]. apply bool_decide_eq_true. by subst.
Qed.

Lemma str_drop_0 (s : string) : str_drop 0 s = s.
Proof. by destruct s. Qed.

Lemma unquote_go_skip (s : string) (k : nat) :
  (k <= String.length s)%nat -> unquote_go s k = unquote_go (str_drop k s) 0.
Proof.
  revert k. induction s as [|c s IH]; intros [|k]; cbn [String.length]; intros Hk; try done.
  cbn [unquote_go str_drop]. apply IH. lia.
Qed.

Lemma is_simple_escape_value (e : ascii) :
  is_simple_escape e = true -> is_Some (simple_escape_value e).
Proof.
  unfold is_simple_escape. rewrite !orb_true_iff. intros H.
  destruct_or! H; apply Ascii.eqb_eq in H as ->; by eexists.
Qed.

(** A byte of 128 or more may start or continue a rune; either way the rest of
    the body is well formed after any number of them. *)
Lemma wf_body_high (c : ascii) (r : string) :
  wf_body (String c r) = true -> 128 <= byte_val c -> wf_body r = true.
Proof.
  intros H%wf_body_view Hc. inversion H; subst; try done; cbn in Hc; lia.
Qed.

Lemma cont_high (lo hi : Z) (c : ascii) : 128 <= lo -> in_range lo hi c = true -> 128 <= byte_val c.
Proof. unfold in_range. rewrite andb_true_iff, !Z.leb_le. lia. Qed.

Lemma decode_rune_rest (c : ascii) (r : string) :
  wf_body (String c r) = true -> 128 <= byte_val c ->
  wf_body (str_drop (decode_rune (String c r)).2 (String c r)) = true.
Proof.
  intros H Hc. pose proof (wf_body_high c r H Hc) as Hr. unfold decode_rune.
  rewrite (proj2 (Z.ltb_ge _ _)) by lia. unfold cont.
  destruct (in_range 194 223 c).
  { destruct r as [|b r]; [done|]. destruct (in_range 128 191 b) eqn:Hb; cbn; [|by rewrite ?str_drop_0].
    rewrite ?str_drop_0. eapply wf_body_high; [exact Hr|]. by eapply cont_high; [|exact Hb]. }
  destruct (in_range 224 239 c).
  { destruct r as [|b [|d r]]; [done|cbn; by rewrite ?str_drop_0|].
    destruct (in_range _ _ b && _) eqn:Hb; cbn; [|by rewrite ?str_drop_0].
    apply andb_true_iff in Hb as [Hb Hd]. rewrite ?str_drop_0.
    eapply wf_body_high; [|by eapply cont_high; [|exact Hd]].
    eapply wf_body_high; [exact Hr|]. eapply cont_high; [|exact Hb]. by case_match. }
  destruct (in_range 240 244 c); [|cbn; by rewrite ?str_drop_0].
  destruct r as [|b [|d [|e r]]]; try (cbn; by rewrite ?str_drop_0).
  destruct (in_range _ _ b && _ && _) eqn:Hb; cbn; [|by rewrite ?str_drop_0].
  apply andb_true_iff in Hb as [[Hb Hd]%andb_true_iff He]. rewrite ?str_drop_0.
  eapply wf_body_high; [|by eapply cont_high; [|exact He]].
  eapply wf_body_high; [|by eapply cont_high; [|exact Hd]].
  eapply wf_body_high; [exact Hr|]. eapply cont_high; [|exact Hb]. by case_match.
Qed.

Lemma getu4_view (b : string) (v : Z) :
  wf_body b = true -> getu4 b = Some v ->
  (6 <= String.length b)%nat /\ wf_body (str_drop 6 b) = true.
Proof.
  intros H%wf_body_view Hu. inversion H as [|e r He Hr|h1 h2 h3 h4 r Hh Hr|c r Hq Hb Hc Hr]; subst b.
  - done.
  - unfold getu4 in Hu. destruct r as [|h1 [|h2 [|h3 [|h4 r]]]]; try done.
    destruct (Ascii.eqb_spec e "u") as [->|]; [done|]. by rewrite andb_false_r in Hu.
  - cbn. split; [lia|]. by rewrite ?str_drop_0.
  - unfold getu4 in Hu. destruct r as [|u [|h1 [|h2 [|h3 [|h4 r]]]]]; try done.
    by rewrite (proj2 (Ascii.eqb_neq c "\") Hb) in Hu.
Qed.

Lemma unquote_unit_ok (s : string) :
  wf_body s = true -> s <> "" ->
  exists out w, unquote_unit s = Some (out, w) /\ (1 <= w <= String.length s)%nat /\
    wf_body (str_drop w s) = true.
Proof.
  intros Hwf Hne. pose proof (wf_body_view s Hwf) as H.
  destruct H as [|e r He Hr|h1 h2 h3 h4 r Hh Hr|c r Hq Hb Hc Hr]; [done|..].
  - destruct (is_simple_escape_value e He) as [v Hv]. unfold unquote_unit. cbn. rewrite Hv.
    eexists _, _. split; [done|]. split; [cbn; lia|]. cbn. by rewrite ?str_drop_0.
  - destruct (getu4_hex h1 h2 h3 h4 r Hh) as [rr Hrr]. unfold unquote_unit.
    cbn [Ascii.eqb Bool.eqb]. replace (simple_escape_value "u") with (@None ascii) by done.
    rewrite Hrr. cbn [mbind option_bind]. cbn [str_drop]. rewrite ?str_drop_0.
    destruct (is_surrogate rr).
    + destruct (getu4 r) as [rr1|] eqn:Hr1; cbn [mbind option_bind].
      * destruct (getu4_view r rr1 Hr Hr1) as [Hlen Hwf6].
        destruct (decode_pair rr rr1).
        -- eexists _, _. split; [done|]. split; [cbn [String.length]; lia|exact Hwf6].
        -- eexists _, _. split; [done|]. split; [cbn [String.length]; lia|]. cbn. by rewrite ?str_drop_0.
      * eexists _, _. split; [done|]. split; [cbn [String.length]; lia|]. cbn. by rewrite ?str_drop_0.
    + eexists _, _. split; [done|]. split; [cbn [String.length]; lia|]. cbn. by rewrite ?str_drop_0.
  - unfold unquote_unit. rewrite (proj2 (Ascii.eqb_neq c "\") Hb), (proj2 (Ascii.eqb_neq c dquote) Hq).
    rewrite (proj2 (Z.ltb_ge _ _)) by lia. cbn [orb].
    destruct (Z.ltb_spec (byte_val c) 128).
    + eexists _, _. split; [done|]. split; [cbn; lia|]. cbn. by rewrite ?str_drop_0.
    + pose proof (decode_rune_width c r) as Hw. pose proof (decode_rune_rest c r Hwf ltac:(lia)) as Hrest.
      destruct (decode_rune (String c r)) as [rr size]. cbn [snd] in *. eauto.
Qed.

Lemma unquote_total (b : string) : wf_body b = true -> is_Some (unquote b).
Proof.
  unfold unquote. induction b as [b IH] using str_length_ind. intros Hwf.
  destruct b as [|c b]; [by eexists|].
  destruct (unquote_unit_ok _ Hwf ltac:(done)) as (out & w & Hu & Hw & Hrest).
  cbn [unquote_go]. rewrite Hu. cbn [mbind option_bind]. cbn [String.length] in Hw.
  rewrite unquote_go_skip by lia. destruct w as [|w]; [lia|]. cbn [str_drop] in Hrest.
  replace (S w - 1)%nat with w by lia.
  destruct (IH (str_drop w b)) as [rest ->]; [|done|by eexists].
  cbn [String.length]. rewrite str_length_drop. lia.
Qed.

(** *** The member a key finds: the last one *)
Fixpoint last_value (k : string) (ms : list (member cst)) : option cst :=
  match ms with
  | [] => None
  | m :: ms =>
      match last_value k ms with
      | Some v => Some v
      | None => if bool_decide (unquote (m_key m) = Some k) then Some (m_val m) else None
      end
  end.

Lemma store_entries_app (m0 : gmap string string) (l1 l2 : list (string * string)) :
  store_entries m0 (l1 ++ l2) = store_entries (store_entries m0 l1) l2.
Proof. apply foldl_app. Qed.

Lemma store_lookup (ms : list (member cst)) (m0 : gmap string string) (k : string) :
  forallb (fun m => wf_body (m_key m)) ms = true ->
  store_entries m0 (entries ms) !! k =
    match last_value k ms with Some v => Some (print v) | None => m0 !! k end.
Proof.
  revert m0. induction ms as [|m ms IH]; intros m0; [done|].
  cbn [forallb]. intros [Hk Hms]%andb_true_iff. cbn [last_value].
  unfold entries. cbn [map]. unfold store_entries. cbn [foldl]. fold (entries ms).
  change (foldl _ ?x ?l) with (store_entries x l). rewrite IH by done.
  destruct (last_value k ms) as [v|]; [done|].
  destruct (unquote_total _ Hk) as [u Hu]. rewrite Hu. cbn [default].
  case_bool_decide as Hd.
  - injection Hd as ->. apply lookup_insert_eq.
  - apply lookup_insert_ne. intros <-. by apply Hd.
Qed.

Lemma obj_keys_wf (d : N) (ws : string) (ms : list (member cst)) :
  wf d (CObj ws ms) = true -> forallb (fun m => wf_body (m_key m)) ms = true.
Proof.
  cbn [wf]. rewrite !andb_true_iff, !forallb_forall. intros (_ & Hall) m Hm.
  specialize (Hall m Hm). rewrite !andb_true_iff in Hall. tauto.
Qed.

Lemma last_value_in (k : string) (ms : list (member cst)) (v : cst) :
  last_value k ms = Some v -> exists m, In m ms /\ unquote (m_key m) = Some k /\ m_val m = v.
Proof.
  induction ms as [|m ms IH]; cbn [last_value]; [done|].
  destruct (last_value k ms) as [w|] eqn:Hl.
  - intros [= ->]. destruct (IH eq_refl) as (x & ? & ?). exists x. split; [by right|done].
  - case_bool_decide; [|done]. intros [= <-]. exists m. split; [by left|done].
Qed.

(** *** Objects written without white space *)
Definition jobj (fields : list (string * cst)) : cst :=
  CObj "" (map (fun '(k, v) => Member "" k "" "" v "") fields).

Lemma jobj_wf (d : N) (fields : list (string * cst)) :
  (d < max_depth)%N ->
  Forall (fun '(k, v) => plain_text k = true /\ wf (d + 1) v = true) fields ->
  wf d (jobj fields) = true.
Proof.
  intros Hd Hall. unfold jobj. cbn [wf]. rewrite (proj2 (N.ltb_lt _ _) Hd).
  rewrite (bool_decide_eq_true_2 ("" = "")), orb_true_r by done. cbn [andb].
  rewrite andb_true_l. induction Hall as [|[k v] fields [Hk Hv] _ IH]; [done|].
  cbn [map forallb]. cbn. rewrite (wf_body_plain k Hk), Hv. cbn. exact IH.
Qed.

Lemma jobj_entries (fields : list (string * cst)) :
  Forall (fun '(k, _) => plain_text k = true) fields ->
  entries (map (fun '(k, v) => Member "" k "" "" v "") fields) =
    map (fun '(k, v) => (k, print v)) fields.
Proof.
  induction 1 as [|[k v] fields Hk _ IH]; [done|]. unfold entries in *.
  cbn [map m_key m_val]. rewrite (unquote_plain k Hk), IH. done.
Qed.

(** *** Marshalling raw messages never fails *)
Lemma body_view_wf (b : string) : body_view b -> wf_body b = true.
Proof.
  intros H. apply bool_decide_eq_true. inversion H as [|e r He Hr|h1 h2 h3 h4 r Hh Hr|c r Hq Hb Hc Hr]; subst; cbn.
  - done.
  - rewrite He. apply bool_decide_eq_true in Hr. by rewrite Hr.
  - rewrite Hh. apply bool_decide_eq_true in Hr. by rewrite Hr.
  - rewrite (proj2 (Ascii.eqb_neq _ _) Hq), (proj2 (Ascii.eqb_neq _ _) Hb), (proj2 (Z.ltb_ge _ _)) by lia.
    apply bool_decide_eq_true in Hr. by rewrite Hr.
Qed.

(** A byte the escaping passes over. *)
Definition html_plain (c : ascii) : bool :=
  negb (Ascii.eqb c "<" || Ascii.eqb c ">" || Ascii.eqb c "&") && negb (byte_val c =? 226).

Lemma html_escape_plain (c : ascii) (r : string) :
  html_plain c = true -> html_escape (String c r) = String c (html_escape r).
Proof.
  unfold html_plain. intros [H1 H2]%andb_true_iff. apply negb_true_iff in H1, H2.
  cbn [html_escape]. rewrite H1, H2. by destruct r as [|? [|? ?]].
Qed.

Lemma hex_html_plain (c : ascii) : is_hex c = true -> html_plain c = true.
Proof.
  intros H. unfold html_plain.
  rewrite andb_true_iff, !negb_true_iff, !orb_false_iff, !Ascii.eqb_neq, Z.eqb_neq. split_and!;
    [intros ->; discriminate H..|].
  unfold is_hex, is_digit, in_range in H. bools. lia.
Qed.

Lemma escape_html_plain (c : ascii) : is_simple_escape c = true -> html_plain c = true.
Proof.
  unfold is_simple_escape. rewrite !orb_true_iff. intros H. destruct_or! H; by apply Ascii.eqb_eq in H as ->.
Qed.

Lemma html_escape_wf (b : string) : wf_body b = true -> wf_body (html_escape b) = true.
Proof.
  induction b as [b IH] using str_length_ind. intros Hb.
  destruct (wf_body_view b Hb) as [|e r He Hr|h1 h2 h3 h4 r Hh Hr|c r Hq Hs Hc Hr]; [done|..].
  - rewrite !html_escape_plain by (done || by apply escape_html_plain). apply body_view_wf. constructor; [done|].
    apply IH; [cbn; lia|done].
  - pose proof Hh as Hx. rewrite !andb_true_iff in Hx. destruct Hx as (((? & ?) & ?) & ?).
    rewrite !html_escape_plain by (done || by apply hex_html_plain). apply body_view_wf. constructor; [done|].
    apply IH; [cbn; lia|done].
  - assert (Hrest : wf_body (html_escape r) = true) by (apply IH; [cbn; lia|done]).
    destruct (html_plain c) eqn:Hp.
    { rewrite html_escape_plain by done. apply body_view_wf. by constructor. }
    destruct (Ascii.eqb c "<" || Ascii.eqb c ">" || Ascii.eqb c "&") eqn:Hx.
    { cbn [html_escape]. rewrite Hx. rewrite !orb_true_iff, !Ascii.eqb_eq in Hx.
      destruct_or! Hx; subst c; apply body_view_wf, BVUnicode; done. }
    cbn [html_escape]. rewrite Hx.
    assert (Hself : wf_body (String c (html_escape r)) = true) by (apply body_view_wf; by constructor).
    destruct r as [|d [|e r']]; try exact Hself. destruct (_ && _) eqn:Hu; [|exact Hself].
    rewrite !andb_true_iff, orb_true_iff, !Z.eqb_eq in Hu. destruct Hu as [[_ Hd] He].
    assert (Hr' : wf_body r' = true).
    { apply wf_body_high in Hr; [|lia]. apply wf_body_high in Hr; [done|lia]. }
    assert (Hrest' : wf_body (html_escape r') = true) by (apply IH; [cbn; lia|done]).
    destruct He as [He|He]; rewrite He; apply body_view_wf, BVUnicode; done.
Qed.

(** A raw message that may stand [d] levels deep in a document. *)
Definition is_raw_at (d : N) (s : string) : Prop := exists c, s = print c /\ wf d c = true.

Lemma is_raw_at_mono (d d' : N) (s : string) : (d' <= d)%N -> is_raw_at d s -> is_raw_at d' s.
Proof. intros Hd (c & -> & Hc). exists c. split; [done|by eapply wf_mono]. Qed.

Lemma is_raw_at_0 (d : N) (s : string) : is_raw_at d s -> is_raw s.
Proof. intros H. by apply (is_raw_at_mono d 0); [lia|]. Qed.

Lemma UnmarshalRawMap_raw_at (d : N) (s : string) (m : gmap string string) (k v : string) :
  is_raw_at d s -> UnmarshalRawMap s = Some (Some m) -> m !! k = Some v -> is_raw_at (d + 1) v.
Proof.
  intros (c & -> & Hc) (ws1 & ws & ms & ws2 & Hp & ->)%UnmarshalRawMap_Some Hk.
  rewrite parse_print in Hp by (by eapply (wf_mono _ d); [lia|]). injection Hp as <- -> <-.
  apply store_entries_lookup in Hk as [Hk|Hin]; [by rewrite lookup_empty in Hk|].
  unfold entries in Hin. apply in_map_iff in Hin as (x & [= _ <-] & Hx).
  cbn [wf] in Hc. rewrite !andb_true_iff, forallb_forall in Hc. destruct Hc as (_ & Hall).
  specialize (Hall x Hx). rewrite !andb_true_iff in Hall. destruct_and!. by exists (m_val x).
Qed.

Lemma UnmarshalRawMap_raw_1 (s : string) (m : gmap string string) (k v : string) :
  UnmarshalRawMap s = Some (Some m) -> m !! k = Some v -> is_raw_at 1 v.
Proof.
  intros (ws1 & ws & ms & ws2 & Hp & Hm)%UnmarshalRawMap_Some Hk.
  apply parse_iff in Hp as (_ & _ & _ & Hwf).
  apply (UnmarshalRawMap_raw_at 0 (print (CObj ws ms)) m k v); [by eexists| |done].
  unfold UnmarshalRawMap. rewrite parse_print by done. cbn. by rewrite Hm.
Qed.

Lemma MarshalRaw_raw (c : cst) : wf 0 c = true -> MarshalRaw (print c) = Some (print (compact_cst html_escape c)).
Proof.
  intros H. unfold MarshalRaw. rewrite bool_decide_eq_false_2; [by apply compact_raw|].
  intros He. destruct (print_head 0 c H) as (a & t & Hp & _). congruence.
Qed.

Lemma MarshalRaw_at (d : N) (v : string) : is_raw_at d v -> exists out, MarshalRaw v = Some out /\ is_raw_at d out.
Proof.
  intros (c & -> & Hc). eexists. split; [apply MarshalRaw_raw; by eapply (wf_mono _ d); [lia|]|].
  eexists. split; [done|]. apply compact_wf; [apply html_escape_wf|done].
Qed.

Lemma sorted_keys_in (m : gmap string string) (k : string) : k ∈ sorted_keys m <-> is_Some (m !! k).
Proof.
  unfold sorted_keys. rewrite merge_sort_Permutation, list_elem_of_fmap. split.
  - intros ([k' v] & -> & Hin). apply elem_of_map_to_list in Hin. by exists v.
  - intros [v Hv]. exists (k, v). split; [done|]. by apply elem_of_map_to_list.
Qed.

Lemma MarshalRawMap_total (m : gmap string string) :
  (forall k v, m !! k = Some v -> is_raw v) -> is_Some (MarshalRawMap m).
Proof.
  intros Hm. unfold MarshalRawMap.
  assert (is_Some (mapM (fun k => v ← m !! k; out ← MarshalRaw v;
    Some (MarshalString k +:+ String ":" out)) (sorted_keys m))) as [parts ->]; [|by eexists].
  apply mapM_is_Some, Forall_forall. intros k Hk%sorted_keys_in. destruct Hk as [v Hv]. unfold compose. rewrite Hv.
  destruct (MarshalRaw_at 0 v (Hm k v Hv)) as (out & Ho & _). cbn. rewrite Ho. by eexists.
Qed.

Lemma store_entries_other (l : list (string * string)) (m0 : gmap string string) (k : string) :
  k ∉ l.*1 -> store_entries m0 l !! k = m0 !! k.
Proof.
  unfold store_entries. revert m0. induction l as [|[k' v'] l IH]; intros m0 Hk; cbn in *; [done|].
  apply not_elem_of_cons in Hk as [Hne Hk]. rewrite IH by done. by rewrite lookup_insert_ne.
Qed.

Lemma store_entries_in (l : list (string * string)) (m0 : gmap string string) (k v : string) :
  NoDup l.*1 -> (k, v) ∈ l -> store_entries m0 l !! k = Some v.
Proof.
  revert m0. induction l as [|[k' v'] l IH]; intros m0 Hnd Hin; [by apply not_elem_of_nil in Hin|].
  cbn in Hnd. apply NoDup_cons in Hnd as [Hk Hnd]. apply elem_of_cons in Hin as [[= -> ->]|Hin].
  - cbn. fold (store_entries (<[k':=v']> m0) l). rewrite store_entries_other by done. by rewrite lookup_insert_eq.
  - cbn. fold (store_entries (<[k':=v']> m0) l). by apply IH.
Qed.
