(* ===== verification/JsonString.v ===== *)
(** * JsonString: quoting and unquoting a JSON string

    What [json.Marshal] writes for a Go string, [json.Unmarshal] reads back:
    exactly for valid UTF-8, and for any string the text is a well-formed JSON
    string.  Standard-library behaviour, used for the names and the identity
    the control store keeps. *)

From stdpp Require Import sorting.
From S2P Require Import Prelude Strconv Json JsonCodec.
Local Open Scope Z_scope.

(** [utf8.ValidString]. *)
Fixpoint valid_utf8_go (s : string) (skip : nat) : bool :=
  match s with
  | EmptyString => true
  | String _ r =>
      match skip with
      | S k => valid_utf8_go r k
      | O => let '(rr, size) := decode_rune s in
             negb ((rr =? rune_error) && (size =? 1)%nat) && valid_utf8_go r (size - 1)
      end
  end.
Definition ValidUTF8 (s : string) : bool := valid_utf8_go s 0.

Lemma valid_skip (s : string) (k : nat) : valid_utf8_go s k = valid_utf8_go (str_drop k s) 0.
Proof. revert k. induction s as [|c s IH]; intros [|k]; try done. cbn [valid_utf8_go str_drop]. apply IH. Qed.

Lemma quote_skip (s : string) (k : nat) : quote_go s k = quote_go (str_drop k s) 0.
Proof. revert k. induction s as [|c s IH]; intros [|k]; try done. cbn [quote_go str_drop]. apply IH. Qed.

Lemma str_drop_exact (a b : string) : str_drop (String.length a) (a +:+ b) = b.
Proof. rewrite <- (Nat.add_0_r (String.length a)), str_drop_app. by destruct b. Qed.


Lemma in_range_iff (lo hi : Z) (c : ascii) : in_range lo hi c = true <-> lo <= byte_val c <= hi.
Proof. unfold in_range. rewrite andb_true_iff, !Z.leb_le. done. Qed.

Lemma encode_byte (z : Z) (c : ascii) : z = byte_val c -> byte_of z = c.
Proof. intros ->. apply byte_of_val. Qed.

(** *** Runes *)
Lemma encode_2 (a b : Z) : 194 <= a <= 223 -> 128 <= b <= 191 ->
  encode_rune ((a - 192) * 64 + (b - 128)) = String (byte_of a) (String (byte_of b) "").
Proof.
  intros Ha Hb. unfold encode_rune, is_surrogate. set (r := (a - 192) * 64 + (b - 128)).
  assert (r / 64 = a - 192 /\ r mod 64 = b - 128) as [H1 H2] by (subst r; split; zdiv).
  rewrite (proj2 (Z.ltb_ge r 0)), (proj2 (Z.ltb_ge 1114111 r)), (proj2 (Z.leb_gt 55296 r)) by (subst r; lia). cbn [orb andb].
  rewrite (proj2 (Z.ltb_ge r 128)), (proj2 (Z.ltb_lt r 2048)) by (subst r; lia). rewrite H1, H2. do 3 f_equal; lia.
Qed.

Lemma encode_3 (a b c : Z) : 224 <= a <= 239 -> (if a =? 224 then 160 else 128) <= b <= (if a =? 237 then 159 else 191) ->
  128 <= c <= 191 ->
  encode_rune ((a - 224) * 4096 + (b - 128) * 64 + (c - 128)) = String (byte_of a) (String (byte_of b) (String (byte_of c) "")).
Proof.
  intros Ha Hb Hc. unfold encode_rune, is_surrogate. set (r := (a - 224) * 4096 + (b - 128) * 64 + (c - 128)).
  assert (Hr : 2048 <= r < 65536 /\ ~ (55296 <= r < 57344)).
  { subst r. destruct (Z.eqb_spec a 224), (Z.eqb_spec a 237); lia. }
  assert (128 <= b <= 191) as Hb' by (destruct (a =? 224), (a =? 237); lia). clear Hb.
  assert (r / 4096 = a - 224 /\ r / 64 mod 64 = b - 128 /\ r mod 64 = c - 128) as (H1 & H2 & H3) by (subst r; split_and!; zdiv).
  assert ((r <? 0) || (1114111 <? r) || ((55296 <=? r) && (r <? 57344)) = false) as ->.
  { rewrite !orb_false_iff, andb_false_iff, !Z.ltb_ge, Z.leb_gt. lia. }
  rewrite (proj2 (Z.ltb_ge r 128)), (proj2 (Z.ltb_ge r 2048)), (proj2 (Z.ltb_lt r 65536)) by lia.
  rewrite H1, H2, H3. do 4 f_equal; lia.
Qed.

Lemma encode_4 (a b c d : Z) : 240 <= a <= 244 -> (if a =? 240 then 144 else 128) <= b <= (if a =? 244 then 143 else 191) ->
  128 <= c <= 191 -> 128 <= d <= 191 ->
  encode_rune ((a - 240) * 262144 + (b - 128) * 4096 + (c - 128) * 64 + (d - 128)) =
  String (byte_of a) (String (byte_of b) (String (byte_of c) (String (byte_of d) ""))).
Proof.
  intros Ha Hb Hc Hd. unfold encode_rune, is_surrogate.
  set (r := (a - 240) * 262144 + (b - 128) * 4096 + (c - 128) * 64 + (d - 128)).
  assert (Hr : 65536 <= r <= 1114111) by (subst r; destruct (Z.eqb_spec a 240), (Z.eqb_spec a 244); lia).
  assert (128 <= b <= 191) as Hb' by (destruct (a =? 240), (a =? 244); lia). clear Hb.
  assert (r / 262144 = a - 240 /\ r / 4096 mod 64 = b - 128 /\ r / 64 mod 64 = c - 128 /\ r mod 64 = d - 128)
    as (H1 & H2 & H3 & H4) by (subst r; split_and!; zdiv).
  assert ((r <? 0) || (1114111 <? r) || ((55296 <=? r) && (r <? 57344)) = false) as ->.
  { rewrite !orb_false_iff, andb_false_iff, !Z.ltb_ge, Z.leb_gt. lia. }
  rewrite (proj2 (Z.ltb_ge r 128)), (proj2 (Z.ltb_ge r 2048)), (proj2 (Z.ltb_ge r 65536)) by lia.
  rewrite H1, H2, H3, H4. do 5 f_equal; lia.
Qed.

(** A decoded rune is the bytes it encodes to, and decodes alike before any
    text. *)
Lemma decode_valid (c : ascii) (r : string) (rr : Z) (size : nat) :
  128 <= byte_val c -> decode_rune (String c r) = (rr, size) -> (rr =? rune_error) && (size =? 1)%nat = false ->
  exists rest, String c r = encode_rune rr +:+ rest /\ String.length (encode_rune rr) = size /\
    (forall t, decode_rune (encode_rune rr +:+ t) = (rr, size)) /\
    str_forallb (fun c => 128 <=? byte_val c) (encode_rune rr) = true /\ (2 <= size)%nat.
Proof.
  intros Hc Hd Hb. unfold decode_rune in Hd. rewrite (proj2 (Z.ltb_ge _ _)) in Hd by lia. unfold cont in Hd.
  destruct (in_range 194 223 c) eqn:H2.
  { destruct r as [|b r]; [by injection Hd as <- <-|]. destruct (in_range 128 191 b) eqn:Hb1; [|by injection Hd as <- <-].
    injection Hd as <- <-. pose proof (proj1 (in_range_iff _ _ _) H2). pose proof (proj1 (in_range_iff _ _ _) Hb1).
    rewrite encode_2, !byte_of_val by lia. exists r. split_and!; [done|done| | |lia].
    - intros t. cbn [String.append decode_rune]. unfold cont. rewrite (proj2 (Z.ltb_ge _ _)) by lia. by rewrite H2, Hb1.
    - cbn [str_forallb]. rewrite !(proj2 (Z.leb_le _ _)) by lia. done. }
  destruct (in_range 224 239 c) eqn:H3.
  { destruct r as [|b [|d r]]; try by injection Hd as <- <-.
    destruct (in_range _ _ b && in_range 128 191 d) eqn:Hb1; [|by injection Hd as <- <-].
    pose proof Hb1 as Hb2. apply andb_true_iff in Hb2 as [Hbb Hdd].
    injection Hd as <- <-. pose proof (proj1 (in_range_iff _ _ _) H3). pose proof (proj1 (in_range_iff _ _ _) Hbb) as Hr.
    pose proof (proj1 (in_range_iff _ _ _) Hdd). assert (128 <= byte_val b) by (destruct (byte_val c =? 224); lia).
    rewrite encode_3, !byte_of_val by lia. exists r. split_and!; [done|done| | |lia].
    - intros t. cbn [String.append decode_rune]. unfold cont. rewrite (proj2 (Z.ltb_ge _ _)) by lia. by rewrite H2, H3, Hb1.
    - cbn [str_forallb]. rewrite !(proj2 (Z.leb_le _ _)) by lia. done. }
  destruct (in_range 240 244 c) eqn:H4; [|by injection Hd as <- <-].
  destruct r as [|b [|d [|e r]]]; try by injection Hd as <- <-.
  destruct (in_range _ _ b && in_range 128 191 d && in_range 128 191 e) eqn:Hb1; [|by injection Hd as <- <-].
  pose proof Hb1 as Hb2. rewrite !andb_true_iff in Hb2. destruct Hb2 as [[Hbb Hdd] Hee].
  injection Hd as <- <-. pose proof (proj1 (in_range_iff _ _ _) H4). pose proof (proj1 (in_range_iff _ _ _) Hbb) as Hr.
  pose proof (proj1 (in_range_iff _ _ _) Hdd). pose proof (proj1 (in_range_iff _ _ _) Hee).
  assert (128 <= byte_val b) by (destruct (byte_val c =? 240); lia).
  rewrite encode_4, !byte_of_val by lia. exists r. split_and!; [done|done| | |lia].
  - intros t. cbn [String.append decode_rune]. unfold cont. rewrite (proj2 (Z.ltb_ge _ _)) by lia. by rewrite H2, H3, H4, Hb1.
  - cbn [str_forallb]. rewrite !(proj2 (Z.leb_le _ _)) by lia. done.
Qed.

(** *** One unit *)
Definition unit_ascii (c : ascii) : string :=
  if html_safe c then String c ""
  else if Ascii.eqb c "\" || Ascii.eqb c dquote then String "\" (String c "")
  else if byte_val c =? 8 then "\b" else if byte_val c =? 12 then "\f" else if byte_val c =? 10 then "\n"
  else if byte_val c =? 13 then "\r" else if byte_val c =? 9 then "\t" else u00 c.

Lemma unit_ascii_reads (c : ascii) (t : string) : byte_val c < 128 ->
  unquote_go (unit_ascii c +:+ t) 0 = (rest ← unquote_go t 0; Some (String c rest)).
Proof. intros H. destruct c as [[] [] [] [] [] [] [] []]; first [reflexivity | exfalso; revert H; vm_compute; discriminate]. Qed.

Lemma unit_ascii_wf (c : ascii) (t : string) : byte_val c < 128 -> wf_body t = true -> wf_body (unit_ascii c +:+ t) = true.
Proof.
  intros Hc Ht. apply body_view_wf.
  destruct c as [[] [] [] [] [] [] [] []];
    first [exfalso; revert Hc; vm_compute; discriminate | apply BVPlain; [discriminate|discriminate|by vm_compute|exact Ht]
          | apply BVEscape; [reflexivity|exact Ht] | apply BVUnicode; [reflexivity|exact Ht]].
Qed.

Lemma high_wf (b t : string) : str_forallb (fun c => 128 <=? byte_val c) b = true -> wf_body t = true -> wf_body (b +:+ t) = true.
Proof.
  intros Hb Ht. induction b as [|c b IH]; [done|]. cbn in Hb. apply andb_true_iff in Hb as [Hc%Z.leb_le Hb].
  cbn [String.append]. apply body_view_wf, BVPlain; [intros ->; by vm_compute in Hc|intros ->; by vm_compute in Hc|lia|by apply IH].
Qed.

Lemma high_reads (b t : string) (rr : Z) (size : nat) :
  decode_rune (b +:+ t) = (rr, size) -> encode_rune rr = b -> String.length b = size -> (2 <= size)%nat ->
  str_forallb (fun c => 128 <=? byte_val c) b = true ->
  unquote_go (b +:+ t) 0 = (rest ← unquote_go t 0; Some (b +:+ rest)).
Proof.
  intros Hd He Hl Hs Hb. destruct b as [|c b]; [cbn in Hl; lia|]. cbn in Hb. apply andb_true_iff in Hb as [Hc%Z.leb_le Hb].
  cbn [String.append] in *. cbn [unquote_go unquote_unit].
  rewrite (proj2 (Ascii.eqb_neq c "\")) by (intros ->; by vm_compute in Hc).
  rewrite (proj2 (Ascii.eqb_neq c dquote)) by (intros ->; by vm_compute in Hc). cbn [orb].
  rewrite (proj2 (Z.ltb_ge (byte_val c) 32)), (proj2 (Z.ltb_ge (byte_val c) 128)) by lia. rewrite Hd. cbn [mbind option_bind].
  cbn [String.length] in Hl. rewrite unquote_go_skip by (rewrite str_length_app; lia).
  replace (size - 1)%nat with (String.length b) by lia. by rewrite str_drop_exact, He.
Qed.

(** What one unit of the input becomes, and what it is read back as. *)
Lemma quote_unit_spec (c : ascii) (r : string) :
  let '(out, w) := quote_unit (String c r) in
  (1 <= w <= S (String.length r))%nat /\
  (forall t, wf_body t = true -> wf_body (out +:+ t) = true) /\
  (byte_val c < 128 \/ (let '(rr, size) := decode_rune (String c r) in (rr =? rune_error) && (size =? 1)%nat = false) ->
   exists p rest, String c r = p +:+ rest /\ String.length p = w /\
     forall t, unquote_go (out +:+ t) 0 = (rest ← unquote_go t 0; Some (p +:+ rest))).
Proof.
  unfold quote_unit. destruct (Z.ltb_spec (byte_val c) 128) as [Hc|Hc].
  { fold (unit_ascii c). split; [lia|]. split; [by intros; apply unit_ascii_wf|]. intros _. exists (String c ""), r.
    split; [done|]. split; [done|]. intros t. by rewrite unit_ascii_reads. }
  pose proof (decode_rune_width c r) as Hw. destruct (decode_rune (String c r)) as [rr size] eqn:Hd. cbn in Hw.
  destruct ((rr =? rune_error) && (size =? 1)%nat) eqn:Hbad.
  { split; [lia|]. split; [intros t Ht; by apply body_view_wf, BVUnicode|]. intros [?|?]; [lia|done]. }
  destruct (decode_valid c r rr size Hc Hd Hbad) as (rest & Hs & Hl & Hdec & Hhigh & Hsize).
  destruct (Z.eqb_spec rr 8232) as [->|H8232].
  { split; [lia|]. split; [intros t Ht; by apply body_view_wf, BVUnicode|]. intros _. exists (encode_rune 8232), rest.
    split; [done|]. split; [done|]. reflexivity. }
  destruct (Z.eqb_spec rr 8233) as [->|H8233].
  { split; [lia|]. split; [intros t Ht; by apply body_view_wf, BVUnicode|]. intros _. exists (encode_rune 8233), rest.
    split; [done|]. split; [done|]. reflexivity. }
  rewrite Hs, <- Hl, str_take_app. rewrite <- Hl in *. split; [cbn in Hw; lia|].
  split; [by intros; apply high_wf|]. intros _. exists (encode_rune rr), rest.
  split; [done|]. split; [done|]. intros t. by apply (high_reads _ t rr (String.length (encode_rune rr))).
Qed.

(** ** The round trip *)
Lemma quote_wf (s : string) : wf_body (quote_body s) = true.
Proof.
  unfold quote_body. induction s as [s IH] using str_length_ind. destruct s as [|c r]; [done|]. cbn [quote_go].
  pose proof (quote_unit_spec c r) as H. destruct (quote_unit (String c r)) as [out w]. destruct H as (Hw & Hwf & _).
  apply Hwf. rewrite quote_skip. apply IH. rewrite str_length_drop. cbn. lia.
Qed.

Lemma quote_unquote (s : string) : ValidUTF8 s = true -> unquote (quote_body s) = Some s.
Proof.
  unfold quote_body, unquote, ValidUTF8. induction s as [s IH] using str_length_ind. destruct s as [|c r]; [done|].
  cbn [quote_go valid_utf8_go]. pose proof (quote_unit_spec c r) as H.
  assert (Hwidth : (quote_unit (String c r)).2 = (decode_rune (String c r)).2).
  { unfold quote_unit. destruct (Z.ltb_spec (byte_val c) 128) as [Hc|Hc].
    - cbn. by rewrite (proj2 (Z.ltb_lt _ _)).
    - destruct (decode_rune (String c r)) as [rr size]. cbn. destruct (rr =? rune_error) eqn:Hr; cbn [andb].
      + destruct (Nat.eqb_spec size 1) as [->|]; [done|]. repeat case_match; done.
      + repeat case_match; done. }
  destruct (quote_unit (String c r)) as [out w]. destruct (decode_rune (String c r)) as [rr size]. cbn in Hwidth. subst size.
  intros [Hok Hv]%andb_true_iff. apply negb_true_iff in Hok. destruct H as (Hw & _ & Hr).
  destruct (Hr (or_intror Hok)) as (p & rest & Hs & Hl & Hread). rewrite Hread, quote_skip. rewrite valid_skip in Hv.
  assert (str_drop (w - 1) r = rest) as Hrest.
  { destruct p as [|c' p]; [cbn in Hl; lia|]. cbn in Hs. injection Hs as <- ->. cbn in Hl. subst w. cbn.
    by rewrite Nat.sub_0_r, str_drop_exact. }
  rewrite Hrest in *. rewrite IH; [cbn; by rewrite Hs| |done].
  rewrite Hs, str_length_app. lia.
Qed.

(** A marshalled string is the text of a JSON string and reads back. *)
Lemma MarshalString_print (s : string) : MarshalString s = print (CStr (quote_body s)) /\ wf 0 (CStr (quote_body s)) = true.
Proof. split; [done|]. apply quote_wf. Qed.

Lemma quote_body_inj (s t : string) : ValidUTF8 s = true -> ValidUTF8 t = true -> quote_body s = quote_body t -> s = t.
Proof.
  intros Hs Ht Heq. pose proof (quote_unquote s Hs) as H1. rewrite Heq, quote_unquote in H1 by done. by injection H1.
Qed.

(** ** What unquoting gives is valid UTF-8 *)
Lemma valid_ascii (c : ascii) (t : string) : byte_val c < 128 -> valid_utf8_go (String c t) 0 = valid_utf8_go t 0.
Proof.
  intros Hc. cbn [valid_utf8_go decode_rune]. rewrite (proj2 (Z.ltb_lt _ _)) by done.
  rewrite (proj2 (Z.eqb_neq (byte_val c) rune_error)) by (unfold rune_error; lia). done.
Qed.

(** An encoded rune before any text. *)
Lemma valid_rune (r : Z) (t : string) : valid_utf8_go (encode_rune r +:+ t) 0 = valid_utf8_go t 0.
Proof.
  unfold encode_rune, is_surrogate. set (v := if (r <? 0) || (1114111 <? r) || ((55296 <=? r) && (r <? 57344)) then rune_error else r).
  assert (0 <= v <= 1114111 /\ (v < 55296 \/ 57344 <= v)) as [Hv Hs].
  { subst v. destruct (Z.ltb_spec r 0), (Z.ltb_spec 1114111 r), (Z.leb_spec 55296 r), (Z.ltb_spec r 57344); cbn; unfold rune_error; lia. }
  clearbody v. destruct (Z.ltb_spec v 128); [cbn [String.append]; apply valid_ascii; rewrite byte_val_of; lia|].
  assert (forall size x y u, decode_rune (String x (String y u)) = (v, size) -> (2 <= size)%nat ->
    valid_utf8_go (String x (String y u)) 0 = valid_utf8_go (String y u) (size - 1)) as Hstep.
  { intros size x y u Hd Hsize. cbn [valid_utf8_go]. rewrite Hd. destruct (Nat.eqb_spec size 1); [lia|]. by rewrite andb_false_r. }
  destruct (Z.ltb_spec v 2048); [|destruct (Z.ltb_spec v 65536)]; cbn [String.append].
  - assert (2 <= v / 64 <= 31 /\ 0 <= v mod 64 < 64 /\ v = v / 64 * 64 + v mod 64) by zdiv.
    rewrite (Hstep 2%nat); [done| |lia]. cbn [decode_rune]. unfold cont, in_range. rewrite !byte_val_of by lia.
    repeat first [rewrite (proj2 (Z.ltb_ge _ _)) by lia|rewrite (proj2 (Z.leb_le _ _)) by lia]. cbn [andb]. f_equal. lia.
  - assert (0 <= v / 4096 <= 15 /\ 0 <= v / 64 mod 64 < 64 /\ 0 <= v mod 64 < 64 /\ v = v / 4096 * 4096 + v / 64 mod 64 * 64 + v mod 64 /\
      (v / 4096 = 0 -> 32 <= v / 64 mod 64) /\ (v / 4096 = 13 -> v / 64 mod 64 <= 31)) as (Q1 & Q2 & Q3 & Q4 & Q5 & Q6) by (split_and!; zdiv).
    rewrite (Hstep 3%nat); [done| |lia]. cbn [decode_rune]. unfold cont, in_range. rewrite !byte_val_of by lia.
    rewrite (proj2 (Z.ltb_ge _ _)), (proj2 (Z.leb_gt (224 + v / 4096) 223)) by lia. rewrite andb_false_r.
    repeat rewrite (proj2 (Z.leb_le _ _)) by (destruct (Z.eqb_spec (224 + v / 4096) 224), (Z.eqb_spec (224 + v / 4096) 237); lia).
    cbn [andb]. f_equal. lia.
  - assert (0 <= v / 262144 <= 4 /\ 0 <= v / 4096 mod 64 < 64 /\ 0 <= v / 64 mod 64 < 64 /\ 0 <= v mod 64 < 64 /\
      v = v / 262144 * 262144 + v / 4096 mod 64 * 4096 + v / 64 mod 64 * 64 + v mod 64 /\
      (v / 262144 = 0 -> 16 <= v / 4096 mod 64) /\ (v / 262144 = 4 -> v / 4096 mod 64 <= 15)) as (Q1 & Q2 & Q3 & Q4 & Q5 & Q6 & Q7)
      by (split_and!; zdiv).
    rewrite (Hstep 4%nat); [done| |lia]. cbn [decode_rune]. unfold cont, in_range. rewrite !byte_val_of by lia.
    rewrite (proj2 (Z.ltb_ge _ _)), (proj2 (Z.leb_gt (240 + v / 262144) 223)), (proj2 (Z.leb_gt (240 + v / 262144) 239)) by lia.
    rewrite !andb_false_r.
    repeat rewrite (proj2 (Z.leb_le _ _)) by (destruct (Z.eqb_spec (240 + v / 262144) 240), (Z.eqb_spec (240 + v / 262144) 244); lia).
    cbn [andb]. f_equal. lia.
Qed.

Lemma unquote_unit_valid (s out t : string) (w : nat) :
  unquote_unit s = Some (out, w) -> valid_utf8_go (out +:+ t) 0 = valid_utf8_go t 0.
Proof.
  destruct s as [|c r]; [done|]. cbn [unquote_unit]. destruct (Ascii.eqb c "\").
  - destruct r as [|e r]; [done|]. destruct (simple_escape_value e) as [v|] eqn:Hv.
    + intros [= <- <-]. cbn [String.append]. apply valid_ascii. revert Hv. unfold simple_escape_value.
      repeat case_match; intros [= <-]; try by vm_compute. rewrite !orb_true_iff, !Ascii.eqb_eq in *. by destruct_or?; subst; vm_compute.
    + intros (rr & _ & Hu)%bind_Some. destruct (is_surrogate rr); [|by injection Hu as <- <-; apply valid_rune].
      destruct (_ ≫= decode_pair rr); injection Hu as <- <-; apply valid_rune.
  - destruct (Ascii.eqb c dquote || (byte_val c <? 32)); [done|]. destruct (Z.ltb_spec (byte_val c) 128).
    + intros [= <- <-]. cbn [String.append]. by apply valid_ascii.
    + destruct (decode_rune (String c r)) as [rr size]. intros [= <- <-]. apply valid_rune.
Qed.

Lemma unquote_valid (b s : string) : unquote b = Some s -> ValidUTF8 s = true.
Proof.
  unfold unquote, ValidUTF8. generalize 0%nat at 1 as k. revert s. induction b as [|c b IH]; intros s k; [by intros [= <-]|].
  cbn [unquote_go]. destruct k as [|k]; [|apply IH]. intros ([out w] & Hu & (rest & Hr & [= <-])%bind_Some)%bind_Some.
  rewrite (unquote_unit_valid _ _ _ _ Hu). by eapply IH.
Qed.

(** ** Objects under quoted keys *)
Definition quoted (fields : list (string * cst)) : list (string * cst) := map (fun '(k, v) => (quote_body k, v)) fields.

Lemma quoted_wf (d : N) (fields : list (string * cst)) :
  (d < max_depth)%N -> Forall (fun '(_, v) => wf (d + 1) v = true) fields -> wf d (jobj (quoted fields)) = true.
Proof.
  intros Hd Hall. unfold jobj. cbn [wf]. rewrite (proj2 (N.ltb_lt _ _) Hd).
  rewrite (bool_decide_eq_true_2 ("" = "")), orb_true_r by done. cbn [andb]. rewrite andb_true_l.
  induction Hall as [|[k v] fields Hv _ IH]; [done|]. cbn. rewrite quote_wf, Hv. cbn. exact IH.
Qed.

Lemma quoted_read (fields : list (string * cst)) (d : N) :
  (d < max_depth)%N -> Forall (fun '(k, v) => ValidUTF8 k = true /\ wf (d + 1) v = true) fields ->
  is_raw_at d (print (jobj (quoted fields))) /\
  UnmarshalRawMap (print (jobj (quoted fields))) = Some (Some (store_entries ∅ (map (fun '(k, v) => (k, print v)) fields))).
Proof.
  intros Hd Hall. assert (wf d (jobj (quoted fields)) = true) as Hwf.
  { apply quoted_wf; [done|]. eapply Forall_impl; [exact Hall|]. by intros [k v] [_ ?]. }
  split; [by eexists|]. unfold UnmarshalRawMap. rewrite parse_print by (by eapply (wf_mono _ d); [lia|]).
  unfold jobj. cbn [mbind option_bind decode_raw_map].
  enough (entries (map (fun '(k, v) => Member "" k "" "" v "") (quoted fields)) = map (fun '(k, v) => (k, print v)) fields) as -> by done.
  clear Hwf. induction Hall as [|[k v] fields [Hk _] _ IH]; [done|]. unfold entries in *. cbn. fold (unquote (quote_body k)). rewrite (quote_unquote k Hk). cbn. by f_equal.
Qed.

(** Every key of a decoded object is valid UTF-8. *)
Lemma UnmarshalRawMap_keys (s : string) (m : gmap string string) (k v : string) :
  UnmarshalRawMap s = Some (Some m) -> m !! k = Some v -> ValidUTF8 k = true.
Proof.
  intros (ws1 & ws & ms & ws2 & Hp & ->)%UnmarshalRawMap_Some Hk.
  apply store_entries_lookup in Hk as [Hk|Hin]; [by rewrite lookup_empty in Hk|].
  unfold entries in Hin. apply in_map_iff in Hin as (x & [= <- _] & _).
  destruct (unquote (m_key x)) eqn:Hu; [by eapply unquote_valid|done].
Qed.

(** A marshalled map of raw messages is the object of its
    compacted members, and reads back as them. *)
Lemma MarshalRawMap_reads (m : gmap string string) (s : string) :
  (forall k v, m !! k = Some v -> is_raw_at 1 v /\ ValidUTF8 k = true) -> MarshalRawMap m = Some s ->
  is_raw s /\ exists m', UnmarshalRawMap s = Some (Some m') /\ forall k, m' !! k = m !! k ≫= MarshalRaw.
Proof.
  intros Hm Hs. unfold MarshalRawMap in Hs. apply bind_Some in Hs as (parts & Hparts & [= <-]).
  assert (exists fields : list (string * cst), map fst fields = sorted_keys m /\
    parts = map (fun '(k, v) => MarshalString k +:+ String ":" (print v)) fields /\
    Forall (fun '(k, v) => ValidUTF8 k = true /\ wf 1 v = true) fields /\
    Forall (fun '(k, v) => m !! k ≫= MarshalRaw = Some (print v)) fields) as (fields & Hks & Hp & Hwf & Hv).
  { apply mapM_Some in Hparts. assert (Hin : Forall (fun k => k ∈ sorted_keys m) (sorted_keys m)) by by apply Forall_forall.
    revert Hin Hparts. generalize (sorted_keys m) at 2 3 4. intros ks. revert parts.
    induction ks as [|k ks IH]; intros parts Hin Hparts.
    - apply Forall2_nil_inv_l in Hparts as ->. by exists [].
    - apply Forall2_cons_inv_l in Hparts as (part & parts' & Hpart & Hparts & ->).
      apply Forall_cons in Hin as [[v Hkv]%sorted_keys_in Hin]. destruct (IH _ Hin Hparts) as (fields & <- & -> & H1 & H2).
      destruct (Hm k v Hkv) as [(c & -> & Hc) Hpk]. rewrite Hkv in Hpart. cbn [mbind option_bind] in Hpart.
      rewrite MarshalRaw_raw in Hpart by (by eapply (wf_mono _ 1); [lia|]). cbn [mbind option_bind] in Hpart.
      injection Hpart as <-. exists ((k, compact_cst html_escape c) :: fields).
      split; [done|]. split; [done|].
      split; constructor; try done.
      + split; [done|]. apply compact_wf; [apply html_escape_wf|done].
      + rewrite Hkv. cbn. apply MarshalRaw_raw. by eapply (wf_mono _ 1); [lia|]. }
  assert (Hprint : String "{" (commas parts +:+ "}") = print (jobj (quoted fields))).
  { unfold jobj, quoted. cbn [print]. rewrite str_app_nil_l. do 2 f_equal. subst parts. rewrite !map_map. f_equal.
    apply map_ext. intros [k v]. cbn. unfold MarshalString. by rewrite str_app_nil_r. }
  rewrite Hprint. destruct (quoted_read fields 0 ltac:(done) Hwf) as [Hraw Hread]. split; [exact Hraw|].
  eexists. split; [exact Hread|]. intros k.
  assert (Hkeys : (map (fun '(k, v) => (k, print v)) fields).*1 = sorted_keys m).
  { rewrite <- Hks. clear. induction fields as [|[k v] fields IH]; [done|]. cbn. f_equal. exact IH. }
  assert (Hnd : NoDup (sorted_keys m)).
  { unfold sorted_keys. rewrite merge_sort_Permutation. apply NoDup_fst_map_to_list. }
  destruct (decide (k ∈ sorted_keys m)) as [Hin|Hnin].
  - rewrite <- Hks in Hin. apply list_elem_of_fmap in Hin as ([k' v] & -> & Hin). cbn [fst].
    rewrite Forall_forall in Hv. rewrite (Hv _ Hin). apply store_entries_in; [by rewrite Hkeys|].
    apply list_elem_of_fmap. by exists (k', v).
  - rewrite store_entries_other, lookup_empty by (by rewrite Hkeys).
    destruct (m !! k) eqn:Hk; [|done]. destruct Hnin. apply sorted_keys_in. by rewrite Hk.
Qed.

(** ** [map[string]string]

    [json.Marshal] writes the members by key. *)
Definition MarshalStringMap (m : gmap string string) : string :=
  String "{" (commas (map (fun k => MarshalString k +:+ String ":" (MarshalString (default "" (m !! k)))) (sorted_keys m)) +:+ "}").

Definition string_member (m : member cst) : option (string * string) :=
  k ← unquote (m_key m);
  v ← match m_val m with CStr b => unquote b | _ => None end;
  Some (k, v).

(** An object of strings, as a reader of the text takes it. *)
Definition UnmarshalStringMap (data : string) : option (gmap string string) :=
  '(_, c, _) ← parse data;
  match c with CObj _ ms => store_entries ∅ <$> mapM string_member ms | _ => None end.

Lemma string_fields_wf (l : list (string * string)) :
  wf 0 (jobj (map (fun '(k, v) => (quote_body k, CStr (quote_body v))) l)) = true.
Proof.
  unfold jobj. cbn [wf]. rewrite (bool_decide_eq_true_2 ("" = "")), orb_true_r by done. cbn.
  induction l as [|[k v] l IH]; [done|]. cbn. rewrite !quote_wf. exact IH.
Qed.

Lemma string_member_quoted (k v : string) : ValidUTF8 k = true -> ValidUTF8 v = true ->
  string_member (Member "" (quote_body k) "" "" (CStr (quote_body v)) "") = Some (k, v).
Proof. intros Hk Hv. unfold string_member. cbn [m_key m_val]. by rewrite !quote_unquote. Qed.

(** The text of a map of well-formed strings reads back as that map. *)
Lemma string_map_roundtrip (m : gmap string string) :
  map_Forall (fun k v => ValidUTF8 k = true /\ ValidUTF8 v = true) m -> UnmarshalStringMap (MarshalStringMap m) = Some m.
Proof.
  intros Hm. set (l := map (fun k => (k, default "" (m !! k))) (sorted_keys m)).
  assert (MarshalStringMap m = print (jobj (map (fun '(k, v) => (quote_body k, CStr (quote_body v))) l))) as ->.
  { unfold MarshalStringMap, jobj, l. cbn [print]. rewrite str_app_nil_l. do 2 f_equal. rewrite !map_map. f_equal. apply map_ext.
    intros k. cbn. unfold MarshalString. by rewrite str_app_nil_r. }
  unfold UnmarshalStringMap. rewrite parse_print by apply string_fields_wf. unfold jobj. cbn [mbind option_bind].
  assert (mapM string_member (map (fun '(k, v) => Member "" k "" "" v "") (map (fun '(k, v) => (quote_body k, CStr (quote_body v))) l)) = Some l) as ->.
  { rewrite map_map. apply mapM_fmap_Forall_Some. unfold l. apply Forall_forall.
    intros [k v] Hin. apply list_elem_of_fmap in Hin as (k' & [= -> ->] & [v Hv]%sorted_keys_in).
    rewrite Hv. cbn [default]. destruct (Hm k' v Hv). by apply string_member_quoted. }
  cbn. f_equal. apply map_eq. intros k. destruct (m !! k) as [v|] eqn:Hk.
  - apply store_entries_in; [|apply list_elem_of_fmap; exists k; split; [by rewrite Hk|apply sorted_keys_in; by rewrite Hk]].
    unfold l. rewrite <- list_fmap_compose. cbn. rewrite list_fmap_id. unfold sorted_keys. rewrite merge_sort_Permutation. apply NoDup_fst_map_to_list.
  - rewrite store_entries_other; [apply lookup_empty|]. unfold l. rewrite <- list_fmap_compose. cbn. rewrite list_fmap_id.
    intros Hin%sorted_keys_in. rewrite Hk in Hin. by destruct Hin.
Qed.
