(* ===== verification/GoFmt.v ===== *)
(** * GoFmt: the texts of errors

    [fmt.Errorf]'s verbs %s, %d, %v, %w and %q over arguments already given as
    strings, and the text of an error.  Standard-library semantics, not
    mapped.  %q keeps every well-formed character above ASCII as it is; Go
    escapes the few of them that Unicode does not count as printable. *)

From S2P Require Import Prelude Strconv Json JsonCodec.
Local Open Scope Z_scope.

Definition hex_byte (c : ascii) : string :=
  String "\" (String "x" (String (hex_digit (byte_val c / 16)) (String (hex_digit (byte_val c mod 16)) ""))).

Definition go_escape (c : ascii) : string :=
  let esc (e : ascii) : string := String "\" (String e "") in
  if Ascii.eqb c dquote || Ascii.eqb c "\" then esc c
  else if byte_val c =? 7 then esc "a"%char else if byte_val c =? 8 then esc "b"%char
  else if byte_val c =? 12 then esc "f"%char else if byte_val c =? 10 then esc "n"%char
  else if byte_val c =? 13 then esc "r"%char else if byte_val c =? 9 then esc "t"%char
  else if byte_val c =? 11 then esc "v"%char
  else if (byte_val c <? 32) || (byte_val c =? 127) then hex_byte c
  else String c "".

(** [strconv.Quote]. *)
Fixpoint go_quote (s : string) (skip : nat) : string :=
  match s with
  | EmptyString => ""
  | String c r =>
      match skip with
      | S k => go_quote r k
      | O =>
          if byte_val c <? 128 then go_escape c +:+ go_quote r 0
          else let '(rr, size) := decode_rune s in
               (if (rr =? rune_error) && (size =? 1)%nat then hex_byte c else str_take size s) +:+ go_quote r (size - 1)
      end
  end.

(** A verb takes the next argument; a missing one is Go's %!v(MISSING), never
    written by this program. *)
Fixpoint Sprintf (format : string) (args : list string) : string :=
  match format with
  | EmptyString => ""
  | String "%" (String verb r) =>
      match args with
      | [] => Sprintf r []
      | a :: args => (if Ascii.eqb verb "q" then qstr (go_quote a 0) else a) +:+ Sprintf r args
      end
  | String c r => String c (Sprintf r args)
  end.

(** [err.Error()]; a wrapped error is the last argument. *)
Fixpoint error_text (e : error) : string :=
  match e with
  | Errorf format args => Sprintf format args
  | Wrapf format args inner => Sprintf format (args ++ [error_text inner])
  | Canceled => "context canceled"
  | DeadlineExceeded => "context deadline exceeded"
  end.

Example sprintf_q : Sprintf "source %q: %s" ["a\b"; "x"] = "source " +:+ qstr "a\\b" +:+ ": x".
Proof. reflexivity. Qed.
