(* ===== verification/GoTime.v ===== *)
(** * GoTime: the parts of package time the payload conversion uses

    The proleptic Gregorian calendar behind [time.Time], formatting with the
    layout ["2006-01-02 15:04:05"], [time.UnixMicro], and [time.Parse] with
    [time.RFC3339Nano].  An instant is its Unix second and its nanosecond.
    Standard-library semantics, not mapped; [civil_epoch] and
    [civil_step] pin the calendar down completely. *)

From S2P Require Import Prelude Strconv.
Local Open Scope Z_scope.

(** ** Calendar *)
Definition is_leap (y : Z) : bool :=
  (y mod 4 =? 0) && (negb (y mod 100 =? 0) || (y mod 400 =? 0)).

(** [daysIn(month, year)]. *)
Definition daysIn (m y : Z) : Z :=
  if m =? 2 then (if is_leap y then 29 else 28)
  else if (m =? 4) || (m =? 6) || (m =? 9) || (m =? 11) then 30 else 31.

(** The computation counts years from 1 March, so the leap day ends the year:
    [era_year] days before year [y] (of era zero), [era_month] before month
    [mp], March being 0. *)
Definition year_days (y : Z) : Z := 365 * y + y / 4 - y / 100 + y / 400.
Definition month_days (mp : Z) : Z := (153 * mp + 2) / 5.

(** Year, month and day of the [z]-th day after 1 January 1970: 400-year eras,
    centuries, four-year groups, years, then the month from the day of year. *)
Definition civil (z : Z) : Z * Z * Z :=
  let z := z + 719468 in
  let era := z / 146097 in
  let doe := z mod 146097 in
  let c := Z.min (doe / 36524) 3 in
  let doc := doe - 36524 * c in
  let q := doc / 1461 in
  let doq := doc - 1461 * q in
  let n := Z.min (doq / 365) 3 in
  let doy := doq - 365 * n in
  let mp := (5 * doy + 2) / 153 in
  let d := doy - month_days mp + 1 in
  let m := if mp <? 10 then mp + 3 else mp - 9 in
  (era * 400 + 100 * c + 4 * q + n + (if m <=? 2 then 1 else 0), m, d).

Definition march_year (y m : Z) : Z := if m <=? 2 then y - 1 else y.
Definition march_month (m : Z) : Z := if m <=? 2 then m + 9 else m - 3.

Definition days_from_civil (y m d : Z) : Z :=
  year_days (march_year y m) + month_days (march_month m) + d - 1 - 719468.

Definition valid_date (y m d : Z) : bool :=
  (1 <=? m) && (m <=? 12) && (1 <=? d) && (d <=? daysIn m y).

(** The day after a date. *)
Definition next_day (y m d : Z) : Z * Z * Z :=
  if d <? daysIn m y then (y, m, d + 1)
  else if m <? 12 then (y, m + 1, 1) else (y + 1, 1, 1).

(** ** Instants *)
Record Time : Type := mkTime { unix : Z; nsec : Z }.

(** [time.UnixMicro]. *)
Definition UnixMicro (us : Z) : Time := mkTime (us / 1000000) (us mod 1000000 * 1000).

(** [appendInt]: zero-padded to [width] digits, the sign before them. *)
Definition pad (width : nat) (n : Z) : string :=
  let s := FormatUint (Z.abs n) in
  (if n <? 0 then "-" else "") +:+ str_repeat (width - String.length s) "0" +:+ s.

(** [t.Format("2006-01-02 15:04:05")] of a UTC time. *)
Definition FormatDateTime (t : Time) : string :=
  let '(y, m, d) := civil (unix t / 86400) in
  let s := unix t mod 86400 in
  pad 4 y +:+ "-" +:+ pad 2 m +:+ "-" +:+ pad 2 d +:+ " " +:+
  pad 2 (s / 3600) +:+ ":" +:+ pad 2 (s / 60 mod 60) +:+ ":" +:+ pad 2 (s mod 60).

(** ** time.Parse(time.RFC3339Nano, value) *)

(** [getnum]: two digits, or one when not [fixed]. *)
Definition getnum (fixed : bool) (s : string) : option (Z * string) :=
  match s with
  | String a r =>
      if is_digit a then
        match r with
        | String b r' =>
            if is_digit b then Some (10 * digit_val a + digit_val b, r')
            else if fixed then None else Some (digit_val a, r)
        | EmptyString => if fixed then None else Some (digit_val a, r)
        end
      else None
  | EmptyString => None
  end.

(** The four digits of the year. *)
Definition get_year (s : string) : option (Z * string) :=
  if (String.length s <? 4)%nat || negb (all_digits (str_take 4 s)) then None
  else Some (dec_value (str_take 4 s), str_drop 4 s).

(** A point or comma and digits are a fraction; only nine digits count. *)
Definition get_fraction (s : string) : Z * string :=
  match s with
  | String p (String d r) =>
      if (Ascii.eqb p "." || Ascii.eqb p ",") && is_digit d then
        let '(ds, r') := str_span is_digit (String d r) in
        let ds := str_take 9 ds in
        (dec_value ds * 10 ^ (9 - Z.of_nat (String.length ds)), r')
      else (0, s)
  | _ => (0, s)
  end.

(** The zone offset in seconds; [Z] is zero. *)
Definition get_zone (s : string) : option (Z * string) :=
  match s with
  | String "Z" r => Some (0, r)
  | String sign (String h1 (String h2 (String c (String m1 (String m2 r))))) =>
      if Ascii.eqb c ":" then
        '(hr, _) ← getnum true (String h1 (String h2 ""));
        '(mm, _) ← getnum true (String m1 (String m2 ""));
        if (24 <? hr) || (60 <? mm) then None
        else
          let off := (hr * 60 + mm) * 60 in
          if Ascii.eqb sign "+" then Some (off, r)
          else if Ascii.eqb sign "-" then Some (- off, r) else None
      else None
  | _ => None
  end.

Definition ParseRFC3339 (s : string) : option Time :=
  '(year, s) ← get_year s;
  s ← strip_prefix "-" s;
  '(month, s) ← getnum true s;
  if (month <? 1) || (12 <? month) then None else
  s ← strip_prefix "-" s;
  '(day, s) ← getnum true s;
  s ← strip_prefix "T" s;
  '(hour, s) ← getnum false s;
  if 24 <=? hour then None else
  s ← strip_prefix ":" s;
  '(min, s) ← getnum true s;
  if 60 <=? min then None else
  s ← strip_prefix ":" s;
  '(sec, s) ← getnum true s;
  if 60 <=? sec then None else
  let '(ns, s) := get_fraction s in
  '(off, s) ← get_zone s;
  if negb (bool_decide (s = "")) then None
  else if (day <? 1) || (daysIn month year <? day) then None
  else Some (mkTime (days_from_civil year month day * 86400 + hour * 3600 + min * 60 + sec - off) ns).

(** ** The calendar is right *)


(** Month lengths from the month table. *)
Lemma month_days_step (y m d : Z) : valid_date y m d = true ->
  1 <= d /\ 1 <= m <= 12 /\ d <= daysIn m y /\
  (m <> 2 -> month_days (march_month m + 1) = month_days (march_month m) + daysIn m y) /\
  (m = 2 -> month_days (march_month m) = 337 /\ daysIn m y = 28 + (if is_leap y then 1 else 0)).
Proof.
  unfold valid_date. rewrite !andb_true_iff, !Z.leb_le. intros (((Hm1 & Hm2) & Hd1) & Hd2).
  split_and!; try done.
  - intros Hm. assert (m = 1 \/ m = 3 \/ m = 4 \/ m = 5 \/ m = 6 \/ m = 7 \/ m = 8 \/ m = 9 \/
      m = 10 \/ m = 11 \/ m = 12) as H by lia. destruct_or! H; subst m; reflexivity.
  - intros ->. split; [reflexivity|]. unfold daysIn. cbn. by destruct (is_leap y).
Qed.

(** A quotient steps exactly when the remainder wraps to zero. *)
Lemma div_step (y k : Z) : 1 < k -> (y + 1) / k = y / k + (if (y + 1) mod k =? 0 then 1 else 0).
Proof.
  intros Hk. pose proof (Z.div_mod y k ltac:(lia)) as Hy. pose proof (Z.mod_pos_bound y k ltac:(lia)) as Hr.
  destruct (Z.eq_dec (y mod k + 1) k) as [He|He].
  - assert (Hm : (y + 1) mod k = 0) by (symmetry; apply (Z.mod_unique _ _ (y / k + 1)); nia).
    rewrite Hm. cbn. symmetry. apply (Z.div_unique _ _ _ 0); nia.
  - assert (Hm : (y + 1) mod k = y mod k + 1) by (symmetry; apply (Z.mod_unique _ _ (y / k)); nia).
    rewrite Hm. destruct (Z.eqb_spec (y mod k + 1) 0); [lia|].
    symmetry. apply (Z.div_unique _ _ _ (y mod k + 1)); nia.
Qed.

Lemma year_days_step (y : Z) : year_days (y + 1) = year_days y + 365 + (if is_leap (y + 1) then 1 else 0).
Proof.
  unfold year_days, is_leap. rewrite !div_step by lia.
  assert (Hdiv : forall j k, 0 < j -> 0 < k -> (y + 1) mod (j * k) = 0 -> (y + 1) mod k = 0).
  { intros j k Hj Hk H. apply Z.mod_divide in H; [|lia]. apply Z.mod_divide; [lia|].
    destruct H as [t ->]. exists (t * j). lia. }
  pose proof (Hdiv 25 4 ltac:(lia) ltac:(lia)) as H4. pose proof (Hdiv 4 100 ltac:(lia) ltac:(lia)) as H400.
  cbn [Z.mul Pos.mul Pos.add Pos.succ] in H4, H400. clear Hdiv.
  destruct (Z.eqb_spec ((y + 1) mod 4) 0), (Z.eqb_spec ((y + 1) mod 100) 0),
    (Z.eqb_spec ((y + 1) mod 400) 0); cbn [andb orb negb]; try lia; exfalso; tauto.
Qed.

(** The day count moves by one from each date to the next. *)
Lemma days_next (y m d : Z) : valid_date y m d = true ->
  let '(y', m', d') := next_day y m d in
  valid_date y' m' d' = true /\ days_from_civil y' m' d' = days_from_civil y m d + 1.
Proof.
  intros Hv. destruct (month_days_step y m d Hv) as (Hd1 & Hm & Hd & Hother & Hfeb).
  unfold next_day. destruct (Z.ltb_spec d (daysIn m y)).
  { split; [unfold valid_date; rewrite !andb_true_iff, !Z.leb_le; lia|unfold days_from_civil; lia]. }
  assert (Hlen : forall a b, 1 <= daysIn a b).
  { intros a b. unfold daysIn. repeat case_match; lia. }
  destruct (Z.ltb_spec m 12).
  - split; [unfold valid_date; rewrite !andb_true_iff, !Z.leb_le; specialize (Hlen (m + 1) y); lia|].
    unfold days_from_civil. destruct (Z.eq_dec m 2) as [->|Hne].
    + destruct (Hfeb eq_refl) as [H1 H2]. pose proof (year_days_step (y - 1)) as Hy.
      rewrite Z.sub_add in Hy. change (march_year y (2 + 1)) with y. change (march_year y 2) with (y - 1).
      change (month_days (march_month (2 + 1))) with 0. lia.
    + specialize (Hother Hne). unfold march_year, march_month in *.
      destruct (Z.leb_spec m 2), (Z.leb_spec (m + 1) 2); try lia.
      * replace (m + 1 + 9) with (m + 9 + 1) by lia. lia.
      * replace (m + 1 - 3) with (m - 3 + 1) by lia. lia.
  - assert (m = 12) as -> by lia. split; [specialize (Hlen 1 (y + 1)); reflexivity|].
    specialize (Hother ltac:(lia)). unfold days_from_civil.
    change (march_year y 12) with y. change (march_year (y + 1) 1) with (y + 1 - 1). replace (y + 1 - 1) with y by lia.
    change (month_days (march_month 12)) with 275 in *. change (month_days (march_month 1)) with 306.
    change (daysIn 12 y) with 31 in *. lia.
Qed.

(** The month and day of a day of the March year, checked on all 366. *)
Definition doy_check (doy : Z) : bool :=
  let mp := (5 * doy + 2) / 153 in
  let d := doy - month_days mp + 1 in
  let m := if mp <? 10 then mp + 3 else mp - 9 in
  (1 <=? m) && (m <=? 12) && (1 <=? d) && (march_month m =? mp) &&
  (d <=? daysIn m (if doy =? 365 then 4 else 1)) && ((m =? 2) || negb (doy =? 365)).

Lemma doy_check_all (doy : Z) : 0 <= doy <= 365 -> doy_check doy = true.
Proof.
  intros H. assert (Hall : forallb doy_check (map Z.of_nat (seq 0 366)) = true) by (vm_compute; reflexivity).
  rewrite forallb_forall in Hall. apply Hall. apply in_map_iff. exists (Z.to_nat doy).
  split; [lia|]. apply in_seq. lia.
Qed.

Lemma year_split (e c q n : Z) :
  0 <= c <= 3 -> 0 <= q <= 24 -> 0 <= n <= 3 ->
  year_days (e * 400 + 100 * c + 4 * q + n) = 146097 * e + 36524 * c + 1461 * q + 365 * n.
Proof.
  intros Hc Hq Hn. unfold year_days.
  replace ((e * 400 + 100 * c + 4 * q + n) / 4) with (e * 100 + 25 * c + q) by (apply (Z.div_unique _ _ _ n); lia).
  replace ((e * 400 + 100 * c + 4 * q + n) / 100) with (e * 4 + c) by (apply (Z.div_unique _ _ _ (4 * q + n)); lia).
  replace ((e * 400 + 100 * c + 4 * q + n) / 400) with e by (apply (Z.div_unique _ _ _ (100 * c + 4 * q + n)); lia).
  lia.
Qed.

(** A date is computed for every day, and it is the date of that day. *)
Lemma civil_all (z : Z) :
  let '(y, m, d) := civil z in valid_date y m d = true /\ days_from_civil y m d = z.
Proof.
  unfold civil. set (z1 := z + 719468). set (e := z1 / 146097). set (doe := z1 mod 146097).
  pose proof (Z.div_mod z1 146097 ltac:(lia)) as Hz. fold e doe in Hz.
  pose proof (Z.mod_pos_bound z1 146097 ltac:(lia)) as Hdoe. fold doe in Hdoe.
  clearbody e doe.
  assert (Hgen : forall a b k, 0 < b -> 0 <= k -> 0 <= a < b * (k + 1) + b -> 
    0 <= Z.min (a / b) k <= k /\ 0 <= a - b * Z.min (a / b) k /\
    (Z.min (a / b) k < k -> a - b * Z.min (a / b) k < b)).
  { intros a b k Hb Hk Ha. pose proof (Z.div_mod a b ltac:(lia)). pose proof (Z.mod_pos_bound a b Hb).
    assert (0 <= a / b) by (apply Z.div_pos; lia). destruct (Z.min_spec (a / b) k) as [[? ->]|[? ->]]; nia. }
  pose proof (Hgen doe 36524 3 ltac:(lia) ltac:(lia) ltac:(lia)) as Hc.
  set (c := Z.min (doe / 36524) 3) in *. clearbody c. set (doc := doe - 36524 * c) in *.
  assert (Hdoc : 0 <= doc <= 36524) by lia.
  pose proof (Z.div_mod doc 1461 ltac:(lia)) as Hq. pose proof (Z.mod_pos_bound doc 1461 ltac:(lia)) as Hq'.
  set (q := doc / 1461) in *. set (doq := doc - 1461 * q) in *.
  assert (Hdoq : 0 <= q <= 24 /\ 0 <= doq <= 1460) by lia. clearbody q.
  pose proof (Hgen doq 365 3 ltac:(lia) ltac:(lia) ltac:(lia)) as Hn.
  set (n := Z.min (doq / 365) 3) in *. set (doy := doq - 365 * n) in *.
  assert (Hdoy : 0 <= doy <= 365) by lia. clearbody n. clear Hgen.
  pose proof (doy_check_all doy ltac:(lia)) as Hck. unfold doy_check in Hck.
  set (mp := (5 * doy + 2) / 153) in *. set (d := doy - month_days mp + 1) in *.
  set (m := if mp <? 10 then mp + 3 else mp - 9) in *.
  rewrite !andb_true_iff, !Z.leb_le, Z.eqb_eq, orb_true_iff, negb_true_iff, Z.eqb_eq, Z.eqb_neq in Hck.
  destruct Hck as (((((Hm1 & Hm2) & Hd1) & Hmp) & Hd2) & H365).
  set (Y := e * 400 + 100 * c + 4 * q + n).
  assert (HY : march_year (Y + (if m <=? 2 then 1 else 0)) m = Y)
    by (unfold march_year; destruct (m <=? 2); lia).
  split.
  - unfold valid_date. rewrite !andb_true_iff, !Z.leb_le. split_and!; try done.
    destruct (Z.eqb_spec doy 365) as [Hlast|Hlast].
    + destruct H365 as [Hm|]; [|done]. rewrite Hm in *. cbn [Z.leb Z.compare Pos.compare Pos.compare_cont].
      assert (Hleap : is_leap (Y + 1) = true); [|unfold daysIn in *; rewrite Hleap; cbn in *; exact Hd2].
      unfold is_leap, Y. rewrite andb_true_iff, orb_true_iff, negb_true_iff, !Z.eqb_eq, Z.eqb_neq.
      assert (Hn3 : n = 3) by lia. subst n.
      assert (c = 3 \/ q <> 24) as Hcq by lia. clear -Hdoq Hc Hcq.
      split; [symmetry; apply (Z.mod_unique _ _ (e * 100 + 25 * c + q + 1)); lia|].
      destruct (Z.eq_dec q 24) as [->|]; [right|left].
      * destruct Hcq as [->|]; [|done]. symmetry. apply (Z.mod_unique _ _ (e + 1)); lia.
      * rewrite <- (Z.mod_unique (e * 400 + 100 * c + 4 * q + 3 + 1) 100 (4 * e + c) (4 * q + 4)); lia.
    + etransitivity; [exact Hd2|]. unfold daysIn. destruct (Z.eqb_spec m 2); [|done].
      change (is_leap 1) with false. destruct (is_leap _); lia.
  - unfold days_from_civil. rewrite HY, Hmp. unfold Y. rewrite year_split by lia. lia.
Qed.

(** Day zero is 1 January 1970. *)
Lemma civil_epoch : civil 0 = (1970, 1, 1).
Proof. reflexivity. Qed.

Lemma year_days_mono (a b : Z) : a < b -> year_days (a + 1) <= year_days b.
Proof.
  intros H. replace b with (a + 1 + (b - a - 1)) by lia. assert (Hk : 0 <= b - a - 1) by lia.
  revert Hk. generalize (b - a - 1). clear H. intros k Hk. pattern k. apply natlike_ind; [|clear k Hk; intros k Hk IH|done].
  - by rewrite Z.add_0_r.
  - unfold Z.succ. rewrite Z.add_assoc, (year_days_step (a + 1 + k)). destruct (is_leap _); lia.
Qed.

Lemma day_in_year (y m d : Z) : valid_date y m d = true ->
  0 <= month_days (march_month m) + d - 1 < year_days (march_year y m + 1) - year_days (march_year y m).
Proof.
  intros Hv. destruct (month_days_step y m d Hv) as (Hd1 & Hm & Hd & Hother & Hfeb).
  rewrite year_days_step. destruct (Z.eq_dec m 2) as [->|Hne].
  - destruct (Hfeb eq_refl) as [-> H2]. unfold march_year. cbn. rewrite Z.sub_add. lia.
  - specialize (Hother Hne).
    assert (Hb : 0 <= march_month m <= 10) by (unfold march_month; destruct (Z.leb_spec m 2); lia).
    assert (0 <= month_days (march_month m) /\ month_days (march_month m + 1) <= 337)
      by (unfold month_days; clear -Hb; zdiv).
    clear Hfeb. destruct (is_leap _); lia.
Qed.

Lemma days_inj (y m d y' m' d' : Z) :
  valid_date y m d = true -> valid_date y' m' d' = true ->
  days_from_civil y m d = days_from_civil y' m' d' -> (y, m, d) = (y', m', d').
Proof.
  intros Hv Hv' He. pose proof (day_in_year _ _ _ Hv) as H. pose proof (day_in_year _ _ _ Hv') as H'.
  unfold days_from_civil in He.
  assert (HY : march_year y m = march_year y' m').
  { destruct (Z.lt_trichotomy (march_year y m) (march_year y' m')) as [Hl|[?|Hl]]; [|done|];
      apply year_days_mono in Hl; lia. }
  rewrite HY in *.
  destruct (month_days_step _ _ _ Hv) as (Hd1 & Hm & Hd & Hother & Hfeb).
  destruct (month_days_step _ _ _ Hv') as (Hd1' & Hm' & Hd' & Hother' & Hfeb').
  assert (Hb : 0 <= march_month m <= 11 /\ 0 <= march_month m' <= 11)
    by (unfold march_month; destruct (Z.leb_spec m 2), (Z.leb_spec m' 2); lia).
  assert (Hlt : forall a b, a < b -> month_days (a + 1) <= month_days b) by (unfold month_days; intros; zdiv).
  assert (HM : march_month m = march_month m').
  { destruct (Z.lt_trichotomy (march_month m) (march_month m')) as [Hl|[?|Hl]]; [|done|];
      pose proof (Hlt _ _ Hl).
    - assert (m <> 2) by (intros ->; cbn in Hl; lia). specialize (Hother ltac:(done)). lia.
    - assert (m' <> 2) by (intros ->; cbn in Hl; lia). specialize (Hother' ltac:(done)). lia. }
  rewrite HM in *. assert (m = m') as ->.
  { unfold march_month in HM. destruct (Z.leb_spec m 2), (Z.leb_spec m' 2); lia. }
  assert (y = y') as -> by (unfold march_year in HY; destruct (m' <=? 2); lia).
  f_equal. lia.
Qed.

Lemma civil_of_days (y m d : Z) :
  valid_date y m d = true -> civil (days_from_civil y m d) = (y, m, d).
Proof.
  intros Hv. pose proof (civil_all (days_from_civil y m d)) as H.
  destruct (civil _) as [[y' m'] d']. destruct H as [Hv' He]. by apply days_inj.
Qed.

(** Each day is followed by the next date of the calendar. *)
Lemma civil_step (z : Z) : civil (z + 1) = let '(y, m, d) := civil z in next_day y m d.
Proof.
  pose proof (civil_all z) as H. destruct (civil z) as [[y m] d]. destruct H as [Hv Hz].
  pose proof (days_next y m d Hv) as Hn. destruct (next_day y m d) as [[y' m'] d'].
  destruct Hn as [Hv' He]. rewrite <- Hz, <- He. by apply civil_of_days.
Qed.

(** A parsed fraction is below one second. *)
Lemma get_fraction_range (s r : string) (ns : Z) : get_fraction s = (ns, r) -> 0 <= ns < 10 ^ 9.
Proof.
  change (10 ^ 9) with 1000000000. unfold get_fraction. destruct s as [|p [|d q]]; try (intros [= <- _]; lia).
  destruct (_ && is_digit d); [|intros [= <- _]; lia].
  destruct (str_span_spec is_digit (String d q)) as (_ & Hd & _).
  destruct (str_span is_digit (String d q)) as [ds r']. cbn [fst snd] in Hd.
  destruct (str_forallb_take is_digit 9 ds Hd) as [Ht _]. pose proof (dec_value_bounds _ Ht) as Hb.
  pose proof (str_length_take 9 ds) as Hl. generalize dependent (str_take 9 ds). intros u Ht Hb Hl [= <- _].
  set (k := Z.of_nat (String.length u)) in *. assert (Hk : 0 <= k <= 9) by lia.
  assert (Hp : 1000000000 = 10 ^ k * 10 ^ (9 - k)) by (rewrite <- Z.pow_add_r by lia; by replace (k + (9 - k)) with 9 by lia).
  assert (0 < 10 ^ (9 - k)) by (apply Z.pow_pos_nonneg; lia). rewrite Hp. clearbody k. split; [apply Z.mul_nonneg_nonneg; lia|]. apply Z.mul_lt_mono_pos_r; lia.
Qed.

Lemma ParseRFC3339_nsec (s : string) (t : Time) : ParseRFC3339 s = Some t -> 0 <= nsec t < 10 ^ 9.
Proof.
  unfold ParseRFC3339. intros H.
  repeat match goal with
  | H : (_ ≫= _) = Some _ |- _ => apply bind_Some in H as (? & _ & H)
  | H : (let '(_, _) := ?x in _) = Some _ |- _ => is_var x; destruct x
  | H : (if ?b then None else _) = Some _ |- _ => destruct b; [discriminate H|]
  end.
  destruct (get_fraction _) as [ns r] eqn:Hf. apply get_fraction_range in Hf.
  apply bind_Some in H as ([off r'] & _ & H). do 2 (case_match; [done|]). by injection H as <-.
Qed.
