(* ===== verification/GoBase64.v ===== *)
(** * GoBase64: which strings [encoding/base64] decodes

    [StdEncoding.DecodeString] and [RawStdEncoding.DecodeString] up to whether
    they return an error, which is all the payload conversion asks.
    Standard-library semantics, not mapped. *)

From S2P Require Import Prelude Strconv.
Local Open Scope Z_scope.

Definition is_b64 (c : ascii) : bool :=
  in_range 65 90 c || in_range 97 122 c || is_digit c || Ascii.eqb c "+" || Ascii.eqb c "/".
Definition is_pad (c : ascii) : bool := Ascii.eqb c "=".
Definition is_newline (c : ascii) : bool := (byte_val c =? 10) || (byte_val c =? 13).

(** Carriage returns and line feeds are skipped anywhere. *)
Fixpoint strip_newlines (s : string) : string :=
  match s with
  | EmptyString => ""
  | String c r => if is_newline c then strip_newlines r else String c (strip_newlines r)
  end.

(** Quanta of four characters; only the last may be padded, to [xx==] or [xxx=].
    The bits a padded quantum leaves over are not checked. *)
Fixpoint std_quanta (s : string) : bool :=
  match s with
  | EmptyString => true
  | String a (String b (String c (String d r))) =>
      is_b64 a && is_b64 b &&
      ((is_b64 c && is_b64 d && std_quanta r) ||
       ((is_b64 c || is_pad c) && is_pad d && bool_decide (r = "")))
  | _ => false
  end.

(** Without padding the last quantum is cut short to two or three characters. *)
Fixpoint raw_quanta (s : string) : bool :=
  match s with
  | EmptyString => true
  | String a (String b EmptyString) => is_b64 a && is_b64 b
  | String a (String b (String c EmptyString)) => is_b64 a && is_b64 b && is_b64 c
  | String a (String b (String c (String d r))) =>
      is_b64 a && is_b64 b && is_b64 c && is_b64 d && raw_quanta r
  | _ => false
  end.

Definition StdDecodes (s : string) : bool := std_quanta (strip_newlines s).
Definition RawStdDecodes (s : string) : bool := raw_quanta (strip_newlines s).

Example std_padded : StdDecodes "aGVsbG8=" = true /\ RawStdDecodes "aGVsbG8=" = false.
Proof. split; reflexivity. Qed.
Example std_unpadded : StdDecodes "aGVsbG8" = false /\ RawStdDecodes "aGVsbG8" = true.
Proof. split; reflexivity. Qed.
