(* ===== verification/GoSha256.v ===== *)
(** * GoSha256: crypto/sha256 and encoding/hex

    The hash the delivery client falls back to for records without an event
    id.  Standard-library semantics, not mapped; checked on test vectors. *)

From S2P Require Import Prelude Strconv.
Local Open Scope Z_scope.

Definition w32 (z : Z) : Z := z mod 2 ^ 32.
Definition rotr (n x : Z) : Z := Z.lor (Z.shiftr x n) (w32 (Z.shiftl x (32 - n))).

(** The constants of FIPS 180-4: the first thirty-two bits of the fractional
    parts of the cube roots of the first sixty-four primes, and of the square
    roots of the first eight. *)
Fixpoint cbrt (bits : nat) (n root : Z) : Z :=
  match bits with
  | O => root
  | S bits =>
      let next := root + Z.shiftl 1 (Z.of_nat bits) in
      cbrt bits n (if next * next * next <=? n then next else root)
  end.

Definition is_prime (n : Z) : bool :=
  forallb (fun d => negb (n mod Z.of_nat d =? 0)) (seq 2 (Z.to_nat (Z.sqrt n) - 1)).

Definition first_primes (n : nat) : list Z := take n (List.filter is_prime (map Z.of_nat (seq 2 400))).

Definition round_constants : list Z :=
  Eval vm_compute in map (fun p => w32 (cbrt 36 (Z.shiftl p 96) 0)) (first_primes 64).

Definition initial_hash : list Z :=
  Eval vm_compute in map (fun p => w32 (Z.sqrt (Z.shiftl p 64))) (first_primes 8).

(** The message schedule: the last sixteen words, newest first, extended. *)
Fixpoint schedule (fuel : nat) (w : list Z) : list Z :=
  match fuel with
  | O => w
  | S fuel =>
      let at_ (i : nat) := default 0 (w !! i) in
      let x := at_ 14%nat in
      let y := at_ 1%nat in
      let s0 := Z.lxor (Z.lxor (rotr 7 x) (rotr 18 x)) (Z.shiftr x 3) in
      let s1 := Z.lxor (Z.lxor (rotr 17 y) (rotr 19 y)) (Z.shiftr y 10) in
      schedule fuel (w32 (at_ 15%nat + s0 + at_ 6%nat + s1) :: w)
  end.

Definition round (h : list Z) (kw : Z * Z) : list Z :=
  match h with
  | [a; b; c; d; e; f; g; hh] =>
      let s1 := Z.lxor (Z.lxor (rotr 6 e) (rotr 11 e)) (rotr 25 e) in
      let ch := Z.lxor (Z.land e f) (Z.land (2 ^ 32 - 1 - e) g) in
      let t1 := w32 (hh + s1 + ch + kw.1 + kw.2) in
      let s0 := Z.lxor (Z.lxor (rotr 2 a) (rotr 13 a)) (rotr 22 a) in
      let maj := Z.lxor (Z.lxor (Z.land a b) (Z.land a c)) (Z.land b c) in
      [w32 (t1 + s0 + maj); a; b; c; w32 (d + t1); e; f; g]
  | _ => h
  end.

Definition compress (h block : list Z) : list Z :=
  let w := rev (schedule 48 (rev block)) in
  zip_with (fun x y => w32 (x + y)) h (foldl round h (zip round_constants w)).

Fixpoint be_words (bytes : list Z) : list Z :=
  match bytes with
  | a :: b :: c :: d :: r => ((a * 256 + b) * 256 + c) * 256 + d :: be_words r
  | _ => []
  end.

Fixpoint str_bytes (s : string) : list Z :=
  match s with EmptyString => [] | String c s => byte_val c :: str_bytes s end.

Definition be_bytes (n : nat) (z : Z) : list Z := rev (map (fun i => Z.shiftr z (8 * Z.of_nat i) mod 256) (seq 0 n)).

Definition padded (s : string) : list Z :=
  let n := Z.of_nat (String.length s) in
  str_bytes s ++ 128 :: replicate (Z.to_nat ((55 - n) mod 64)) 0 ++ be_bytes 8 (8 * n).

Fixpoint hash_blocks (fuel : nat) (h words : list Z) : list Z :=
  match fuel, words with
  | S fuel, _ :: _ => hash_blocks fuel (compress h (take 16 words)) (drop 16 words)
  | _, _ => h
  end.

(** [sha256.Sum256], as its 32 bytes. *)
Definition Sum256 (s : string) : list Z :=
  let words := be_words (padded s) in
  concat (map (be_bytes 4) (hash_blocks (length words) initial_hash words)).

(** [hex.EncodeToString]. *)
Definition hex_lower (d : Z) : ascii := if d <? 10 then byte_of (48 + d) else byte_of (87 + d).
Fixpoint EncodeToString (bytes : list Z) : string :=
  match bytes with
  | [] => ""
  | b :: bytes => String (hex_lower (b / 16)) (String (hex_lower (b mod 16)) (EncodeToString bytes))
  end.

Example sha256_abc :
  EncodeToString (Sum256 "abc") = "ba7816bf8f01cfea414140de5dae2223b00361a396177a9cb410ff61f20015ad".
Proof. vm_compute. reflexivity. Qed.

(** ** Lemmas: shape of the digest *)
Definition bytes_ok (l : list Z) : Prop := Forall (fun b => 0 <= b < 256) l.

Lemma be_bytes_ok (n : nat) (z : Z) : bytes_ok (be_bytes n z) /\ length (be_bytes n z) = n.
Proof.
  unfold be_bytes, bytes_ok. split.
  - apply Forall_rev, List.Forall_map, Forall_forall. intros i _. apply Z.mod_pos_bound. lia.
  - by rewrite length_rev, length_map, length_seq.
Qed.

Lemma concat_be_bytes (l : list Z) :
  bytes_ok (concat (map (be_bytes 4) l)) /\ length (concat (map (be_bytes 4) l)) = (4 * length l)%nat.
Proof.
  induction l as [|z l [IH1 IH2]]; [by split; [constructor|]|]. cbn [map concat]. destruct (be_bytes_ok 4 z) as [H1 H2].
  split; [by apply Forall_app|]. rewrite length_app, H2, IH2. cbn. lia.
Qed.

Lemma round_length (h : list Z) (kws : list (Z * Z)) : length h = 8%nat -> length (foldl round h kws) = 8%nat.
Proof.
  revert h. induction kws as [|kw kws IH]; intros h Hh; [done|]. cbn [foldl]. apply IH.
  do 8 (destruct h as [|? h]; [done|]). by destruct h.
Qed.

Lemma hash_length (fuel : nat) (h words : list Z) : length h = 8%nat -> length (hash_blocks fuel h words) = 8%nat.
Proof.
  revert h words. induction fuel as [|fuel IH]; intros h words Hh; [done|]. destruct words as [|x words]; [done|].
  cbn [hash_blocks]. apply IH. unfold compress. rewrite length_zip_with, round_length; lia.
Qed.

Lemma Sum256_shape (s : string) : bytes_ok (Sum256 s) /\ length (Sum256 s) = 32%nat.
Proof. unfold Sum256. split; [apply concat_be_bytes|]. rewrite (proj2 (concat_be_bytes _)), hash_length; done. Qed.

Lemma hex_length (l : list Z) : String.length (EncodeToString l) = (2 * length l)%nat.
Proof. induction l as [|b l IH]; [done|]. cbn [EncodeToString String.length length]. lia. Qed.

Lemma hex_lower_inj (a b : Z) : 0 <= a < 16 -> 0 <= b < 16 -> hex_lower a = hex_lower b -> a = b.
Proof.
  intros Ha Hb. assert (Hl : forall z, 0 <= z < 16 -> z ∈ [0;1;2;3;4;5;6;7;8;9;10;11;12;13;14;15]).
  { intros z Hz. rewrite !elem_of_cons. lia. }
  apply Hl in Ha, Hb. rewrite !elem_of_cons, elem_of_nil in Ha, Hb.
  destruct_or! Ha; destruct_or! Hb; subst; try done; vm_compute; discriminate.
Qed.

Lemma hex_inj (l k : list Z) : bytes_ok l -> bytes_ok k -> EncodeToString l = EncodeToString k -> l = k.
Proof.
  intros Hl. revert k. induction Hl as [|b l Hb Hl IH]; intros k Hk; destruct Hk as [|b' k Hb' Hk]; [done..|].
  cbn [EncodeToString]. intros [= H1 H2 H3]. apply hex_lower_inj in H1, H2; try zdiv.
  rewrite (IH k Hk H3). f_equal. zdiv.
Qed.
