(* ===== verification/Act.v ===== *)
(** * Act: programs that call the outside world

    An action on a world [W] takes its state and gives an answer and the next
    state.  Components state the calls they need as a class over [W], are
    written once against it, and are proved for every world.  [x <~ m; k] is
    Go's [x, err := m; if err != nil { return err }; k]. *)

From S2P Require Import Prelude.

Definition Act (W A : Type) : Type := W -> A * W.

#[export] Instance act_ret (W : Type) : MRet (Act W) := fun A a w => (a, w).
#[export] Instance act_bind (W : Type) : MBind (Act W) := fun A B f m w => let '(a, w) := m w in f a w.

Definition act_try {W E A B : Type} (m : Act W (result E A)) (k : A -> Act W (result E B)) : Act W (result E B) :=
  fun w => match m w with (Ok a, w) => k a w | (Err e, w) => (Err e, w) end.

Declare Scope act_scope.
Delimit Scope act_scope with act.
Open Scope act_scope.
Notation "x <~ m ; k" := (act_try m (fun x => k))
  (at level 20, m at level 100, k at level 200, right associativity) : act_scope.
Notation "' x <~ m ; k" := (act_try m (fun x => match x with x => k end))
  (at level 20, x pattern, m at level 100, k at level 200, right associativity) : act_scope.

(** Succeed, fail, and the pure part of a program. *)
Definition give {W E A : Type} (a : A) : Act W (result E A) := fun w => (Ok a, w).
Definition throw {W E A : Type} (e : E) : Act W (result E A) := fun w => (Err e, w).
Definition pure {W E A : Type} (r : result E A) : Act W (result E A) := fun w => (r, w).

(** [if cond { return err }] among calls. *)
Definition stop_if {W E : Type} (cond : bool) (e : E) : Act W (result E unit) := pure (reject_if cond e).

Section Lemmas.
Context {W E A B : Type}.

Lemma try_Ok (m : Act W (result E A)) (k : A -> Act W (result E B)) (w w' : W) (b : B) :
  act_try m k w = (Ok b, w') <-> exists a w1, m w = (Ok a, w1) /\ k a w1 = (Ok b, w').
Proof. unfold act_try. destruct (m w) as [[a|e] w1]; naive_solver. Qed.

Lemma try_Err (m : Act W (result E A)) (k : A -> Act W (result E B)) (w w' : W) (e : E) :
  act_try m k w = (Err e, w') <->
  m w = (Err e, w') \/ exists a w1, m w = (Ok a, w1) /\ k a w1 = (Err e, w').
Proof. unfold act_try. destruct (m w) as [[a|e'] w1]; naive_solver. Qed.
End Lemmas.

(** ** Assertions

    [triple P f Q]: from a state with [P], the answer and the next state of [f]
    satisfy [Q]. *)
Section Triples.
Context {M : Type}.

Definition triple {A : Type} (P : M -> Prop) (f : Act M A) (Q : A -> M -> Prop) : Prop :=
  forall m, P m -> Q (f m).1 (f m).2.

Lemma triple_bind {A B : Type} (P : M -> Prop) (f : Act M A) (Q : A -> M -> Prop) (k : A -> Act M B) (R : B -> M -> Prop) :
  triple P f Q -> (forall a, triple (Q a) (k a) R) -> triple P (f ≫= k) R.
Proof.
  intros Hf Hk m Hm. unfold mbind, act_bind. specialize (Hf m Hm). destruct (f m) as [a m1]. cbn in Hf.
  apply (Hk a m1 Hf).
Qed.

Lemma triple_weaken {A : Type} (P P' : M -> Prop) (f : Act M A) (Q Q' : A -> M -> Prop) :
  triple P f Q -> (forall m, P' m -> P m) -> (forall a m, Q a m -> Q' a m) -> triple P' f Q'.
Proof. intros Hf HP HQ m Hm. apply HQ, Hf, HP, Hm. Qed.

Lemma triple_pre {A : Type} (P P' : M -> Prop) (f : Act M A) (Q : A -> M -> Prop) :
  (forall m, P' m -> P m) -> triple P f Q -> triple P' f Q.
Proof. intros HP Hf m Hm. by apply Hf, HP. Qed.

(** A fact about the values at hand. *)
Lemma triple_fact {A : Type} (phi : Prop) (P : M -> Prop) (f : Act M A) (Q : A -> M -> Prop) :
  (phi -> triple P f Q) -> triple (fun m => phi /\ P m) f Q.
Proof. intros Hf m [Hphi Hm]. by apply Hf. Qed.

(** A failing call ends a block of [x <~ m; k]. *)
Lemma triple_try {E A B : Type} (P : M -> Prop) (f : Act M (result E A)) (Q : result E A -> M -> Prop)
  (k : A -> Act M (result E B)) (R : result E B -> M -> Prop) :
  triple P f Q -> (forall a, triple (Q (Ok a)) (k a) R) -> (forall e m, Q (Err e) m -> R (Err e) m) ->
  triple P (act_try f k) R.
Proof.
  intros Hf Hk HR m Hm. unfold act_try. specialize (Hf m Hm). destruct (f m) as [[a|e] m1]; cbn in *;
    [by apply (Hk a m1)|by apply HR].
Qed.

(** Assertions a program keeps. *)
Lemma kept_bind {A B : Type} (P : M -> Prop) (f : Act M A) (k : A -> Act M B) :
  triple P f (fun _ => P) -> (forall a, triple P (k a) (fun _ => P)) -> triple P (f ≫= k) (fun _ => P).
Proof. apply triple_bind. Qed.

Lemma kept_try {E A B : Type} (P : M -> Prop) (f : Act M (result E A)) (k : A -> Act M (result E B)) :
  triple P f (fun _ => P) -> (forall a, triple P (k a) (fun _ => P)) -> triple P (act_try f k) (fun _ => P).
Proof. intros Hf Hk. by apply (triple_try P f (fun _ => P)). Qed.

(** A triple, of a run. *)
Lemma triple_run {A : Type} (P : M -> Prop) (f : Act M A) (Q : A -> M -> Prop) (m m' : M) (a : A) :
  triple P f Q -> P m -> f m = (a, m') -> Q a m'.
Proof. intros Hf Hm Hr. specialize (Hf m Hm). by rewrite Hr in Hf. Qed.
End Triples.
