(* ===== verification/Protocol.v ===== *)
(** * Protocol: acknowledgements, filters and the delivery envelope

    Models [internal/protocol/protocol.go]. *)

From S2P Require Import Prelude Strconv Json JsonCodec Stream.
Local Open Scope Z_scope.

(** ** Acknowledgements *)

(** [iota] order: the zero value is [Retry]. *)
Inductive Acknowledgement : Type := Retry | Success | KeepGoing.

#[export] Instance Acknowledgement_eq_dec : EqDecision Acknowledgement.
Proof. solve_decision. Defined.

(** Decoding the response body into a struct whose only field is
    [Result map[string]json.RawMessage]: every member whose key matches
    [result] decodes into the same map variable, and a member of another type
    makes the whole decoding fail. *)
Definition decode_result_field (acc : option (option (gmap string string))) (m : member cst) :
  option (option (gmap string string)) :=
  m0 ← acc;
  if field_matches "result" (default "" (unquote (m_key m))) then decode_raw_map m0 (m_val m)
  else Some m0.

Definition decode_response (c : cst) : option (option (gmap string string)) :=
  match c with
  | CNull => Some None
  | CObj _ ms => foldl decode_result_field (Some None) ms
  | _ => None
  end.

Definition UnmarshalResponse (body : string) : option (option (gmap string string)) :=
  '(_, c, _) ← parse body; decode_response c.

(** Indexing the [Result] map: a nil map or a missing key gives a nil raw
    message, which is the empty string. *)
Definition result_key (result : option (gmap string string)) (key : string) : string :=
  default "" (result ≫= (fun m => m !! key)).

Definition isSuccess (raw : string) : bool :=
  match UnmarshalAnyMap raw with
  | Some nonnil => nonnil
  | None => false
  end.

(** The struct [errorPolicy] decodes into: three [*string] fields. *)
Record policy_fields : Type := mkPolicyFields {
  pf_policy : option string; pf_class : option string; pf_description : option string }.

Definition decode_policy_field (acc : option policy_fields) (m : member cst) : option policy_fields :=
  e ← acc;
  let key := default "" (unquote (m_key m)) in
  if field_matches "policy" key then
    v ← decode_string_ptr (m_val m); Some (mkPolicyFields v (pf_class e) (pf_description e))
  else if field_matches "class" key then
    v ← decode_string_ptr (m_val m); Some (mkPolicyFields (pf_policy e) v (pf_description e))
  else if field_matches "description" key then
    v ← decode_string_ptr (m_val m); Some (mkPolicyFields (pf_policy e) (pf_class e) v)
  else Some e.

Definition UnmarshalPolicy (raw : string) : option policy_fields :=
  '(_, c, _) ← parse raw;
  match c with
  | CNull => Some (mkPolicyFields None None None)
  | CObj _ ms => foldl decode_policy_field (Some (mkPolicyFields None None None)) ms
  | _ => None
  end.

(** [ok] is false exactly when the result is [None]; the policy returned with
    it is always [Retry]. *)
Definition errorPolicy (raw : string) : option Acknowledgement :=
  match UnmarshalPolicy raw with
  | Some (mkPolicyFields (Some policy) (Some _) (Some _)) =>
      if str_eqb policy "must_retry" then Some Retry
      else if str_eqb policy "keep_going" then Some KeepGoing
      else None
  | _ => None
  end.

(** The acknowledgement and whether an error came with it; every error is
    ["invalid acknowledgement"]. *)
Definition DecodeAcknowledgement (body : string) : Acknowledgement * option error :=
  match UnmarshalResponse body with
  | None => (Retry, Some (Errorf "invalid acknowledgement: %w" []))
  | Some result =>
      if isSuccess (result_key result "success") then (Success, None)
      else match errorPolicy (result_key result "error") with
      | Some policy => (policy, None)
      | None => (Retry, Some (Errorf "invalid acknowledgement" []))
      end
  end.

(** ** Envelope *)
Record Envelope : Type := mkEnvelope {
  DataSourceID : string;
  DataSourceDescription : string;
  DataDestinationID : string;
  DataDestinationDescription : string;
  EnvPayload : string }.

(** [json.Marshal] of an envelope, in field order; only the raw payload can
    make it fail. *)
Definition MarshalEnvelope (e : Envelope) : option string :=
  payload ← MarshalRaw (EnvPayload e);
  let field (name value : string) : string := MarshalString name +:+ ":" +:+ value in
  Some (String "{" (commas [
    field "data_source_id" (MarshalString (DataSourceID e));
    field "data_source_description" (MarshalString (DataSourceDescription e));
    field "data_destination_id" (MarshalString (DataDestinationID e));
    field "data_destination_description" (MarshalString (DataDestinationDescription e));
    field "payload" payload] +:+ "}")).

(** ** Filters *)
Record Filter : Type := mkFilter { FilterColumn : string; Values : list string }.

Definition MatchesFilter (filter : option Filter) (payload : string) : bool :=
  match filter with
  | None => true
  | Some f =>
      match UnmarshalRawMap payload with
      | None => true
      | Some object =>
          match object ≫= (fun m => m !! FilterColumn f) with
          | None => true
          | Some raw =>
              match UnmarshalStringPtr raw with
              | None | Some None => true
              | Some (Some value) => str_mem value (Values f)
              end
          end
      end
  end.

(** ** Lemmas *)

Lemma decode_result_none (ms : list (member cst)) : foldl decode_result_field None ms = None.
Proof. by induction ms. Qed.

Lemma decode_policy_none (ms : list (member cst)) : foldl decode_policy_field None ms = None.
Proof. by induction ms. Qed.

(** A key of the decoded result map comes from the accumulator or from the
    object some matching member holds. *)
Lemma decode_result_lookup (ms : list (member cst)) (m0 m : option (gmap string string)) (k raw : string) :
  Forall (fun x => wf 0 (m_val x) = true) ms ->
  foldl decode_result_field (Some m0) ms = Some m -> m ≫= (fun g => g !! k) = Some raw ->
  m0 ≫= (fun g => g !! k) = Some raw \/
  exists x ws rs v, In x ms /\ field_matches "result" (default "" (unquote (m_key x))) = true /\
    m_val x = CObj ws rs /\ last_value k rs = Some v /\ raw = print v.
Proof.
  intros Hwf. revert m0. induction Hwf as [|x ms Hx Hms IH]; intros m0 Hf Hk; cbn in *.
  - injection Hf as ->. auto.
  - destruct (field_matches _ _) eqn:Hm.
    2:{ destruct (IH _ Hf Hk) as [?|(y & ws & rs & v & ? & ?)]; [by left|right].
        exists y, ws, rs, v. split; [by right|done]. }
    destruct (decode_raw_map m0 (m_val x)) as [m1|] eqn:Hd; [|by rewrite decode_result_none in Hf].
    destruct (IH _ Hf Hk) as [H1|(y & ws & rs & v & ? & ?)].
    2:{ right. exists y, ws, rs, v. split; [by right|done]. }
    destruct (m_val x) as [| | | | |ws rs] eqn:Hv; try done; injection Hd as <-; [done|].
    cbn in H1. rewrite store_lookup in H1 by (by eapply obj_keys_wf).
    destruct (last_value k rs) as [v|] eqn:Hl.
    + right. injection H1 as <-. exists x, ws, rs, v. auto.
    + left. destruct m0 as [g|]; [done|]. cbn in H1. by rewrite lookup_empty in H1.
Qed.

(** Where a field of the decoded policy struct comes from. *)
Definition string_member (field s : string) (ms : list (member cst)) : Prop :=
  exists x b, In x ms /\ field_matches field (default "" (unquote (m_key x))) = true /\
    m_val x = CStr b /\ unquote b = Some s.

Lemma decode_string_ptr_Some (c : cst) (s : string) :
  decode_string_ptr c = Some (Some s) -> exists b, c = CStr b /\ unquote b = Some s.
Proof.
  destruct c; try done. cbn. intros (u & Hu & [= ->])%fmap_Some. eauto.
Qed.

Lemma string_member_cons (field s : string) (x : member cst) (ms : list (member cst)) :
  string_member field s ms -> string_member field s (x :: ms).
Proof. intros (y & b & ? & ?). exists y, b. split; [by right|done]. Qed.

(** Each field of [e] was already in [e0] or comes from a member of [ms]. *)
Definition fields_from (e0 : policy_fields) (ms : list (member cst)) (e : policy_fields) : Prop :=
  (forall s, pf_policy e = Some s -> pf_policy e0 = Some s \/ string_member "policy" s ms) /\
  (forall s, pf_class e = Some s -> pf_class e0 = Some s \/ string_member "class" s ms) /\
  (forall s, pf_description e = Some s ->
     pf_description e0 = Some s \/ string_member "description" s ms).

Lemma fields_from_step (e0 e1 e : policy_fields) (x : member cst) (ms : list (member cst)) :
  fields_from e0 [x] e1 -> fields_from e1 ms e -> fields_from e0 (x :: ms) e.
Proof.
  assert (Hone : forall f s, string_member f s [x] -> string_member f s (x :: ms)).
  { intros f s (y & b & [<-|[]] & ?). exists x, b. split; [by left|done]. }
  intros (Hp & Hc & Hd) (Ip & Ic & Id).
  split_and!; intros s Hs; [destruct (Ip s Hs) as [H|H]|destruct (Ic s Hs) as [H|H]|
    destruct (Id s Hs) as [H|H]]; auto using string_member_cons;
    [destruct (Hp s H)|destruct (Hc s H)|destruct (Hd s H)]; auto.
Qed.

Lemma decode_policy_field_from (x : member cst) (e0 e1 : policy_fields) :
  decode_policy_field (Some e0) x = Some e1 -> fields_from e0 [x] e1.
Proof.
  assert (Hnew : forall field v, field_matches field (default "" (unquote (m_key x))) = true ->
    decode_string_ptr (m_val x) = Some v -> forall s, v = Some s -> string_member field s [x]).
  { intros field v Hm Hv s ->. apply decode_string_ptr_Some in Hv as (b & Hb & Hu).
    exists x, b. split; [by left|done]. }
  unfold decode_policy_field. cbn [mbind option_bind].
  intros H.
  destruct (field_matches "policy" _) eqn:H1; [|destruct (field_matches "class" _) eqn:H2;
    [|destruct (field_matches "description" _) eqn:H3]];
    try (apply bind_Some in H as (v & Hv & H)); injection H as <-;
    (split; [|split]); cbn; intros s Hs; auto; right; by eapply (Hnew _ v).
Qed.

Lemma decode_policy_fields (ms : list (member cst)) (e0 e : policy_fields) :
  foldl decode_policy_field (Some e0) ms = Some e -> fields_from e0 ms e.
Proof.
  revert e0. induction ms as [|x ms IH]; intros e0 H; cbn [foldl] in H.
  - injection H as ->. unfold fields_from. auto.
  - destruct (decode_policy_field (Some e0) x) as [e1|] eqn:Hx; [|by rewrite decode_policy_none in H].
    eapply fields_from_step; [by apply decode_policy_field_from|by apply IH].
Qed.

Lemma parse_obj_members (body ws1 ws ws2 : string) (ms : list (member cst)) :
  parse body = Some (ws1, CObj ws ms, ws2) -> Forall (fun x => wf 0 (m_val x) = true) ms.
Proof.
  intros (_ & _ & _ & Hwf)%parse_iff. apply Forall_forall. intros x Hx%list_elem_of_In.
  by eapply member_wf.
Qed.

(** ** Properties: acknowledgements *)

(** A record is skipped only on an explicit instruction: the body is a JSON
    object with a result object whose error object carries the three string
    members, the policy decoding to exactly [keep_going]. *)
Theorem ack_keep_going_only (body : string) (e : option error) :
  DecodeAcknowledgement body = (KeepGoing, e) ->
  exists ws1 ws ms ws2 x rws rs ews es class description,
    parse body = Some (ws1, CObj ws ms, ws2) /\ In x ms /\
    field_matches "result" (default "" (unquote (m_key x))) = true /\ m_val x = CObj rws rs /\
    last_value "error" rs = Some (CObj ews es) /\
    string_member "policy" "keep_going" es /\ string_member "class" class es /\
    string_member "description" description es.
Proof.
  unfold DecodeAcknowledgement, UnmarshalResponse.
  destruct (parse body) as [[[ws1 c] ws2]|] eqn:Hp; [|done]. cbn [mbind option_bind].
  destruct (decode_response c) as [m|] eqn:Hr; [|done].
  destruct (isSuccess _); [done|].
  destruct (errorPolicy _) as [p|] eqn:He; [|done]. intros [= -> _].
  unfold errorPolicy, UnmarshalPolicy in He.
  destruct (parse (result_key m "error")) as [[[w1 ec] w2]|] eqn:Hep; [|done].
  unfold result_key in Hep. destruct (m ≫= _) as [raw|] eqn:Hk; cbn in Hep; [|done].
  destruct c as [| | | | |ws ms]; try done; [by injection Hr as <-|]. cbn in Hr.
  destruct (decode_result_lookup ms None m "error" raw) as [Hn|(x & rws & rs & v & Hin & Hm & Hv & Hl & ->)];
    [by eapply parse_obj_members|done..|].
  assert (Hwv : wf 0 v = true).
  { pose proof (parse_obj_members _ _ _ _ _ Hp) as Hall. rewrite Forall_forall in Hall.
    specialize (Hall x ltac:(by apply list_elem_of_In)). rewrite Hv in Hall.
    apply last_value_in in Hl as (y & Hy & _ & <-). by eapply member_wf. }
  rewrite parse_print in Hep by done. injection Hep as <- <- <-.
  cbn [mbind option_bind] in He. destruct v as [| | | | |ews es]; try done.
  destruct (foldl _ _ es) as [[[pol|] [cl|] [de|]]|] eqn:Hf; try done.
  apply decode_policy_fields in Hf as (Hpol & Hcl & Hde). cbn in *.
  destruct (str_eqb pol "must_retry"); [done|].
  destruct (str_eqb pol "keep_going") eqn:Hkg; [|done]. apply str_eqb_true in Hkg as ->.
  destruct (Hpol _ eq_refl) as [?|?]; [done|]. destruct (Hcl _ eq_refl) as [?|?]; [done|].
  destruct (Hde _ eq_refl) as [?|?]; [done|].
  exists ws1, ws, ms, ws2, x, rws, rs, ews, es, cl, de. auto 10.
Qed.

(** The response documents of the delivery contract. *)
Definition ack_document (result : list (string * cst)) : string :=
  print (jobj [("result", jobj result)]).
Definition error_object (policy class description : string) : cst :=
  jobj [("policy", CStr policy); ("class", CStr class); ("description", CStr description)].

Lemma UnmarshalResponse_document (result : list (string * cst)) :
  Forall (fun '(k, v) => plain_text k = true /\ wf 2 v = true) result ->
  UnmarshalResponse (ack_document result) =
    Some (Some (store_entries ∅ (map (fun '(k, v) => (k, print v)) result))).
Proof.
  intros H. unfold UnmarshalResponse, ack_document. rewrite parse_print.
  - cbn [mbind option_bind decode_response jobj map foldl]. unfold decode_result_field.
    cbn [mbind option_bind m_key m_val]. rewrite unquote_plain by done. cbn [default from_option id].
    replace (field_matches "result" "result") with true by (vm_compute; reflexivity).
    unfold jobj at 1. cbn [decode_raw_map]. rewrite jobj_entries; [done|].
    eapply Forall_impl; [exact H|]. by intros [k v] [? _].
  - apply jobj_wf; [done|]. constructor; [|done]. split; [done|]. apply jobj_wf; [done|exact H].
Qed.

(** A success object delivers the record even when an error is present too,
    whatever the order and whatever the error holds. *)
Theorem ack_success_wins (ws : string) (ms : list (member cst)) (err : cst) :
  wf 2 (CObj ws ms) = true -> any_ok (CObj ws ms) = true -> wf 2 err = true ->
  DecodeAcknowledgement (ack_document [("success", CObj ws ms)]) = (Success, None) /\
  DecodeAcknowledgement (ack_document [("success", CObj ws ms); ("error", err)]) = (Success, None) /\
  DecodeAcknowledgement (ack_document [("error", err); ("success", CObj ws ms)]) = (Success, None).
Proof.
  intros Hs Hany He.
  assert (Hok : isSuccess (print (CObj ws ms)) = true).
  { unfold isSuccess, UnmarshalAnyMap. rewrite parse_print by (by eapply (wf_mono _ 2)).
    cbn [mbind option_bind]. by rewrite Hany. }
  unfold DecodeAcknowledgement.
  rewrite !UnmarshalResponse_document by (repeat constructor; done).
  unfold result_key, store_entries. cbn [foldl map mbind option_bind].
  split_and!; simplify_map_eq; cbn [default from_option id]; by rewrite Hok.
Qed.

(** The structured error decides by its policy: [must_retry] retries,
    [keep_going] skips, any other policy retries with an error; the class and
    description may hold any text. *)
Theorem ack_policy_decides (policy class description p : string) :
  wf_body policy = true -> wf_body class = true -> wf_body description = true ->
  unquote policy = Some p ->
  DecodeAcknowledgement (ack_document [("error", error_object policy class description)]) =
    if str_eqb p "must_retry" then (Retry, None)
    else if str_eqb p "keep_going" then (KeepGoing, None)
    else (Retry, Some (Errorf "invalid acknowledgement" [])).
Proof.
  intros Hp Hc Hd Hu. unfold DecodeAcknowledgement.
  assert (Hwf : wf 2 (error_object policy class description) = true)
    by (apply jobj_wf; [done|by repeat constructor]).
  rewrite UnmarshalResponse_document by (by repeat constructor).
  unfold result_key, store_entries. cbn [foldl map mbind option_bind].
  rewrite lookup_insert_eq, lookup_insert_ne, lookup_empty by done. cbn [default from_option id].
  replace (isSuccess "") with false by done.
  unfold errorPolicy, UnmarshalPolicy. rewrite parse_print by (by eapply (wf_mono _ 2)).
  unfold error_object, jobj. cbn [mbind option_bind map foldl decode_policy_field m_key m_val].
  rewrite !unquote_plain by done. cbn [default from_option id].
  replace (field_matches "policy" "policy") with true by (vm_compute; reflexivity).
  replace (field_matches "policy" "class") with false by (vm_compute; reflexivity).
  replace (field_matches "policy" "description") with false by (vm_compute; reflexivity).
  replace (field_matches "class" "class") with true by (vm_compute; reflexivity).
  replace (field_matches "class" "description") with false by (vm_compute; reflexivity).
  replace (field_matches "description" "description") with true by (vm_compute; reflexivity).
  destruct (unquote_total _ Hc) as [cl Hcl]. destruct (unquote_total _ Hd) as [de Hde].
  cbn [decode_string_ptr mbind option_bind fmap option_fmap option_map].
  rewrite Hu, Hcl, Hde. cbn. by destruct (str_eqb p "must_retry"), (str_eqb p "keep_going").
Qed.

(** Anything undecodable is a retry carrying an error, and an error never
    comes with another acknowledgement. *)
Theorem ack_error_is_retry (body : string) :
  (Json.Valid body = false -> exists e, DecodeAcknowledgement body = (Retry, Some e)) /\
  (forall a e, DecodeAcknowledgement body = (a, Some e) -> a = Retry).
Proof.
  unfold DecodeAcknowledgement, UnmarshalResponse, Json.Valid. split.
  - intros Hv%bool_decide_eq_false. destruct (parse body); [|eauto]. by destruct Hv.
  - intros a e. repeat case_match; naive_solver.
Qed.

(** ** Properties: filters *)

(** A filter drops a record exactly when the payload is a JSON object whose
    value for the column (the last one, if repeated) is a string outside the
    list; every other payload passes. *)
Theorem filter_drops_iff (f : Filter) (payload : string) :
  MatchesFilter (Some f) payload = false <->
  exists ws1 ws ms ws2 b v,
    parse payload = Some (ws1, CObj ws ms, ws2) /\
    last_value (FilterColumn f) ms = Some (CStr b) /\ unquote b = Some v /\ v ∉ Values f.
Proof.
  unfold MatchesFilter. split.
  - destruct (UnmarshalRawMap payload) as [[m|]|] eqn:Hu; cbn; try done.
    apply UnmarshalRawMap_Some in Hu as (ws1 & ws & ms & ws2 & Hp & ->).
    assert (Hwf : wf 0 (CObj ws ms) = true) by (by apply parse_iff in Hp as (_ & _ & _ & ?)).
    rewrite store_lookup, lookup_empty by (by eapply obj_keys_wf).
    destruct (last_value (FilterColumn f) ms) as [c|] eqn:Hl; [|done].
    assert (Hc : wf 0 c = true) by (apply last_value_in in Hl as (x & Hx & _ & <-); by eapply member_wf).
    unfold UnmarshalStringPtr. rewrite parse_print by done. cbn [mbind option_bind].
    destruct (decode_string_ptr c) as [[v|]|] eqn:Hd; try done.
    apply decode_string_ptr_Some in Hd as (b & -> & Hb).
    intros Hmem%str_mem_false. exists ws1, ws, ms, ws2, b, v. auto.
  - intros (ws1 & ws & ms & ws2 & b & v & Hp & Hl & Hb & Hv).
    assert (Hwf : wf 0 (CObj ws ms) = true) by (by apply parse_iff in Hp as (_ & _ & _ & ?)).
    rewrite (proj2 (UnmarshalRawMap_Some payload (store_entries ∅ (entries ms)))) by eauto 6.
    cbn [mbind option_bind]. rewrite store_lookup, lookup_empty, Hl by (by eapply obj_keys_wf).
    assert (Hc : wf 0 (CStr b) = true) by (apply last_value_in in Hl as (x & Hx & _ & <-); by eapply member_wf).
    unfold UnmarshalStringPtr. rewrite parse_print by done. cbn. rewrite Hb. cbn.
    by apply str_mem_false.
Qed.

(** ** Witnesses *)
Lemma ack_keep_going_only_witness :
  DecodeAcknowledgement (ack_document [("error", error_object "keep_going" "x" "y")])
    = (KeepGoing, None) /\
  exists ws1 ws ms ws2,
    parse (ack_document [("error", error_object "keep_going" "x" "y")]) = Some (ws1, CObj ws ms, ws2).
Proof.
  split; [vm_compute; reflexivity|].
  destruct (ack_keep_going_only (ack_document [("error", error_object "keep_going" "x" "y")]) None
    ltac:(vm_compute; reflexivity)) as (ws1 & ws & ms & ws2 & _ & _ & _ & _ & _ & _ & _ & Hp & _).
  by exists ws1, ws, ms, ws2.
Defined.

Lemma ack_success_wins_witness :
  DecodeAcknowledgement (ack_document [("success", CObj " " [])]) = (Success, None).
Proof.
  apply (ack_success_wins " " [] (CArr "" [Elem "" CNull " "]));
    vm_compute; reflexivity.
Defined.

Lemma ack_policy_decides_witness :
  DecodeAcknowledgement (ack_document [("error", error_object "must_retr\u0079" "c" "d")]) = (Retry, None).
Proof.
  apply (ack_policy_decides "must_retr\u0079" "c" "d" "must_retry"); vm_compute; reflexivity.
Defined.

Lemma ack_error_is_retry_witness :
  exists e, DecodeAcknowledgement "{" = (Retry, Some e).
Proof. apply (ack_error_is_retry "{"). vm_compute. reflexivity. Defined.
