(* ===== verification/Payload.v ===== *)
(** * Payload: converting one captured column value

    Models [internal/protocol/payload.go]: every function of it, from
    [ConvertValue] down to the decimal expansion.  An error keeps its format
    string and arguments, so what it may reveal is visible. *)

From S2P Require Import Prelude Strconv Json JsonCodec GoTime GoBase64 Stream.
Local Open Scope Z_scope.

Definition maxExpandedDigits : Z := Z.shiftl 1 20.

Definition isNull (raw : string) : bool := str_eqb (TrimSpace raw) "null".

Definition decodeString (raw field : string) : result error string :=
  ok_or (Errorf "field %q is not a string" [field]) (UnmarshalString raw).

(** ** Decimal expansion *)
Record decimal : Type := mkDecimal { negative : bool; digits : string; point : Z }.

(** The decoder keeps a number's text ([UseNumber]); decoding text that is
    already valid cannot fail. *)
Definition numberLiteral (raw : string) : result error string :=
  let s := TrimSpace raw in
  if str_eqb s "" || negb (Json.Valid s) then errorf "invalid decimal" []
  else match parse s with
  | None => errorf "invalid decimal" []
  | Some (_, CNum n, _) => Ok (print_number n)
  | Some _ => errorf "not a decimal" []
  end.

Definition splitSign (number : string) : bool * string :=
  if HasPrefix number "-" then (true, str_drop 1 number) else (false, number).

Definition is_e (c : ascii) : bool := Ascii.eqb c "e" || Ascii.eqb c "E".

Definition splitExponent (number : string) : result error (string * Z) :=
  match index_pred is_e number with
  | None => Ok (number, 0)
  | Some index =>
      match Atoi (str_drop (index + 1) number) with
      | Err _ => errorf "decimal exponent out of range" []
      | Ok parsed =>
          if (maxExpandedDigits <? parsed) || (parsed <? - maxExpandedDigits)
          then errorf "decimal exponent out of range" []
          else Ok (str_take index number, parsed)
      end
  end.

(** [len]. *)
Definition zlen (s : string) : Z := Z.of_nat (String.length s).

Definition dropPoint (mantissa : string) (exponent : Z) : string * Z :=
  match IndexByte mantissa "." with
  | None => (mantissa, zlen mantissa + exponent)
  | Some dot => (str_take dot mantissa +:+ str_drop (dot + 1) mantissa, Z.of_nat dot + exponent)
  end.

Definition parseDecimal (raw : string) : result error decimal :=
  literal ← numberLiteral raw;
  let '(negative, unsigned) := splitSign literal in
  '(mantissa, exponent) ← splitExponent unsigned;
  let '(digits, point) := dropPoint mantissa exponent in
  if str_eqb digits "" || (point <? - maxExpandedDigits) || (maxExpandedDigits <? point)
  then errorf "decimal expansion out of range" []
  else Ok (mkDecimal negative digits point).

Definition placePoint (digits : string) (point : Z) : string :=
  if point <=? 0 then "0." +:+ str_repeat (Z.to_nat (- point)) "0" +:+ digits
  else if zlen digits <=? point then digits +:+ str_repeat (Z.to_nat (point - zlen digits)) "0"
  else str_take (Z.to_nat point) digits +:+ "." +:+ str_drop (Z.to_nat point) digits.

Definition trimLeadingZeros (number : string) : string :=
  match IndexByte number "." with
  | None =>
      let trimmed := TrimLeft number "0" in
      if str_eqb trimmed "" then "0" else trimmed
  | Some dot =>
      let integer := TrimLeft (str_take dot number) "0" in
      let fraction := str_drop (dot + 1) number in
      let integer := if str_eqb integer "" then "0" else integer in
      integer +:+ "." +:+ fraction
  end.

Definition decimal_String (d : decimal) : string :=
  let out := trimLeadingZeros (placePoint (digits d) (point d)) in
  (if negative d then "-" else "") +:+ out.

Definition expandDecimal (raw : string) : result error string :=
  d ← parseDecimal raw; Ok (decimal_String d).

(** ** The column types *)
Definition integerLiteral (raw field name : string) (bits : Z) : result error string :=
  match ParseInt (TrimSpace raw) bits with
  | Err _ => errorf "field %q is not a valid %s" [field; name]
  | Ok _ => Ok raw
  end.

(** Whether [strconv.ParseFloat] accepts [s]: a JSON number when it does not
    overflow; of the other syntaxes it knows (hexadecimal, infinities, ...),
    those in [other]. *)
Definition ParseFloat_ok (other : string -> bool) (s : string) (bits : Z) : bool :=
  match scan_number s with
  | Some (n, EmptyString) => float_in_range bits n
  | _ => other s
  end.

Definition floatLiteral_with (other : string -> bool) (raw field name : string) (bits : Z) :
  result error string :=
  if negb (ParseFloat_ok other (TrimSpace raw) bits)
  then errorf "field %q is not a valid %s" [field; name]
  else match expandDecimal raw with
  | Err _ => errorf "field %q is not a valid %s" [field; name]
  | Ok expanded => Ok expanded
  end.

(** No other syntax is a JSON number, so what [other] holds is irrelevant
    ([floatLiteral_other]). *)
Definition floatLiteral (raw field name : string) (bits : Z) : result error string :=
  floatLiteral_with (fun _ => false) raw field name bits.

Definition boolLiteral (raw field : string) : result error string :=
  let v := TrimSpace raw in
  if negb (str_eqb v "true") && negb (str_eqb v "false")
  then errorf "field %q is not a valid %s" [field; "bool"] else Ok raw.

Definition jsonText (raw field : string) : result error string :=
  match decodeString raw field with
  | Err _ => errorf "field %q is not valid JSON text" [field]
  | Ok value =>
      if negb (Json.Valid value) then errorf "field %q is not valid JSON text" [field] else Ok raw
  end.

Definition base64Text (raw field : string) : result error string :=
  value ← decodeString raw field;
  if negb (StdDecodes value) then
    if negb (RawStdDecodes value) then errorf "field %q is not valid base64" [field] else Ok raw
  else Ok raw.

Definition plainText (raw field : string) : result error string :=
  _ ← decodeString raw field; Ok raw.

Definition formatTimestamp (value : Time) (zone : bool) : string :=
  let out := FormatDateTime value in
  let fraction := TrimRight (pad 9 (nsec value)) "0" in
  let out := if negb (str_eqb fraction "") then out +:+ "." +:+ fraction else out in
  if zone then out +:+ "+00" else out.

(** [strconv.Quote] of text without quotes, backslashes or control
    characters, which is all it is given ([formatTimestamp_plain]). *)
Definition Quote (s : string) : string := qstr s.

Definition timestampFromMicros (raw field : string) : result error string :=
  match ParseInt (TrimSpace raw) 64 with
  | Err _ => errorf "field %q is not valid timestamp microseconds" [field]
  | Ok micros => Ok (Quote (formatTimestamp (UnixMicro micros) false))
  end.

Definition timestampFromRFC3339 (raw field : string) : result error string :=
  value ← decodeString raw field;
  match ParseRFC3339 value with
  | None => errorf "field %q is not valid RFC3339" [field]
  | Some parsed => Ok (Quote (formatTimestamp parsed true))
  end.

Definition ConvertValue (typ : PGType) (raw field : string) : result error string :=
  if isNull raw then Ok "null"
  else if str_eqb typ PGInt2 then integerLiteral raw field "int2" 16
  else if str_eqb typ PGInt4 then integerLiteral raw field "int4" 32
  else if str_eqb typ PGInt8 then integerLiteral raw field "int8" 64
  else if str_eqb typ PGFloat4 then floatLiteral raw field "float4" 32
  else if str_eqb typ PGFloat8 then floatLiteral raw field "float8" 64
  else if str_eqb typ PGBool then boolLiteral raw field
  else if str_eqb typ PGJSON then jsonText raw field
  else if str_eqb typ PGBytea then base64Text raw field
  else if str_eqb typ PGText then plainText raw field
  else if str_eqb typ PGTimestamp then timestampFromMicros raw field
  else if str_eqb typ PGTimestamptz then timestampFromRFC3339 raw field
  else errorf "field %q has unsupported type" [field].

#[global] Arguments formatTimestamp : simpl never.

(** ** The documented examples *)
Example convert_int8 : ConvertValue PGInt8 "9007199254740993" "id" = Ok "9007199254740993".
Proof. vm_compute. reflexivity. Qed.
Example convert_float8 : ConvertValue PGFloat8 "1.5e3" "price" = Ok "1500".
Proof. vm_compute. reflexivity. Qed.
Example convert_timestamp :
  ConvertValue PGTimestamp "1700000000000000" "at" = Ok (qstr "2023-11-14 22:13:20").
Proof. vm_compute. reflexivity. Qed.
Example convert_int2 :
  ConvertValue PGInt2 "70000" "n" = errorf "field %q is not a valid %s" ["n"; "int2"].
Proof. vm_compute. reflexivity. Qed.
Example expand_negative : expandDecimal "-2.5E-3" = Ok "-0.0025".
Proof. vm_compute. reflexivity. Qed.

(** ** Strings of digits *)
Definition zeros (n : nat) : string := str_repeat n "0".

Lemma zeros_length (n : nat) : String.length (zeros n) = n.
Proof. induction n as [|n IH]; [done|]. unfold zeros in *. cbn. by rewrite IH. Qed.

Lemma zeros_digits (n : nat) : all_digits (zeros n) = true.
Proof. induction n as [|n IH]; [done|]. unfold zeros, all_digits in *. cbn. by rewrite IH. Qed.

Lemma zeros_value (n : nat) : dec_value (zeros n) = 0.
Proof.
  induction n as [|n IH]; [done|]. change (zeros (S n)) with (String "0" (zeros n)).
  rewrite dec_value_cons, IH. done.
Qed.

(** The integer part as [trimLeadingZeros] leaves it. *)
Definition trim_int (s : string) : string :=
  if str_eqb (TrimLeft s "0") "" then "0" else TrimLeft s "0".

Lemma TrimLeft_zeros (s : string) : exists k, s = zeros k +:+ TrimLeft s "0" /\
  str_stops (Ascii.eqb "0") (TrimLeft s "0") = true.
Proof.
  unfold TrimLeft. destruct (str_span_spec (Ascii.eqb "0") s) as (Hs & Hz & Hr).
  destruct (str_span _ s) as [a b]; cbn [fst snd] in *. exists (String.length a). split; [|done].
  rewrite Hs at 1. f_equal. clear Hs Hr. induction a as [|c a IH]; [done|]. cbn [str_forallb] in Hz.
  apply andb_true_iff in Hz as [<-%Ascii.eqb_eq Ha]. unfold zeros in *. cbn. by rewrite <- IH.
Qed.

Lemma trim_int_spec (s : string) : all_digits s = true ->
  wf_int (trim_int s) = true /\ dec_value (trim_int s) = dec_value s /\
  (String.length (trim_int s) <= S (String.length s))%nat.
Proof.
  intros Hd. destruct (TrimLeft_zeros s) as (k & Hs & Hstop). unfold trim_int.
  destruct (str_eqb _ "") eqn:He; bools.
  - rewrite He, str_app_nil_r in Hs. rewrite Hs, zeros_value, zeros_length. cbn. split_and!; [done..|lia].
  - set (t := TrimLeft s "0") in *. assert (Ht : all_digits t = true).
    { rewrite Hs in Hd. unfold all_digits in *. rewrite str_forallb_app in Hd. bools. tauto. }
    rewrite Hs at 1 2. rewrite dec_value_app, zeros_value, str_length_app, zeros_length. split_and!; [|lia|lia].
    unfold wf_int, digits1. rewrite Ht. bools. right. split; [done|]. clearbody t.
    destruct t as [|c t]; [done|]. cbn [str_stops] in Hstop. rewrite Ascii.eqb_sym. exact Hstop.
Qed.

Lemma wf_int_no (i : string) (p : ascii -> bool) :
  (forall c, is_digit c = true -> p c = false) -> all_digits i = true -> str_forallb (fun c => negb (p c)) i = true.
Proof. intros Hp. apply str_forallb_impl. intros c Hc. by rewrite (Hp c Hc). Qed.

Lemma digit_not_e (c : ascii) : is_digit c = true -> is_e c = false.
Proof.
  intros H. unfold is_e. rewrite orb_false_iff, !Ascii.eqb_neq. split; intros ->; done.
Qed.
Lemma digit_not_point (c : ascii) : is_digit c = true -> Ascii.eqb "." c = false.
Proof. intros H. rewrite Ascii.eqb_neq. intros <-. done. Qed.

(** ** Parsing a literal *)
Definition exponent_of (n : number) : Z :=
  match num_exp n with None => 0 | Some (_, sg, d) => signed_value (sg +:+ d) end.
Definition all_digits_of (n : number) : string := num_int n +:+ default "" (num_frac n).

Definition within (z : Z) : bool := (- maxExpandedDigits <=? z) && (z <=? maxExpandedDigits).

Lemma numberLiteral_num (n : number) :
  wf_number n = true -> numberLiteral (print_number n) = Ok (print_number n).
Proof.
  intros H. change (print_number n) with (print (CNum n)). unfold numberLiteral.
  rewrite TrimSpace_raw by (by exists (CNum n)). rewrite is_raw_Valid by (by exists (CNum n)).
  rewrite parse_print by done. rewrite orb_false_r.
  destruct (str_eqb _ "") eqn:He; [|done]. bools.
  destruct (wf_number_head n H) as (c & t & Hp & _). cbn in He. congruence.
Qed.

Lemma splitSign_num (n : number) : wf_number n = true ->
  splitSign (print_number n) = (num_neg n, num_int n +:+ print_frac (num_frac n) +:+ print_exp (num_exp n)).
Proof.
  destruct n as [neg i f e]. unfold wf_number, print_number, splitSign. cbn. intros H. bools.
  destruct H as [[Hi%wf_int_digits _] _]. destruct neg.
  { done. }
  cbn. unfold HasPrefix. destruct (strip_prefix "-" _) as [r|] eqn:Hr; [|done].
  apply strip_prefix_Some in Hr. apply digits1_spec in Hi as [Hne Hi].
  destruct i as [|c i]; [done|]. injection Hr as -> _. done.
Qed.

Lemma splitExponent_num (m : string) (e : option (ascii * string * string)) :
  str_forallb (fun c => negb (is_e c)) m = true -> match e with None => true | Some x => wf_exp x end = true ->
  splitExponent (m +:+ print_exp e) =
    let x := match e with None => 0 | Some (_, sg, d) => signed_value (sg +:+ d) end in
    if within x then Ok (m, x) else errorf "decimal exponent out of range" [].
Proof.
  intros Hm He. unfold splitExponent. rewrite index_pred_app by done.
  destruct e as [[[l sg] d]|]; cbn [print_exp].
  2:{ cbn. by rewrite str_app_nil_r. }
  unfold wf_exp in He. rewrite !andb_true_iff in He. destruct He as [[Hl Hsg] Hd].
  cbn [index_pred]. unfold is_e at 1. rewrite Hl. cbn [fmap option_fmap option_map].
  rewrite Nat.add_0_r, str_drop_app, str_take_app. cbn [str_drop]. unfold Atoi.
  apply digits1_spec in Hd as [Hne Hd].
  assert (Hs : (split_plus_minus (sg +:+ d)).2 = d) by (apply split_plus_minus_digits; bools; tauto).
  cbv zeta. unfold within. destruct (ParseInt _ 64) as [v|er] eqn:Hp.
  - apply ParseInt_ok in Hp as (_ & _ & -> & _); [|lia].
    rewrite !Z.ltb_antisym, <- negb_andb, andb_comm. by destruct (_ && _).
  - destruct ((_ <=? _) && _) eqn:Hin; [|done]. exfalso. bools.
    assert (ParseInt (sg +:+ d) 64 = Ok (signed_value (sg +:+ d))); [|congruence].
    apply ParseInt_ok; [lia|]. rewrite Hs. change maxExpandedDigits with 1048576 in Hin.
    change (2 ^ (64 - 1)) with 9223372036854775808. split_and!; auto; lia.
Qed.

Lemma dropPoint_num (i : string) (f : option string) (x : Z) :
  all_digits i = true -> dropPoint (i +:+ print_frac f) x = (i +:+ default "" f, zlen i + x).
Proof.
  intros Hi. unfold dropPoint, IndexByte, zlen.
  rewrite index_pred_app by (apply (str_forallb_impl is_digit); [|done]; intros c Hc;
    by rewrite (digit_not_point c Hc)).
  destruct f as [d|]; cbn [print_frac index_pred]; cbn.
  - replace (String.length i + 0 + 1)%nat with (String.length i + 1)%nat by lia.
    rewrite Nat.add_0_r, str_take_app, str_drop_app. done.
  - by rewrite str_app_nil_r.
Qed.

Lemma frac_no_e (i : string) (f : option string) :
  all_digits i = true -> match f with None => true | Some d => digits1 d end = true ->
  str_forallb (fun c => negb (is_e c)) (i +:+ print_frac f) = true.
Proof.
  intros Hi Hf. assert (Hno : forall s, all_digits s = true -> str_forallb (fun c => negb (is_e c)) s = true).
  { intros s. apply str_forallb_impl. intros c Hc. by rewrite (digit_not_e c Hc). }
  rewrite str_forallb_app, (Hno i Hi). destruct f as [d|]; [|done].
  apply digits1_spec in Hf as [_ Hd]. cbn. by apply Hno.
Qed.

(** Parsing a JSON number: its digits, and the point moved by the exponent. *)
Lemma parseDecimal_num (n : number) : wf_number n = true ->
  parseDecimal (print_number n) =
    if within (exponent_of n) then
      if within (zlen (num_int n) + exponent_of n)
      then Ok (mkDecimal (num_neg n) (all_digits_of n) (zlen (num_int n) + exponent_of n))
      else errorf "decimal expansion out of range" []
    else errorf "decimal exponent out of range" [].
Proof.
  intros H. unfold parseDecimal. rewrite numberLiteral_num by done. cbn [mbind result_bind].
  rewrite splitSign_num by done.
  destruct n as [neg i f e]. unfold wf_number, exponent_of, all_digits_of in *. cbn [num_int num_frac num_exp num_neg] in *.
  rewrite !andb_true_iff in H. destruct H as [[Hi%wf_int_digits Hf] He].
  apply digits1_spec in Hi as [Hne Hi].
  rewrite <- str_app_assoc, splitExponent_num by (done || by apply frac_no_e). cbv zeta.
  destruct (within match e with None => _ | Some _ => _ end); [|done]. cbn [mbind result_bind].
  rewrite dropPoint_num by done.
  destruct (str_eqb (i +:+ _) "") eqn:Hem; [bools; by destruct i|]. cbn [orb]. unfold within.
  rewrite !Z.ltb_antisym, <- negb_andb. by destruct (_ && _).
Qed.

(** ** Decimal values

    A value is a signed coefficient and a power of ten; two denote the same
    rational when they agree once brought to the smaller power. *)
Definition dec_eq (a b : Z * Z) : Prop :=
  let e := Z.min a.2 b.2 in a.1 * 10 ^ (a.2 - e) = b.1 * 10 ^ (b.2 - e).

Definition num_value (n : number) : Z * Z :=
  ((if num_neg n then -1 else 1) * dec_value (all_digits_of n),
   exponent_of n - zlen (default "" (num_frac n))).

(** The text [placePoint] and [trimLeadingZeros] produce, as a number. *)
Definition expanded (neg : bool) (D : string) (p : Z) : number :=
  if p <=? 0 then Number neg "0" (Some (zeros (Z.to_nat (- p)) +:+ D)) None
  else if zlen D <=? p then Number neg (trim_int (D +:+ zeros (Z.to_nat (p - zlen D)))) None None
  else Number neg (trim_int (str_take (Z.to_nat p) D)) (Some (str_drop (Z.to_nat p) D)) None.

Lemma trim_no_point (s : string) : all_digits s = true -> trimLeadingZeros s = trim_int s.
Proof.
  intros Hs. unfold trimLeadingZeros, IndexByte. rewrite <- (str_app_nil_r s) at 1.
  rewrite index_pred_app; [done|]. apply (str_forallb_impl is_digit); [|done].
  intros c Hc. by rewrite (digit_not_point c Hc).
Qed.

Lemma trim_point (s t : string) : all_digits s = true ->
  trimLeadingZeros (s +:+ "." +:+ t) = trim_int s +:+ "." +:+ t.
Proof.
  intros Hs. unfold trimLeadingZeros, IndexByte. rewrite index_pred_app.
  2:{ apply (str_forallb_impl is_digit); [|done]. intros c Hc. by rewrite (digit_not_point c Hc). }
  cbn. replace (String.length s + 0 + 1)%nat with (String.length s + 1)%nat by lia.
  rewrite Nat.add_0_r, str_take_app, str_drop_app. done.
Qed.

Lemma decimal_String_expanded (neg : bool) (D : string) (p : Z) : all_digits D = true ->
  decimal_String (mkDecimal neg D p) = print_number (expanded neg D p).
Proof.
  intros HD. unfold decimal_String, placePoint, expanded, print_number. cbn [digits point negative].
  destruct (Z.leb_spec p 0); [|destruct (Z.leb_spec (zlen D) p)]; cbn [num_neg num_int num_frac num_exp];
    f_equal; cbn [print_frac print_exp]; rewrite ?str_app_nil_r.
  - change ("0." +:+ ?x) with ("0" +:+ "." +:+ x). by rewrite trim_point.
  - apply trim_no_point. unfold all_digits in *. rewrite str_forallb_app, HD. apply zeros_digits.
  - apply trim_point. by apply (str_forallb_take is_digit).
Qed.

Lemma expanded_wf (neg : bool) (D : string) (p : Z) :
  all_digits D = true -> D <> "" -> wf_number (expanded neg D p) = true.
Proof.
  intros HD Hne. unfold expanded, wf_number.
  assert (Hz : forall k, all_digits (D +:+ zeros k) = true).
  { intros k. unfold all_digits in *. rewrite str_forallb_app, HD. apply zeros_digits. }
  destruct (str_forallb_take is_digit (Z.to_nat p) D HD) as [Ht Hd].
  destruct (Z.leb_spec p 0); [|destruct (Z.leb_spec (zlen D) p)]; cbn [num_neg num_int num_frac num_exp];
    rewrite andb_true_r.
  - apply digits1_spec. split; [by destruct (zeros _), D|].
    unfold all_digits in *. rewrite str_forallb_app, HD. by rewrite (zeros_digits _).
  - by destruct (trim_int_spec _ (Hz (Z.to_nat (p - zlen D)))) as (-> & _).
  - destruct (trim_int_spec _ Ht) as (-> & _). apply digits1_spec. split; [|done].
    intros He. pose proof (str_length_drop (Z.to_nat p) D) as Hl. rewrite He in Hl. unfold zlen in *. cbn in Hl. lia.
Qed.

Lemma expanded_value (neg : bool) (D : string) (p : Z) : all_digits D = true ->
  dec_eq (num_value (expanded neg D p)) ((if neg then -1 else 1) * dec_value D, p - zlen D).
Proof.
  intros HD. unfold expanded, num_value, all_digits_of, exponent_of, dec_eq.
  assert (Hz : forall k, all_digits (D +:+ zeros k) = true).
  { intros k. unfold all_digits in *. rewrite str_forallb_app, HD. apply zeros_digits. }
  destruct (str_forallb_take is_digit (Z.to_nat p) D HD) as [Ht Hd].
  destruct (Z.leb_spec p 0); [|destruct (Z.leb_spec (zlen D) p)];
    cbn [num_neg num_int num_frac num_exp default from_option id fst snd].
  - assert (He : 0 - zlen (zeros (Z.to_nat (- p)) +:+ D) = p - zlen D)
      by (unfold zlen; rewrite str_length_app, zeros_length; lia).
    assert (Hv : dec_value ("0" +:+ zeros (Z.to_nat (- p)) +:+ D) = dec_value D)
      by (rewrite !dec_value_app, zeros_value; done).
    by rewrite He, Hv.
  - rewrite str_app_nil_r. destruct (trim_int_spec _ (Hz (Z.to_nat (p - zlen D)))) as (_ & -> & _).
    rewrite dec_value_app, zeros_value, zeros_length. change (zlen "") with 0.
    rewrite Z2Nat.id, Z.min_l, !Z.sub_0_r by lia. rewrite Z.pow_0_r. ring.
  - rewrite dec_value_app. destruct (trim_int_spec _ Ht) as (_ & -> & _). rewrite <- dec_value_app, str_take_drop.
    assert (He : 0 - zlen (str_drop (Z.to_nat p) D) = p - zlen D)
      by (unfold zlen in *; rewrite str_length_drop; lia).
    by rewrite He.
Qed.

Lemma expanded_length (neg : bool) (D : string) (p : Z) :
  all_digits D = true -> within p = true ->
  zlen (print_number (expanded neg D p)) <= zlen D + maxExpandedDigits + 3.
Proof.
  intros HD Hp. unfold within in Hp. bools. unfold expanded, print_number, zlen in *.
  assert (Hz : forall k, all_digits (D +:+ zeros k) = true).
  { intros k. unfold all_digits in *. rewrite str_forallb_app, HD. apply zeros_digits. }
  destruct (str_forallb_take is_digit (Z.to_nat p) D HD) as [Ht Hd].
  assert (Hneg : (String.length (if neg then "-" else "") <= 1)%nat) by (destruct neg; cbn; lia).
  destruct (Z.leb_spec p 0); [|destruct (Z.leb_spec (Z.of_nat (String.length D)) p)];
    cbn [num_neg num_int num_frac num_exp print_frac print_exp]; rewrite !str_length_app;
    cbn [String.length].
  - rewrite str_length_app, zeros_length. lia.
  - destruct (trim_int_spec _ (Hz (Z.to_nat (p - Z.of_nat (String.length D))))) as (_ & _ & Hlen).
    rewrite str_length_app, zeros_length in Hlen. lia.
  - destruct (trim_int_spec _ Ht) as (_ & _ & Hlen). rewrite str_length_take in Hlen.
    rewrite str_length_drop. lia.
Qed.

Lemma all_digits_of_wf (n : number) : wf_number n = true ->
  all_digits (all_digits_of n) = true /\ all_digits_of n <> "" /\
  zlen (all_digits_of n) <= zlen (print_number n).
Proof.
  destruct n as [neg i f e]. unfold wf_number, all_digits_of, print_number, zlen.
  cbn [num_int num_frac num_neg num_exp]. rewrite !andb_true_iff. intros [[Hi%wf_int_digits Hf] _].
  apply digits1_spec in Hi as [Hne Hi]. rewrite !str_length_app. split_and!.
  - unfold all_digits in *. rewrite str_forallb_app, Hi. destruct f; [|done]. by apply digits1_spec in Hf as [_ ?].
  - by destruct i.
  - destruct f; cbn; lia.
Qed.

Lemma expandDecimal_num (n : number) : wf_number n = true ->
  expandDecimal (print_number n) =
    if within (exponent_of n) then
      if within (zlen (num_int n) + exponent_of n)
      then Ok (print_number (expanded (num_neg n) (all_digits_of n) (zlen (num_int n) + exponent_of n)))
      else errorf "decimal expansion out of range" []
    else errorf "decimal exponent out of range" [].
Proof.
  intros H. unfold expandDecimal. rewrite parseDecimal_num by done.
  destruct (within (exponent_of n)); [|done]. destruct (within _); [|done]. cbn [mbind result_bind].
  rewrite decimal_String_expanded; [done|]. by apply all_digits_of_wf.
Qed.

(** ** Raw messages by column type *)

Lemma isNull_raw (c : cst) : wf 0 c = true -> isNull (print c) = true <-> c = CNull.
Proof.
  intros Hc. unfold isNull. rewrite TrimSpace_raw by (by exists c). bools. split; [|by intros ->].
  intros H. pose proof (parse_print c Hc) as Hp. rewrite H in Hp. by injection Hp.
Qed.

Lemma scan_number_all (s : string) (n : number) :
  scan_number s = Some (n, "") -> s = print_number n /\ wf_number n = true.
Proof. intros [Hs Hw]%scan_number_sound. by rewrite str_app_nil_r in Hs. Qed.

Lemma scan_number_self (n : number) : wf_number n = true -> scan_number (print_number n) = Some (n, "").
Proof. intros H. rewrite <- (str_app_nil_r (print_number n)). by apply scan_number_print. Qed.

(** Whatever else [ParseFloat] accepts, [floatLiteral] rejects. *)
Lemma numberLiteral_scan (raw l : string) : numberLiteral raw = Ok l ->
  exists n, wf_number n = true /\ l = print_number n /\
    exists ws1 ws2, TrimSpace raw = ws1 +:+ print_number n +:+ ws2 /\ all_ws ws1 = true /\ all_ws ws2 = true.
Proof.
  unfold numberLiteral. destruct (_ || _); [done|]. intros H.
  destruct (parse (TrimSpace raw)) as [[[ws1 c] ws2]|] eqn:Hp; [|done].
  destruct c as [| |n| | |]; try done. injection H as <-.
  apply parse_iff in Hp as (Ht & H1 & H2 & Hwf). exists n. split; [done|]. split; [done|]. by exists ws1, ws2.
Qed.

Lemma ws_space (c : ascii) : is_ws c = true -> ascii_space c = true.
Proof. unfold is_ws, ascii_space, in_range. intros H. bools. destruct_or! H; rewrite H; cbn; lia. Qed.

Lemma numberLiteral_trim (raw l : string) : numberLiteral raw = Ok l ->
  exists n, wf_number n = true /\ l = print_number n /\ TrimSpace raw = print_number n.
Proof.
  intros (n & Hn & -> & ws1 & ws2 & Ht & H1 & H2)%numberLiteral_scan. exists n. split; [done|]. split; [done|].
  destruct (TrimSpace_ends raw) as [Hh Hl]. rewrite Ht in *.
  destruct ws1 as [|a ws1].
  2:{ unfold all_ws in H1. cbn in H1. apply andb_true_iff in H1 as [Ha _]. cbn in Hh.
      by rewrite (ws_space a Ha) in Hh. }
  assert (ws2 = "") as ->; [|by rewrite str_app_nil_r].
  destruct (str_rev ws2) as [|a w] eqn:Hr.
  { apply (f_equal str_rev) in Hr. by rewrite str_rev_involutive in Hr. }
  exfalso. rewrite !str_rev_app, Hr in Hl. cbn in Hl.
  apply (f_equal str_rev) in Hr. rewrite str_rev_involutive, str_rev_cons in Hr. subst ws2.
  unfold all_ws in H2. rewrite str_forallb_app in H2. cbn in H2. bools. destruct H2 as [_ [Ha _]].
  by rewrite (ws_space a Ha) in Hl.
Qed.

Lemma floatLiteral_other (other : string -> bool) (raw field name : string) (bits : Z) :
  floatLiteral_with other raw field name bits = floatLiteral raw field name bits.
Proof.
  unfold floatLiteral, floatLiteral_with.
  destruct (expandDecimal raw) as [out|e] eqn:He; [|by repeat destruct (negb _)].
  unfold expandDecimal, parseDecimal in He. apply bind_Ok in He as (d & Hd & _).
  apply bind_Ok in Hd as (l & (n & Hn & _ & Ht)%numberLiteral_trim & _).
  unfold ParseFloat_ok. by rewrite Ht, scan_number_self.
Qed.

(** *** Formatted timestamps are plain text *)
Lemma digits_plain (s : string) : all_digits s = true -> plain_text s = true.
Proof.
  apply str_forallb_impl. intros c H. unfold html_safe.
  assert (Hv := H). apply is_digit_spec in Hv. unfold digit_val in Hv.
  rewrite andb_true_iff, negb_true_iff, !orb_false_iff, !Ascii.eqb_neq. split.
  - unfold in_range. bools. lia.
  - split_and!; intros ->; done.
Qed.

Lemma plain_app (s t : string) : plain_text (s +:+ t) = plain_text s && plain_text t.
Proof. apply str_forallb_app. Qed.

Lemma pad_plain (w : nat) (n : Z) : plain_text (pad w n) = true.
Proof.
  unfold pad. destruct (FormatUint_spec (Z.abs n) ltac:(lia)) as (Hd & _).
  fold (zeros (w - String.length (FormatUint (Z.abs n)))).
  rewrite !plain_app, (digits_plain _ Hd), (digits_plain _ (zeros_digits _)). by destruct (n <? 0).
Qed.

Lemma str_rev_forallb (p : ascii -> bool) (s : string) : str_forallb p (str_rev s) = str_forallb p s.
Proof.
  induction s as [|c s IH]; [done|]. rewrite str_rev_cons, str_forallb_app, IH. cbn.
  by rewrite andb_true_r, andb_comm.
Qed.

Lemma TrimRight_plain (s : string) (c : ascii) : plain_text s = true -> plain_text (TrimRight s c) = true.
Proof.
  unfold TrimRight, plain_text. rewrite str_rev_forallb, <- (str_rev_forallb _ s). intros H.
  destruct (str_span_spec (Ascii.eqb c) (str_rev s)) as (Hs & _). rewrite Hs, str_forallb_app in H.
  by apply andb_true_iff in H as [_ ?].
Qed.

Lemma formatTimestamp_plain (t : Time) (zone : bool) : plain_text (formatTimestamp t zone) = true.
Proof.
  assert (Hd : plain_text (FormatDateTime t) = true).
  { unfold FormatDateTime. destruct (civil _) as [[y m] d]. rewrite !plain_app, !pad_plain. done. }
  unfold formatTimestamp. set (f := TrimRight _ _).
  assert (Hf : plain_text f = true) by apply TrimRight_plain, pad_plain.
  destruct (negb _), zone; rewrite ?plain_app, Hd, ?Hf; done.
Qed.

(** *** Integer literals *)

(** The value of a JSON number written without a fraction or an exponent. *)
Definition int_value (c : cst) : option Z :=
  match c with
  | CNum (Number neg i None None) => Some (if neg then - dec_value i else dec_value i)
  | _ => None
  end.

Lemma split_number (n : number) : wf_number n = true ->
  split_plus_minus (print_number n) =
    (num_neg n, num_int n +:+ print_frac (num_frac n) +:+ print_exp (num_exp n)).
Proof.
  destruct n as [neg i f e]. unfold wf_number, print_number. cbn [num_neg num_int num_frac num_exp].
  rewrite !andb_true_iff. intros [[Hi%wf_int_digits _] _]. destruct neg; [done|].
  apply digits1_spec in Hi as [Hne Hi]. destruct i as [|c i]; [done|]. cbn.
  destruct c as [[] [] [] [] [] [] [] []]; done.
Qed.

Lemma ParseInt_raw (c : cst) (bits : Z) : wf 0 c = true -> 1 < bits <= 64 ->
  (exists v, ParseInt (print c) bits = Ok v) <->
  exists v, int_value c = Some v /\ - 2 ^ (bits - 1) <= v < 2 ^ (bits - 1).
Proof.
  intros Hc Hb. destruct c as [|b|n|b|ws es|ws ms]; cbn [int_value print].
  1,2,4,5,6: split; [|by intros (? & ? & _)]; intros (v & Hv); exfalso;
    apply ParseInt_ok in Hv as (_ & Hd & _); [|done]; (done || by destruct b).
  cbn [wf] in Hc. pose proof (split_number n Hc) as Hs. pose proof Hc as Hn. destruct n as [neg i f e].
  unfold wf_number in Hn. cbn [num_neg num_int num_frac num_exp] in *. rewrite !andb_true_iff in Hn.
  destruct Hn as [[Hi%wf_int_digits Hf] He]. apply digits1_spec in Hi as [Hne Hi].
  split.
  - intros (v & (_ & Hd & -> & Hr)%ParseInt_ok); [|done]. rewrite Hs in Hd. cbn [snd] in Hd.
    unfold all_digits in Hd. rewrite !str_forallb_app in Hd. apply andb_true_iff in Hd as [_ [Hdf Hde]%andb_true_iff].
    assert (f = None) as -> by (by destruct f).
    assert (e = None) as ->.
    { destruct e as [[[l sg] d]|]; [|done]. cbn in Hde, He. apply andb_true_iff in Hde as [Hl _].
      rewrite !andb_true_iff, orb_true_iff, !Ascii.eqb_eq in He. by destruct He as [[[->| ->] _] _]. }
    unfold signed_value in Hr. rewrite Hs in Hr. cbn [print_frac print_exp] in Hr. rewrite !str_app_nil_r in Hr. eauto.
  - intros (v & Hv & Hr). destruct f, e; try done. injection Hv as <-.
    exists (if neg then - dec_value i else dec_value i). apply ParseInt_ok; [done|].
    unfold signed_value. rewrite Hs. cbn [print_frac print_exp snd]. rewrite !str_app_nil_r. auto.
Qed.

(** *** Formatted timestamps parse back *)
Lemma pad_digits (w : nat) (n : Z) : (0 < w)%nat -> 0 <= n < 10 ^ Z.of_nat w ->
  all_digits (pad w n) = true /\ String.length (pad w n) = w /\ dec_value (pad w n) = n.
Proof.
  intros Hw Hn. unfold pad. rewrite Z.abs_eq by lia. destruct (Z.ltb_spec n 0); [lia|].
  destruct (FormatUint_spec n ltac:(lia)) as (Hd & Hne & Hv & Hlen).
  specialize (Hlen (Z.of_nat w) ltac:(lia) ltac:(lia)). cbn [String.append].
  fold (zeros (w - String.length (FormatUint n))). split_and!.
  - unfold all_digits in *. by rewrite str_forallb_app, Hd, (zeros_digits _ : str_forallb _ _ = _).
  - rewrite str_length_app, zeros_length. lia.
  - rewrite dec_value_app, zeros_value, Hv. lia.
Qed.

Lemma getnum_pad (fixed : bool) (n : Z) (r : string) : 0 <= n < 100 -> getnum fixed (pad 2 n +:+ r) = Some (n, r).
Proof.
  intros Hn. destruct (pad_digits 2 n ltac:(lia) ltac:(lia)) as (Hd & Hl & Hv).
  destruct (pad 2 n) as [|a [|b [|? ?]]]; try done. unfold all_digits in Hd. cbn in Hd.
  rewrite !andb_true_iff in Hd. destruct Hd as (Ha & Hb & _). cbn. rewrite Ha, Hb.
  unfold dec_value in Hv. cbn [dec_acc] in Hv. do 2 f_equal. lia.
Qed.

Lemma get_year_pad (y : Z) (r : string) : 0 <= y < 10000 -> get_year (pad 4 y +:+ r) = Some (y, r).
Proof.
  intros Hy. destruct (pad_digits 4 y ltac:(lia) ltac:(lia)) as (Hd & Hl & Hv).
  unfold get_year. rewrite str_length_app, Hl.
  replace (str_take 4 (pad 4 y +:+ r)) with (pad 4 y) by (rewrite <- Hl at 2; by rewrite str_take_app).
  replace (str_drop 4 (pad 4 y +:+ r)) with r
    by (rewrite <- Hl at 1; rewrite <- (Nat.add_0_r (String.length _)), str_drop_app; by destruct r).
  rewrite Hd, Hv. destruct (Nat.ltb_spec (4 + String.length r) 4); [lia|done].
Qed.

Lemma TrimRight_zeros (s : string) : exists k, s = TrimRight s "0" +:+ zeros k.
Proof.
  unfold TrimRight. destruct (TrimLeft_zeros (str_rev s)) as (k & Hk & _). unfold TrimLeft in Hk.
  exists k. apply (f_equal str_rev) in Hk. rewrite str_rev_involutive, str_rev_app in Hk.
  rewrite Hk at 1. f_equal. clear. induction k as [|k IH]; [done|].
  change (zeros (S k)) with (String "0" (zeros k)). rewrite str_rev_cons, IH. clear.
  induction k as [|k IH]; [done|]. change (zeros (S k)) with (String "0" (zeros k)). cbn. by rewrite IH.
Qed.

Definition fraction_text (ns : Z) : string :=
  let fraction := TrimRight (pad 9 ns) "0" in
  if negb (str_eqb fraction "") then "." +:+ fraction else "".

Lemma get_fraction_text (ns : Z) (r : string) : 0 <= ns < 10 ^ 9 ->
  str_stops is_digit r = true -> str_stops (fun c => Ascii.eqb c "." || Ascii.eqb c ",") r = true ->
  get_fraction (fraction_text ns +:+ r) = (ns, r).
Proof.
  intros Hn Hr Hp. destruct (pad_digits 9 ns ltac:(lia) ltac:(done)) as (Hd & Hl & Hv).
  unfold fraction_text. destruct (TrimRight_zeros (pad 9 ns)) as (k & Hk). set (f := TrimRight (pad 9 ns) "0") in *.
  rewrite Hk in Hd, Hl, Hv. rewrite dec_value_app, zeros_value, zeros_length in Hv.
  rewrite str_length_app, zeros_length in Hl. unfold all_digits in Hd. rewrite str_forallb_app in Hd.
  apply andb_true_iff in Hd as [Hf _].
  destruct (str_eqb f "") eqn:He; cbn [negb].
  - bools. rewrite He in Hv. cbn in Hv. replace ns with 0 by lia. cbn [String.append].
    destruct r as [|c [|d r]]; try done. cbn in Hp. unfold get_fraction. apply negb_true_iff in Hp. by rewrite Hp.
  - bools. destruct f as [|d f]; [done|]. cbn [String.append]. unfold get_fraction.
    cbn [str_forallb] in Hf. apply andb_true_iff in Hf as [Hd Hf]. rewrite Hd. cbn [andb].
    change (Ascii.eqb "." ".") with true. cbn [orb].
    replace (String d (f +:+ r)) with (String d f +:+ r) by done.
    rewrite str_span_app by (cbn; rewrite ?Hd; done).
    replace (str_take 9 (String d f)) with (String d f).
    2:{ rewrite <- (str_app_nil_r (String d f)). rewrite <- (str_take_drop 9 (String d f)) at 1.
        assert (str_drop 9 (String d f) = "") as ->; [|by rewrite !str_app_nil_r].
        pose proof (str_length_drop 9 (String d f)) as Hlen. destruct (str_drop _ _); [done|cbn in Hlen, Hl; lia]. }
    f_equal. replace (9 - Z.of_nat (String.length (String d f))) with (Z.of_nat k) by lia. lia.
Qed.

Definition date_text (t : Time) : string :=
  let '(y, m, d) := civil (unix t / 86400) in pad 4 y +:+ "-" +:+ pad 2 m +:+ "-" +:+ pad 2 d.
Definition time_text (t : Time) : string :=
  let s := unix t mod 86400 in
  pad 2 (s / 3600) +:+ ":" +:+ pad 2 (s / 60 mod 60) +:+ ":" +:+ pad 2 (s mod 60) +:+ fraction_text (nsec t).

Lemma formatTimestamp_texts (t : Time) (zone : bool) :
  formatTimestamp t zone = date_text t +:+ " " +:+ time_text t +:+ (if zone then "+00" else "").
Proof.
  unfold formatTimestamp, date_text, time_text, fraction_text, FormatDateTime.
  destruct (civil _) as [[y m] d]. destruct (negb _), zone; str_norm; done.
Qed.

(** A representable four-digit year. *)
Definition year_fits (t : Time) : Prop := 0 <= (civil (unix t / 86400)).1.1 < 10000.

Lemma timestamp_parse (t : Time) : year_fits t -> 0 <= nsec t < 10 ^ 9 ->
  ParseRFC3339 (date_text t +:+ "T" +:+ time_text t +:+ "+00:00") = Some t.
Proof.
  intros Hy Hns. pose proof (civil_all (unix t / 86400)) as Hc. unfold year_fits in Hy.
  unfold date_text, time_text. destruct (civil _) as [[y m] d]. destruct Hc as [Hv Hdays]. cbn [fst] in Hy.
  assert (Hv' := Hv). unfold valid_date in Hv'. bools. destruct Hv' as (((Hm1 & Hm2) & Hd1) & Hd2).
  assert (Hd31 : daysIn m y <= 31) by (unfold daysIn; repeat case_match; lia).
  set (s := unix t mod 86400).
  assert (Hs : 0 <= s < 86400) by (apply Z.mod_pos_bound; lia).
  assert (Hh : 0 <= s / 3600 < 24 /\ 0 <= s / 60 mod 60 < 60 /\ 0 <= s mod 60 < 60) by zdiv.
  unfold ParseRFC3339. str_norm. rewrite get_year_pad by lia. cbn [mbind option_bind].
  do 2 (rewrite strip_prefix_app || cbn [strip_prefix]; change (Ascii.eqb "-" "-") with true; cbn iota; cbn [mbind option_bind];
    rewrite getnum_pad by lia; cbn [mbind option_bind];
    try (rewrite (proj2 (Z.ltb_ge _ _)), (proj2 (Z.ltb_ge _ _)) by lia; cbn [orb])).
  cbn [strip_prefix]. change (Ascii.eqb "T" "T") with true. cbn iota. cbn [mbind option_bind].
  rewrite getnum_pad by lia. cbn [mbind option_bind]. rewrite (proj2 (Z.leb_gt _ _)) by lia.
  do 2 (cbn [strip_prefix]; change (Ascii.eqb ":" ":") with true; cbn iota; cbn [mbind option_bind];
    rewrite getnum_pad by lia; cbn [mbind option_bind]; rewrite (proj2 (Z.leb_gt _ _)) by lia).
  rewrite get_fraction_text by done.
  replace (get_zone "+00:00") with (Some (0, "")) by reflexivity. cbn [mbind option_bind].
  rewrite bool_decide_eq_true_2 by done. cbn [negb].
  destruct t as [u ns]. cbn [unix nsec] in *. do 2 f_equal. rewrite Hdays. subst s. zdiv.
Qed.

(** ** Properties *)

Ltac convert_cases :=
  unfold ConvertValue; cbn [str_eqb]; repeat match goal with
  | |- context [str_eqb ?t ?u] => let H := fresh "Htyp" in destruct (str_eqb t u) eqn:H
  end.

Definition convert_formats : list string :=
  ["field %q is not a valid %s"; "field %q is not a string"; "field %q is not valid JSON text";
   "field %q is not valid base64"; "field %q is not valid timestamp microseconds";
   "field %q is not valid RFC3339"; "field %q has unsupported type"].
Definition convert_names : list (list string) :=
  [[]; ["int2"]; ["int4"]; ["int8"]; ["float4"]; ["float8"]; ["bool"]].

(** Every error of the conversion, by its format. *)
Lemma convert_error_format (typ : PGType) (raw field : string) (e : error) :
  ConvertValue typ raw field = Err e ->
  exists format names, e = Errorf format (field :: names) /\
    format ∈ convert_formats /\ names ∈ convert_names.
Proof.
  assert (Hone : forall f names, f ∈ convert_formats -> names ∈ convert_names -> e = Errorf f (field :: names) ->
    exists format names', e = Errorf format (field :: names') /\ format ∈ convert_formats /\ names' ∈ convert_names)
    by eauto.
  unfold ConvertValue, integerLiteral, floatLiteral, floatLiteral_with, boolLiteral, jsonText, base64Text, plainText,
    timestampFromMicros, timestampFromRFC3339, decodeString, ok_or, errorf. cbn zeta.
  destruct (isNull raw); [done|].
  repeat (case_match; cbn [mbind result_bind]; try done);
    intros [= <-]; (eapply Hone; [| |reflexivity]; apply list_elem_of_In; cbn; auto 10).
Qed.

(** An error names the field and the expected type and nothing else: the value
    is in none of its arguments and in none of its formats. *)
Theorem convert_error_blind (typ : PGType) (raw field : string) (e : error) :
  ConvertValue typ raw field = Err e ->
  exists format names, e = Errorf format (field :: names) /\
    format ∈ convert_formats /\ names ∈ convert_names.
Proof. apply convert_error_format. Qed.

(** Conversion keeps raw messages raw, however deep they stand. *)
Lemma convert_raw_at (d : N) (typ : PGType) (raw field out : string) :
  is_raw_at d raw -> ConvertValue typ raw field = Ok out -> is_raw_at d out.
Proof.
  intros Hraw. assert (Hquote : forall t, plain_text t = true -> is_raw_at d (Quote t)).
  { intros t Ht. exists (CStr t). split; [done|]. by apply wf_body_plain. }
  unfold ConvertValue. destruct (isNull raw); [intros [= <-]; by exists CNull|].
  assert (Hint : forall n b, integerLiteral raw field n b = Ok out -> is_raw_at d out).
  { intros n b. unfold integerLiteral. case_match; [|done]. by intros [= <-]. }
  assert (Hfloat : forall n b, floatLiteral raw field n b = Ok out -> is_raw_at d out).
  { intros n b. unfold floatLiteral, floatLiteral_with. case_match; [done|].
    destruct (expandDecimal raw) as [x|] eqn:Hx; [|done]. intros [= <-].
    destruct Hraw as (c & -> & Hcd). assert (Hc : wf 0 c = true) by (by eapply (wf_mono _ d); [lia|]).
    assert (exists m, c = CNum m) as [m ->].
    { unfold expandDecimal, parseDecimal, numberLiteral in Hx.
      rewrite TrimSpace_raw, parse_print in Hx by (done || by exists c).
      destruct (_ || _); [done|]. destruct c; try done. eauto. }
    cbn [print wf] in *. rewrite expandDecimal_num in Hx by done.
    destruct (within _); [|done]. destruct (within _); [|done]. injection Hx as <-.
    eexists (CNum _). split; [done|]. cbn. apply expanded_wf; by apply all_digits_of_wf. }
  repeat case_match; try (by apply Hint || by apply Hfloat); try done.
  - unfold boolLiteral. case_match; [done|]. by intros [= <-].
  - unfold jsonText. repeat case_match; try done. by intros [= <-].
  - unfold base64Text. destruct (decodeString _ _); [|done]. cbn. repeat case_match; try done; by intros [= <-].
  - unfold plainText. destruct (decodeString _ _); [|done]. cbn. by intros [= <-].
  - unfold timestampFromMicros. case_match; [|done]. intros [= <-]. apply Hquote, formatTimestamp_plain.
  - unfold timestampFromRFC3339. destruct (decodeString _ _); [|done]. cbn. case_match; [|done].
    intros [= <-]. apply Hquote, formatTimestamp_plain.
Qed.

(** Whatever JSON value a column holds, what is sent for it is again exactly
    one JSON value, and stands as deep in a document as the original could. *)
Theorem convert_json (d : N) (typ : PGType) (raw field out : string) :
  is_raw_at d raw -> ConvertValue typ raw field = Ok out -> is_raw_at d out.
Proof. apply convert_raw_at. Qed.

(** The width of an integer column. *)
Definition int_width (typ : PGType) : option (string * Z) :=
  if str_eqb typ PGInt2 then Some ("int2", 16)
  else if str_eqb typ PGInt4 then Some ("int4", 32)
  else if str_eqb typ PGInt8 then Some ("int8", 64) else None.

(** C38. An integer column accepts null and exactly the JSON integers of its
    two's-complement range, and sends them as they are written. *)
Theorem convert_int_exact (typ : PGType) (name field : string) (bits : Z) (c : cst) :
  int_width typ = Some (name, bits) -> wf 0 c = true ->
  ConvertValue typ (print c) field =
    match c, int_value c with
    | CNull, _ => Ok "null"
    | _, Some v =>
        if (- 2 ^ (bits - 1) <=? v) && (v <? 2 ^ (bits - 1)) then Ok (print c)
        else errorf "field %q is not a valid %s" [field; name]
    | _, None => errorf "field %q is not a valid %s" [field; name]
    end.
Proof.
  intros Hw Hc. pose proof (isNull_raw c Hc) as Hnull.
  assert (Hcv : ConvertValue typ (print c) field =
    if isNull (print c) then Ok "null" else integerLiteral (print c) field name bits).
  { unfold ConvertValue. destruct (isNull _); [done|]. unfold int_width in Hw.
    repeat (case_match; try done); by injection Hw as <- <-. }
  assert (Hbits : 1 < bits <= 64) by (unfold int_width in Hw; repeat case_match; simplify_eq; lia).
  assert (Hlit : c <> CNull -> ConvertValue typ (print c) field = integerLiteral (print c) field name bits).
  { intros Hne. rewrite Hcv. destruct (isNull (print c)); [|done]. tauto. }
  pose proof (ParseInt_raw c bits Hc Hbits) as Hp.
  assert (Hint : integerLiteral (print c) field name bits =
    match int_value c with
    | Some v => if (- 2 ^ (bits - 1) <=? v) && (v <? 2 ^ (bits - 1)) then Ok (print c)
        else errorf "field %q is not a valid %s" [field; name]
    | None => errorf "field %q is not a valid %s" [field; name]
    end).
  { unfold integerLiteral. rewrite TrimSpace_raw by (by exists c).
    destruct (ParseInt (print c) bits) as [v|].
    - destruct Hp as [(w & -> & Hw') _]; [eauto|].
      by rewrite (proj2 (Z.leb_le _ _)), (proj2 (Z.ltb_lt _ _)) by lia.
    - destruct (int_value c) as [v|]; [|done]. destruct (_ && _) eqn:Hr; [|done]. bools.
      destruct Hp as [_ Hp]. destruct Hp as [w Hw']; [eauto|done]. }
  destruct c; [by rewrite Hcv; rewrite (proj2 Hnull)|rewrite Hlit by done; exact Hint..].
Qed.

(** The width of a floating-point column. *)
Definition float_width (typ : PGType) : option (string * Z) :=
  if str_eqb typ PGFloat4 then Some ("float4", 32)
  else if str_eqb typ PGFloat8 then Some ("float8", 64) else None.

(** C37. A floating-point column accepts a JSON number exactly when it does not
    overflow the type and its exponent and point stay within 2^20; what is sent
    is the same decimal, to the last digit, without an exponent, and no longer
    than its text and 2^20 characters more. *)
Theorem convert_float_exact (typ : PGType) (name field : string) (bits : Z) (n : number) :
  float_width typ = Some (name, bits) -> wf_number n = true ->
  is_ok (ConvertValue typ (print_number n) field) =
    float_in_range bits n && within (exponent_of n) && within (zlen (num_int n) + exponent_of n) /\
  forall out, ConvertValue typ (print_number n) field = Ok out ->
  exists n', out = print_number n' /\ wf_number n' = true /\ num_exp n' = None /\
    num_neg n' = num_neg n /\ dec_eq (num_value n') (num_value n) /\
    zlen out <= zlen (print_number n) + maxExpandedDigits + 3.
Proof.
  intros Hw Hn. pose proof (isNull_raw (CNum n) Hn) as Hnull. cbn [print] in Hnull.
  assert (Hcv : ConvertValue typ (print_number n) field = floatLiteral (print_number n) field name bits).
  { unfold ConvertValue. destruct (isNull (print_number n)); [discriminate (proj1 Hnull eq_refl)|]. unfold float_width in Hw.
    destruct (str_eqb typ PGFloat4) eqn:H4; [|destruct (str_eqb typ PGFloat8) eqn:H8; [|done]];
      bools; subst; by injection Hw as <- <-. }
  rewrite Hcv. unfold floatLiteral, floatLiteral_with, ParseFloat_ok.
  change (print_number n) with (print (CNum n)). rewrite TrimSpace_raw by (by exists (CNum n)).
  cbn [print]. rewrite scan_number_self, expandDecimal_num by done.
  destruct (float_in_range bits n); [|done]. destruct (within (exponent_of n)); [|done].
  cbn [negb andb]. destruct (within (zlen _ + _)) eqn:Hin; [|done]. split; [done|]. intros out [= <-].
  destruct (all_digits_of_wf n Hn) as (HD & Hne & Hlen).
  eexists. split; [done|]. split; [by apply expanded_wf|].
  split; [unfold expanded; by repeat case_match|]. split; [unfold expanded; by repeat case_match|].
  pose proof (expanded_length (num_neg n) _ _ HD Hin). split; [|lia].
  pose proof (expanded_value (num_neg n) _ (zlen (num_int n) + exponent_of n) HD) as Hv.
  unfold num_value at 2. replace (exponent_of n - zlen (default "" (num_frac n)))
    with (zlen (num_int n) + exponent_of n - zlen (all_digits_of n)); [done|].
  unfold all_digits_of, zlen. rewrite str_length_app. lia.
Qed.

(** C39. A timestamp is rendered without loss: the micros of a plain timestamp and
    the instant of a zoned one, at a four-digit UTC year, are read back from
    what is sent (joined by [T] and in the UTC zone) as that same instant. *)
Theorem convert_timestamp_lossless (typ : PGType) (raw field : string) (t : Time) :
  typ = PGTimestamp /\ (exists us, ParseInt (TrimSpace raw) 64 = Ok us /\ t = UnixMicro us) \/
  typ = PGTimestamptz /\ (exists s, UnmarshalString raw = Some s /\ ParseRFC3339 s = Some t) ->
  isNull raw = false -> year_fits t ->
  exists date time zone,
    ConvertValue typ raw field = Ok (Quote (date +:+ " " +:+ time +:+ zone)) /\
    (zone = if str_eqb typ PGTimestamptz then "+00" else "") /\
    ParseRFC3339 (date +:+ "T" +:+ time +:+ "+00:00") = Some t.
Proof.
  intros Ht Hnull Hy. exists (date_text t), (time_text t), (if str_eqb typ PGTimestamptz then "+00" else "").
  assert (Hns : 0 <= nsec t < 10 ^ 9).
  { destruct Ht as [(_ & us & _ & ->)|(_ & s & _ & Hp)]; [cbn [UnixMicro nsec]; zdiv|].
    by eapply ParseRFC3339_nsec. }
  split; [|split; [done|by apply timestamp_parse]].
  unfold ConvertValue. rewrite Hnull. destruct Ht as [(-> & us & Hp & ->)|(-> & s & Hu & Hp)].
  - cbn -[timestampFromMicros Quote date_text time_text]. unfold timestampFromMicros. rewrite Hp.
    by rewrite formatTimestamp_texts.
  - cbn -[timestampFromRFC3339 Quote date_text time_text]. unfold timestampFromRFC3339, decodeString.
    rewrite Hu. cbn [ok_or mbind result_bind]. by rewrite Hp, formatTimestamp_texts.
Qed.

(** ** Witnesses *)
Lemma convert_error_blind_witness :
  exists format names, errorf (A := string) "field %q is not valid base64" ["c"] = Err (Errorf format ("c" :: names)).
Proof.
  destruct (convert_error_blind PGBytea (qstr "se?ret") "c" (Errorf "field %q is not valid base64" ["c"])
    ltac:(vm_compute; reflexivity)) as (f & ns & H & _). exists f, ns. by rewrite <- H.
Defined.

Lemma convert_json_witness : is_raw_at 3 "1500".
Proof.
  apply (convert_json 3 PGFloat4 "1.5e3" "price"); [|vm_compute; reflexivity].
  by exists (CNum (Number false "1" (Some "5") (Some ("e"%char, "", "3")))).
Defined.

Lemma convert_int_exact_witness :
  ConvertValue PGInt2 "-32768" "n" = Ok "-32768" /\
  ConvertValue PGInt2 "32768" "n" = errorf "field %q is not a valid %s" ["n"; "int2"].
Proof.
  split.
  - apply (convert_int_exact PGInt2 "int2" "n" 16 (CNum (Number true "32768" None None))); reflexivity.
  - apply (convert_int_exact PGInt2 "int2" "n" 16 (CNum (Number false "32768" None None))); reflexivity.
Defined.

Lemma convert_float_exact_witness :
  exists n', Ok "-0.0025" = Ok (E := error) (print_number n') /\
    dec_eq (num_value n') (num_value (Number true "2" (Some "5") (Some ("E"%char, "-", "3")))).
Proof.
  destruct (convert_float_exact PGFloat8 "float8" "price" 64
    (Number true "2" (Some "5") (Some ("E"%char, "-", "3"))) eq_refl eq_refl) as [_ H].
  destruct (H "-0.0025" ltac:(vm_compute; reflexivity)) as (n' & Hp & _ & _ & _ & Hv & _).
  exists n'. by rewrite Hp.
Defined.

Lemma convert_timestamp_lossless_witness :
  exists date time, ParseRFC3339 (date +:+ "T" +:+ time +:+ "+00:00") = Some (UnixMicro (-1)) /\
    ConvertValue PGTimestamp "-1" "at" = Ok (Quote (date +:+ " " +:+ time)).
Proof.
  destruct (convert_timestamp_lossless PGTimestamp "-1" "at" (UnixMicro (-1))) as (d & h & z & Hc & Hz & Hp).
  - left. split; [done|]. exists (-1). split; [vm_compute; reflexivity|done].
  - vm_compute. reflexivity.
  - unfold year_fits. vm_compute. split; [discriminate|reflexivity].
  - exists d, h. split; [exact Hp|]. rewrite Hc, Hz. cbn. by rewrite str_app_nil_r.
Defined.
