(* ===== verification/Activity.v ===== *)
(** * Activity: the bounded activity log

    Models [internal/activity/log.go]: a ring buffer of 1000 entries read
    through cursors.  The specification is the whole history of added entries:
    a read is a suffix of it. *)

From S2P Require Import Prelude Strconv GoTime.
Local Open Scope Z_scope.

Record Entry : Type := mkEntry {
  EntryID : string;
  EntryTime : Time;
  Level : string;
  Message : string;
  EntrySource : string;
  EntryDestination : string;
  EntryGeneration : Z;
  EntryTopic : string;
  EntryPartition : Z;                   (* int32 *)
  EntryOffset : Z;                      (* int64 *)
  EntryEventID : string;
  EntryAggregateID : string;
  EntryEventName : string;
  Attempt : Z;
  EntryOutcome : string;
  EntryError : string }.

Definition zeroEntry : Entry := mkEntry "" (mkTime 0 0) "" "" "" "" 0 "" 0 0 "" "" "" 0 "" "".

Record Page : Type := mkPage { Entries : list Entry; NextCursor : string; Reset_ : bool }.

Definition capacity : Z := 1000.

(** [entries] is the fixed array; [written] is what the writer received, when
    there is one. *)
Record Log : Type := mkLog {
  boot : string;
  sequence : Z;                         (* uint64 *)
  entries : list Entry;
  writer : bool;
  written : list Entry }.

Definition New (text : string) (has_writer : bool) : Log :=
  mkLog text 0 (replicate (Z.to_nat capacity) zeroEntry) has_writer [].

(** uint64 arithmetic. *)
Definition u64 (z : Z) : Z := z mod 2 ^ 64.

Definition slot (n : Z) : Z := n mod capacity.

Definition firstUnread (sequence after : Z) : Z :=
  let oldest := u64 (Z.max sequence capacity - capacity + 1) in
  Z.max oldest (u64 (after + 1)).

Definition cursorFor (boot : string) (sequence : Z) : string :=
  boot +:+ ":" +:+ FormatUint sequence.

(** [strings.Cut] at the first colon. *)
Definition parseCursor (cursor : string) : result error (string * Z) :=
  match IndexByte cursor ":" with
  | None => errorf "invalid log cursor" []
  | Some i =>
      let boot := str_take i cursor in
      if bool_decide (boot = "") then errorf "invalid log cursor" []
      else match ParseUint (str_drop (i + 1) cursor) 64 with
      | Err _ => errorf "invalid log cursor" []
      | Ok n => Ok (boot, n)
      end
  end.

(** The entry as [Add] stores it: identified, timed, its level defaulted. *)
Definition stamp (boot : string) (n : Z) (now : Time) (e : Entry) : Entry :=
  mkEntry (cursorFor boot n) now (if bool_decide (Level e = "") then "info" else Level e)
    (Message e) (EntrySource e) (EntryDestination e) (EntryGeneration e) (EntryTopic e)
    (EntryPartition e) (EntryOffset e) (EntryEventID e) (EntryAggregateID e) (EntryEventName e)
    (Attempt e) (EntryOutcome e) (EntryError e).

Definition Add (l : Log) (now : Time) (e : Entry) : Log :=
  let n := u64 (sequence l + 1) in
  let e := stamp (boot l) n now e in
  mkLog (boot l) n (<[Z.to_nat (slot n) := e]> (entries l)) (writer l)
    (if writer l then written l ++ [e] else written l).

(** [l.entries[slot(n)]]; the index is always in range. *)
Definition entry_at (l : Log) (n : Z) : Entry := default zeroEntry (entries l !! Z.to_nat (slot n)).

(** The loop of [Read] from [n]; [None] if it outlives its fuel. *)
Fixpoint collect (fuel : nat) (l : Log) (n : Z) : option (list Entry) :=
  if n <=? sequence l then
    match fuel with
    | O => None
    | S fuel => cons (entry_at l n) <$> collect fuel l (u64 (n + 1))
    end
  else Some [].

(** A page and, for an unreadable cursor, the error that comes with it. The
    buffer holds [capacity] entries, which is fuel enough ([read_refines]). *)
Definition Read (l : Log) (cursor : string) : option (Page * option error) :=
  let page := mkPage [] (cursorFor (boot l) (sequence l)) false in
  let from (reset : bool) (after : Z) :=
    es ← collect (Z.to_nat capacity) l (firstUnread (sequence l) after);
    Some (mkPage es (NextCursor page) reset, None) in
  if bool_decide (cursor = "") then from false 0
  else match parseCursor cursor with
  | Err e => Some (page, Some e)
  | Ok (b, n) =>
      let reset := negb (bool_decide (b = boot l)) || (sequence l <? n) || (capacity <? u64 (sequence l - n)) in
      from reset (if reset then 0 else n)
  end.

(** ** Specification: a history and its suffixes *)

(** The log after a list of additions. *)
Definition add_all (l : Log) (l0 : list (Time * Entry)) : Log := foldl (fun l '(now, e) => Add l now e) l l0.

(** The stamped entries of a process, in order, the first numbered [n]. *)
Fixpoint stamped (boot : string) (n : Z) (l : list (Time * Entry)) : list Entry :=
  match l with
  | [] => []
  | (now, e) :: l => stamp boot n now e :: stamped boot (n + 1) l
  end.

Definition last_entries (h : list Entry) : list Entry := drop (length h - Z.to_nat capacity) h.

(** What a read returns of a history. *)
Definition read_spec (boot : string) (h : list Entry) (cursor : string) : Page * option error :=
  let N := Z.of_nat (length h) in
  let next := cursorFor boot N in
  if bool_decide (cursor = "") then (mkPage (last_entries h) next false, None)
  else match parseCursor cursor with
  | Err e => (mkPage [] next false, Some e)
  | Ok (b, n) =>
      if bool_decide (b = boot) && (n <=? N) && (N - n <=? capacity)
      then (mkPage (drop (Z.to_nat n) h) next false, None)
      else (mkPage (last_entries h) next true, None)
  end.

(** ** The representation invariant *)

(** The buffer holds the last entries of the history, each in its slot. *)
Definition represents (l : Log) (h : list Entry) : Prop :=
  sequence l = Z.of_nat (length h) /\ sequence l < 2 ^ 64 - 1 /\
  Z.of_nat (length (entries l)) = capacity /\
  forall n, Z.max 0 (sequence l - capacity) < n <= sequence l ->
    h !! Z.to_nat (n - 1) = Some (entry_at l n).

Lemma u64_small (z : Z) : 0 <= z < 2 ^ 64 -> u64 z = z.
Proof. apply Z.mod_small. Qed.

Lemma represents_New (text : string) (w : bool) : represents (New text w) [].
Proof. split_and!; [done..|]. cbn [New sequence]. unfold capacity. lia. Qed.

Lemma slot_bound (n : Z) : 0 <= slot n < capacity.
Proof. apply Z.mod_pos_bound. done. Qed.

Lemma parseCursor_range (cursor b : string) (n : Z) : parseCursor cursor = Ok (b, n) -> 0 <= n < 2 ^ 64.
Proof.
  unfold parseCursor. destruct (IndexByte cursor ":"); [|done]. case_bool_decide; [done|].
  destruct (ParseUint _ 64) as [v|] eqn:Hv; [|done]. intros [= _ <-].
  apply ParseUint_ok in Hv as (_ & Hd & -> & Hle); [|lia]. pose proof (dec_value_bounds _ Hd). lia.
Qed.

Lemma slot_inj (m n : Z) : 0 <= m -> 0 <= n -> Z.abs (m - n) < capacity ->
  Z.to_nat (slot m) = Z.to_nat (slot n) -> m = n.
Proof.
  unfold slot, capacity. intros Hm Hn Hd H. apply Z2Nat.inj in H; [|apply Z.mod_pos_bound; lia..]. zdiv.
Qed.

Lemma represents_Add (l : Log) (h : list Entry) (now : Time) (e : Entry) :
  represents l h -> sequence l + 1 < 2 ^ 64 - 1 ->
  represents (Add l now e) (h ++ [stamp (boot l) (sequence l + 1) now e]).
Proof.
  intros (Hs & Hlt & Hlen & Hr) Hb. unfold Add. rewrite u64_small by lia.
  set (x := stamp _ _ _ _). split_and!; cbn [sequence entries].
  - rewrite length_app. cbn. lia.
  - lia.
  - by rewrite length_insert.
  - intros n Hn. unfold entry_at. cbn [entries]. destruct (Z.eq_dec n (sequence l + 1)) as [->|Hne].
    + pose proof (slot_bound (sequence l + 1)). rewrite lookup_app_r by lia.
      rewrite list_lookup_insert_eq by lia.
      replace (Z.to_nat (sequence l + 1 - 1) - length h)%nat with O by lia. done.
    + rewrite list_lookup_insert_ne by (intros H%slot_inj; unfold capacity in *; lia).
      rewrite lookup_app_l by lia. apply Hr. lia.
Qed.

Lemma stamped_length (b : string) (n : Z) (l : list (Time * Entry)) : length (stamped b n l) = length l.
Proof. revert n. induction l as [|[t e] l IH]; intros n; cbn; [done|by rewrite IH]. Qed.

Lemma add_all_represents (l : Log) (h : list Entry) (adds : list (Time * Entry)) :
  represents l h -> sequence l + Z.of_nat (length adds) < 2 ^ 64 - 1 ->
  boot (add_all l adds) = boot l /\
  represents (add_all l adds) (h ++ stamped (boot l) (sequence l + 1) adds).
Proof.
  revert l h. induction adds as [|[now e] adds IH]; intros l h Hr Hb; cbn [add_all foldl stamped].
  - by rewrite app_nil_r.
  - cbn [length] in Hb. pose proof (represents_Add l h now e Hr ltac:(lia)) as Hr'.
    assert (Hseq : sequence (Add l now e) = sequence l + 1).
    { cbn. apply u64_small. destruct Hr as (Hs0 & _). lia. }
    destruct (IH _ _ Hr') as [Hboot Hrep]; [rewrite Hseq; lia|]. rewrite Hseq in Hrep.
    rewrite <- app_assoc in Hrep. split; [exact Hboot|exact Hrep].
Qed.

(** The loop of [Read] collects the suffix after [n - 1]. *)
Lemma collect_drop (l : Log) (h : list Entry) (fuel : nat) (n : Z) :
  represents l h -> Z.max 0 (sequence l - capacity) < n -> sequence l - n < Z.of_nat fuel ->
  n <= sequence l + 1 -> collect fuel l n = Some (drop (Z.to_nat (n - 1)) h).
Proof.
  intros (Hs & Hlt & Hlen & Hr). revert n. induction fuel as [|fuel IH]; intros n Hn Hf Hle; cbn [collect].
  - destruct (Z.leb_spec n (sequence l)); [lia|]. rewrite drop_ge by lia. done.
  - destruct (Z.leb_spec n (sequence l)).
    + rewrite u64_small, IH by lia. rewrite (drop_S h (entry_at l n) (Z.to_nat (n - 1))) by (apply Hr; lia).
      cbn [fmap option_fmap option_map]. do 3 f_equal. lia.
    + rewrite drop_ge by lia. done.
Qed.

(** A read of a log that represents a history. *)
Lemma Read_spec (l : Log) (text : string) (h : list Entry) (cursor : string) :
  boot l = text -> represents l h -> Read l cursor = Some (read_spec text h cursor).
Proof.
  intros Hb Hr.
  assert (Hs : sequence l = Z.of_nat (length h)) by apply Hr.
  assert (Hlt : sequence l < 2 ^ 64 - 1) by apply Hr.
  assert (Hfirst : forall after, 0 <= after <= sequence l ->
    (collect (Z.to_nat capacity) l (firstUnread (sequence l) after)) =
      Some (drop (Z.to_nat (Z.max after (sequence l - capacity))) h)).
  { intros after Ha. unfold firstUnread. unfold capacity in *. rewrite !u64_small by lia.
    rewrite (collect_drop l h) by (done || unfold capacity; lia). do 2 f_equal. lia. }
  assert (Hlast : collect (Z.to_nat capacity) l (firstUnread (sequence l) 0) = Some (last_entries h)).
  { rewrite Hfirst by lia. unfold last_entries. do 2 f_equal. unfold capacity in *. lia. }
  unfold Read, read_spec. rewrite Hb, <- Hs. case_bool_decide as Hc; [by rewrite Hlast|].
  destruct (parseCursor cursor) as [[b n]|e] eqn:Hp; [|done].
  assert (Hn : 0 <= n < 2 ^ 64) by (by eapply parseCursor_range).
  destruct (bool_decide (b = text)) eqn:Hbt; cbn [negb orb andb]; [|by rewrite Hlast].
  rewrite Z.ltb_antisym. destruct (Z.leb_spec n (sequence l)); cbn [negb orb andb]; [|by rewrite Hlast].
  rewrite u64_small by lia. rewrite Z.ltb_antisym.
  destruct (Z.leb_spec (sequence l - n) capacity); cbn [negb]; [|by rewrite Hlast].
  rewrite Hfirst by lia. cbn. do 4 f_equal. lia.
Qed.

(** ** Properties *)

(** C40. The ring buffer implements the history: after any additions to a new log,
    fewer than 2^64 - 1, a read returns without running out of fuel exactly
    what the specification reads from the list of everything added. *)
Theorem read_refines (text : string) (w : bool) (adds : list (Time * Entry)) (cursor : string) :
  Z.of_nat (length adds) < 2 ^ 64 - 1 ->
  Read (add_all (New text w) adds) cursor = Some (read_spec text (stamped text 1 adds) cursor).
Proof.
  intros Hlen. destruct (add_all_represents (New text w) [] adds (represents_New text w) Hlen) as [Hb Hr].
  by apply Read_spec.
Qed.

(** A boot text: not empty and without the cursor's separator. *)
Definition boot_ok (text : string) : bool :=
  negb (bool_decide (text = "")) && str_forallb (fun c => negb (Ascii.eqb ":" c)) text.

Lemma parse_cursorFor (text : string) (n : Z) :
  boot_ok text = true -> 0 <= n < 2 ^ 64 -> parseCursor (cursorFor text n) = Ok (text, n).
Proof.
  unfold boot_ok. intros [Hne Hc]%andb_true_iff Hn. rewrite negb_true_iff in Hne.
  unfold parseCursor, cursorFor, IndexByte. rewrite index_pred_app by done.
  cbn [String.append index_pred fmap option_fmap option_map]. change (Ascii.eqb ":" ":") with true. cbv iota.
  cbn [fmap option_fmap option_map]. rewrite Nat.add_0_r, str_take_app, Hne, str_drop_app. cbn [str_drop].
  by rewrite ParseUint_FormatUint by lia.
Qed.

Lemma stamped_app (b : string) (n : Z) (l1 l2 : list (Time * Entry)) :
  stamped b n (l1 ++ l2) = stamped b n l1 ++ stamped b (n + Z.of_nat (length l1)) l2.
Proof.
  revert n. induction l1 as [|[t e] l1 IH]; intros n; cbn [stamped app length].
  - by rewrite Z.add_0_r.
  - rewrite IH. cbn. do 3 f_equal. lia.
Qed.

(** A reader that follows the log with the cursor it was given sees exactly
    the entries added since, in order; when more than the buffer holds were
    added meanwhile it is told so and restarts at the oldest entry kept. *)
Theorem read_follow (text : string) (w : bool) (adds1 adds2 : list (Time * Entry)) (c : string) (p : Page)
  (e : option error) :
  boot_ok text = true -> Z.of_nat (length (adds1 ++ adds2)) < 2 ^ 64 - 1 ->
  Read (add_all (New text w) adds1) c = Some (p, e) ->
  exists next,
    Read (add_all (New text w) (adds1 ++ adds2)) (NextCursor p) =
      Some (if bool_decide (Z.of_nat (length adds2) <= capacity)
            then mkPage (stamped text (Z.of_nat (length adds1) + 1) adds2) next false
            else mkPage (last_entries (stamped text 1 (adds1 ++ adds2))) next true, None).
Proof.
  intros Hb Hlen H. rewrite length_app in Hlen. exists (cursorFor text (Z.of_nat (length (adds1 ++ adds2)))).
  assert (Hrefine : forall adds cur, Z.of_nat (length adds) < 2 ^ 64 - 1 ->
    Read (add_all (New text w) adds) cur = Some (read_spec text (stamped text 1 adds) cur)).
  { intros adds cur Ha. destruct (add_all_represents (New text w) [] adds (represents_New text w) Ha) as [Hbt Hr].
    by apply Read_spec. }
  rewrite Hrefine in H by lia.
  assert (NextCursor p = cursorFor text (Z.of_nat (length adds1))) as ->.
  { unfold read_spec in H. rewrite stamped_length in H. repeat case_match; by injection H as <- _. }
  rewrite Hrefine by (rewrite length_app; lia). unfold read_spec. rewrite bool_decide_eq_false_2.
  2:{ unfold cursorFor. unfold boot_ok in Hb. destruct text; done. }
  rewrite parse_cursorFor by (done || lia). rewrite bool_decide_eq_true_2, stamped_length by done.
  rewrite (proj2 (Z.leb_le _ _)) by (rewrite length_app; lia). cbn [andb].
  replace (Z.of_nat (length (adds1 ++ adds2)) - Z.of_nat (length adds1)) with (Z.of_nat (length adds2))
    by (rewrite length_app; lia).
  destruct (Z.leb_spec (Z.of_nat (length adds2)) capacity) as [Hle|Hgt].
  - rewrite bool_decide_eq_true_2 by done. rewrite stamped_app, Nat2Z.id.
    rewrite <- (stamped_length text 1 adds1), drop_app_length, stamped_length. do 4 f_equal. lia.
  - by rewrite bool_decide_eq_false_2 by lia.
Qed.

(** ** Witnesses *)
Definition some_entry (m : string) : Time * Entry :=
  (mkTime 0 0, mkEntry "" (mkTime 0 0) "" m "" "" 0 "" 0 0 "" "" "" 0 "" "").

Lemma read_refines_witness :
  Read (add_all (New "B" false) [some_entry "a"; some_entry "b"]) "B:1" =
    Some (mkPage [stamp "B" 2 (mkTime 0 0) (some_entry "b").2] "B:2" false, None).
Proof.
  rewrite (read_refines "B" false [some_entry "a"; some_entry "b"] "B:1") by (cbn; lia). reflexivity.
Defined.

Lemma read_follow_witness : exists next,
  Read (add_all (New "B" true) [some_entry "a"; some_entry "b"]) "B:1" =
    Some (mkPage (stamped "B" 2 [some_entry "b"]) next false, None).
Proof.
  apply (read_follow "B" true [some_entry "a"] [some_entry "b"] "" (mkPage [stamp "B" 1 (mkTime 0 0) (some_entry "a").2] "B:1" false) None);
    [reflexivity|cbn; lia|]. vm_compute. reflexivity.
Defined.
