(* ===== verification/LogLine.v ===== *)
(** * LogLine: the activity log's lines of JSON

    Models [Entry]'s tags and the write at the end of [Add] in
    [internal/activity/log.go]: an entry is encoded as one JSON object, whose
    zero-valued optional fields are omitted, on a line of its own.  A line is
    JSON whatever the entry holds, and its texts read back. *)

From S2P Require Import Prelude Strconv Json JsonCodec JsonString GoTime Stream Activity.
Local Open Scope Z_scope.

(** ** [time.Time.MarshalJSON] of a UTC time *)
Fixpoint trim_zeros (s : string) : string :=
  match s with
  | EmptyString => ""
  | String c r => let r := trim_zeros r in if Ascii.eqb c "0" && str_eqb r "" then "" else String c r
  end.

(** The layout [time.RFC3339Nano]; an error for a year that has not four digits. *)
Definition MarshalTime (t : Time) : option string :=
  let '(y, m, d) := civil (unix t / 86400) in
  let s := unix t mod 86400 in
  if (y <? 0) || (9999 <? y) then None
  else Some (pad 4 y +:+ "-" +:+ pad 2 m +:+ "-" +:+ pad 2 d +:+ "T" +:+
    pad 2 (s / 3600) +:+ ":" +:+ pad 2 (s / 60 mod 60) +:+ ":" +:+ pad 2 (s mod 60) +:+
    (if nsec t =? 0 then "" else "." +:+ trim_zeros (pad 9 (nsec t))) +:+ "Z").

(** ** The object *)
Definition CText (s : string) : cst := CStr (quote_body s).
Definition CInt (n : Z) : cst := CNum (Number (n <? 0) (FormatUint (Z.abs n)) None None).

(** [omitempty]. *)
Definition text_opt (key value : string) : list (string * cst) := if str_eqb value "" then [] else [(key, CText value)].
Definition int_opt (key : string) (value : Z) : list (string * cst) := if value =? 0 then [] else [(key, CInt value)].

Definition entry_fields (time : string) (e : Entry) : list (string * cst) :=
  [("id", CText (EntryID e)); ("time", CText time); ("level", CText (Level e)); ("message", CText (Message e))] ++
  text_opt "source" (EntrySource e) ++ text_opt "destination" (EntryDestination e) ++
  int_opt "generation" (EntryGeneration e) ++ text_opt "topic" (EntryTopic e) ++
  [("partition", CInt (EntryPartition e)); ("offset", CInt (EntryOffset e))] ++
  text_opt "event_id" (EntryEventID e) ++ text_opt "aggregate_id" (EntryAggregateID e) ++
  text_opt "event_name" (EntryEventName e) ++ int_opt "attempt" (Attempt e) ++
  text_opt "outcome" (EntryOutcome e) ++ text_opt "error" (EntryError e).

(** [json.NewEncoder(l.writer).Encode(e)]: the line, if the entry can be encoded. *)
Definition EncodeEntry (e : Entry) : option string :=
  time ← MarshalTime (EntryTime e); Some (print (jobj (entry_fields time e))).

(** What the writer has after these entries. *)
Definition log_lines (l : list Entry) : list string := omap EncodeEntry l.

(** ** Every line is JSON *)
Lemma FormatUint_head (n : Z) : 0 < n -> forall r, FormatUint n <> String "0" r.
Proof.
  intros Hn. unfold FormatUint.
  destruct (format_uint_go_spec (S (Z.to_nat (Z.log2 n))) n "") as (d & -> & _ & _ & _ & Hh & _); [|lia|rewrite str_app_nil_r; apply Hh; lia].
  split; [lia|]. rewrite Nat2Z.inj_succ, Z2Nat.id by apply Z.log2_nonneg. apply Z.log2_spec. lia.
Qed.

Lemma CInt_wf (d : N) (n : Z) : wf d (CInt n) = true.
Proof.
  cbn [wf CInt wf_number num_int num_frac num_exp]. unfold wf_number. cbn [num_int num_frac num_exp]. rewrite !andb_true_r.
  destruct (decide (n = 0)) as [->|Hn]; [reflexivity|]. unfold wf_int. apply orb_true_iff. right.
  destruct (FormatUint_spec (Z.abs n)) as (Hd & Hne & _); [lia|]. unfold digits1. rewrite bool_decide_eq_false_2, Hd by done. cbn [negb andb].
  pose proof (FormatUint_head (Z.abs n) ltac:(lia)) as Hh. destruct (FormatUint (Z.abs n)) as [|c r]; [done|].
  apply negb_true_iff, Ascii.eqb_neq. intros ->. by apply (Hh r).
Qed.

Lemma entry_fields_wf (time : string) (e : Entry) :
  Forall (fun '(k, v) => plain_text k = true /\ wf 1 v = true) (entry_fields time e).
Proof.
  assert (forall s, wf 1 (CText s) = true) as Ht by apply quote_wf. pose proof (CInt_wf 1) as Hi.
  unfold entry_fields, text_opt, int_opt. repeat first [apply Forall_app; split|apply Forall_cons; split|apply Forall_nil; done|case_match];
    (split; [reflexivity|apply Ht || apply Hi]).
Qed.

Theorem line_valid (e : Entry) (line : string) : EncodeEntry e = Some line -> is_raw line.
Proof.
  unfold EncodeEntry. intros (time & _ & [= <-])%bind_Some. exists (jobj (entry_fields time e)). split; [done|].
  apply jobj_wf; [reflexivity|apply entry_fields_wf].
Qed.

Lemma lines_valid (l : list Entry) : Forall is_raw (log_lines l).
Proof.
  unfold log_lines. apply Forall_forall. intros line (e & _ & Hl)%list_elem_of_omap. revert Hl. unfold EncodeEntry.
  intros (time & _ & [= <-])%bind_Some. exists (jobj (entry_fields time e)). split; [done|].
  apply jobj_wf; [reflexivity|apply entry_fields_wf].
Qed.

Example a_line : EncodeEntry (stamp "B" 3 (mkTime 1700000000 250000000) (mkEntry "" (mkTime 0 0) "" "source blocked" "orders" "" 0 "" 0 0 "" "" "" 0 "" "history lost")) =
  Some (String.concat (String dquote "") ["{"; "id"; ":"; "B:3"; ","; "time"; ":"; "2023-11-14T22:13:20.25Z"; ","; "level"; ":"; "info"; ",";
    "message"; ":"; "source blocked"; ","; "source"; ":"; "orders"; ","; "partition"; ":0,"; "offset"; ":0,"; "error"; ":"; "history lost"; "}"]).
Proof. vm_compute. reflexivity. Qed.

Lemma line_valid_witness : exists line, EncodeEntry (stamp "B" 1 (mkTime 0 0) (some_entry "engine started").2) = Some line /\ is_raw line.
Proof. eexists. split; [vm_compute; reflexivity|]. eapply (line_valid (stamp "B" 1 (mkTime 0 0) (some_entry "engine started").2)). reflexivity. Defined.
