(* ===== verification/Delivery.v ===== *)
(** * Delivery: retrying one record to a terminal outcome and committing it

    Models [internal/delivery/processor.go] and [internal/delivery/worker.go].
    The context, timers, randomness, destination, skip store, broker, dispatch
    gate and activity log are reached through an interface, [World]: a state
    [W] and what each call does to it.  The program is written once against
    the interface; what it promises is proved for every world. *)

From S2P Require Import Prelude Strconv GoTime Stream Protocol Activity.
Local Open Scope Z_scope.

(** ** Outcomes *)
Inductive Outcome : Type := Delivered | Filtered | Skipped.

#[export] Instance Outcome_eq_dec : EqDecision Outcome.
Proof. solve_decision. Defined.

Definition OutcomeString (o : Outcome) : string :=
  match o with Delivered => "delivered" | Filtered => "filtered" | Skipped => "skipped" end.

Record Destination : Type := mkDestination {
  DestID : string; DestDescription : string; DestFilter : option Filter }.

(** ** The outside world

    [ctxSleep] and [Jitter] are the processor's injected functions; [Send] the
    [AttemptSender], [HasSkip] and [SaveSkip] the [SkipStore], [Allowed] and
    [Block] the [DispatchGate]; [Commit] the [CommitFunc]. *)
Class World (W : Type) : Type := {
  ctx_Err : W -> option error;
  ctxSleep : Z -> W -> option error * W;
  Jitter : Z -> W -> Z * W;
  Send : Record_ -> string -> W -> result error Outcome * W;
  HasSkip : Scope -> string -> Record_ -> W -> result error bool * W;
  SaveSkip : Scope -> string -> Record_ -> W -> result error unit * W;
  Commit : RawRecord -> W -> result error unit * W;
  Allowed : string -> W -> bool * W;
  Block : string -> error -> W -> W;
  LogAdd : Entry -> W -> W }.

(** ** Activity entries *)
Definition entryFor (record : Record_) (destination : string) : Entry :=
  mkEntry "" (mkTime 0 0) "" "" (ID (RecSource record)) destination (RecGeneration record)
    (RecTopic record) (RecPartition record) (RecOffset record) (EventID record)
    (AggregateID record) (EventName record) 0 "" "".

Definition with_text (e : Entry) (level message : string) (attempt : Z) (outcome err : string) : Entry :=
  mkEntry (EntryID e) (EntryTime e) level message (EntrySource e) (EntryDestination e)
    (EntryGeneration e) (EntryTopic e) (EntryPartition e) (EntryOffset e) (EntryEventID e)
    (EntryAggregateID e) (EntryEventName e) attempt outcome err.

Definition startedEntry (e : Entry) : Entry :=
  with_text e (Level e) "delivery started" (Attempt e) (EntryOutcome e) (EntryError e).

Definition attemptEntry (e : Entry) (attempt : Z) (err : option error) : Entry :=
  match err with
  | None => with_text e (Level e) "acknowledged" (attempt + 1) (EntryOutcome e) (EntryError e)
  | Some _ => with_text e "warn" "retry" (attempt + 1) (EntryOutcome e) "delivery failed or retry requested"
  end.

Definition outcomeEntry (e : Entry) (o : Outcome) : Entry :=
  with_text e (Level e) "terminal outcome" (Attempt e) (OutcomeString o) (EntryError e).

Definition committedEntry (e : Entry) : Entry :=
  with_text e (Level e) "committed" (Attempt e) (EntryOutcome e) (EntryError e).

Definition commitRetryEntry (e : Entry) : Entry :=
  with_text e "warn" "commit retry" (Attempt e) (EntryOutcome e) "Kafka commit unavailable".

#[global] Arguments startedEntry : simpl never.
#[global] Arguments attemptEntry : simpl never.
#[global] Arguments outcomeEntry : simpl never.
#[global] Arguments committedEntry : simpl never.
#[global] Arguments commitRetryEntry : simpl never.

(** ** Backoff *)
Definition Second : Z := 1000000000.
Definition storeRetryDelay : Z := Second.

Definition ceiling (attempt : Z) : Z := Z.shiftl Second (Z.min attempt 6).

Definition backoff (attempt : Z) (jitter : Z -> Z) : Z :=
  let c := ceiling attempt in
  let delay := c / 2 + jitter (c / 2 + 1) in
  Z.min (Z.max delay Second) (60 * Second).

Definition envelopeFor (record : Record_) (d : Destination) : Envelope :=
  mkEnvelope (ID (RecSource record)) (Description (RecSource record)) (DestID d) (DestDescription d)
    (Payload record).

Definition error_of {A : Type} (r : result error A) : option error :=
  match r with Ok _ => None | Err e => Some e end.

(** ** The program

    Loops without a bound of their own take fuel and return [None] when it
    runs out. *)
Section Program.
Context {W : Type} `{World W}.

(** [Retry]; [fn] also returns what its closure assigned. *)
Fixpoint Retry {A : Type} (fuel : nat) (delay : Z) (fn : W -> result error A * W) (w : W) :
  option (result error A * W) :=
  match ctx_Err w with
  | Some e => Some (Err e, w)
  | None =>
      let '(r, w) := fn w in
      match r with
      | Ok a => Some (Ok a, w)
      | Err _ =>
          let '(e, w) := ctxSleep delay w in
          match e, fuel with
          | Some e, _ => Some (Err e, w)
          | None, O => None
          | None, S fuel => Retry fuel delay fn w
          end
      end
  end.

(** The attempt loop of [Processor.Process]. *)
Fixpoint attempts (fuel : nat) (record : Record_) (body : string) (attempt : Z)
  (onAttempt : Z -> option error -> W -> W) (w : W) : option (result error Outcome * W) :=
  let '(r, w) := Send record body w in
  let w := onAttempt attempt (error_of r) w in
  match r with
  | Ok outcome => Some (Ok outcome, w)
  | Err _ =>
      let '(j, w) := Jitter (ceiling attempt / 2 + 1) w in
      let '(e, w) := ctxSleep (backoff attempt (fun _ => j)) w in
      match e, fuel with
      | Some e, _ => Some (Err e, w)
      | None, O => None
      | None, S fuel => attempts fuel record body (attempt + 1) onAttempt w
      end
  end.

(** [Processor.Process].  [json.Marshal] fails only on an invalid payload. *)
Definition Process (fuel : nat) (d : Destination) (record : Record_)
  (onAttempt : Z -> option error -> W -> W) (w : W) : option (result error Outcome * W) :=
  if negb (MatchesFilter (DestFilter d) (Payload record)) then Some (Ok Filtered, w)
  else match MarshalEnvelope (envelopeFor record d) with
  | None => Some (errorf "json: error calling MarshalJSON" [], w)
  | Some body => attempts fuel record body 0 onAttempt w
  end.

(** The injected side effects that finish one record. *)
Record recordActions : Type := mkActions {
  act_skipped : W -> result error bool * W;
  act_send : W -> option (result error Outcome * W);
  act_audit : W -> result error unit * W;
  act_commit : W -> result error unit * W }.

Definition sendAndAudit (fuel : nat) (delay : Z) (a : recordActions) (w : W) : option (result error unit * W) :=
  '(outcome, w) ← act_send a w;
  match outcome with
  | Err e => Some (Err e, w)
  | Ok Skipped => Retry fuel delay (act_audit a) w
  | Ok _ => Some (Ok tt, w)
  end.

Definition completeRecord (fuel : nat) (delay : Z) (a : recordActions) (w : W) : option (result error unit * W) :=
  '(r, w) ← Retry fuel delay (act_skipped a) w;
  match r with
  | Err e => Some (Err e, w)
  | Ok skipped =>
      '(r, w) ← if negb skipped then sendAndAudit fuel delay a w else Some (Ok tt, w);
      match r with
      | Err e => Some (Err e, w)
      | Ok _ => Retry fuel delay (act_commit a) w
      end
  end.

(** ** Worker *)
Record Worker : Type := mkWorker {
  wk_destination : Destination;         (* Processor.Destination *)
  wk_Decode : RawRecord -> result error Record_;
  wk_Scope : Scope;
  wk_Destination : string;
  wk_SourceID : string;
  wk_Gate : bool;                       (* a gate is present *)
  wk_Log : bool }.                      (* a log is present *)

Definition allowed (wk : Worker) (w : W) : bool * W :=
  if wk_Gate wk then Allowed (wk_SourceID wk) w else (true, w).

(** The reason is the text of an error; the error stands for it. *)
Definition block (wk : Worker) (reason : error) (w : W) : W :=
  if wk_Gate wk then Block (wk_SourceID wk) reason w else w.

Definition log (wk : Worker) (e : Entry) (w : W) : W := if wk_Log wk then LogAdd e w else w.

Definition send (fuel : nat) (wk : Worker) (record : Record_) (entry : Entry) (w : W) :
  option (result error Outcome * W) :=
  let w := log wk (startedEntry entry) w in
  '(r, w) ← Process fuel (wk_destination wk) record
              (fun attempt err => log wk (attemptEntry entry attempt err)) w;
  match r with
  | Ok outcome => Some (Ok outcome, log wk (outcomeEntry entry outcome) w)
  | Err e => Some (Err e, w)
  end.

Definition commit (wk : Worker) (raw : RawRecord) (entry : Entry) (w : W) : result error unit * W :=
  let '(r, w) := Commit raw w in
  match r with
  | Err e =>
      match ctx_Err w with
      | None => (Err e, log wk (commitRetryEntry entry) w)
      | Some _ => (Err e, w)
      end
  | Ok _ => (Ok tt, log wk (committedEntry entry) w)
  end.

Definition skipped (wk : Worker) (raw : RawRecord) (record : Record_) (w : W) : result error bool * W :=
  if negb (Historical raw) then (Ok false, w)
  else HasSkip (wk_Scope wk) (wk_Destination wk) record w.

Definition WorkerProcess (fuel : nat) (wk : Worker) (raw : RawRecord) (w : W) : option (result error unit * W) :=
  let '(ok, w) := allowed wk w in
  if negb ok then Some (Err Canceled, w)
  else match wk_Decode wk raw with
  | Err e => Some (Err e, block wk e w)
  | Ok record =>
      let entry := entryFor record (wk_Destination wk) in
      completeRecord fuel storeRetryDelay (mkActions
        (skipped wk raw record)
        (send fuel wk record entry)
        (SaveSkip (wk_Scope wk) (wk_Destination wk) record)
        (commit wk raw entry)) w
  end.
End Program.
Arguments recordActions W : clear implicits.
Arguments mkActions {W}.

(** [ctxSleep] on a clock: the context ends at [fst end_], if at all; [tie]
    picks when both fire at once. *)
Definition sleep_until (end_ : option (Z * error)) (delay : Z) (tie : bool) (now : Z) : option error * Z :=
  match end_ with
  | Some (t, e) =>
      if (t <? now + delay) || ((t =? now + delay) && tie) then (Some e, Z.max now t)
      else (None, now + Z.max 0 delay)
  | None => (None, now + Z.max 0 delay)
  end.

(** ** Traced worlds: every call recorded with its answer *)
Inductive event : Type :=
| CallHasSkip (scope : Scope) (destination : string) (record : Record_) (answer : result error bool)
| CallSend (record : Record_) (body : string) (answer : result error Outcome)
| CallSaveSkip (scope : Scope) (destination : string) (record : Record_) (answer : result error unit)
| CallCommit (raw : RawRecord) (answer : result error unit)
| CallBlock (source : string) (reason : error)
| CallLog (e : Entry)
| CallSleep (delay : Z) (answer : option error).

Record Traced (W : Type) : Type := mkTraced { inner : W; events : list event }.
Arguments mkTraced {W}. Arguments inner {W}. Arguments events {W}.

Definition traced_call {W A : Type} (ev : A -> event) (f : W -> A * W) (t : Traced W) : A * Traced W :=
  let '(a, w) := f (inner t) in (a, mkTraced w (events t ++ [ev a])).

#[export] Instance traced_world {W : Type} `{World W} : World (Traced W) := {
  ctx_Err t := ctx_Err (inner t);
  ctxSleep d := traced_call (CallSleep d) (ctxSleep d);
  Jitter n t := let '(j, w) := Jitter n (inner t) in (j, mkTraced w (events t));
  Send r b := traced_call (CallSend r b) (Send r b);
  HasSkip s d r := traced_call (CallHasSkip s d r) (HasSkip s d r);
  SaveSkip s d r := traced_call (CallSaveSkip s d r) (SaveSkip s d r);
  Commit raw := traced_call (CallCommit raw) (Commit raw);
  Allowed s t := let '(a, w) := Allowed s (inner t) in (a, mkTraced w (events t));
  Block s reason t := mkTraced (Block s reason (inner t)) (events t ++ [CallBlock s reason]);
  LogAdd e t := mkTraced (LogAdd e (inner t)) (events t ++ [CallLog e]) }.

#[export] Instance Time_eq_dec : EqDecision Time.
Proof. solve_decision. Defined.
#[export] Instance Entry_eq_dec : EqDecision Entry.
Proof. solve_decision. Defined.

(** An entry about a record: its identifiers and fixed texts only. *)
Definition entry_ok (record : Record_) (dest : string) (e : Entry) : bool :=
  bool_decide (e = with_text (entryFor record dest) (Level e) (Message e) (Attempt e) (EntryOutcome e) (EntryError e)) &&
  str_mem (Level e) [""; "warn"] &&
  str_mem (Message e) ["delivery started"; "acknowledged"; "retry"; "terminal outcome"; "committed"; "commit retry"] &&
  str_mem (EntryOutcome e) [""; "delivered"; "filtered"; "skipped"] &&
  str_mem (EntryError e) [""; "delivery failed or retry requested"; "Kafka commit unavailable"].

Lemma entry_ok_text (record : Record_) (dest level message : string) (attempt : Z) (outcome err : string) :
  str_mem level [""; "warn"] &&
  str_mem message ["delivery started"; "acknowledged"; "retry"; "terminal outcome"; "committed"; "commit retry"] &&
  str_mem outcome [""; "delivered"; "filtered"; "skipped"] &&
  str_mem err [""; "delivery failed or retry requested"; "Kafka commit unavailable"] = true ->
  entry_ok record dest (with_text (entryFor record dest) level message attempt outcome err) = true.
Proof. intros H. unfold entry_ok. cbn. by rewrite bool_decide_eq_true_2. Qed.

Lemma entries_ok (record : Record_) (dest : string) : let e := entryFor record dest in
  entry_ok record dest (startedEntry e) = true /\
  (forall a err, entry_ok record dest (attemptEntry e a err) = true) /\
  (forall o, entry_ok record dest (outcomeEntry e o) = true) /\
  entry_ok record dest (committedEntry e) = true /\ entry_ok record dest (commitRetryEntry e) = true.
Proof.
  cbn zeta. split_and!; [by apply entry_ok_text|intros a [err|]; by apply entry_ok_text|
    intros []; by apply entry_ok_text|by apply entry_ok_text|by apply entry_ok_text].
Qed.

(** ** The protocol a record follows, as a state machine over its trace *)
Inductive phase : Type := Asking | Sending | Auditing | Committing | Done.

Section Phases.
(** The record being processed, the body it is sent as (if it can be encoded),
    the raw record committed for it, and where a record that has not been
    skipped before starts: [Sending], or [Committing] when it is filtered;
    [scope] and [dest] are the worker's, which its skips and log entries name. *)
Variables (scope : Scope) (record : Record_) (dest : string) (body : option string) (raw : RawRecord) (unsent : phase).

(** What each call may do in each phase; sleeping and logging change nothing,
    only logging is possible once the record is done, and what is logged is
    always about the record. *)
Definition step (p : phase) (e : event) : option phase :=
  match p, e with
  | _, CallLog e => if entry_ok record dest e then Some p else None
  | Done, _ => None
  | _, CallSleep _ _ => Some p
  | Asking, CallHasSkip s d r a =>
      if bool_decide ((s, d, r) = (scope, dest, record)) then
        match a with Ok true => Some Committing | Ok false => Some unsent | Err _ => Some Asking end
      else None
  | Sending, CallSend r b a =>
      if bool_decide (r = record) && bool_decide (Some b = body) then
        match a with Ok Skipped => Some Auditing | Ok _ => Some Committing | Err _ => Some Sending end
      else None
  | Auditing, CallSaveSkip s d r a =>
      if bool_decide ((s, d, r) = (scope, dest, record)) then
        match a with Ok _ => Some Committing | Err _ => Some Auditing end
      else None
  | Committing, CallCommit r a =>
      if bool_decide (r = raw) then match a with Ok _ => Some Done | Err _ => Some Committing end else None
  | _, _ => None
  end.

Definition run_phases (p : phase) (l : list event) : option phase :=
  foldl (fun p e => p ← p; step p e) (Some p) l.

Lemma run_phases_app (p q : phase) (l1 l2 : list event) :
  run_phases p l1 = Some q -> run_phases p (l1 ++ l2) = run_phases q l2.
Proof. unfold run_phases. intros H. by rewrite foldl_app, H. Qed.

Context {W : Type} `{World W}.

(** The phase after an answer: [next] of it, or no progress. *)
Definition after {A : Type} (p : phase) (next : A -> phase) (r : result error A) : phase :=
  match r with Ok a => next a | Err _ => p end.

Definition answer_phase (o : Outcome) : phase := if decide (o = Skipped) then Auditing else Committing.

(** A simulation: a property of the world for each phase that every call
    respects.  The program is followed once, for any simulation; the traced
    worlds below and other components' worlds supply theirs. *)
Record simulates (I : phase -> W -> Prop) : Prop := mkSimulates {
  si_log p e w : entry_ok record dest e = true -> I p w -> I p (LogAdd e w);
  si_sleep p d w e w' : p <> Done -> I p w -> ctxSleep d w = (e, w') -> I p w';
  si_jitter p n w j w' : I p w -> Jitter n w = (j, w') -> I p w';
  si_hasskip w a w' : I Asking w -> HasSkip scope dest record w = (a, w') ->
    I (after Asking (fun b : bool => if b then Committing else unsent) a) w';
  si_send b w a w' : body = Some b -> I Sending w -> Send record b w = (a, w') -> I (after Sending answer_phase a) w';
  si_saveskip w a w' : I Auditing w -> SaveSkip scope dest record w = (a, w') -> I (after Auditing (fun _ => Committing) a) w';
  si_commit w a w' : I Committing w -> Commit raw w = (a, w') -> I (after Committing (fun _ => Done) a) w' }.

Context (I : phase -> W -> Prop) (HI : simulates I).

Lemma follows_log (wk : Worker) (e : Entry) (w : W) (p : phase) : entry_ok record dest e = true -> I p w -> I p (log wk e w).
Proof. intros He Hp. unfold log. destruct (wk_Log wk); [by apply (si_log I HI)|done]. Qed.

Lemma Retry_follows {A : Type} (fuel : nat) (delay : Z) (fn : W -> result error A * W)
  (p : phase) (next : A -> phase) (w : W) (r : result error A) (w' : W) :
  p <> Done -> (forall w r w', I p w -> fn w = (r, w') -> I (after p next r) w') ->
  I p w -> Retry fuel delay fn w = Some (r, w') -> I (after p next r) w'.
Proof.
  intros Hp Hfn. revert w. induction fuel as [|fuel IH]; intros w Hw; cbn [Retry];
    (destruct (ctx_Err w); [by intros [= <- <-]|]);
    destruct (fn w) as [[a|e] w1] eqn:Hf; try (intros [= <- <-]; by apply (Hfn w));
    destruct (ctxSleep delay w1) as [[e'|] w2] eqn:Hs; try done;
    assert (Hst : I p w2) by (eapply (si_sleep I HI); [done|by apply (Hfn _ _ _ Hw Hf)|exact Hs]);
    try (by intros [= <- <-]).
  by apply IH.
Qed.

Lemma attempts_follows (fuel : nat) (b : string) (n : Z) (wk : Worker) (w : W) (r : result error Outcome) (w' : W) :
  body = Some b -> I Sending w ->
  attempts fuel record b n (fun a err => log wk (attemptEntry (entryFor record dest) a err)) w = Some (r, w') ->
  I (after Sending answer_phase r) w'.
Proof.
  intros Hb. destruct (entries_ok record dest) as (_ & Hat & _). set (entry := entryFor record dest) in *.
  revert n w. induction fuel as [|fuel IH]; intros n w Hw; cbn [attempts];
    destruct (Send record b w) as [a w1] eqn:Hsend; pose proof (si_send I HI _ _ _ _ Hb Hw Hsend) as H1;
    (destruct a as [o|e]; [intros [= <- <-]; by apply follows_log|]);
    (assert (H2 : I Sending (log wk (attemptEntry entry n (Some e)) w1)) by (by apply follows_log));
    cbn [error_of]; destruct (Jitter _ _) as [j w2] eqn:Hj; pose proof (si_jitter I HI _ _ _ _ _ H2 Hj) as H3;
    destruct (ctxSleep _ w2) as [[e'|] w3] eqn:Hs; try done;
    (assert (H4 : I Sending w3) by (by eapply (si_sleep I HI); [|exact H3|exact Hs])); try (by intros [= <- <-]).
  by apply IH.
Qed.
End Phases.

(** *** One record *)
Section OneRecord.
Context {W : Type} `{World W}.
Variables (fuel : nat) (wk : Worker) (raw : RawRecord) (record : Record_).

Definition filtered : bool := negb (MatchesFilter (DestFilter (wk_destination wk)) (Payload record)).
Definition envelope_body : option string := MarshalEnvelope (envelopeFor record (wk_destination wk)).
Definition unsent_phase : phase := if filtered then Committing else Sending.

(** Where sending leaves a record. *)
Definition sent_phase (r : result error Outcome) : phase :=
  match r with
  | Ok Skipped => Auditing
  | Ok _ => Committing
  | Err _ => unsent_phase
  end.

Let entry := entryFor record (wk_Destination wk).
Let Hentries := entries_ok record (wk_Destination wk).
Context (I : phase -> W -> Prop) (HI : simulates (wk_Scope wk) record (wk_Destination wk) envelope_body raw unsent_phase I).

Lemma send_follows (w w' : W) (r : result error Outcome) :
  I unsent_phase w -> send fuel wk record entry w = Some (r, w') -> I (sent_phase r) w'.
Proof.
  unfold send, Process, sent_phase. intros Hw.
  eapply (follows_log _ _ _ _ _ _ I HI wk (startedEntry entry)) in Hw; [|apply Hentries]. set (w0 := log wk _ w) in *.
  unfold unsent_phase, filtered in Hw |- *. destruct (negb (MatchesFilter _ _)) eqn:Hf.
  - cbn. intros [= <- <-]. eapply follows_log; [exact HI|apply Hentries|done].
  - fold envelope_body. destruct envelope_body as [b|] eqn:Hb.
    2:{ cbn. by intros [= <- <-]. }
    intros ([o w1] & Ha & Hr)%bind_Some.
    eapply (attempts_follows _ _ _ _ _ _ I HI) in Ha; [|reflexivity|exact Hw].
    destruct o as [o|e]; injection Hr as <- <-; cbn [after] in Ha; [|exact Ha].
    eapply (follows_log _ _ _ _ _ _ I HI wk (outcomeEntry entry o)) in Ha; [|apply Hentries]. by destruct o.
Qed.

Lemma skipped_follows (w w' : W) (r : result error bool) : Historical raw = true ->
  I Asking w -> skipped wk raw record w = (r, w') -> I (after Asking (fun b : bool => if b then Committing else unsent_phase) r) w'.
Proof. intros Hh. unfold skipped. rewrite Hh. apply (si_hasskip _ _ _ _ _ _ I HI). Qed.

Lemma commit_follows (w w' : W) (r : result error unit) :
  I Committing w -> commit wk raw entry w = (r, w') -> I (after Committing (fun _ => Done) r) w'.
Proof.
  unfold commit. intros Hw. destruct (Commit raw w) as [a w1] eqn:Hc. eapply (si_commit _ _ _ _ _ _ I HI) in Hc; [|done].
  destruct a as [[]|e]; [|destruct (ctx_Err w1)]; intros [= <- <-]; try done;
    (eapply follows_log; [exact HI|apply Hentries|done]).
Qed.

Lemma unsent_not_done : unsent_phase <> Done.
Proof. unfold unsent_phase. by destruct filtered. Qed.

Lemma sendAndAudit_follows (delay : Z) (w w' : W) (r : result error unit) :
  I unsent_phase w ->
  sendAndAudit fuel delay (mkActions (skipped wk raw record) (send fuel wk record entry)
    (SaveSkip (wk_Scope wk) (wk_Destination wk) record) (commit wk raw entry)) w = Some (r, w') ->
  match r with
  | Ok _ => I Committing w'
  | Err _ => exists p, p <> Done /\ I p w'
  end.
Proof.
  unfold sendAndAudit. intros Hw ([o w1] & Hs & Hr)%bind_Some. cbn [act_send] in Hs.
  apply send_follows in Hs; [|done]. destruct o as [[| |]|e]; try (injection Hr as <- <-; exact Hs).
  - cbn [act_audit] in Hr.
    eapply (Retry_follows _ _ _ _ _ _ I HI _ _ _ Auditing (fun _ => Committing)) in Hr;
      [|done|intros ???; apply (si_saveskip _ _ _ _ _ _ I HI)|exact Hs].
    destruct r; [exact Hr|]. by exists Auditing.
  - injection Hr as <- <-. exists unsent_phase. split; [apply unsent_not_done|exact Hs].
Qed.

(** The phase a raw record starts in. *)
Definition first_phase : phase := if Historical raw then Asking else unsent_phase.

Lemma completeRecord_follows (delay : Z) (w w' : W) (r : result error unit) :
  I first_phase w ->
  completeRecord fuel delay (mkActions (skipped wk raw record) (send fuel wk record entry)
    (SaveSkip (wk_Scope wk) (wk_Destination wk) record) (commit wk raw entry)) w = Some (r, w') ->
  exists p, I p w' /\ (r = Ok tt <-> p = Done).
Proof.
  unfold completeRecord. intros Hw ([a w1] & Hask & Hr)%bind_Some. cbn [act_skipped act_commit] in *.
  assert (H1 : exists p, I p w1 /\ p <> Done /\
    match a with Ok true => p = Committing | Ok false => p = unsent_phase | Err _ => True end).
  { unfold first_phase in Hw. destruct (Historical raw) eqn:Hh.
    - eapply (Retry_follows _ _ _ _ _ _ I HI _ _ _ Asking
        (fun b : bool => if b then Committing else unsent_phase)) in Hask;
        [|done|intros ???; by apply skipped_follows|exact Hw].
      eexists. split; [exact Hask|]. destruct a as [[]|]; cbn; auto using unsent_not_done.
    - unfold skipped in Hask. rewrite Hh in Hask. cbn [negb] in Hask.
      destruct fuel; cbn [Retry] in Hask; destruct (ctx_Err w); injection Hask as <- <-;
        (exists unsent_phase; split; [done|]; auto using unsent_not_done). }
  destruct H1 as (p & H1 & Hp & Ha). destruct a as [sk|e].
  2:{ injection Hr as <- <-. exists p. split; [exact H1|]. by split. }
  apply bind_Some in Hr as ([b w2] & Hsend & Hr).
  assert (H2 : match b with Ok _ => I Committing w2 | Err _ => exists q, q <> Done /\ I q w2 end).
  { destruct sk; cbn [negb] in Hsend; subst p; [by injection Hsend as <- <-|]. by apply sendAndAudit_follows in Hsend. }
  destruct b as [u|e].
  2:{ injection Hr as <- <-. destruct H2 as (q & Hq & Hf). exists q. split; [exact Hf|]. by split. }
  eapply (Retry_follows _ _ _ _ _ _ I HI _ _ _ Committing (fun _ => Done)) in Hr;
    [|done|intros ???; by apply commit_follows|exact H2].
  eexists. split; [exact Hr|]. destruct r as [[]|]; by split.
Qed.
End OneRecord.

(** *** The traced worlds are one simulation *)
Section Follows.
Context {W : Type} `{World W}.
Variables (scope : Scope) (record : Record_) (dest : string) (body : option string) (raw : RawRecord) (unsent : phase) (t : Traced W) (p0 : phase).

(** From phase [p0] the program took the world from [t] to [t'], ending in [q]. *)
Definition follows (q : phase) (t' : Traced W) : Prop :=
  exists l, events t' = events t ++ l /\ run_phases scope record dest body raw unsent p0 l = Some q.

Lemma follows_call {A : Type} (ev : A -> event) (f : W -> A * W) (t1 t2 : Traced W) (a : A) (p q : phase) :
  follows p t1 -> traced_call ev f t1 = (a, t2) -> step scope record dest body raw unsent p (ev a) = Some q -> follows q t2.
Proof.
  unfold traced_call. intros (l & Hl & Hp) Hc Hs. destruct (f _) as [b w]. injection Hc as <- <-. exists (l ++ [ev b]).
  split; [cbn; by rewrite Hl, app_assoc|]. rewrite (run_phases_app _ _ _ _ _ _ _ _ _ _ Hp). cbn. by rewrite Hs.
Qed.

Lemma follows_simulates : simulates scope record dest body raw unsent follows.
Proof.
  split.
  - intros p e w He (l & Hl & Hp). exists (l ++ [CallLog e]). split; [cbn; by rewrite Hl, app_assoc|].
    rewrite (run_phases_app _ _ _ _ _ _ _ _ _ _ Hp). destruct p; cbn -[entry_ok]; by rewrite He.
  - intros p d w e w' Hp Hw Hc. eapply follows_call; [exact Hw|exact Hc|]. by destruct p.
  - intros p n w j w' (l & Hl & Hp). cbn. destruct (Jitter _ _). intros [= _ <-]. by exists l.
  - intros w a w' Hw Hc. eapply follows_call; [exact Hw|exact Hc|]. cbn. rewrite bool_decide_eq_true_2 by done. by destruct a as [[]|].
  - intros b w a w' Hb Hw Hc. eapply follows_call; [exact Hw|exact Hc|]. cbn. rewrite !bool_decide_eq_true_2 by done. by destruct a as [[]|].
  - intros w a w' Hw Hc. eapply follows_call; [exact Hw|exact Hc|]. cbn. rewrite bool_decide_eq_true_2 by done. by destruct a.
  - intros w a w' Hw Hc. eapply follows_call; [exact Hw|exact Hc|]. cbn. rewrite bool_decide_eq_true_2 by done. by destruct a.
Qed.
End Follows.

(** ** What the state machine guarantees *)
Ltac step_guards :=
  repeat match goal with
  | H : (if bool_decide ?P then _ else _) = Some _ |- _ => destruct (bool_decide_reflect P); [|done]
  | H : (if bool_decide ?P && bool_decide ?Q then _ else _) = Some _ |- _ =>
      destruct (bool_decide_reflect P); [|done]; destruct (bool_decide_reflect Q); [|done]
  | H : (if entry_ok ?r ?d ?e then _ else _) = Some _ |- _ => destruct (entry_ok r d e); [|done]
  end.

Section Machine.
Variables (scope : Scope) (record : Record_) (dest : string) (body : option string) (raw : RawRecord) (unsent start : phase).
Hypothesis Hunsent : unsent = Sending \/ unsent = Committing.
Hypothesis Hstart : start = Asking \/ start = unsent.

Local Abbreviation run := (run_phases scope record dest body raw unsent start).

(** Evidence in a trace that the record needs nothing more from the
    destination: it is filtered, its skip was on record, or it was answered,
    and if the answer was to skip, the skip has been saved. *)
Definition justified (l : list event) : Prop :=
  unsent = Committing \/ CallHasSkip scope dest record (Ok true) ∈ l \/
  exists b o, body = Some b /\ CallSend record b (Ok o) ∈ l /\ (o = Skipped -> CallSaveSkip scope dest record (Ok tt) ∈ l).

Lemma justified_mono (l l' : list event) : justified l -> justified (l ++ l').
Proof.
  intros [?|[?|(b & o & ? & ? & Hs)]]; [by left|right; left; set_solver|].
  right; right. exists b, o. split; [done|]. split; [set_solver|]. intros Ho. set_solver.
Qed.

Definition is_send (e : event) : bool := match e with CallSend _ _ _ => true | _ => false end.

(** The destination gave a terminal answer. *)
Definition answered (l : list event) : Prop := exists r b o, CallSend r b (Ok o) ∈ l.

Lemma unsent_answered (l : list event) : Forall (fun e => is_send e = false) l -> ~ answered l.
Proof. rewrite Forall_forall. intros H (r & b & o & Hin). by specialize (H _ Hin). Qed.

Lemma answered_snoc (l : list event) (e : event) :
  (forall r b o, e <> CallSend r b (Ok o)) -> answered (l ++ [e]) -> answered l.
Proof.
  intros He (r & b & o & [Hin|Hin]%elem_of_app); [by exists r, b, o|].
  apply list_elem_of_singleton in Hin as <-. by destruct (He r b o).
Qed.

(** What holds in each phase. *)
Definition phase_inv (p : phase) (l : list event) : Prop :=
  match p with
  | Asking => Forall (fun e => is_send e = false) l /\ (CallHasSkip scope dest record (Ok true) ∉ l)
  | Sending => (CallHasSkip scope dest record (Ok true) ∉ l) /\ unsent = Sending /\ ~ answered l
  | Auditing => (CallHasSkip scope dest record (Ok true) ∉ l) /\ exists b, body = Some b /\ CallSend record b (Ok Skipped) ∈ l
  | Committing | Done =>
      justified l /\ (CallHasSkip scope dest record (Ok true) ∈ l -> Forall (fun e => is_send e = false) l)
  end.

Lemma run_snoc (l : list event) (e : event) (q : phase) :
  run (l ++ [e]) = Some q -> exists p, run l = Some p /\ step scope record dest body raw unsent p e = Some q.
Proof. unfold run_phases. rewrite foldl_app. cbn. intros (p & Hp & Hs)%bind_Some. eauto. Qed.

Lemma phase_inv_other (p : phase) (l : list event) (e : event) :
  is_send e = false -> e <> CallHasSkip scope dest record (Ok true) -> phase_inv p l -> phase_inv p (l ++ [e]).
Proof.
  intros He Hne. assert (Hno : CallHasSkip scope dest record (Ok true) ∈ l ++ [e] -> CallHasSkip scope dest record (Ok true) ∈ l)
    by (rewrite elem_of_app, list_elem_of_singleton; intros [?|<-]; done).
  assert (Hf : Forall (fun e => is_send e = false) l -> Forall (fun e => is_send e = false) (l ++ [e]))
    by (intros ?; apply Forall_app; auto).
  destruct p; cbn.
  - intros [H1 H2]. auto.
  - intros (H1 & H2 & H3). split_and!; auto. intros Ha%answered_snoc; [done|]. by intros r b o ->.
  - intros (H1 & b & H2 & H3). split; [auto|]. exists b. split; [done|]. set_solver.
  - intros [H1 H2]. split; [by apply justified_mono|auto].
  - intros [H1 H2]. split; [by apply justified_mono|auto].
Qed.

Lemma run_inv (l : list event) (p : phase) : run l = Some p -> phase_inv p l.
Proof.
  revert p. induction l as [|e l IH] using rev_ind; intros q Hq.
  - injection Hq as <-. destruct Hstart as [->| ->]; [cbn; split; [done|set_solver]|].
    destruct Hunsent as [->| ->]; cbn; [|by split; [left|]].
    split_and!; [set_solver|done|by apply unsent_answered].
  - apply run_snoc in Hq as (p & Hp & Hs). specialize (IH p Hp).
    destruct e as [s d r a|r b a|s d r a|r a|s re|en|d a]; destruct p; cbn -[entry_ok] in Hs; try done;
      step_guards; simplify_eq;
      try (destruct a as [[]|]; injection Hs as <-);
      try (injection Hs as <-);
      try (apply phase_inv_other; [done|done|exact IH]); cbn in IH |- *.
    + destruct IH as [H1 H2]. split; [right; left; set_solver|]. intros _. apply Forall_app; auto.
    + destruct IH as [H1 H2]. assert (Hf : Forall (fun e => is_send e = false) (l ++ [CallHasSkip scope dest record (Ok false)]))
        by (apply Forall_app; auto).
      destruct Hunsent as [->| ->] eqn:Hu; cbn; [|by split; [left|]].
      split_and!; [set_solver|done|by apply unsent_answered].
    + split; [|set_solver]. right; right. eexists _, Delivered. split; [done|]. split; [set_solver|done].
    + split; [|set_solver]. right; right. eexists _, Filtered. split; [done|]. split; [set_solver|done].
    + split; [set_solver|]. eexists. split; [done|set_solver].
    + destruct IH as (H1 & H2 & H3). split_and!; [set_solver|done|]. intros Ha%answered_snoc; done.
    + destruct IH as (H1 & b & Hb & H2). split; [|set_solver]. right; right. exists b, Skipped.
      split; [done|]. split; [set_solver|]. intros _. set_solver.
Qed.

(** Splitting a run at one of its calls. *)
Lemma run_split (l1 l2 : list event) (e : event) (q : phase) :
  run (l1 ++ e :: l2) = Some q -> exists p p', run l1 = Some p /\ step scope record dest body raw unsent p e = Some p'.
Proof.
  unfold run_phases. rewrite foldl_app. cbn [foldl].
  destruct (foldl _ (Some start) l1) as [p|]; cbn [mbind option_bind].
  - destruct (step scope record dest body raw unsent p e) as [p'|] eqn:Hs; [eauto|].
    intros H. exfalso. clear -H. induction l2 as [|x l2 IH]; [done|by apply IH].
  - intros H. exfalso. clear -H. induction l2 as [|x l2 IH]; [done|by apply IH].
Qed.

(** A commit, successful or not, comes after the evidence. *)
Lemma commit_justified (l1 l2 : list event) (r : RawRecord) (a : result error unit) (q : phase) :
  run (l1 ++ CallCommit r a :: l2) = Some q -> r = raw /\ justified l1.
Proof.
  intros (p & p' & Hp & Hs)%run_split. apply run_inv in Hp.
  destruct p; cbn in Hs; try done. destruct (bool_decide_reflect (r = raw)); [|done].
  split; [done|]. by apply Hp.
Qed.

(** A skip on record, or a terminal answer, is never followed by a send, and a
    filtered record is never sent. *)
Lemma send_unanswered (l1 l2 : list event) (r : Record_) (b : string) (a : result error Outcome) (q : phase) :
  run (l1 ++ CallSend r b a :: l2) = Some q ->
  r = record /\ Some b = body /\ (CallHasSkip scope dest record (Ok true) ∉ l1) /\ unsent = Sending /\ ~ answered l1.
Proof.
  intros (p & p' & Hp & Hs)%run_split. apply run_inv in Hp. destruct p; cbn in Hs; try done.
  destruct (bool_decide_reflect (r = record)); [|done]. destruct (bool_decide_reflect (Some b = body)); [|done].
  cbn in Hp. tauto.
Qed.

(** Everything logged is about the record. *)
Lemma log_about (l1 l2 : list event) (e : Entry) (q : phase) :
  run (l1 ++ CallLog e :: l2) = Some q -> entry_ok record dest e = true.
Proof. intros (p & p' & _ & Hs)%run_split. destruct p; cbn -[entry_ok] in Hs; by destruct (entry_ok record dest e). Qed.

(** The record is done exactly when a commit succeeded. *)
Lemma run_done (l : list event) (p : phase) : run l = Some p -> p = Done <-> CallCommit raw (Ok tt) ∈ l.
Proof.
  revert p. induction l as [|e l IH] using rev_ind; intros q Hq.
  - injection Hq as <-. split; [|set_solver]. intros ->. destruct Hstart as [?|<-], Hunsent; congruence.
  - apply run_snoc in Hq as (p & Hp & Hs). specialize (IH p Hp). rewrite elem_of_app, list_elem_of_singleton, <- IH.
    destruct e as [s d r a|r b a|s d r a|r a|s re|en|d a]; destruct p; cbn -[entry_ok] in Hs; try done;
      step_guards; simplify_eq; try (destruct a as [[]|]; injection Hs as <-); try (injection Hs as <-);
      try (split; [done|by intros [?|?]]); try (split; [by left|done]); try (split; [by right|done]).
    destruct Hunsent as [->| ->]; (split; [done|by intros [?|?]]).
Qed.
End Machine.

(** ** Time: worlds whose context ends *)

(** A clock, the moment the context is over by, and the states the world can be
    in. *)
Class Timeline (W : Type) : Type := { clock : W -> Z; deadline : Z; timely : W -> Prop }.

(** [w'] can follow [w]: no call turns the clock back. *)
Definition later {W : Type} `{Timeline W} (w w' : W) : Prop := timely w -> timely w' /\ clock w <= clock w'.

#[export] Instance later_preorder {W : Type} `{Timeline W} : PreOrder later.
Proof. split; [by intros w Hw|]. intros x y z Hxy Hyz Hx. destruct (Hxy Hx) as [Hy ?], (Hyz Hy). split; [done|lia]. Qed.

(** The interface's laws: the context reports its error once it is over, every
    call leads to a later state, and a full sleep advances the clock by the
    delay and ends before the deadline. *)
Class TimedWorld (W : Type) `{World W} `{Timeline W} : Prop := {
  ctx_Err_ends (w : W) : timely w -> ctx_Err w = None -> clock w <= deadline;
  sleep_advances (d : Z) (w w' : W) : timely w -> 0 <= d -> ctxSleep d w = (None, w') -> clock w + d <= clock w' /\ clock w' <= deadline;
  sleep_later (d : Z) (w w' : W) e : 0 <= d -> ctxSleep d w = (e, w') -> later w w';
  Jitter_later (n : Z) (w w' : W) (j : Z) : 0 < n -> Jitter n w = (j, w') -> later w w';
  Send_later (r : Record_) (b : string) (w w' : W) a : Send r b w = (a, w') -> later w w';
  HasSkip_later s d (r : Record_) (w w' : W) a : HasSkip s d r w = (a, w') -> later w w';
  SaveSkip_later s d (r : Record_) (w w' : W) a : SaveSkip s d r w = (a, w') -> later w w';
  Commit_later (r : RawRecord) (w w' : W) a : Commit r w = (a, w') -> later w w';
  Allowed_later (s : string) (w w' : W) a : Allowed s w = (a, w') -> later w w';
  Block_later (s : string) (e : error) (w : W) : later w (Block s e w);
  LogAdd_later (e : Entry) (w : W) : later w (LogAdd e w) }.

Lemma ceiling_range (a : Z) : 0 <= a -> Second <= ceiling a <= 64 * Second /\
  ceiling a = Second * 2 ^ Z.min a 6.
Proof.
  intros Ha. unfold ceiling. rewrite Z.shiftl_mul_pow2 by lia.
  assert (Hm : Z.min a 6 = 0 \/ Z.min a 6 = 1 \/ Z.min a 6 = 2 \/ Z.min a 6 = 3 \/ Z.min a 6 = 4 \/
    Z.min a 6 = 5 \/ Z.min a 6 = 6) by lia.
  unfold Second. destruct_or! Hm; rewrite Hm; cbn; lia.
Qed.

Lemma backoff_range (a : Z) (jitter : Z -> Z) :
  Second <= backoff a jitter <= 60 * Second.
Proof. unfold backoff, Second. lia. Qed.

(** [n] seconds of budget are at least as many retries. *)
Definition budget (fuel : nat) (now deadline : Z) : Prop := deadline < now + Z.of_nat (S fuel) * Second.

Section Termination.
Context {W : Type} {calls : World W} {line : Timeline W} {laws : TimedWorld W}.

(** One turn of a retry loop: the call, then the sleep. *)
Lemma turn_budget (fuel : nat) (d : Z) (w w1 w2 : W) :
  Second <= d -> timely w -> later w w1 -> ctxSleep d w1 = (None, w2) -> budget fuel (clock w) deadline ->
  exists fuel', fuel = S fuel' /\ budget fuel' (clock w2) deadline.
Proof.
  intros Hd Hw H1 Hs Hb. destruct (H1 Hw) as [Hw1 Hle]. apply sleep_advances in Hs; [|done|unfold Second in *; lia].
  unfold budget, Second in *. destruct fuel as [|fuel]; [lia|]. exists fuel. split; [done|lia].
Qed.

Lemma later_timely (w w' : W) : timely w -> later w w' -> timely w'.
Proof. intros Hw Hl. by apply Hl. Qed.

Lemma budget_later (fuel : nat) (w w' : W) : timely w -> later w w' -> budget fuel (clock w) deadline -> budget fuel (clock w') deadline.
Proof. intros Hw Hl. destruct (Hl Hw). unfold budget. lia. Qed.

Lemma Retry_terminates {A : Type} (fuel : nat) (delay : Z) (fn : W -> result error A * W) (w : W) :
  Second <= delay -> (forall w a w', fn w = (a, w') -> later w w') ->
  timely w -> budget fuel (clock w) deadline ->
  exists r w', Retry fuel delay fn w = Some (r, w') /\ later w w'.
Proof.
  intros Hd Hfn. assert (Hpos : 0 <= delay) by (unfold Second in Hd; lia).
  revert w. induction fuel as [|fuel IH]; intros w Hw Hb; cbn [Retry];
    (destruct (ctx_Err w) as [e|] eqn:Hc; [by eexists _, _|]);
    destruct (fn w) as [[a|e] w1] eqn:Hf; apply Hfn in Hf as H1'; try (by eexists _, _);
    destruct (ctxSleep delay w1) as [[e'|] w2] eqn:Hs;
    try (eexists _, _; split; [done|]; apply sleep_later in Hs; [by etrans|done]);
    destruct (turn_budget _ _ _ _ _ Hd Hw H1' Hs Hb) as (f & [= <-] & Hb').
  apply sleep_later in Hs; [|done]. assert (later w w2) as H2 by (by etrans).
  destruct (IH w2 (later_timely _ _ Hw H2) Hb') as (r & w' & Hr & Hle'). exists r, w'. split; [done|by etrans].
Qed.

Lemma attempts_terminates (fuel : nat) (record : Record_) (body : string) (n : Z)
  (onAttempt : Z -> option error -> W -> W) (w : W) :
  0 <= n -> (forall a e w, later w (onAttempt a e w)) -> timely w -> budget fuel (clock w) deadline ->
  exists r w', attempts fuel record body n onAttempt w = Some (r, w') /\ later w w'.
Proof.
  intros Hn Hat. revert n w Hn. induction fuel as [|fuel IH]; intros n w Hn Hw Hb; cbn [attempts];
    destruct (Send record body w) as [a w1] eqn:Hs; apply Send_later in Hs;
    (assert (later w (onAttempt n (error_of a) w1)) as Ha by (etrans; [exact Hs|apply Hat]));
    destruct a as [o|e]; try (by eexists _, _);
    destruct (Jitter _ _) as [j w2] eqn:Hj;
    (apply Jitter_later in Hj; [|destruct (ceiling_range n Hn) as [? _]; unfold Second in *; zdiv]);
    (assert (later w w2) as H2 by (by etrans));
    pose proof (backoff_range n (fun _ => j)) as Hrange;
    (destruct (ctxSleep _ w2) as [[e'|] w3] eqn:Hsl;
    [eexists _, _; split; [done|]; apply sleep_later in Hsl; [by etrans|unfold Second in *; lia]|]);
    destruct (turn_budget _ _ w w2 w3 (proj1 Hrange) Hw H2 Hsl Hb) as (f & [= <-] & Hb').
  apply sleep_later in Hsl; [|unfold Second in *; lia]. assert (later w w3) as H3 by (by etrans).
  destruct (IH (n + 1) w3 ltac:(lia) (later_timely _ _ Hw H3) Hb') as (r & w' & Hr & Hle'). exists r, w'. split; [done|by etrans].
Qed.

Lemma log_later (wk : Worker) (e : Entry) (w : W) : later w (log wk e w).
Proof. unfold log. destruct (wk_Log wk); [apply LogAdd_later|done]. Qed.

Lemma send_terminates (fuel : nat) (wk : Worker) (record : Record_) (entry : Entry) (w : W) :
  timely w -> budget fuel (clock w) deadline ->
  exists r w', send fuel wk record entry w = Some (r, w') /\ later w w'.
Proof.
  intros Hw Hb. unfold send. pose proof (log_later wk (startedEntry entry) w) as Hl0. set (w0 := log wk _ w) in *.
  assert (exists r w', Process fuel (wk_destination wk) record
    (fun a err => log wk (attemptEntry entry a err)) w0 = Some (r, w') /\ later w0 w') as (r & w1 & -> & Hl1).
  { unfold Process. destruct (negb _); [by eexists _, _|]. destruct (MarshalEnvelope _); [|by eexists _, _].
    apply attempts_terminates; [lia|intros; apply log_later|by eapply later_timely|by eapply budget_later]. }
  cbn [mbind option_bind]. destruct r as [o|e]; eexists _, _; (split; [done|]); [|by etrans].
  etrans; [exact Hl0|]. etrans; [exact Hl1|apply log_later].
Qed.

Lemma commit_later (wk : Worker) (raw : RawRecord) (entry : Entry) (w w' : W) (r : result error unit) :
  commit wk raw entry w = (r, w') -> later w w'.
Proof.
  unfold commit. destruct (Commit raw w) as [a w1] eqn:Hc. apply Commit_later in Hc.
  destruct a; [|destruct (ctx_Err w1)]; intros [= <- <-]; (etrans; [exact Hc|]); try done; apply log_later.
Qed.

Lemma skipped_later (wk : Worker) (raw : RawRecord) (record : Record_) (w w' : W) (a : result error bool) :
  skipped wk raw record w = (a, w') -> later w w'.
Proof. unfold skipped. destruct (negb _); [by intros [= <- <-]|]. apply HasSkip_later. Qed.

Lemma completeRecord_terminates (fuel : nat) (wk : Worker) (raw : RawRecord) (record : Record_) (entry : Entry) (w : W) :
  timely w -> budget fuel (clock w) deadline ->
  exists r w', completeRecord fuel storeRetryDelay (mkActions (skipped wk raw record) (send fuel wk record entry)
    (SaveSkip (wk_Scope wk) (wk_Destination wk) record) (commit wk raw entry)) w = Some (r, w') /\ later w w'.
Proof.
  intros Hw Hb. unfold completeRecord. cbn [act_skipped act_commit].
  destruct (Retry_terminates fuel storeRetryDelay (skipped wk raw record) w) as (a & w1 & -> & H1');
    [done|intros ???; apply skipped_later|done|done|].
  cbn [mbind option_bind]. destruct a as [sk|e]; [|by eexists _, _].
  assert (exists b w2, (if negb sk then sendAndAudit fuel storeRetryDelay (mkActions (skipped wk raw record)
    (send fuel wk record entry) (SaveSkip (wk_Scope wk) (wk_Destination wk) record) (commit wk raw entry)) w1
    else Some (Ok tt, w1)) = Some (b, w2) /\ later w w2) as (b & w2 & -> & H2').
  { destruct (negb sk); [|by eexists _, _]. unfold sendAndAudit. cbn [act_send act_audit].
    destruct (send_terminates fuel wk record entry w1) as (o & w2 & -> & H2'); [by eapply later_timely|by eapply budget_later|].
    assert (later w w2) as H2 by (by etrans).
    cbn [mbind option_bind]. destruct o as [[| |]|e]; try (by eexists _, _).
    destruct (Retry_terminates fuel storeRetryDelay (SaveSkip (wk_Scope wk) (wk_Destination wk) record) w2)
      as (r & w3 & -> & H3'); [done|intros ???; apply SaveSkip_later|by eapply later_timely|by eapply budget_later|].
    eexists _, _. split; [done|by etrans]. }
  cbn [mbind option_bind]. destruct b as [u|e]; [|by eexists _, _].
  destruct (Retry_terminates fuel storeRetryDelay (commit wk raw entry) w2) as (r & w3 & -> & H3');
    [done|intros ???; apply commit_later|by eapply later_timely|by eapply budget_later|]. eexists _, _. split; [done|by etrans].
Qed.

(** Processing returns, in a later state. *)
Lemma process_returns (fuel : nat) (wk : Worker) (raw : RawRecord) (w : W) :
  timely w -> budget fuel (clock w) deadline -> exists r w', WorkerProcess fuel wk raw w = Some (r, w') /\ later w w'.
Proof.
  intros Hw Hb. unfold WorkerProcess. destruct (allowed wk w) as [ok w1] eqn:Hal.
  assert (later w w1) as Hl by (unfold allowed in Hal; destruct (wk_Gate wk); [by apply Allowed_later in Hal|by injection Hal as _ <-]).
  destruct (negb ok); [by eexists _, _|]. destruct (wk_Decode wk raw) as [record|e].
  - destruct (completeRecord_terminates fuel wk raw record (entryFor record (wk_Destination wk)) w1) as (r & w' & Hr & Hl');
      [by eapply later_timely|by eapply budget_later|]. exists r, w'. split; [done|by etrans].
  - eexists _, _. split; [done|]. etrans; [exact Hl|]. unfold block. destruct (wk_Gate wk); [apply Block_later|done].
Qed.

(** Past the deadline it never succeeds. *)
Lemma process_late (fuel : nat) (wk : Worker) (raw : RawRecord) (w w' : W) (r : result error unit) :
  timely w -> deadline < clock w -> WorkerProcess fuel wk raw w = Some (r, w') -> exists e, r = Err e.
Proof.
  intros Hw Hlate. unfold WorkerProcess. destruct (allowed wk w) as [ok w1] eqn:Hal.
  assert (later w w1) as Hl by (unfold allowed in Hal; destruct (wk_Gate wk); [by apply Allowed_later in Hal|by injection Hal as _ <-]).
  destruct (Hl Hw) as [Hw1 Hc]. destruct (negb ok); [intros [= <- _]; by eexists|].
  destruct (wk_Decode wk raw) as [record|e]; [|intros [= <- _]; by eexists].
  unfold completeRecord. cbn [act_skipped]. destruct (ctx_Err w1) as [e|] eqn:He; [|apply ctx_Err_ends in He; [lia|done]].
  destruct fuel; cbn [Retry]; rewrite He; cbn; intros [= <- _]; by eexists.
Qed.
End Termination.

(** ** Properties *)
Section Properties.
Context {W : Type} `{World W}.
Variables (fuel : nat) (wk : Worker) (raw : RawRecord).

(** The run of an admitted, decodable record is a run of the state machine. *)
Lemma worker_run (record : Record_) (t t' : Traced W) (r : result error unit) :
  (allowed wk t).1 = true -> wk_Decode wk raw = Ok record ->
  WorkerProcess fuel wk raw t = Some (r, t') ->
  exists l p, events t' = events t ++ l /\
    run_phases (wk_Scope wk) record (wk_Destination wk) (envelope_body wk record) raw (unsent_phase wk record) (first_phase wk raw record) l = Some p /\
    (r = Ok tt <-> p = Done).
Proof.
  intros Ha Hd. unfold WorkerProcess. destruct (allowed wk t) as [ok t1] eqn:Hal. cbn in Ha. subst ok.
  assert (He : events t1 = events t).
  { unfold allowed in Hal. destruct (wk_Gate wk); [|by injection Hal as <-]. cbn in Hal.
    destruct (Allowed _ _). by injection Hal as _ <-. }
  cbn [negb]. rewrite Hd. intros Hw.
  eapply (completeRecord_follows _ _ _ _ _ (follows_simulates _ _ _ _ _ _ t1 (first_phase wk raw record))) in Hw as (p & (l & Hl & Hr) & Hp).
  - exists l, p. by rewrite Hl, He.
  - exists []. by rewrite app_nil_r.
Qed.

Lemma unsent_cases (record : Record_) : unsent_phase wk record = Sending \/ unsent_phase wk record = Committing.
Proof. unfold unsent_phase. destruct (filtered wk record); auto. Qed.
Lemma first_cases (record : Record_) :
  first_phase wk raw record = Asking \/ first_phase wk raw record = unsent_phase wk record.
Proof. unfold first_phase. destruct (Historical raw); auto. Qed.
End Properties.

(** C3. No offset is committed, or even offered for commit, before the record has
    a terminal outcome: it is filtered, or its skip was found on record, or the
    destination answered, and an answer to skip has been saved first.  Only the
    record's own offset is offered. *)
Theorem commit_after_outcome {W : Type} `{World W} (fuel : nat) (wk : Worker) (raw : RawRecord) (record : Record_)
  (t t' : Traced W) (r : result error unit) (l1 l2 : list event) (raw' : RawRecord) (a : result error unit) :
  (allowed wk t).1 = true -> wk_Decode wk raw = Ok record ->
  WorkerProcess fuel wk raw t = Some (r, t') -> events t' = events t ++ l1 ++ CallCommit raw' a :: l2 ->
  raw' = raw /\
  (MatchesFilter (DestFilter (wk_destination wk)) (Payload record) = false \/
   CallHasSkip (wk_Scope wk) (wk_Destination wk) record (Ok true) ∈ l1 \/
   exists body o, MarshalEnvelope (envelopeFor record (wk_destination wk)) = Some body /\
     CallSend record body (Ok o) ∈ l1 /\ (o = Skipped -> CallSaveSkip (wk_Scope wk) (wk_Destination wk) record (Ok tt) ∈ l1)).
Proof.
  intros Ha Hd Hw He. destruct (worker_run fuel wk raw record t t' r Ha Hd Hw) as (l & p & Hl & Hrun & _).
  assert (l = l1 ++ CallCommit raw' a :: l2) as -> by (eapply app_inv_head; by rewrite <- He, <- Hl).
  apply commit_justified in Hrun as [-> Hj]; [|apply unsent_cases|apply first_cases].
  split; [done|]. destruct Hj as [Hf|[Hs|Hb]]; [left|by right; left|by right; right].
  unfold unsent_phase, filtered in Hf. by destruct (MatchesFilter _ _).
Qed.

(** C4. What is sent is the record's own envelope, never when a filter excludes
    the record, never after its skip was found on record, and never again once
    the destination has answered. *)
Theorem send_discipline {W : Type} `{World W} (fuel : nat) (wk : Worker) (raw : RawRecord) (record : Record_)
  (t t' : Traced W) (r : result error unit) (l1 l2 : list event) (record' : Record_) (body : string)
  (a : result error Outcome) :
  (allowed wk t).1 = true -> wk_Decode wk raw = Ok record ->
  WorkerProcess fuel wk raw t = Some (r, t') -> events t' = events t ++ l1 ++ CallSend record' body a :: l2 ->
  record' = record /\ MarshalEnvelope (envelopeFor record (wk_destination wk)) = Some body /\
  MatchesFilter (DestFilter (wk_destination wk)) (Payload record) = true /\
  (CallHasSkip (wk_Scope wk) (wk_Destination wk) record (Ok true) ∉ l1) /\ ~ answered l1.
Proof.
  intros Ha Hd Hw He. destruct (worker_run fuel wk raw record t t' r Ha Hd Hw) as (l & p & Hl & Hrun & _).
  assert (l = l1 ++ CallSend record' body a :: l2) as -> by (eapply app_inv_head; by rewrite <- He, <- Hl).
  apply send_unanswered in Hrun as (-> & Hb & Hs & Hu & Hn); [|apply unsent_cases|apply first_cases].
  split_and!; try done. unfold unsent_phase, filtered in Hu. by destruct (MatchesFilter _ _).
Qed.

(** C17. A nil error means the offset was committed, and nothing else does; a record
    that may not be dispatched or cannot be decoded is neither sent nor
    committed, and the undecodable one blocks its source. *)
Theorem worker_outcome {W : Type} `{World W} (fuel : nat) (wk : Worker) (raw : RawRecord)
  (t t' : Traced W) (r : result error unit) :
  WorkerProcess fuel wk raw t = Some (r, t') ->
  exists l, events t' = events t ++ l /\
    (r = Ok tt <-> CallCommit raw (Ok tt) ∈ l) /\
    ((allowed wk t).1 = false -> r = Err Canceled /\ l = []) /\
    (forall e, (allowed wk t).1 = true -> wk_Decode wk raw = Err e ->
       r = Err e /\ l = if wk_Gate wk then [CallBlock (wk_SourceID wk) e] else []).
Proof.
  intros Hw. pose proof Hw as Hw'. unfold WorkerProcess in Hw'. destruct (allowed wk t) as [ok t1] eqn:Hal.
  assert (He : events t1 = events t).
  { unfold allowed in Hal. destruct (wk_Gate wk); [|by injection Hal as _ <-]. cbn in Hal.
    destruct (Allowed _ _). by injection Hal as _ <-. }
  destruct ok; cbn [negb] in Hw'.
  - destruct (wk_Decode wk raw) as [record|e] eqn:Hd.
    + destruct (worker_run fuel wk raw record t t' r) as (l & p & Hl & Hrun & Hp); [by rewrite Hal|done..|].
      exists l. split; [done|]. split; [|split; done]. rewrite Hp.
      eapply run_done; [| |exact Hrun]; [apply unsent_cases|apply first_cases].
    + injection Hw' as <- <-. exists (if wk_Gate wk then [CallBlock (wk_SourceID wk) e] else []).
      unfold block. split; [|split; [split; [done|destruct (wk_Gate wk); set_solver]|split; [done|]]].
      * destruct (wk_Gate wk); cbn; by rewrite He, ?app_nil_r.
      * intros e' _ [= <-]. done.
  - injection Hw' as <- <-. exists []. rewrite app_nil_r. split; [done|]. split; [split; [done|set_solver]|].
    split; [done|]. done.
Qed.

(** Processing always ends once the context does: with a deadline, a second of
    fuel per retry is enough whatever the destination, the store and the broker
    answer. *)
Theorem worker_terminates {W : Type} `{TimedWorld W} (fuel : nat) (wk : Worker) (raw : RawRecord) (w : W) :
  timely w -> deadline < clock w + Z.of_nat (S fuel) * Second ->
  exists r w', WorkerProcess fuel wk raw w = Some (r, w').
Proof. intros Hw Hb. destruct (process_returns fuel wk raw w Hw Hb) as (r & w' & Hr & _). by exists r, w'. Qed.

(** The wait doubles from one second to sixty: with a jitter that returns a
    value below its argument it lies between half the ceiling and the ceiling,
    clamped to [1s, 60s]; the shift is exact and nothing leaves 64 bits. *)
Theorem backoff_window (attempt : Z) (jitter : Z -> Z) :
  0 <= attempt -> (forall n, 0 < n -> 0 <= jitter n < n) ->
  let c := Second * 2 ^ Z.min attempt 6 in
  ceiling attempt = c /\ c < 2 ^ 63 /\
  Z.max Second (c / 2) <= backoff attempt jitter <= Z.min (Z.max Second c) (60 * Second) /\
  (attempt = 0 -> backoff attempt jitter = Second).
Proof.
  intros Ha Hj c. destruct (ceiling_range attempt Ha) as [Hc He]. fold c in He. rewrite He in Hc.
  split; [done|]. unfold Second in *. split; [lia|]. unfold backoff. rewrite He.
  assert (Hc0 : attempt = 0 -> c = 1000000000) by (intros ->; reflexivity). clearbody c.
  assert (Hh : 2 * (c / 2) <= c < 2 * (c / 2) + 2) by zdiv.
  specialize (Hj (c / 2 + 1) ltac:(lia)). unfold Second in *. generalize dependent (c / 2). lia.
Qed.

(** ** The attempt loop finds the first answer *)
Section FirstAnswer.
Context {W : Type} `{World W}.
Variables (record : Record_) (body : string) (onAttempt : Z -> option error -> W -> W).

(** [n] failed attempts, each followed by a full sleep, from [w] to [w']. *)
Inductive failed_attempts : Z -> nat -> W -> W -> Prop :=
| no_attempt (a : Z) (w : W) : failed_attempts a 0 w w
| one_attempt (a : Z) (n : nat) (w w1 w2 w3 w' : W) (e : error) (j : Z) :
    Send record body w = (Err e, w1) ->
    Jitter (ceiling a / 2 + 1) (onAttempt a (Some e) w1) = (j, w2) ->
    ctxSleep (backoff a (fun _ => j)) w2 = (None, w3) ->
    failed_attempts (a + 1) n w3 w' -> failed_attempts a (S n) w w'.

(** Two descriptions of the same failed turn agree. *)
Ltac same_turn Hs Hj Hsl :=
  match goal with
  | H1 : Send _ _ ?w = (Err _, _), Hj' : Jitter _ _ = (_, _), Hsl' : ctxSleep _ _ = (None, _) |- _ =>
      rewrite H1 in Hs; injection Hs as <- <-; rewrite Hj' in Hj; injection Hj as <- <-;
      rewrite Hsl' in Hsl; try discriminate Hsl; try (injection Hsl as <-)
  end.

Lemma attempts_answer (fuel : nat) (a : Z) (w w' : W) (o : Outcome) :
  attempts fuel record body a onAttempt w = Some (Ok o, w') <->
  exists n w1 w2, (n <= fuel)%nat /\ failed_attempts a n w w1 /\ Send record body w1 = (Ok o, w2) /\
    w' = onAttempt (a + Z.of_nat n) None w2.
Proof.
  revert a w. induction fuel as [|fuel IH]; intros a w; cbn [attempts];
    destruct (Send record body w) as [[o'|e] w1] eqn:Hs; cbn [error_of].
  1,3: split;
    [intros [= -> <-]; exists 0%nat, w, w1; rewrite Z.add_0_r; split_and!; [lia|constructor|done|done]|];
    intros (n & x1 & x2 & Hn & Hf & Hok & ->); inversion Hf; subst; [|congruence];
    rewrite Hs in Hok; injection Hok as -> ->; by rewrite Z.add_0_r.
  - destruct (Jitter _ _) as [j w2] eqn:Hj. destruct (ctxSleep _ w2) as [[e'|] w3] eqn:Hsl;
      (split; [done|]); intros (n & x1 & x2 & Hn & Hf & Hok & ->); inversion Hf; subst; lia || congruence.
  - destruct (Jitter _ _) as [j w2] eqn:Hj. destruct (ctxSleep _ w2) as [[e'|] w3] eqn:Hsl.
    + split; [done|]. intros (n & x1 & x2 & Hn & Hf & Hok & ->). inversion Hf; subst; [congruence|].
      same_turn Hs Hj Hsl.
    + rewrite IH. split.
      * intros (n & x1 & x2 & Hn & Hf & Hok & ->). exists (S n), x1, x2.
        replace (a + Z.of_nat (S n)) with (a + 1 + Z.of_nat n) by lia.
        split_and!; [lia|by econstructor|done|done].
      * intros (n & x1 & x2 & Hn & Hf & Hok & ->). inversion Hf; subst; [congruence|].
        same_turn Hs Hj Hsl.
        match goal with Hfa : failed_attempts (a + 1) ?m _ _ |- _ => exists m, x1, x2 end.
        split_and!; [lia|done|done|]. f_equal. lia.
Qed.
End FirstAnswer.

(** C25. Delivery has no attempt limit: a record that passes the filter is answered
    with [o] exactly when, after some number of failed attempts separated by
    full sleeps, the next attempt is answered with [o]; so enough fuel always
    finds the first answer, and the answer is never altered or lost. *)
Theorem process_first_answer {W : Type} `{World W} (d : Destination) (record : Record_) (body : string)
  (onAttempt : Z -> option error -> W -> W) (w w' : W) (o : Outcome) :
  MatchesFilter (DestFilter d) (Payload record) = true -> MarshalEnvelope (envelopeFor record d) = Some body ->
  (exists fuel, Process fuel d record onAttempt w = Some (Ok o, w')) <->
  exists n w1 w2, failed_attempts record body onAttempt 0 n w w1 /\ Send record body w1 = (Ok o, w2) /\
    w' = onAttempt (Z.of_nat n) None w2.
Proof.
  intros Hf Hm. unfold Process. rewrite Hf, Hm. cbn [negb]. split.
  - intros (fuel & (n & w1 & w2 & _ & ?)%attempts_answer). by exists n, w1, w2.
  - intros (n & w1 & w2 & Hn). exists n. apply attempts_answer. exists n, w1, w2. split; [done|exact Hn].
Qed.


(** The activity log reveals nothing but identifiers: every entry logged for a
    record carries its base entry and fixed texts, whatever the destination, the
    store or the broker answered, and the base entry ignores the payload. *)
Theorem log_blind {W : Type} `{World W} (fuel : nat) (wk : Worker) (raw : RawRecord) (record : Record_)
  (t t' : Traced W) (r : result error unit) (l1 l2 : list event) (e : Entry) :
  (allowed wk t).1 = true -> wk_Decode wk raw = Ok record ->
  WorkerProcess fuel wk raw t = Some (r, t') -> events t' = events t ++ l1 ++ CallLog e :: l2 ->
  entry_ok record (wk_Destination wk) e = true /\
  forall payload, entryFor record (wk_Destination wk) =
    entryFor (mkRecord (RecSource record) payload (RecTopic record) (RecPartition record) (RecOffset record)
      (EventID record) (AggregateID record) (EventName record) (RecGeneration record) (Replay record)) (wk_Destination wk).
Proof.
  intros Ha Hd Hw He. destruct (worker_run fuel wk raw record t t' r Ha Hd Hw) as (l & p & Hl & Hrun & _).
  assert (l = l1 ++ CallLog e :: l2) as -> by (eapply app_inv_head; by rewrite <- He, <- Hl).
  split; [by eapply log_about|done].
Qed.

(** ** A scripted world, for witnesses

    A clock, and for each port the answers still to come; when a script runs
    out the port fails. Calls take no time; [limit] ends the context. *)
Record Sim : Type := mkSim {
  s_now : Z;
  s_sends : list (result error Outcome);
  s_skips : list (result error bool);
  s_saves : list (result error unit);
  s_commits : list (result error unit) }.

Definition pop {A : Type} (l : list (result error A)) : result error A * list (result error A) :=
  match l with [] => (Err (Errorf "down" []), []) | a :: l => (a, l) end.

Definition sim_limit : Z := 10 * Second.

#[export] Instance sim_world : World Sim := {
  ctx_Err w := if sim_limit <=? s_now w then Some Canceled else None;
  ctxSleep d w :=
    let '(e, now) := sleep_until (Some (sim_limit, Canceled)) d false (s_now w) in
    (e, mkSim now (s_sends w) (s_skips w) (s_saves w) (s_commits w));
  Jitter n w := (n - 1, w);
  Send _ _ w := let '(a, l) := pop (s_sends w) in (a, mkSim (s_now w) l (s_skips w) (s_saves w) (s_commits w));
  HasSkip _ _ _ w := let '(a, l) := pop (s_skips w) in (a, mkSim (s_now w) (s_sends w) l (s_saves w) (s_commits w));
  SaveSkip _ _ _ w := let '(a, l) := pop (s_saves w) in (a, mkSim (s_now w) (s_sends w) (s_skips w) l (s_commits w));
  Commit _ w := let '(a, l) := pop (s_commits w) in (a, mkSim (s_now w) (s_sends w) (s_skips w) (s_saves w) l);
  Allowed _ w := (true, w);
  Block _ _ w := w;
  LogAdd _ w := w }.

#[export] Instance sim_timeline : Timeline Sim := { clock := s_now; deadline := sim_limit; timely := fun _ => True }.

#[export] Instance sim_timed : TimedWorld Sim.
Proof.
  split; unfold later; cbn.
  - intros w _. destruct (Z.leb_spec sim_limit (s_now w)); [done|lia].
  - intros d w w' _ Hd. unfold sleep_until.
    destruct (Z.ltb_spec sim_limit (s_now w + d)); cbn [orb]; [done|]. rewrite andb_false_r. intros [= <-]. cbn. lia.
  - intros d w w' e Hd. unfold sleep_until. destruct (_ || _); intros [= _ <-] _; cbn; (split; [done|lia]).
  - intros n w w' j Hn [= _ <-] _. split; [done|lia].
  - intros r b w w' a. destruct (pop _). intros [= _ <-] _. cbn. split; [done|lia].
  - intros s d r w w' a. destruct (pop _). intros [= _ <-] _. cbn. split; [done|lia].
  - intros s d r w w' a. destruct (pop _). intros [= _ <-] _. cbn. split; [done|lia].
  - intros r w w' a. destruct (pop _). intros [= _ <-] _. cbn. split; [done|lia].
  - intros s w w' a [= _ <-] _. split; [done|lia].
  - intros s e w _. split; [done|lia].
  - intros e w _. split; [done|lia].
Qed.

(** A redelivered record whose destination fails once, then asks to skip. *)
Definition sim_record : Record_ :=
  mkRecord (mkSource "s" "" "" [] "" "") "{}" "t" 0 7 "e" "a" "n" 1 true.
Definition sim_raw : RawRecord := mkRawRecord "t" 0 7 0 "k" "v" true.
Definition sim_scope : Scope := mkScope "n" "e" 1.
Definition sim_worker (decode : result error Record_) : Worker :=
  mkWorker (mkDestination "d" "" None) (fun _ => decode) sim_scope "d" "s" true true.
Definition sim_body : string := default "" (MarshalEnvelope (envelopeFor sim_record (mkDestination "d" "" None))).
Definition down : error := Errorf "down" [].
Definition sim_start : Traced Sim :=
  mkTraced (mkSim 0 [Err down; Ok Skipped] [Ok false] [Err down; Ok tt] [Ok tt]) [].

(** The run of that record, in order, log entries left out. *)
Definition calls (l : list event) : list event :=
  List.filter (fun e => match e with CallLog _ => false | _ => true end) l.

Definition sim_result : option (result error unit * Traced Sim) :=
  WorkerProcess 10 (sim_worker (Ok sim_record)) sim_raw sim_start.
Definition sim_events : list event := default [] ((fun p => events p.2) <$> sim_result).

Example sim_calls : calls sim_events =
  [CallHasSkip sim_scope "d" sim_record (Ok false); CallSend sim_record sim_body (Err down); CallSleep Second None;
   CallSend sim_record sim_body (Ok Skipped); CallSaveSkip sim_scope "d" sim_record (Err down); CallSleep Second None;
   CallSaveSkip sim_scope "d" sim_record (Ok tt); CallCommit sim_raw (Ok tt)].
Proof. vm_compute. reflexivity. Qed.

(** ** Witnesses *)

(** The run ends, and its events split at any position. *)
Definition sim_state : Traced Sim := match sim_result with Some (_, t) => t | None => sim_start end.
Lemma sim_runs : sim_result = Some (Ok tt, sim_state).
Proof. vm_compute. reflexivity. Qed.
Lemma sim_split (n : nat) (e : event) : events sim_state !! n = Some e ->
  events sim_state = events sim_start ++ take n (events sim_state) ++ e :: drop (S n) (events sim_state).
Proof. intros H. cbn [events sim_start app]. by rewrite take_drop_middle. Qed.

Lemma commit_after_outcome_witness : CallSaveSkip sim_scope "d" sim_record (Ok tt) ∈ take 11 (events sim_state).
Proof.
  destruct (@commit_after_outcome Sim sim_world 10 (sim_worker (Ok sim_record)) sim_raw sim_record sim_start sim_state (Ok tt)
    (take 11 (events sim_state)) (drop 12 (events sim_state)) sim_raw (Ok tt) eq_refl eq_refl sim_runs
    ltac:(vm_compute; reflexivity)) as [_ [Hf|[Hs|(b & o & _ & Hin & Hs)]]].
  - vm_compute in Hf. discriminate Hf.
  - vm_compute in Hs. exfalso. repeat (apply elem_of_cons in Hs as [Hs|Hs]; [discriminate Hs|]). by apply not_elem_of_nil in Hs.
  - apply Hs. vm_compute in Hin.
    repeat (apply elem_of_cons in Hin as [Hin|Hin]; [first [discriminate Hin|by injection Hin]|]).
    by apply not_elem_of_nil in Hin.
Defined.

Lemma send_discipline_witness : ~ answered (take 5 (events sim_state)).
Proof.
  apply (@send_discipline Sim sim_world 10 (sim_worker (Ok sim_record)) sim_raw sim_record sim_start sim_state (Ok tt)
    (take 5 (events sim_state)) (drop 6 (events sim_state)) sim_record sim_body (Ok Skipped) eq_refl eq_refl sim_runs).
  vm_compute. reflexivity.
Defined.

Lemma worker_outcome_witness :
  events (default sim_start (snd <$> WorkerProcess 10 (sim_worker (Err down)) sim_raw sim_start)) = [CallBlock "s" down].
Proof.
  destruct (@worker_outcome Sim sim_world 10 (sim_worker (Err down)) sim_raw sim_start
    (mkTraced (inner sim_start) [CallBlock "s" down]) (Err down) ltac:(vm_compute; reflexivity)) as (l & Hl & _ & _ & Hd).
  destruct (Hd down eq_refl eq_refl) as [_ ->]. vm_compute. reflexivity.
Defined.

(** Nothing ever answers: the context ends the processing. *)
Lemma worker_terminates_witness :
  exists r w, WorkerProcess 10 (sim_worker (Ok sim_record)) sim_raw (mkSim 0 [] [] [] []) = Some (r, w).
Proof. apply (worker_terminates (W := Sim)); [exact I|vm_compute; reflexivity]. Defined.

Lemma backoff_window_witness :
  Second * 4 <= backoff 3 (fun n => n / 2) <= Second * 8.
Proof.
  destruct (backoff_window 3 (fun n => n / 2) ltac:(lia)) as (_ & _ & H & _); [intros n Hn; zdiv|].
  change (Second * 2 ^ Z.min 3 6) with 8000000000 in H. change Second with 1000000000 in *.
  change (8000000000 / 2) with 4000000000 in H. lia.
Defined.

Lemma process_first_answer_witness :
  exists fuel w, Process fuel (mkDestination "d" "" None) sim_record (fun _ _ w => w)
    (mkSim 0 [Err down; Ok Delivered] [] [] []) = Some (Ok Delivered, w).
Proof.
  set (w1 := mkSim Second [Ok Delivered] [] [] []).
  destruct (@process_first_answer Sim sim_world (mkDestination "d" "" None) sim_record sim_body (fun _ _ w => w)
    (mkSim 0 [Err down; Ok Delivered] [] [] []) (mkSim Second [] [] [] []) Delivered
    ltac:(vm_compute; reflexivity) ltac:(vm_compute; reflexivity)) as [_ H].
  destruct H as (fuel & H).
  - exists 1%nat, w1, (mkSim Second [] [] [] []). split; [|split; reflexivity].
    eapply (one_attempt _ _ _ 0 0 _ (mkSim 0 [Ok Delivered] [] [] []) (mkSim 0 [Ok Delivered] [] [] []) w1);
      [reflexivity|reflexivity|vm_compute; reflexivity|constructor].
  - exists fuel. eexists. exact H.
Defined.

Lemma log_blind_witness : exists e, entry_ok sim_record "d" e = true /\ Message e = "retry".
Proof.
  exists (attemptEntry (entryFor sim_record "d") 0 (Some down)). split; [|reflexivity].
  apply (@log_blind Sim sim_world 10 (sim_worker (Ok sim_record)) sim_raw sim_record sim_start sim_state (Ok tt)
    (take 3 (events sim_state)) (drop 4 (events sim_state)) _ eq_refl eq_refl sim_runs).
  vm_compute. reflexivity.
Defined.
