(* ===== verification/HttpDelivery.v ===== *)
(** * HttpDelivery: one delivery attempt over HTTP

    Models [internal/adapters/httpdelivery/client.go].  The transport is a
    function from the request to what [client.Do] returns; a response body is
    the bytes it yields and whether reading it fails after them. *)

From S2P Require Import Prelude Strconv GoSha256 Stream Protocol Delivery.
Local Open Scope Z_scope.

(** The endpoint and its basic-auth credentials. *)
Record HttpDestination : Type := mkHttpDestination {
  HttpID : string; Endpoint : string; Username : string; Password : string }.

(** [fmt.Sprint] of a bool and of an integer. *)
Definition bool_text (b : bool) : string := if b then "true" else "false".

Definition positionText (r : Record_) : string :=
  RecTopic r +:+ ":" +:+ Itoa (RecPartition r) +:+ ":" +:+ Itoa (RecOffset r).

Definition stableID (r : Record_) : string :=
  if negb (str_eqb (EventID r) "") then EventID r else EncodeToString (Sum256 (positionText r)).

(** The headers set on the request, in order; [SetBasicAuth] comes first, as
    its credentials. *)
Record Request : Type := mkRequest {
  req_url : string;
  req_auth : string * string;
  req_header : list (string * string);
  req_body : string }.

Definition setHeaders (d : HttpDestination) (r : Record_) : (string * string) * list (string * string) :=
  let id := stableID r in
  ((Username d, Password d),
   [("Content-Type", "application/json");
    ("X-Postie-Event-ID", id);
    ("X-Postie-Delivery-Generation", GenString (RecGeneration r));
    ("X-Postie-Replay", bool_text (Replay r));
    ("X-Postie-Topic", RecTopic r);
    ("X-Postie-Partition", Itoa (RecPartition r));
    ("X-Postie-Offset", Itoa (RecOffset r));
    ("Idempotency-Key", id +:+ ":" +:+ HttpID d +:+ ":" +:+ GenString (RecGeneration r))]).

Record Response : Type := mkResponse {
  StatusCode : Z; body_bytes : string; body_error : option error }.

Definition body_limit : Z := Z.shiftl 64 10.

(** [io.ReadAll(io.LimitReader(body, n))]: a read error counts unless the limit
    is reached first. *)
Definition read_limited (n : nat) (r : Response) : result error string :=
  if (n <=? String.length (body_bytes r))%nat then Ok (str_take n (body_bytes r))
  else match body_error r with Some e => Err e | None => Ok (body_bytes r) end.

Definition classify (statusCode : Z) (body : string) : result error Outcome :=
  if (statusCode <? 200) || (299 <? statusCode) then Err (Errorf "destination returned HTTP %d" [Itoa statusCode])
  else match DecodeAcknowledgement body with
  | (_, Some e) => Err e
  | (Protocol.Success, None) => Ok Delivered
  | (Protocol.KeepGoing, None) => Ok Skipped
  | (Protocol.Retry, None) => Err (Errorf "destination requested retry" [])
  end.

Definition request (d : HttpDestination) (r : Record_) (body : string) : Request :=
  let '(auth, header) := setHeaders d r in mkRequest (Endpoint d) auth header body.

(** [Send]: [valid_url] is whether a request can be built for the endpoint,
    [do_] the transport, which never follows a redirect. *)
Definition ClientSend (valid_url : string -> bool) (do_ : Request -> result error Response)
  (d : HttpDestination) (r : Record_) (body : string) : result error Outcome :=
  if negb (valid_url (Endpoint d)) then Err (Errorf "parse %q: invalid URL" [Endpoint d])
  else
    response ← do_ (request d r body);
    raw ← read_limited (Z.to_nat (body_limit + 1)) response;
    if body_limit <? Z.of_nat (String.length raw) then Err (Errorf "destination response exceeds 64 KiB" [])
    else classify (StatusCode response) raw.

(** ** LeaseTransport

    A context is its deadline, [None] without one. What the transport does is
    the list of its effects: it starts the request under a context, and a
    cancel releases that context. *)
Inductive transport_event : Type :=
| Started (deadline : option Z)
| CancelLease.

(** [context.WithDeadline]: the earlier of the parent's and the new one. *)
Definition WithDeadline (parent : option Z) (d : Z) : option Z :=
  Some (match parent with Some p => Z.min p d | None => d end).

(** The gate, when there is one: whether it allows the source, and the lease
    deadline, asked for afterwards; any two answers, for the gate may change in
    between.  A response comes with whether closing its body cancels. *)
Definition RoundTrip {R : Type} (gate : option (bool * Z)) (parent : option Z) (base : option Z -> result error R) :
  result error (R * bool) * list transport_event :=
  match gate with
  | Some (false, _) => (Err Canceled, [])
  | Some (true, lease) =>
      let ctx := WithDeadline parent lease in
      match base ctx with
      | Err e => (Err e, [Started ctx; CancelLease])
      | Ok r => (Ok (r, true), [Started ctx])
      end
  | None =>
      match base parent with
      | Err e => (Err e, [Started parent])
      | Ok r => (Ok (r, false), [Started parent])
      end
  end.

(** [leaseBody.Close]: closes the body, then cancels. *)
Definition leaseClose {R : Type} (r : R * bool) : list transport_event := if r.2 then [CancelLease] else [].

(** ** Lemmas *)
Lemma read_limited_ok (n : nat) (r : Response) (s : string) :
  read_limited n r = Ok s <->
  ((n <= String.length (body_bytes r))%nat /\ s = str_take n (body_bytes r)) \/
  ((String.length (body_bytes r) < n)%nat /\ body_error r = None /\ s = body_bytes r).
Proof.
  unfold read_limited. destruct (Nat.leb_spec n (String.length (body_bytes r))); [|destruct (body_error r)];
    naive_solver lia.
Qed.

Lemma classify_ok (status : Z) (body : string) (o : Outcome) :
  classify status body = Ok o <->
  200 <= status <= 299 /\
  ((o = Delivered /\ DecodeAcknowledgement body = (Protocol.Success, None)) \/
   (o = Skipped /\ DecodeAcknowledgement body = (Protocol.KeepGoing, None))).
Proof.
  unfold classify. destruct (Z.ltb_spec status 200), (Z.ltb_spec 299 status); cbn [orb];
    try (split; [done|lia]). destruct (DecodeAcknowledgement body) as [[] [e|]]; naive_solver lia.
Qed.

(** A response that ends delivery with [o]: a 2xx status and a body of at most
    64 KiB, read to its end, with the acknowledgement of that outcome. *)
Definition final (response : Response) (o : Outcome) : Prop :=
  200 <= StatusCode response <= 299 /\
  Z.of_nat (String.length (body_bytes response)) <= 65536 /\ body_error response = None /\
  ((o = Delivered /\ DecodeAcknowledgement (body_bytes response) = (Protocol.Success, None)) \/
   (o = Skipped /\ DecodeAcknowledgement (body_bytes response) = (Protocol.KeepGoing, None))).

Lemma response_final (response : Response) (o : Outcome) :
  (raw ← read_limited (Z.to_nat (body_limit + 1)) response;
   if body_limit <? Z.of_nat (String.length raw) then Err (Errorf "destination response exceeds 64 KiB" [])
   else classify (StatusCode response) raw) = Ok o <-> final response o.
Proof.
  rewrite bind_Ok. change (body_limit + 1) with 65537. change body_limit with 65536. split.
  - intros (raw & Hread & H). destruct (Z.ltb_spec 65536 (Z.of_nat (String.length raw))); [done|].
    apply read_limited_ok in Hread as [[Hlen ->]|(Hlen & Herr & ->)].
    { rewrite str_length_take in *. lia. }
    apply classify_ok in H as [Hstatus H]. split_and!; auto; lia.
  - intros (Hstatus & Hlen & Herr & H).
    exists (body_bytes response). split; [apply read_limited_ok; right; split; [lia|done]|].
    destruct (Z.ltb_spec 65536 (Z.of_nat (String.length (body_bytes response)))); [lia|]. by apply classify_ok.
Qed.

(** An attempt that ends delivery had such a response. *)
Lemma client_final (valid_url : string -> bool) (do_ : Request -> result error Response) (d : HttpDestination) (r : Record_) (body : string) (o : Outcome) :
  ClientSend valid_url do_ d r body = Ok o ->
  valid_url (Endpoint d) = true /\ exists response, do_ (request d r body) = Ok response /\ final response o.
Proof.
  unfold ClientSend. destruct (valid_url (Endpoint d)); [|done]. intros (response & Hdo & Hr)%bind_Ok. apply response_final in Hr.
  by split; [|exists response].
Qed.

(** Digits hold no colon, so a position is read off its text from the right. *)
Definition no_colon (s : string) : bool := str_forallb (fun c => negb (Ascii.eqb ":" c)) s.

Lemma colon_split (a b s t : string) :
  no_colon s = true -> no_colon t = true -> a +:+ ":" +:+ s = b +:+ ":" +:+ t -> a = b /\ s = t.
Proof.
  intros Hs Ht. revert b. induction a as [|c a IH]; intros [|d b] H; cbn in H.
  - by injection H.
  - injection H as <- ->. exfalso. unfold no_colon in Hs. rewrite str_forallb_app in Hs. cbn in Hs.
    by rewrite andb_false_r in Hs.
  - injection H as -> <-. exfalso. unfold no_colon in Ht. rewrite str_forallb_app in Ht. cbn in Ht.
    by rewrite andb_false_r in Ht.
  - injection H as -> H. by destruct (IH b H) as [-> ->].
Qed.

Lemma Itoa_no_colon (n : Z) : no_colon (Itoa n) = true.
Proof.
  assert (Hd : forall m, 0 <= m -> no_colon (FormatUint m) = true).
  { intros m Hm. destruct (FormatUint_spec m Hm) as (Hall & _). eapply str_forallb_impl; [|exact Hall].
    intros c Hc. apply negb_true_iff, Ascii.eqb_neq. intros <-. done. }
  unfold Itoa. destruct (n <? 0) eqn:Hn; bools; [|by apply Hd]. cbn. apply Hd. lia.
Qed.

Lemma positionText_inj (r r' : Record_) : positionText r = positionText r' ->
  RecTopic r = RecTopic r' /\ RecPartition r = RecPartition r' /\ RecOffset r = RecOffset r'.
Proof.
  assert (Hsplit : forall x, positionText x =
    (RecTopic x +:+ ":" +:+ Itoa (RecPartition x)) +:+ ":" +:+ Itoa (RecOffset x)).
  { intros x. unfold positionText. by rewrite !str_app_assoc. }
  rewrite !Hsplit. intros H. apply colon_split in H as [H Ho]; [|apply Itoa_no_colon..].
  apply colon_split in H as [Ht Hp]; [|apply Itoa_no_colon..]. auto using Itoa_inj.
Qed.

(** ** Properties *)

(** C29. An attempt ends delivery in exactly one case: the destination answered
    with a 2xx status and a body of at most 64 KiB, read to its end, holding a
    success (delivered) or a keep-going (skipped) acknowledgement. *)
Theorem http_outcome_iff (valid_url : string -> bool) (do_ : Request -> result error Response)
  (d : HttpDestination) (r : Record_) (body : string) (o : Outcome) :
  ClientSend valid_url do_ d r body = Ok o <->
  valid_url (Endpoint d) = true /\
  exists response,
    do_ (request d r body) = Ok response /\ final response o.
Proof.
  unfold ClientSend. destruct (valid_url (Endpoint d)); cbn [negb]; [|split; [done|by intros [? _]]]. rewrite bind_Ok. split.
  - intros (response & Hdo & Hr). apply response_final in Hr. split; [done|]. by exists response.
  - intros (_ & response & Hdo & Hr). exists response. split; [done|]. by apply response_final.
Qed.

(** A record is named to the destination by its event id, or else by a hash of
    its topic, partition and offset alone, whose text tells any two positions
    apart; redeliveries of the same event in the same generation carry the same
    idempotency key. *)
Theorem stable_id_names (d : HttpDestination) (r r' : Record_) :
  (EventID r <> "" -> stableID r = EventID r) /\
  (EventID r = "" -> stableID r = EncodeToString (Sum256 (positionText r))) /\
  (positionText r = positionText r' <->
    RecTopic r = RecTopic r' /\ RecPartition r = RecPartition r' /\ RecOffset r = RecOffset r') /\
  (EventID r = EventID r' -> positionText r = positionText r' -> RecGeneration r = RecGeneration r' ->
    last (setHeaders d r).2 = last (setHeaders d r').2).
Proof.
  unfold stableID. split_and!.
  - intros H. destruct (str_eqb (EventID r) "") eqn:He; [by apply str_eqb_true in He|done].
  - intros ->. done.
  - split; [apply positionText_inj|]. intros (H1 & H2 & H3). unfold positionText. by rewrite H1, H2, H3.
  - intros He Hp Hg. unfold setHeaders, stableID. cbn. by rewrite He, Hp, Hg.
Qed.

(** The transport's lease fence: without permission nothing is started; with it
    exactly one request is, never beyond the lease or the caller's deadline,
    and its context is released exactly once, on failure or when the body is
    closed. *)
Theorem lease_fences {R : Type} (allowed : bool) (lease : Z) (parent : option Z) (base : option Z -> result error R) :
  let '(r, events) := RoundTrip (Some (allowed, lease)) parent base in
  if allowed then
    exists t, base (Some t) = match r with Ok (x, _) => Ok x | Err e => Err e end /\
      t <= lease /\ (forall p, parent = Some p -> t <= p) /\
      (t = lease \/ parent = Some t) /\
      events ++ match r with Ok x => leaseClose x | Err _ => [] end = [Started (Some t); CancelLease]
  else r = Err Canceled /\ events = [].
Proof.
  destruct allowed; cbn; [|done]. set (t := match parent with Some p => Z.min p lease | None => lease end).
  assert (Ht : t <= lease /\ (forall p, parent = Some p -> t <= p) /\ (t = lease \/ parent = Some t)).
  { subst t. destruct parent as [p|]; [|split; [lia|split; [done|by left]]].
    split; [lia|]. split; [intros q [= ->]; lia|].
    destruct (Z.min_spec p lease) as [[_ ->]|[_ ->]]; auto. }
  change (WithDeadline parent lease) with (Some t). clearbody t.
  destruct (base (Some t)) as [x|e] eqn:Hb; exists t; rewrite Hb; cbn; tauto.
Qed.

(** ** Witnesses *)
Lemma stable_id_names_witness :
  stableID (mkRecord (mkSource "s" "" "" [] "" "") "{}" "orders" 1 42 "" "" "" 1 false) =
    EncodeToString (Sum256 "orders:1:42") /\
  stableID (mkRecord (mkSource "s" "" "" [] "" "") "{}" "orders" 1 42 "e" "" "" 1 false) = "e".
Proof.
  set (d := mkHttpDestination "d" "" "" "").
  split.
  - apply (stable_id_names d (mkRecord (mkSource "s" "" "" [] "" "") "{}" "orders" 1 42 "" "" "" 1 false)
      (mkRecord (mkSource "s" "" "" [] "" "") "{}" "orders" 1 42 "" "" "" 1 false)). reflexivity.
  - apply (stable_id_names d (mkRecord (mkSource "s" "" "" [] "" "") "{}" "orders" 1 42 "e" "" "" 1 false)
      (mkRecord (mkSource "s" "" "" [] "" "") "{}" "orders" 1 42 "e" "" "" 1 false)). discriminate.
Defined.
