(* ===== verification/Debezium.v ===== *)
(** * Debezium: decoding one captured record

    Models [internal/adapters/debezium/decode.go]: the whole of [Decode]. *)

From S2P Require Import Prelude Strconv Json JsonCodec JsonString Stream Payload.
Local Open Scope Z_scope.

Definition errorsf (format : string) (args : list string) : error := Errorf ("payload: " +:+ format) args.

(** A raw-message map. *)
Abbreviation rawmap := (gmap string string).

Definition decodeObject (raw name : string) : result error rawmap :=
  if bool_decide (raw = "") then Err (errorsf "%s is empty" [name])
  else match UnmarshalRawMap raw with
  | Some (Some object) => Ok object
  | _ => Err (errorsf "%s is not a JSON object" [name])
  end.

Definition decodeField (raw field : string) : result error string :=
  ok_or (errorsf "field %q is not a string" [field]) (UnmarshalString raw).

Definition stringField (object : rawmap) (name context : string) : result error string :=
  match object !! name with
  | None => Err (errorsf "%s is missing %q" [context; name])
  | Some raw => decodeField raw (context +:+ "." +:+ name)
  end.

(** [errorsf("%v", err)] prints the inner error. *)
Definition convertOr (r : result error string) : result error string :=
  match r with Ok v => Ok v | Err e => Err (Wrapf "payload: %v" [] e) end.

Definition validateSource (envelope : rawmap) (source : Source) : result error unit :=
  match envelope !! "source" with
  | None => Err (errorsf "envelope is missing source metadata" [])
  | Some raw =>
      metadata ← decodeObject raw "source metadata";
      schema ← stringField metadata "schema" "source metadata";
      table ← stringField metadata "table" "source metadata";
      _ ← reject_if (negb (str_eqb schema "public")) (errorsf "source schema is not public" []);
      reject_if (negb (str_eqb table (SrcTable source))) (errorsf "source table does not match configured table" [])
  end.

(** The loop over the configured columns: the first one that is the
    partitioning column converts the key value, and the loop stops. *)
Fixpoint convertKey (columns : list Column) (partitioning keyValue : string) : result error unit :=
  match columns with
  | [] => Ok tt
  | c :: columns =>
      if str_eqb (Name c) partitioning then
        _ ← convertOr (ConvertValue (Type_ c) keyValue (Name c +:+ " in Kafka key")); Ok tt
      else convertKey columns partitioning keyValue
  end.

Definition validateKey (raw : string) (after : rawmap) (identity : Identity) : result error unit :=
  key ← decodeObject raw "Kafka key";
  _ ← reject_if (negb (bool_decide (size key = 1%nat))) (errorsf "Kafka key must contain only the partition column" []);
  match key !! PartitioningColumn identity with
  | None => Err (errorsf "Kafka key is missing the partition column" [])
  | Some keyValue =>
      _ ← reject_if (isNull keyValue) (errorsf "Kafka key is missing the partition column" []);
      match after !! PartitioningColumn identity with
      | None => Err (errorsf "after object has a null partition column" [])
      | Some afterValue =>
          _ ← reject_if (isNull afterValue) (errorsf "after object has a null partition column" []);
          _ ← convertKey (Columns identity) (PartitioningColumn identity) keyValue;
          match Compact keyValue with
          | None => Err (errorsf "Kafka key has malformed partition value" [])
          | Some keyCompact =>
              match Compact afterValue with
              | None => Err (errorsf "Kafka key does not match the partition column" [])
              | Some afterCompact =>
                  reject_if (negb (str_eqb keyCompact afterCompact))
                    (errorsf "Kafka key does not match the partition column" [])
              end
          end
      end
  end.

Definition afterObject (record : RawRecord) (source : Source) (identity : Identity) : result error rawmap :=
  envelope ← decodeObject (Value record) "envelope";
  op ← stringField envelope "op" "envelope";
  _ ← reject_if (negb (str_eqb op "c") && negb (str_eqb op "r")) (errorsf "unsupported operation" []);
  _ ← validateSource envelope source;
  match envelope !! "after" with
  | None => Err (errorsf "operation has no after object" [])
  | Some afterRaw =>
      _ ← reject_if (isNull afterRaw) (errorsf "operation has no after object" []);
      after ← decodeObject afterRaw "after";
      _ ← validateKey (Key record) after identity;
      Ok after
  end.

Definition configuredValue (after : rawmap) (column : Column) (identity : Identity) : result error string :=
  match after !! Name column with
  | None => Err (errorsf "after object is missing configured column %q" [Name column])
  | Some raw =>
      _ ← reject_if (isNull raw && (str_eqb (Name column) (SerialColumn identity) ||
                                    str_eqb (Name column) (PartitioningColumn identity)))
            (errorsf "required column %q is null" [Name column]);
      convertOr (ConvertValue (Type_ column) raw (Name column))
  end.

Definition eventIDFrom (raw column : string) : result error string :=
  _ ← reject_if (isNull raw) (errorsf "event id column %q is null" [column]);
  eventID ← decodeField raw ("event id " +:+ column);
  _ ← reject_if (str_eqb eventID "") (errorsf "event id column %q is empty" [column]);
  Ok eventID.

(** [after[name]] of a missing name is a nil message. *)
Definition after_raw (after : rawmap) (name : string) : string := default "" (after !! name).

(** The loop of [configuredValues] with its two accumulators. *)
Fixpoint configuredValues_loop (after : rawmap) (identity : Identity) (columns : list Column)
  (values : rawmap) (eventID : string) : result error (rawmap * string) :=
  match columns with
  | [] => Ok (values, eventID)
  | column :: columns =>
      converted ← configuredValue after column identity;
      let values := <[Name column := converted]> values in
      eventID ← (if str_eqb (Name column) (EventIDColumn identity)
                 then eventIDFrom (after_raw after (Name column)) (Name column) else Ok eventID);
      configuredValues_loop after identity columns values eventID
  end.

Definition configuredValues (after : rawmap) (identity : Identity) : result error (rawmap * string) :=
  configuredValues_loop after identity (Columns identity) ∅ "".

(** The loop over the identity's columns beside the source's, [seen] so far. *)
Fixpoint validateColumns (identity : Identity) (columns : list Column) (sourceColumns seen : list string) :
  result error (list string) :=
  match columns with
  | [] => Ok seen
  | column :: columns =>
      _ ← reject_if (str_eqb (Name column) "" || str_mem (Name column) seen ||
                     negb (bool_decide (head sourceColumns = Some (Name column))))
            (errorsf "identity has invalid configured columns" []);
      let seen := Name column :: seen in
      _ ← reject_if (negb (Supported (Type_ column)))
            (errorsf "configured column %q has unsupported type" [Name column]);
      _ ← reject_if (str_eqb (Name column) (SerialColumn identity) && negb (Integer (Type_ column)))
            (errorsf "serial column %q has invalid type" [Name column]);
      validateColumns identity columns (tail sourceColumns) seen
  end.

Definition validateIdentity (source : Source) (identity : Identity) (generation : Generation) : result error unit :=
  _ ← reject_if (negb (Stream.Valid generation)) (errorsf "generation is invalid" []);
  _ ← reject_if (str_eqb (SrcTable source) "" || str_eqb (Table identity) "" ||
                 negb (str_eqb (Table identity) (SrcTable source)))
        (errorsf "identity table does not match source table" []);
  _ ← reject_if (str_eqb (SerialColumn identity) "" || str_eqb (PartitioningColumn identity) "" ||
                 negb (str_eqb (SerialColumn identity) (SrcSerialColumn source)) ||
                 negb (str_eqb (PartitioningColumn identity) (SrcPartitioningColumn source)))
        (errorsf "identity columns do not match source configuration" []);
  _ ← reject_if (Partitions identity <? 1) (errorsf "identity has invalid partition count" []);
  _ ← reject_if (bool_decide (SrcColumns source = []) ||
                 negb (bool_decide (length (Columns identity) = length (SrcColumns source))))
        (errorsf "identity columns do not match source configuration" []);
  seen ← validateColumns identity (Columns identity) (SrcColumns source) [];
  let eventIDKnown := str_eqb (EventIDColumn identity) "" || str_mem (EventIDColumn identity) seen in
  reject_if (negb (str_mem (SerialColumn identity) seen) || negb (str_mem (PartitioningColumn identity) seen) ||
             negb eventIDKnown)
    (errorsf "identity is missing a required configured column" []).

Definition optionalString (values : rawmap) (column : string) : string :=
  match values !! column with
  | None => ""
  | Some raw => default "" (UnmarshalString raw)
  end.

Definition Decode (source : Source) (identity : Identity) (generation : Generation) (record : option RawRecord) :
  result error Record_ :=
  match record with
  | None => Err (errorsf "record is nil" [])
  | Some record =>
      _ ← validateIdentity source identity generation;
      after ← afterObject record source identity;
      '(values, eventID) ← configuredValues after identity;
      match MarshalRawMap values with
      | None => Err (errorsf "marshal configured payload" [])
      | Some payload =>
          Ok (mkRecord source payload (RawTopic record) (RawPartition record) (RawOffset record) eventID
            (optionalString values "aggregate_id") (optionalString values "event_name") generation false)
      end
  end.

(** ** What decoding accepts *)

(** The identity agrees with the source: what [validateIdentity] checks. *)
Definition identity_ok (source : Source) (identity : Identity) (generation : Generation) : Prop :=
  1 <= generation /\ SrcTable source <> "" /\ Table identity = SrcTable source /\
  SerialColumn identity <> "" /\ PartitioningColumn identity <> "" /\
  SerialColumn identity = SrcSerialColumn source /\ PartitioningColumn identity = SrcPartitioningColumn source /\
  1 <= Partitions identity /\ SrcColumns source <> [] /\
  map Name (Columns identity) = SrcColumns source /\ NoDup (SrcColumns source) /\
  Forall (fun c => Name c <> "" /\ Supported (Type_ c) = true /\
    (Name c = SerialColumn identity -> Integer (Type_ c) = true)) (Columns identity) /\
  SerialColumn identity ∈ SrcColumns source /\ PartitioningColumn identity ∈ SrcColumns source /\
  (EventIDColumn identity <> "" -> EventIDColumn identity ∈ SrcColumns source).

Lemma validateColumns_ok (identity : Identity) (columns : list Column) (sourceColumns seen seen' : list string) :
  length columns = length sourceColumns ->
  validateColumns identity columns sourceColumns seen = Ok seen' <->
  seen' = rev_append (map Name columns) seen /\ map Name columns = sourceColumns /\
  NoDup sourceColumns /\ (forall n, n ∈ sourceColumns -> n ∉ seen) /\
  Forall (fun c => Name c <> "" /\ Supported (Type_ c) = true /\
    (Name c = SerialColumn identity -> Integer (Type_ c) = true)) columns.
Proof.
  revert sourceColumns seen. induction columns as [|c columns IH]; intros [|s sourceColumns] seen Hlen; try done.
  - cbn. split; [intros [= <-]|intros [-> _]; done]. split_and!; [done|done|constructor|set_solver|done].
  - injection Hlen as Hlen. cbn [validateColumns map rev_append head tail]. rewrite !reject_bind, IH by done.
    rewrite !orb_false_iff, !negb_false_iff, andb_false_iff, negb_false_iff, bool_decide_eq_true, str_eqb_false,
      str_mem_false, str_eqb_false, NoDup_cons, Forall_cons. split.
    + intros (((Hne & Hns) & Hs) & Hsup & Hint & -> & Hmap & Hnd & Hdis & Hall).
      injection Hs as ->. split_and!; try done.
      * congruence.
      * intros Hin. apply (Hdis _ Hin). by left.
      * intros n [->|Hn]%elem_of_cons; [done|]. intros ?. apply (Hdis n Hn). by right.
      * intros Heq. by destruct Hint.
    + intros (-> & [= Hs Hmap] & [Hnin Hnd] & Hdis & (Hne & Hsup & Hint) & Hall). subst s. split_and!; try done.
      * apply Hdis. by left.
      * destruct (decide (Name c = SerialColumn identity)); [right; auto|left; done].
      * intros n Hn [->|?]%elem_of_cons; [done|]. by apply (Hdis n); [right|].
Qed.

Lemma validateIdentity_ok (source : Source) (identity : Identity) (generation : Generation) :
  validateIdentity source identity generation = Ok tt <-> identity_ok source identity generation.
Proof.
  unfold validateIdentity, identity_ok. rewrite !reject_bind, !orb_false_iff, !negb_false_iff, !str_eqb_false, !str_eqb_true,
    !bool_decide_eq_false, !bool_decide_eq_true, Z.ltb_ge. unfold Stream.Valid. rewrite Z.leb_le.
  rewrite bind_Ok. split.
  - intros (? & ((? & ?) & ?) & (((? & ?) & ?) & ?) & ? & (? & Hlen) & seen & Hv & Hr).
    apply validateColumns_ok in Hv as (-> & Hmap & Hnd & _ & Hall); [|done].
    apply reject_if_Ok in Hr. rewrite !orb_false_iff, !negb_false_iff, !str_mem_true, orb_true_iff, str_eqb_true, str_mem_true in Hr.
    rewrite rev_append_rev, app_nil_r, Hmap, !list_elem_of_In, <- !in_rev, <- !list_elem_of_In in Hr.
    destruct Hr as ((? & ?) & Hev). split_and!; try done. intros ?. by destruct Hev.
  - intros (? & ? & ? & ? & ? & ? & ? & ? & ? & Hmap & Hnd & Hall & Hs & Hp & Hev). 
    assert (Hlen : length (Columns identity) = length (SrcColumns source)) by (by rewrite <- Hmap, length_map).
    split_and!; try done; [congruence|].
    exists (rev_append (map Name (Columns identity)) []). split.
    + apply validateColumns_ok; [done|]. split_and!; try done. set_solver.
    + apply reject_if_Ok. rewrite !orb_false_iff, !negb_false_iff, !str_mem_true, orb_true_iff, str_eqb_true, str_mem_true.
      rewrite rev_append_rev, app_nil_r, Hmap, !list_elem_of_In, <- !in_rev, <- !list_elem_of_In.
      split_and!; [done..|]. destruct (decide (EventIDColumn identity = "")); [by left|right; auto].
Qed.

(** Members of a decoded object. *)
Definition string_at (m : rawmap) (k v : string) : Prop :=
  exists raw, m !! k = Some raw /\ UnmarshalString raw = Some v.
Definition object_at (m : rawmap) (k : string) (o : rawmap) : Prop :=
  exists raw, m !! k = Some raw /\ UnmarshalRawMap raw = Some (Some o).

Lemma decodeObject_ok (raw name : string) (m : rawmap) :
  decodeObject raw name = Ok m <-> UnmarshalRawMap raw = Some (Some m).
Proof.
  unfold decodeObject. case_bool_decide as H.
  - subst. split; [done|]. intros H. vm_compute in H. done.
  - destruct (UnmarshalRawMap raw) as [[o|]|]; naive_solver.
Qed.

Lemma stringField_ok (m : rawmap) (name context v : string) :
  stringField m name context = Ok v <-> string_at m name v.
Proof.
  unfold stringField, string_at, decodeField. destruct (m !! name) as [raw|]; [|naive_solver].
  rewrite ok_or_Ok. naive_solver.
Qed.

Lemma validateSource_ok (envelope : rawmap) (source : Source) :
  validateSource envelope source = Ok tt <->
  exists metadata, object_at envelope "source" metadata /\
    string_at metadata "schema" "public" /\ string_at metadata "table" (SrcTable source).
Proof.
  unfold validateSource, object_at. destruct (envelope !! "source") as [raw|]; [|naive_solver].
  rewrite bind_Ok. setoid_rewrite decodeObject_ok. setoid_rewrite bind_Ok. setoid_rewrite stringField_ok.
  setoid_rewrite bind_Ok. setoid_rewrite stringField_ok. setoid_rewrite reject_bind. setoid_rewrite reject_if_Ok.
  setoid_rewrite negb_false_iff. setoid_rewrite str_eqb_true. naive_solver.
Qed.

Definition column_named (columns : list Column) (name : string) : option Column :=
  List.find (fun c => str_eqb (Name c) name) columns.

Lemma convertOr_ok (r : result error string) (v : string) : convertOr r = Ok v <-> r = Ok v.
Proof. destruct r; cbn; naive_solver. Qed.

Lemma convertKey_ok (columns : list Column) (p keyValue : string) :
  convertKey columns p keyValue = Ok tt <->
  forall c, column_named columns p = Some c ->
    exists out, ConvertValue (Type_ c) keyValue (p +:+ " in Kafka key") = Ok out.
Proof.
  induction columns as [|c columns IH]; cbn [convertKey column_named List.find]; [naive_solver|].
  destruct (str_eqb (Name c) p) eqn:Hn; [|exact IH]. apply str_eqb_true in Hn as <-.
  rewrite bind_Ok. setoid_rewrite convertOr_ok. naive_solver.
Qed.

(** The record's key is the one-column object of the partitioning column, with
    the same JSON value as the row has. *)
Definition key_ok (raw : string) (after : rawmap) (identity : Identity) : Prop :=
  let p := PartitioningColumn identity in
  exists kv av text,
    UnmarshalRawMap raw = Some (Some {[ p := kv ]}) /\ isNull kv = false /\
    after !! p = Some av /\ isNull av = false /\ Compact kv = Some text /\ Compact av = Some text /\
    (forall c, column_named (Columns identity) p = Some c ->
       exists out, ConvertValue (Type_ c) kv (p +:+ " in Kafka key") = Ok out).

Lemma size_one (m : rawmap) (k v : string) : size m = 1%nat /\ m !! k = Some v <-> m = {[ k := v ]}.
Proof.
  split; [|intros ->; split; [apply map_size_singleton|by rewrite lookup_singleton_eq]].
  intros [Hs Hk]. rewrite <- (insert_delete_id m k v Hk) in Hs |- *.
  rewrite map_size_insert_None in Hs by apply lookup_delete_eq. injection Hs as Hs.
  apply map_size_empty_inv in Hs. by rewrite Hs.
Qed.

Lemma validateKey_ok (raw : string) (after : rawmap) (identity : Identity) :
  validateKey raw after identity = Ok tt <-> key_ok raw after identity.
Proof.
  unfold validateKey, key_ok. cbn zeta. set (p := PartitioningColumn identity). rewrite bind_Ok. split.
  - intros (key & Hkey%decodeObject_ok & (Hsize & H)%reject_bind). rewrite negb_false_iff, bool_decide_eq_true in Hsize.
    destruct (key !! p) as [kv|] eqn:Hkv; [|done]. apply reject_bind in H as [Hnk H].
    destruct (after !! p) as [av|] eqn:Hav; [|done]. apply reject_bind in H as [Hna H].
    apply bind_Ok in H as ([] & Hconv & H).
    pose proof (proj1 (convertKey_ok _ _ _) Hconv) as Hconv'.
    destruct (Compact kv) as [kc|] eqn:Hkc; [|done]. destruct (Compact av) as [ac|] eqn:Hac; [|done].
    apply reject_if_Ok, negb_false_iff, str_eqb_true in H as ->.
    assert (key = {[ p := kv ]}) as -> by (by apply size_one). by exists kv, av, ac.
  - intros (kv & av & text & Hkey & Hnk & Hav & Hna & Hkc & Hac & Hconv). exists {[ p := kv ]}.
    rewrite decodeObject_ok, reject_bind, map_size_singleton, bool_decide_eq_true_2 by done.
    rewrite (lookup_singleton_eq (M := gmap string)), Hav, Hkc, Hac, !reject_bind, bind_Ok. split_and!; try done.
    exists tt. rewrite convertKey_ok, reject_if_Ok, negb_false_iff, str_eqb_true. done.
Qed.

(** The row image a record carries. *)
Definition row_of (record : RawRecord) (source : Source) (identity : Identity) (after : rawmap) : Prop :=
  exists envelope metadata,
    UnmarshalRawMap (Value record) = Some (Some envelope) /\
    (string_at envelope "op" "c" \/ string_at envelope "op" "r") /\
    object_at envelope "source" metadata /\
    string_at metadata "schema" "public" /\ string_at metadata "table" (SrcTable source) /\
    object_at envelope "after" after /\ key_ok (Key record) after identity.

Lemma object_not_null (raw : string) (o : rawmap) :
  is_raw raw -> UnmarshalRawMap raw = Some (Some o) -> isNull raw = false.
Proof.
  intros (c & -> & Hc) Ho. destruct (isNull (print c)) eqn:Hn; [|done].
  apply isNull_raw in Hn as ->; [|done]. vm_compute in Ho. done.
Qed.

Lemma afterObject_ok (record : RawRecord) (source : Source) (identity : Identity) (after : rawmap) :
  afterObject record source identity = Ok after <-> row_of record source identity after.
Proof.
  unfold afterObject, row_of. rewrite bind_Ok. split.
  - intros (env & Henv%decodeObject_ok & H). apply bind_Ok in H as (op & Hop%stringField_ok & H).
    apply reject_bind in H as [Hcr H]. apply bind_Ok in H as ([] & (md & Hsrc)%validateSource_ok & H).
    destruct (env !! "after") as [raw|] eqn:Hraw; [|done]. apply reject_bind in H as [_ H].
    apply bind_Ok in H as (after' & Ha%decodeObject_ok & H).
    apply bind_Ok in H as ([] & Hkey%validateKey_ok & [= <-]).
    exists env, md. rewrite andb_false_iff, !negb_false_iff, !str_eqb_true in Hcr.
    split_and!; try tauto; [by destruct Hcr as [-> | ->]; auto|by exists raw].
  - intros (env & md & Henv & Hop & Hsrc & Hsc & Htb & (raw & Hraw & Ha) & Hkey). exists env.
    split; [by apply decodeObject_ok|]. apply bind_Ok.
    assert (exists op, string_at env "op" op /\ (op = "c" \/ op = "r")) as (op & Ho & Hcr)
      by (destruct Hop; eauto). exists op. split; [by apply stringField_ok|]. apply reject_bind.
    split; [rewrite andb_false_iff, !negb_false_iff, !str_eqb_true; done|].
    apply bind_Ok. exists tt. split; [apply validateSource_ok; eauto|]. rewrite Hraw, reject_bind.
    split; [exact (object_not_null raw after (UnmarshalRawMap_raw _ _ _ _ Henv Hraw) Ha)|]. apply bind_Ok. exists after.
    split; [by apply decodeObject_ok|]. apply bind_Ok. exists tt. split; [by apply validateKey_ok|done].
Qed.

(** A configured column's value: present, not null where required, converted. *)
Definition value_of (after : rawmap) (identity : Identity) (c : Column) (v : string) : Prop :=
  exists raw, after !! Name c = Some raw /\
    (Name c = SerialColumn identity \/ Name c = PartitioningColumn identity -> isNull raw = false) /\
    ConvertValue (Type_ c) raw (Name c) = Ok v.

Lemma configuredValue_ok (after : rawmap) (identity : Identity) (c : Column) (v : string) :
  configuredValue after c identity = Ok v <-> value_of after identity c v.
Proof.
  unfold configuredValue, value_of. destruct (after !! Name c) as [raw|]; [|naive_solver].
  rewrite reject_bind, convertOr_ok, andb_false_iff, orb_false_iff, !str_eqb_false. split.
  - intros [Hn Hc]. exists raw. split_and!; [done| |done]. destruct (isNull raw); [|done]. tauto.
  - intros (r & [= <-] & Hn & Hc). split; [|done]. destruct (isNull raw); [right|by left].
    split; intros He; (assert (true = false) by auto; done).
Qed.

(** The event identifier, when one of the columns holds it. *)
Definition event_of (after : rawmap) (identity : Identity) (names : list string) (init eventID : string) : Prop :=
  if decide (EventIDColumn identity ∈ names) then
    exists raw, after !! EventIDColumn identity = Some raw /\ isNull raw = false /\
      UnmarshalString raw = Some eventID /\ eventID <> ""
  else eventID = init.

Lemma eventIDFrom_ok (raw column v : string) :
  eventIDFrom raw column = Ok v <-> isNull raw = false /\ UnmarshalString raw = Some v /\ v <> "".
Proof.
  unfold eventIDFrom. rewrite reject_bind, bind_Ok. unfold decodeField. setoid_rewrite ok_or_Ok.
  setoid_rewrite reject_bind. setoid_rewrite str_eqb_false. naive_solver.
Qed.

Lemma configuredValues_loop_ok (after : rawmap) (identity : Identity) (columns : list Column)
  (values values' : rawmap) (ev ev' : string) : NoDup (map Name columns) ->
  configuredValues_loop after identity columns values ev = Ok (values', ev') <->
  exists vs, Forall2 (value_of after identity) columns vs /\
    values' = store_entries values (zip (map Name columns) vs) /\
    event_of after identity (map Name columns) ev ev'.
Proof.
  revert values ev. induction columns as [|c columns IH]; intros values ev Hnd; cbn [configuredValues_loop map].
  - unfold event_of. split.
    + intros [= -> ->]. exists []. split; [constructor|]. split; [done|]. rewrite decide_False; [done|set_solver].
    + intros (vs & H%Forall2_nil_inv_l & -> & He). subst vs. rewrite decide_False in He by set_solver. by subst.
  - cbn in Hnd. apply NoDup_cons in Hnd as [Hnin Hnd]. rewrite bind_Ok.
    setoid_rewrite configuredValue_ok. setoid_rewrite bind_Ok. setoid_rewrite IH; [|done]. unfold event_of. split.
    + intros (v & Hv & e & He & vs & Hvs & -> & Hev). exists (v :: vs). split; [by constructor|]. split; [done|].
      destruct (str_eqb (Name c) (EventIDColumn identity)) eqn:Hc; bools.
      * rewrite Hc in Hnin. rewrite decide_False in Hev by done. subst ev'.
        rewrite decide_True by (rewrite Hc; by left). apply eventIDFrom_ok in He.
        destruct Hv as (raw & Hraw & _). unfold after_raw in He. rewrite Hc in *. rewrite Hraw in He. by exists raw.
      * injection He as ->. destruct (decide (EventIDColumn identity ∈ map Name columns)) as [Hin|Hin].
        -- rewrite decide_True by (by right). done.
        -- rewrite decide_False; [done|]. intros [?|?]%elem_of_cons; congruence.
    + intros (vs' & Hvs & -> & Hev). destruct (Forall2_cons_inv_l _ _ _ _ Hvs) as (v & vs & Hv & Hvs' & ->).
      exists v. split; [done|]. destruct (str_eqb (Name c) (EventIDColumn identity)) eqn:Hc; bools.
      * rewrite decide_True in Hev by (rewrite Hc; by left). exists ev'. split.
        -- destruct Hev as (raw & Hraw & Hev). unfold after_raw. rewrite Hc, Hraw. by apply eventIDFrom_ok.
        -- exists vs. rewrite Hc in Hnin. rewrite decide_False by done. done.
      * exists ev. split; [done|]. exists vs. split; [done|]. split; [done|].
        destruct (decide (EventIDColumn identity ∈ map Name columns)) as [Hin|Hin].
        -- rewrite decide_True in Hev by (by right). done.
        -- rewrite decide_False in Hev; [done|]. intros [?|?]%elem_of_cons; congruence.
Qed.

Lemma configuredValues_ok (after : rawmap) (source : Source) (identity : Identity) (generation : Generation)
  (values : rawmap) (ev : string) : identity_ok source identity generation ->
  configuredValues after identity = Ok (values, ev) <->
  exists vs, Forall2 (value_of after identity) (Columns identity) vs /\
    values = store_entries ∅ (zip (SrcColumns source) vs) /\ event_of after identity (SrcColumns source) "" ev.
Proof.
  intros Hid. assert (Hmap : map Name (Columns identity) = SrcColumns source) by apply Hid.
  assert (Hnd : NoDup (SrcColumns source)) by apply Hid.
  unfold configuredValues. rewrite configuredValues_loop_ok by (by rewrite Hmap). by rewrite Hmap.
Qed.

Lemma Decode_steps (source : Source) (identity : Identity) (generation : Generation) (raw : RawRecord) (rec : Record_) :
  Decode source identity generation (Some raw) = Ok rec <->
  identity_ok source identity generation /\
  exists after values ev payload,
    row_of raw source identity after /\ configuredValues after identity = Ok (values, ev) /\
    MarshalRawMap values = Some payload /\
    rec = mkRecord source payload (RawTopic raw) (RawPartition raw) (RawOffset raw) ev
      (optionalString values "aggregate_id") (optionalString values "event_name") generation false.
Proof.
  unfold Decode. rewrite bind_Ok. split.
  - intros ([] & Hid%validateIdentity_ok & (after & Hrow%afterObject_ok & H)%bind_Ok). split; [done|].
    apply bind_Ok in H as ([values ev] & Hval & H). destruct (MarshalRawMap values) as [payload|] eqn:Hm; [|done].
    injection H as <-. by exists after, values, ev, payload.
  - intros (Hid & after & values & ev & payload & Hrow & Hval & Hm & ->). exists tt.
    split; [by apply validateIdentity_ok|]. apply bind_Ok. exists after. split; [by apply afterObject_ok|].
    apply bind_Ok. exists (values, ev). split; [done|]. by rewrite Hm.
Qed.

Lemma row_raw (raw : RawRecord) (source : Source) (identity : Identity) (after : rawmap) (k v : string) :
  row_of raw source identity after -> after !! k = Some v -> is_raw_at 2 v.
Proof.
  intros (env & md & Henv & _ & _ & _ & _ & (r & Hr & Ha) & _) Hk.
  apply (UnmarshalRawMap_raw_at 1 r after k v); [|done|done]. by apply (UnmarshalRawMap_raw_1 (Value raw) env "after").
Qed.

(** Looking a column's value up in the map the loop builds. *)
Lemma values_lookup (after : rawmap) (identity : Identity) (columns : list Column) (vs : list string) (k v : string) :
  NoDup (map Name columns) -> Forall2 (value_of after identity) columns vs ->
  store_entries ∅ (zip (map Name columns) vs) !! k = Some v <->
  exists c, c ∈ columns /\ Name c = k /\ value_of after identity c v.
Proof.
  intros Hnd Hvs. assert (Hlen := Forall2_length _ _ _ Hvs).
  assert (Hkeys : (zip (map Name columns) vs).*1 = map Name columns) by (apply fst_zip; rewrite length_map; lia).
  split.
  - intros [Hk|Hin]%store_entries_lookup; [by rewrite lookup_empty in Hk|].
    clear Hnd Hkeys. revert Hin. induction Hvs as [|c w columns vs Hc Hvs IH]; intros Hin; [done|].
    injection Hlen as Hlen. destruct Hin as [[= <- <-]|Hin].
    + exists c. split; [by left|done].
    + destruct (IH Hlen Hin) as (c' & ? & ?). exists c'. split; [by right|done].
  - intros (c & Hc & <- & Hv). apply store_entries_in; [by rewrite Hkeys|].
    clear Hnd Hkeys. induction Hvs as [|c' w columns vs Hc' Hvs IH]; [by apply not_elem_of_nil in Hc|].
    injection Hlen as Hlen. apply elem_of_cons in Hc as [->|Hc]; [|right; by apply IH].
    assert (v = w) as ->; [|by left]. destruct Hc' as (r1 & H1 & _ & H1'), Hv as (r2 & H2 & _ & H2'). congruence.
Qed.

(** ** Which sources have records that decode *)

(** The types whose values Debezium writes as JSON strings. *)
Definition textual (t : PGType) : bool := str_mem t [PGJSON; PGBytea; PGTimestamptz; PGText].

(** A value of a type: zero, false, or a text of it. *)
Definition sample (t : PGType) : cst :=
  if str_eqb t PGJSON then CStr "0" else if str_eqb t PGBytea then CStr "AAAA" else if str_eqb t PGTimestamptz then CStr "1970-01-01T00:00:00Z"
  else if str_eqb t PGText then CStr "0" else if str_eqb t PGBool then CBool false else CNum (Number false "0" None None).

Lemma supported_in (t : PGType) : Supported t = true ->
  t ∈ [PGInt2; PGInt4; PGInt8; PGFloat4; PGFloat8; PGBool; PGJSON; PGBytea; PGTimestamp; PGTimestamptz; PGText].
Proof. apply str_mem_true. Qed.

Lemma sample_converts (t : PGType) (name : string) : Supported t = true ->
  isNull (print (sample t)) = false /\ exists v, ConvertValue t (print (sample t)) name = Ok v.
Proof.
  intros Ht%supported_in. rewrite !elem_of_cons in Ht.
  destruct_or! Ht; try (by apply not_elem_of_nil in Ht); subst t; (split; [by vm_compute|by eexists; vm_compute]).
Qed.

Lemma sample_wf (d : N) (t : PGType) : wf d (sample t) = true.
Proof. unfold sample. repeat case_match; done. Qed.

Lemma sample_text (t : PGType) : textual t = true -> exists v, UnmarshalString (print (sample t)) = Some v /\ v <> "".
Proof.
  intros Ht%str_mem_true. rewrite !elem_of_cons in Ht.
  destruct_or! Ht; try (by apply not_elem_of_nil in Ht); subst t; (eexists; split; [by vm_compute|done]).
Qed.

(** A value of any other type is not a JSON string. *)
Lemma quoted_not_converted (t : PGType) (body name v : string) :
  textual t = false -> wf 0 (CStr body) = true -> ConvertValue t (print (CStr body)) name = Ok v -> False.
Proof.
  intros Ht Hwf. assert (TrimSpace (print (CStr body)) = print (CStr body)) as Htrim by (apply TrimSpace_raw; by eexists).
  unfold ConvertValue, isNull, integerLiteral, boolLiteral, timestampFromMicros, floatLiteral, floatLiteral_with. rewrite Htrim. cbn [print].
  destruct (str_eqb t PGJSON) eqn:H1; [apply str_eqb_true in H1 as ->; done|].
  destruct (str_eqb t PGBytea) eqn:H2; [apply str_eqb_true in H2 as ->; done|].
  destruct (str_eqb t PGText) eqn:H3; [apply str_eqb_true in H3 as ->; done|].
  destruct (str_eqb t PGTimestamptz) eqn:H4; [apply str_eqb_true in H4 as ->; done|].
  assert (forall bits, ParseInt (qstr body) bits = Err ErrSyntax) as Hint.
  { intros bits. unfold ParseInt, qstr. rewrite bool_decide_eq_false_2 by done. cbn. done. }
  rewrite !Hint. unfold qstr, ParseFloat_ok, scan_number, str_eqb. cbn. by repeat case_match.
Qed.

Lemma text_value (t : PGType) (raw name v w : string) :
  is_raw raw -> isNull raw = false -> UnmarshalString raw = Some w -> ConvertValue t raw name = Ok v -> textual t = true.
Proof.
  intros (c & -> & Hc) Hn Hu Hv. destruct (textual t) eqn:Ht; [done|]. exfalso.
  unfold UnmarshalString, UnmarshalStringPtr in Hu. rewrite parse_print in Hu by done. cbn in Hu. destruct c; try done.
  by eapply quoted_not_converted.
Qed.

Lemma UnmarshalString_valid (raw v : string) : UnmarshalString raw = Some v -> v <> "" -> ValidUTF8 v = true.
Proof.
  unfold UnmarshalString, UnmarshalStringPtr. destruct (parse raw) as [[[? c] ?]|]; [|done]. cbn. destruct c; cbn; try done; [by intros [= <-]|].
  destruct (unquote body) as [u|] eqn:Hs; [|done]. intros [= <-] _. by eapply unquote_valid.
Qed.

(** A row with a sample in every column, and the record that carries it. *)
Definition sample_row (identity : Identity) : list (string * cst) := map (fun c => (Name c, sample (Type_ c))) (Columns identity).
Definition sample_type (identity : Identity) : PGType := default "" (Type_ <$> column_named (Columns identity) (PartitioningColumn identity)).
Definition sample_record (source : Source) (identity : Identity) : RawRecord :=
  mkRawRecord "" 0 0 0 (print (jobj (quoted [(PartitioningColumn identity, sample (sample_type identity))])))
    (print (jobj (quoted [("op", CStr "c");
      ("source", jobj (quoted [("schema", CStr "public"); ("table", CStr (quote_body (SrcTable source)))]));
      ("after", jobj (quoted (sample_row identity)))]))) false.

Definition sample_after (identity : Identity) : rawmap :=
  store_entries ∅ (map (fun '(k, v) => (k, print v)) (sample_row identity)).

Section Samples.
Context (source : Source) (identity : Identity) (generation : Generation).
Hypothesis Hid : identity_ok source identity generation.
Hypothesis Htable : ValidUTF8 (SrcTable source) = true.
Hypothesis Hcols : Forall (fun n => ValidUTF8 n = true) (SrcColumns source).

Lemma sample_at (c : Column) : c ∈ Columns identity -> sample_after identity !! Name c = Some (print (sample (Type_ c))).
Proof.
  intros Hc. apply store_entries_in.
  - assert ((map (fun '(k, v) => (k, print v)) (sample_row identity)).*1 = map Name (Columns identity)) as ->.
    { unfold sample_row. rewrite map_map, <- list_fmap_compose. by apply map_ext. }
    replace (map Name (Columns identity)) with (SrcColumns source); [apply Hid|symmetry; apply Hid].
  - unfold sample_row. rewrite map_map. apply list_elem_of_fmap. by exists c.
Qed.

Lemma named_column (n : string) : n ∈ SrcColumns source -> exists c, c ∈ Columns identity /\ Name c = n /\ column_named (Columns identity) n = Some c.
Proof.
  assert (map Name (Columns identity) = SrcColumns source) as <- by apply Hid. unfold column_named.
  induction (Columns identity) as [|c cs IH]; cbn; [by intros ?%not_elem_of_nil|].
  destruct (str_eqb (Name c) n) eqn:Hn; [intros _; exists c; split; [by left|]; by apply str_eqb_true in Hn|].
  apply str_eqb_false in Hn. intros [->|Hin]%elem_of_cons; [done|]. destruct (IH Hin) as (x & Hx & ? & ?).
  exists x. split; [by right|done].
Qed.

Lemma column_supported (c : Column) : c ∈ Columns identity -> Supported (Type_ c) = true.
Proof. intros Hc. destruct Hid as (_ & _ & _ & _ & _ & _ & _ & _ & _ & _ & _ & Hall & _). rewrite Forall_forall in Hall. by apply Hall. Qed.

Lemma row_wf (d : N) : Forall (fun '(k, v) => ValidUTF8 k = true /\ wf d v = true) (sample_row identity).
Proof.
  unfold sample_row. assert (map Name (Columns identity) = SrcColumns source) as Hm by apply Hid. rewrite <- Hm in Hcols.
  apply List.Forall_map. rewrite List.Forall_map in Hcols. eapply Forall_impl; [exact Hcols|]. cbn. intros c Hc. split; [done|apply sample_wf].
Qed.

Lemma sample_row_of : row_of (sample_record source identity) source identity (sample_after identity).
Proof.
  assert (PartitioningColumn identity ∈ SrcColumns source) as Hp by apply Hid.
  assert (ValidUTF8 (PartitioningColumn identity) = true) as Hpv by (rewrite Forall_forall in Hcols; by apply Hcols).
  destruct (named_column _ Hp) as (c & Hc & Hcn & Hfound).
  assert (forall d, wf d (CStr (quote_body (SrcTable source))) = true) as Hq by (intros d; apply quote_wf).
  assert (forall d, (d < 3)%N -> wf d (jobj (quoted [("schema", CStr "public"); ("table", CStr (quote_body (SrcTable source)))])) = true) as Hsrc.
  { intros d Hd. apply quoted_wf; [unfold max_depth; lia|]. by repeat constructor. }
  assert (wf 1 (jobj (quoted (sample_row identity))) = true) as Hrow.
  { apply quoted_wf; [done|]. eapply Forall_impl; [apply (row_wf 2)|]. by intros [k v] [_ ?]. }
  eexists _, _. split; [|split; [left|split; [|split; [|split; [|split]]]]].
  - apply (quoted_read _ 0); [done|]. by repeat (constructor; [split; [done|]; first [done|by apply Hsrc|exact Hrow]|]).
  - eexists. split; [by apply store_entries_in; [vm_compute; repeat constructor; set_solver|left]|done].
  - eexists. split; [apply store_entries_in; [vm_compute; repeat constructor; set_solver|right; left]|].
    apply (quoted_read _ 0); [done|]. by repeat constructor.
  - eexists. split; [by apply store_entries_in; [vm_compute; repeat constructor; set_solver|left]|done].
  - eexists. split; [apply store_entries_in; [vm_compute; repeat constructor; set_solver|right; by left]|].
    unfold UnmarshalString, UnmarshalStringPtr. rewrite parse_print by apply Hq. cbn [mbind option_bind decode_string_ptr].
    by rewrite quote_unquote.
  - eexists. split; [by apply store_entries_in; [vm_compute; repeat constructor; set_solver|right; right; left]|].
    apply (quoted_read _ 1); [done|]. apply (row_wf 2).
  - unfold key_ok. destruct (sample_converts (Type_ c) (PartitioningColumn identity +:+ " in Kafka key") (column_supported c Hc)) as [Hn Hconv].
    assert (sample_type identity = Type_ c) as Ht by (unfold sample_type; by rewrite Hfound).
    assert (exists text, Compact (print (sample (Type_ c))) = Some text) as [text Htext].
    { unfold Compact, compact_with. rewrite parse_print by apply sample_wf. by eexists. }
    exists (print (sample (Type_ c))), (print (sample (Type_ c))), text. split_and!; try done.
    + cbn [Key sample_record]. rewrite Ht. apply (quoted_read [(PartitioningColumn identity, sample (Type_ c))] 0); [done|]. by repeat constructor; [|apply sample_wf].
    + rewrite <- Hcn. by apply sample_at.
    + intros c' Hc'. rewrite Hfound in Hc'. by injection Hc' as <-.
Qed.
End Samples.

(** Some record of a source decodes exactly when its identity agrees with it,
    its table and columns have names JSON can carry, and its event id column,
    when it has one, holds text. *)
Lemma decodable_iff (source : Source) (identity : Identity) (generation : Generation) :
  (exists raw rec, Decode source identity generation (Some raw) = Ok rec) <->
  identity_ok source identity generation /\ ValidUTF8 (SrcTable source) = true /\
  Forall (fun n => ValidUTF8 n = true) (SrcColumns source) /\
  (forall c, c ∈ Columns identity -> Name c = EventIDColumn identity -> textual (Type_ c) = true).
Proof.
  split.
  - intros (raw & rec & (Hid & after & values & ev & payload & Hrow & Hval & _)%Decode_steps). split; [done|].
    assert (map Name (Columns identity) = SrcColumns source) as Hmap by apply Hid.
    apply (configuredValues_ok after source identity generation) in Hval as (vs & Hvs & _ & Hev); [|done].
    assert (forall c, c ∈ Columns identity -> exists v, value_of after identity c v) as Hvalue.
    { intros c Hc. apply list_elem_of_lookup in Hc as [i Hc]. destruct (Forall2_lookup_l _ _ _ _ _ Hvs Hc) as (v & _ & Hv). by exists v. }
    pose proof Hrow as (envelope & metadata & _ & _ & _ & _ & (rt & _ & Ht) & (ra & _ & Ha) & _). split_and!.
    + eapply UnmarshalString_valid; [exact Ht|]. apply Hid.
    + rewrite <- Hmap. apply List.Forall_map, Forall_forall. intros c (v & r & Hr & _)%Hvalue. by eapply UnmarshalRawMap_keys.
    + intros c Hc He. destruct (Hvalue c Hc) as (v & r & Hr & _ & Hv). unfold event_of in Hev.
      rewrite decide_True in Hev by (rewrite <- Hmap, <- He; by apply list_elem_of_fmap_2).
      destruct Hev as (r' & Hr' & Hn & Hu & _). rewrite <- He, Hr in Hr'. injection Hr' as <-.
      eapply (text_value _ r); [|exact Hn|exact Hu|exact Hv]. eapply is_raw_at_0, row_raw; [exact Hrow|exact Hr].
  - intros (Hid & Ht & Hcols & Hev). assert (map Name (Columns identity) = SrcColumns source) as Hmap by apply Hid.
    assert (exists vs, Forall2 (value_of (sample_after identity) identity) (Columns identity) vs) as [vs Hvs].
    { assert (forall l, l ⊆ Columns identity -> exists vs, Forall2 (value_of (sample_after identity) identity) l vs) as Hall; [|by apply Hall].
      induction l as [|c l IH]; intros Hl; [by exists []|]. destruct IH as [vs Hvs]; [set_solver|].
      assert (c ∈ Columns identity) as Hc by (apply Hl; by left).
      destruct (sample_converts (Type_ c) (Name c) (column_supported source identity generation Hid c Hc)) as [Hn [v Hv]].
      exists (v :: vs). constructor; [|done]. exists (print (sample (Type_ c))). split; [by eapply sample_at|]. split; [by intros _|done]. }
    assert (exists ev, event_of (sample_after identity) identity (SrcColumns source) "" ev) as [ev He].
    { unfold event_of. destruct (decide _) as [Hin|]; [|by eexists].
      destruct (named_column source identity generation Hid _ Hin) as (c & Hc & Hcn & _).
      destruct (sample_text _ (Hev c Hc Hcn)) as (v & Hv & Hne). exists v, (print (sample (Type_ c))).
      split; [rewrite <- Hcn; by eapply sample_at|].
      by destruct (sample_converts (Type_ c) "" (column_supported source identity generation Hid c Hc)). }
    pose proof (sample_row_of source identity generation Hid Ht Hcols) as Hrow.
    assert (is_Some (MarshalRawMap (store_entries ∅ (zip (SrcColumns source) vs)))) as [payload Hp].
    { apply MarshalRawMap_total. intros k v Hk. rewrite <- Hmap in Hk.
      apply (values_lookup (sample_after identity) identity) in Hk as (c & _ & _ & r & Hr & _ & Hv); [|rewrite Hmap; apply Hid|done].
      eapply is_raw_at_0, convert_raw_at; [|exact Hv]. by eapply row_raw. }
    exists (sample_record source identity). eexists. apply Decode_steps. split; [done|].
    exists (sample_after identity), (store_entries ∅ (zip (SrcColumns source) vs)), ev, payload. split_and!; [done| |done|done].
    apply (configuredValues_ok _ source identity generation); [done|]. by exists vs.
Qed.

(** ** What an error says *)

Definition decode_contexts : list string :=
  ["envelope"; "source metadata"; "after"; "Kafka key"; "op"; "schema"; "table";
   "envelope.op"; "source metadata.schema"; "source metadata.table"].
Definition decode_formats : list string :=
  ["%s is empty"; "%s is not a JSON object"; "field %q is not a string"; "%s is missing %q";
   "envelope is missing source metadata"; "source schema is not public";
   "source table does not match configured table"; "Kafka key must contain only the partition column";
   "Kafka key is missing the partition column"; "after object has a null partition column";
   "Kafka key has malformed partition value"; "Kafka key does not match the partition column";
   "unsupported operation"; "operation has no after object"; "after object is missing configured column %q";
   "required column %q is null"; "event id column %q is null"; "event id column %q is empty";
   "identity has invalid configured columns"; "configured column %q has unsupported type";
   "serial column %q has invalid type"; "generation is invalid"; "identity table does not match source table";
   "identity columns do not match source configuration"; "identity has invalid partition count";
   "identity is missing a required configured column"].

(** What an error may mention: fixed contexts and configured column names. *)
Definition allowed_arg (identity : Identity) (a : string) : Prop :=
  a ∈ decode_contexts \/
  exists n, n ∈ map Name (Columns identity) /\
    (a = n \/ a = "event id " +:+ n \/ a = n +:+ " in Kafka key").

(** The only errors decoding raises before it marshals. *)
Definition said (identity : Identity) (e : error) : Prop :=
  (exists f args, e = errorsf f args /\ f ∈ decode_formats /\ Forall (allowed_arg identity) args) \/
  (exists f field names, e = Wrapf "payload: %v" [] (Errorf f (field :: names)) /\
     f ∈ convert_formats /\ names ∈ convert_names /\ allowed_arg identity field).

Definition blames {A : Type} (identity : Identity) (r : result error A) : Prop :=
  forall e, r = Err e -> said identity e.

Section Blames.
Variable identity : Identity.
Context {A B : Type}.

Lemma blames_Ok (a : A) : blames identity (Ok a).
Proof. by intros e. Qed.
Lemma blames_bind (m : result error A) (k : A -> result error B) :
  blames identity m -> (forall a, blames identity (k a)) -> blames identity (m ≫= k).
Proof. intros Hm Hk e [He|(a & _ & He)]%bind_Err; [by apply Hm|by apply (Hk a)]. Qed.
Lemma blames_err (f : string) (args : list string) :
  f ∈ decode_formats -> Forall (allowed_arg identity) args -> blames identity (A := A) (Err (errorsf f args)).
Proof. intros Hf Ha e [= <-]. left. by exists f, args. Qed.
Lemma blames_ok_or (o : option A) (f : string) (args : list string) :
  f ∈ decode_formats -> Forall (allowed_arg identity) args -> blames identity (ok_or (errorsf f args) o).
Proof. intros Hf Ha. destruct o; [apply blames_Ok|by apply blames_err]. Qed.
Lemma blames_reject (c : bool) (f : string) (args : list string) :
  f ∈ decode_formats -> Forall (allowed_arg identity) args -> blames identity (reject_if c (errorsf f args)).
Proof. intros Hf Ha e. unfold reject_if. destruct c; [|done]. intros [= <-]. left. by exists f, args. Qed.
Lemma blames_convert (typ : PGType) (raw field : string) :
  allowed_arg identity field -> blames identity (convertOr (ConvertValue typ raw field)).
Proof.
  intros Hf e. destruct (ConvertValue typ raw field) as [v|e'] eqn:Hc; [done|]. cbn. intros [= <-].
  apply convert_error_format in Hc as (f & names & -> & ? & ?). right. by exists f, field, names.
Qed.
End Blames.

Lemma in_format (f : string) : bool_decide (f ∈ decode_formats) = true -> f ∈ decode_formats.
Proof. apply bool_decide_eq_true. Qed.
Lemma context_arg (identity : Identity) (a : string) : bool_decide (a ∈ decode_contexts) = true -> allowed_arg identity a.
Proof. intros H. left. by apply bool_decide_eq_true in H. Qed.
Lemma column_arg (identity : Identity) (c : Column) : c ∈ Columns identity ->
  allowed_arg identity (Name c) /\ allowed_arg identity ("event id " +:+ Name c) /\
  allowed_arg identity (Name c +:+ " in Kafka key").
Proof.
  intros Hc. assert (Hn : Name c ∈ map Name (Columns identity)) by (by apply list_elem_of_fmap_2).
  split_and!; right; exists (Name c); auto.
Qed.

(** Walks a monadic block, closing its error leaves. *)
Ltac blame :=
  repeat first
    [ apply blames_Ok
    | apply blames_bind; [|intros ?]
    | apply blames_convert
    | apply blames_reject | apply blames_err | apply blames_ok_or
    | apply in_format; reflexivity
    | apply Forall_nil_2 | apply Forall_cons_2
    | apply context_arg; reflexivity
    | match goal with |- blames _ (match ?x with _ => _ end) => destruct x end
    | match goal with |- blames _ (if ?x then _ else _) => destruct x end
    | assumption ].

Lemma decodeObject_blames (identity : Identity) (raw name : string) :
  allowed_arg identity name -> blames identity (decodeObject raw name).
Proof. intros H. unfold decodeObject. blame. Qed.

Lemma validateSource_blames (identity : Identity) (envelope : rawmap) (source : Source) :
  blames identity (validateSource envelope source).
Proof. unfold validateSource, stringField, decodeField, decodeObject. blame. Qed.

Lemma convertKey_blames (identity : Identity) (columns : list Column) (p kv : string) :
  Forall (fun c => c ∈ Columns identity) columns -> blames identity (convertKey columns p kv).
Proof.
  induction 1 as [|c columns Hc Hall IH]; cbn [convertKey]; [apply blames_Ok|].
  destruct (column_arg identity c Hc) as (_ & _ & ?). destruct (str_eqb _ _); [blame|exact IH].
Qed.

Lemma all_columns (identity : Identity) : Forall (fun c => c ∈ Columns identity) (Columns identity).
Proof. by apply Forall_forall. Qed.

Lemma afterObject_blames (record : RawRecord) (source : Source) (identity : Identity) :
  blames identity (afterObject record source identity).
Proof.
  unfold afterObject, validateKey, stringField, decodeField, decodeObject.
  pose proof (validateSource_blames identity) as Hsrc.
  pose proof (fun p kv => convertKey_blames identity (Columns identity) p kv (all_columns identity)) as Hkey.
  repeat (blame; try apply Hsrc; try apply Hkey).
Qed.

Lemma configuredValues_blames (after : rawmap) (identity : Identity) : blames identity (configuredValues after identity).
Proof.
  unfold configuredValues. generalize (all_columns identity). generalize (Columns identity) at 2 3 as columns.
  intros columns Hall. generalize (∅ : rawmap) "". induction Hall as [|c columns Hc Hall IH]; intros values ev;
    cbn [configuredValues_loop]; [apply blames_Ok|].
  destruct (column_arg identity c Hc) as (? & ? & _).
  unfold configuredValue, eventIDFrom, decodeField. repeat (blame; try apply IH).
Qed.

Lemma validateColumns_blames (identity : Identity) (columns : list Column) (sourceColumns seen : list string) :
  Forall (fun c => c ∈ Columns identity) columns -> blames identity (validateColumns identity columns sourceColumns seen).
Proof.
  intros Hall. revert sourceColumns seen. induction Hall as [|c columns Hc Hall IH]; intros sc seen;
    cbn [validateColumns]; [apply blames_Ok|].
  destruct (column_arg identity c Hc) as (? & _ & _). repeat (blame; try apply IH).
Qed.

Lemma validateIdentity_blames (source : Source) (identity : Identity) (generation : Generation) :
  blames identity (validateIdentity source identity generation).
Proof.
  unfold validateIdentity. pose proof (fun sc seen => validateColumns_blames identity (Columns identity) sc seen
    (all_columns identity)) as Hcols. repeat (blame; try apply Hcols).
Qed.

Lemma marshal_unsaid (identity : Identity) : ~ said identity (errorsf "marshal configured payload" []).
Proof.
  intros [(f & args & [= Hf _] & Hin & _)|(f & field & names & He & _)]; [|done].
  subst f. assert (Hno : bool_decide ("marshal configured payload" ∈ decode_formats) = false) by reflexivity.
  by apply bool_decide_eq_false in Hno.
Qed.

(** ** Properties *)

(** C14. Decoding accepts a record exactly when the identity agrees with the source
    and the record is an insert or a snapshot read of the configured public
    table, keyed by the partitioning column with the row's own value, its row
    holding every configured column with a value convertible to its type; and
    the result is then determined: the converted columns as payload, the event
    id, and the record's own position. *)
Theorem decode_iff (source : Source) (identity : Identity) (generation : Generation) (raw : RawRecord) (rec : Record_) :
  Decode source identity generation (Some raw) = Ok rec <->
  identity_ok source identity generation /\
  exists after vs ev payload,
    row_of raw source identity after /\
    Forall2 (value_of after identity) (Columns identity) vs /\
    event_of after identity (SrcColumns source) "" ev /\
    let values := store_entries ∅ (zip (SrcColumns source) vs) in
    MarshalRawMap values = Some payload /\
    rec = mkRecord source payload (RawTopic raw) (RawPartition raw) (RawOffset raw) ev
      (optionalString values "aggregate_id") (optionalString values "event_name") generation false.
Proof.
  rewrite Decode_steps. split; intros (Hid & H); (split; [done|]).
  - destruct H as (after & values & ev & payload & Hrow & Hval & Hm & ->).
    apply (configuredValues_ok after source identity generation) in Hval as (vs & Hvs & -> & Hev); [|done].
    by exists after, vs, ev, payload.
  - destruct H as (after & vs & ev & payload & Hrow & Hvs & Hev & Hm & ->).
    eexists after, _, ev, payload. split; [done|]. split; [|done].
    apply (configuredValues_ok after source identity generation); [done|]. by exists vs.
Qed.

(** C36. The payload delivered is a JSON object of exactly the configured columns,
    whatever their names, each holding the compacted conversion of the row's
    value: nothing else of the row leaves, and the final marshalling cannot
    fail. *)
Theorem decode_payload (source : Source) (identity : Identity) (generation : Generation) (raw : RawRecord) (rec : Record_) :
  (Decode source identity generation (Some raw) <> Err (errorsf "marshal configured payload" [])) /\
  (Decode source identity generation (Some raw) = Ok rec ->
   is_raw (Payload rec) /\
   exists fields after, UnmarshalRawMap (Payload rec) = Some (Some fields) /\ row_of raw source identity after /\
     forall k v, fields !! k = Some v <->
       exists c w, c ∈ Columns identity /\ Name c = k /\ value_of after identity c w /\ MarshalRaw w = Some v).
Proof.
  assert (Hvals : forall after vs, identity_ok source identity generation -> row_of raw source identity after ->
    Forall2 (value_of after identity) (Columns identity) vs ->
    forall k v, store_entries ∅ (zip (SrcColumns source) vs) !! k = Some v -> is_raw_at 1 v /\ ValidUTF8 k = true).
  { intros after vs Hid Hrow Hvs k v Hk. assert (Hmap : map Name (Columns identity) = SrcColumns source) by apply Hid.
    assert (Hnd : NoDup (map Name (Columns identity))) by (rewrite Hmap; apply Hid).
    rewrite <- Hmap in Hk. destruct (proj1 (values_lookup _ _ _ _ _ _ Hnd Hvs) Hk) as (c & Hc & <- & r & Hr & _ & Hv).
    split.
    - apply (is_raw_at_mono 2); [lia|]. eapply convert_raw_at; [|exact Hv]. by eapply row_raw.
    - destruct Hrow as (envelope & metadata & _ & _ & _ & _ & _ & (text & _ & Ha) & _). by eapply UnmarshalRawMap_keys. }
  split.
  - intros H. unfold Decode in H. destruct (validateIdentity source identity generation) as [[]|e] eqn:Hid; [|injection H as ->].
    + apply validateIdentity_ok in Hid. cbn [mbind result_bind] in H.
      destruct (afterObject raw source identity) as [after|e] eqn:Ha; [|injection H as ->].
      * apply afterObject_ok in Ha. cbn [mbind result_bind] in H.
        destruct (configuredValues after identity) as [[values ev]|e] eqn:Hval; [|injection H as ->].
        -- apply (configuredValues_ok _ source _ generation) in Hval as (vs & Hvs & -> & _); [|done].
           cbn [mbind result_bind] in H.
           destruct (MarshalRawMap_total (store_entries ∅ (zip (SrcColumns source) vs))) as [p Hp].
           { intros k v Hk. by eapply is_raw_at_0, Hvals. }
           by rewrite Hp in H.
        -- by apply configuredValues_blames, marshal_unsaid in Hval.
      * by apply afterObject_blames, marshal_unsaid in Ha.
    + by apply validateIdentity_blames, marshal_unsaid in Hid.
  - intros (Hid & after & values & ev & payload & Hrow & Hval & Hm & ->)%Decode_steps. cbn [Payload].
    apply (configuredValues_ok _ source _ generation) in Hval as (vs & Hvs & -> & _); [|done].
    destruct (MarshalRawMap_reads _ _ (Hvals after vs Hid Hrow Hvs) Hm) as (Hraw & fields & Hf & Hlook).
    split; [done|]. exists fields, after. split; [done|]. split; [done|]. intros k v. rewrite Hlook, bind_Some.
    assert (Hmap : map Name (Columns identity) = SrcColumns source) by apply Hid.
    assert (Hnd : NoDup (map Name (Columns identity))) by (rewrite Hmap; apply Hid).
    rewrite <- Hmap. setoid_rewrite (values_lookup after identity _ _ _ _ Hnd Hvs). naive_solver.
Qed.

(** No error reveals a value: its format is one of a fixed list and its
    arguments are fixed contexts and configured column names, whatever the
    record holds. *)
Theorem decode_error_blind (source : Source) (identity : Identity) (generation : Generation) (raw : RawRecord) (e : error) :
  Decode source identity generation (Some raw) = Err e ->
  said identity e \/ e = errorsf "marshal configured payload" [].
Proof.
  intros H. unfold Decode in H. apply bind_Err in H as [H|(u & _ & H)]; [left; by eapply validateIdentity_blames|].
  apply bind_Err in H as [H|(after & _ & H)]; [left; by eapply afterObject_blames|].
  apply bind_Err in H as [H|([values ev] & _ & H)]; [left; by eapply configuredValues_blames|].
  destruct (MarshalRawMap values); [done|]. injection H as <-. by right.
Qed.

(** ** Witnesses *)
Definition ex_source : Source := mkSource "orders" "" "orders" ["id"; "tenant"; "event_id"] "id" "tenant".
Definition ex_identity : Identity :=
  mkIdentity "orders" "id" "tenant" "event_id" 3
    [mkColumn "id" PGInt8; mkColumn "tenant" PGText; mkColumn "event_id" PGText].
Definition ex_row : cst :=
  jobj [("id", CNum (Number false "9007199254740993" None None)); ("tenant", CStr "acme");
        ("event_id", CStr "e-1"); ("secret", CStr "s")].
Definition ex_raw : RawRecord :=
  mkRawRecord "postie.orders" 2 41 0 (print (jobj [("tenant", CStr "acme")]))
    (print (jobj [("op", CStr "c");
      ("source", jobj [("schema", CStr "public"); ("table", CStr "orders")]); ("after", ex_row)])) false.
Definition ex_payload : string :=
  print (jobj [("event_id", CStr "e-1"); ("id", CNum (Number false "9007199254740993" None None)); ("tenant", CStr "acme")]).
Definition ex_record : Record_ := mkRecord ex_source ex_payload "postie.orders" 2 41 "e-1" "" "" 1 false.

Example decode_ex : Decode ex_source ex_identity 1 (Some ex_raw) = Ok ex_record.
Proof. vm_compute. reflexivity. Qed.

Lemma decode_payload_witness : is_raw ex_payload.
Proof.
  destruct (decode_payload ex_source ex_identity 1 ex_raw ex_record) as [_ H].
  destruct (H ltac:(vm_compute; reflexivity)) as [Hr _]. exact Hr.
Defined.

Lemma decode_error_blind_witness :
  said ex_identity (errorsf "Kafka key is missing the partition column" []) \/
  errorsf "Kafka key is missing the partition column" [] = errorsf "marshal configured payload" [].
Proof.
  apply (decode_error_blind ex_source ex_identity 1
    (mkRawRecord "t" 0 0 0 (print (jobj [("card", CStr "4111")])) (Value ex_raw) false)).
  vm_compute. reflexivity.
Defined.
