(* ===== verification/Consumer.v ===== *)
(** * Consumer: the Kafka consumer group of one destination

    Models [internal/adapters/kafka/consumer.go].  Its goroutines — the poll
    loop [Run], one worker per assigned partition, and the group callbacks —
    share the consumer's memory.  Each critical section is one [section]; a
    goroutine's program runs its own sections in order, and every call to
    Kafka, the store or the dispatcher comes back with the sections other
    goroutines ran meanwhile.  The trace records what a property is about:
    sections, commits and their answers, blocks, and records handed on. *)

From S2P Require Import Prelude Strconv JsonCodec GoFmt GoTime Stream Activity Delivery Act.
From stdpp Require Import sorting relations.
Local Open Scope Z_scope.

(** ** State *)
Definition partitionKey : Type := string * Z.

(** [kgo.Record], the fields the consumer reads. *)
Record KRecord : Type := mkKRecord {
  kr_Topic : string; kr_Partition : Z; kr_Offset : Z; kr_LeaderEpoch : Z; kr_Key : string; kr_Value : string }.

(** [pw_canceled] is the worker's own cancellation; [pw_batches] the channel of
    capacity one; [pw_locked] whether the worker's goroutine holds [mu]. *)
Record partitionWorker : Type := mkPartitionWorker {
  pw_key : partitionKey;
  pw_canceled : bool;
  pw_batches : list (list KRecord);
  pw_horizon : Z;
  pw_locked : bool;
  pw_owned : bool;
  pw_initialized : bool;
  pw_done : bool }.

(** [cn_workers] is the map of current workers; [cn_pool] every worker ever
    started, by handle. *)
Record Consumer : Type := mkConsumer {
  cn_scope : Scope;
  cn_destination : string;
  cn_sources : gmap string Source;
  cn_canceled : bool;
  cn_assigned : bool;
  cn_workers : gmap partitionKey nat;
  cn_pool : gmap nat partitionWorker;
  cn_done : bool }.

Definition set_canceled (c : Consumer) v := mkConsumer (cn_scope c) (cn_destination c) (cn_sources c) v (cn_assigned c) (cn_workers c) (cn_pool c) (cn_done c).
Definition set_assigned (c : Consumer) v := mkConsumer (cn_scope c) (cn_destination c) (cn_sources c) (cn_canceled c) v (cn_workers c) (cn_pool c) (cn_done c).
Definition set_workers (c : Consumer) v := mkConsumer (cn_scope c) (cn_destination c) (cn_sources c) (cn_canceled c) (cn_assigned c) v (cn_pool c) (cn_done c).
Definition set_pool (c : Consumer) v := mkConsumer (cn_scope c) (cn_destination c) (cn_sources c) (cn_canceled c) (cn_assigned c) (cn_workers c) v (cn_done c).
Definition set_done (c : Consumer) v := mkConsumer (cn_scope c) (cn_destination c) (cn_sources c) (cn_canceled c) (cn_assigned c) (cn_workers c) (cn_pool c) v.

Definition pw_cancel (w : partitionWorker) := mkPartitionWorker (pw_key w) true (pw_batches w) (pw_horizon w) (pw_locked w) (pw_owned w) (pw_initialized w) (pw_done w).
Definition pw_queue (v : list (list KRecord)) (w : partitionWorker) := mkPartitionWorker (pw_key w) (pw_canceled w) v (pw_horizon w) (pw_locked w) (pw_owned w) (pw_initialized w) (pw_done w).
Definition pw_set_horizon (v : Z) (w : partitionWorker) := mkPartitionWorker (pw_key w) (pw_canceled w) (pw_batches w) v (pw_locked w) (pw_owned w) (pw_initialized w) (pw_done w).
Definition pw_lock (v : bool) (w : partitionWorker) := mkPartitionWorker (pw_key w) (pw_canceled w) (pw_batches w) (pw_horizon w) v (pw_owned w) (pw_initialized w) (pw_done w).
Definition pw_disown (w : partitionWorker) := mkPartitionWorker (pw_key w) (pw_canceled w) (pw_batches w) (pw_horizon w) (pw_locked w) false (pw_initialized w) (pw_done w).
Definition pw_init (w : partitionWorker) := mkPartitionWorker (pw_key w) (pw_canceled w) (pw_batches w) (pw_horizon w) (pw_locked w) (pw_owned w) true (pw_done w).
Definition pw_finish (w : partitionWorker) := mkPartitionWorker (pw_key w) (pw_canceled w) (pw_batches w) (pw_horizon w) (pw_locked w) (pw_owned w) (pw_initialized w) true.

Definition upd (h : nat) (f : partitionWorker -> partitionWorker) (c : Consumer) : Consumer := set_pool c (alter f h (cn_pool c)).

(** Reads of one worker; a handle that was never given out reads as nothing. *)
Definition owned_of (h : nat) (c : Consumer) : bool := default false (pw_owned <$> cn_pool c !! h).
Definition locked_of (h : nat) (c : Consumer) : bool := default false (pw_locked <$> cn_pool c !! h).
Definition done_of (h : nat) (c : Consumer) : bool := default false (pw_done <$> cn_pool c !! h).
Definition queue_of (h : nat) (c : Consumer) : list (list KRecord) := default [] (pw_batches <$> cn_pool c !! h).
Definition horizon_of (h : nat) (c : Consumer) : Z := default 0 (pw_horizon <$> cn_pool c !! h).
Definition key_of (h : nat) (c : Consumer) : partitionKey := default ("", 0) (pw_key <$> cn_pool c !! h).

(** [w.ctx.Err() != nil]: its context descends from the consumer's. *)
Definition ctx_done (h : nat) (c : Consumer) : bool := cn_canceled c || default false (pw_canceled <$> cn_pool c !! h).

Definition source_of (topic : string) (c : Consumer) : Source := default (mkSource "" "" "" [] "" "") (cn_sources c !! topic).

Definition GroupID (scope : Scope) (destination : string) : string :=
  Sprintf "%s.%s.%s.g%s" [Namespace scope; Environment scope; destination; GenString (ScopeGeneration scope)].

(** [client] is whether a Kafka client can be made for the group and topics. *)
Definition NewConsumer (scope : Scope) (destination : string) (sources : gmap string Source)
  (client : string -> list string -> result error unit) : result error Consumer :=
  let topics := merge_sort str_le (map fst (map_to_list sources)) in
  _ ← client (GroupID scope destination) topics;
  Ok (mkConsumer scope destination sources false false ∅ ∅ false).

Definition Ready (c : Consumer) : bool :=
  cn_assigned c && forallb (fun '(_, h) => default false (pw_initialized <$> cn_pool c !! h)) (map_to_list (cn_workers c)).

Definition Finished (c : Consumer) : bool := cn_done c.

(** ** Sections *)
Inductive section : Type :=
| XCancel                                            (* c.cancel, or the parent context ends *)
| XStop (parts : option (list partitionKey))         (* stopWorkers, under c.mu *)
| XDisown (h : nat)                                  (* stopWorkers, under w.mu *)
| XAssign (parts : list partitionKey)                (* onAssigned, under c.mu *)
| XLost                                              (* onLost, under c.mu *)
| XRoute (h : nat) (records : list KRecord)          (* Run's send on the channel *)
| XClose                                             (* Run closes done *)
| XTake (h : nat)                                    (* the worker's receive *)
| XLock (h : nat) | XUnlock (h : nat)                (* commit takes and leaves w.mu *)
| XHorizon (h : nat) (last : Z)
| XCancelWorker (h : nat)                            (* w.cancel *)
| XInit (h : nat)
| XDone (h : nat).                                   (* the worker closes done *)

(** The workers [stopWorkers] removes. *)
Definition chosen (parts : option (list partitionKey)) (key : partitionKey) : bool :=
  match parts with None => true | Some l => bool_decide (key ∈ l) end.
Definition removed (parts : option (list partitionKey)) (c : Consumer) : list nat :=
  omap (fun '(key, h) => if chosen parts key then Some h else None) (map_to_list (cn_workers c)).

Definition add_worker (c : Consumer) (key : partitionKey) : Consumer :=
  match cn_workers c !! key with
  | Some _ => c
  | None =>
      let h := fresh (dom (cn_pool c)) in
      set_workers (set_pool c (<[ h := mkPartitionWorker key false [] 0 false true false false ]> (cn_pool c)))
        (<[ key := h ]> (cn_workers c))
  end.

Definition run_section (x : section) (c : Consumer) : Consumer :=
  match x with
  | XCancel => set_canceled c true
  | XStop parts =>
      set_workers (set_pool c (foldl (fun m h => alter pw_cancel h m) (cn_pool c) (removed parts c)))
        (filter (fun kv => chosen parts kv.1 = false) (cn_workers c))
  | XDisown h => upd h pw_disown c
  | XAssign parts => foldl add_worker (set_assigned c true) parts
  | XLost => set_assigned c false
  | XRoute h records => upd h (pw_queue [records]) c
  | XClose => set_done c true
  | XTake h => upd h (pw_queue []) c
  | XLock h => upd h (pw_lock true) c
  | XUnlock h => upd h (pw_lock false) c
  | XHorizon h last => upd h (pw_set_horizon last) c
  | XCancelWorker h => upd h pw_cancel c
  | XInit h => upd h pw_init c
  | XDone h => upd h pw_finish c
  end.

(** The goroutine only which runs a section; any may cancel or stop. *)
Inductive thread : Type := TRun | TGroup | TWorker (h : nat).
#[export] Instance thread_eq_dec : EqDecision thread.
Proof. solve_decision. Defined.

Definition owner (x : section) : option thread :=
  match x with
  | XCancel | XStop _ | XDisown _ => None
  | XAssign _ | XLost => Some TGroup
  | XRoute _ _ | XClose => Some TRun
  | XTake h | XLock h | XUnlock h | XHorizon h _ | XCancelWorker h | XInit h | XDone h => Some (TWorker h)
  end.

(** Whether another goroutine than [me] can run the section now: a held mutex
    and a full channel make it wait. *)
Definition enabled (me : thread) (x : section) (c : Consumer) : bool :=
  negb (bool_decide (owner x = Some me)) &&
  match x with
  | XDisown h | XLock h => negb (locked_of h c)
  | XRoute h _ => bool_decide (is_Some (cn_pool c !! h)) && bool_decide (queue_of h c = [])
  | _ => true
  end.

(** ** The outside world *)

(** What [kadm] answers for a partition: an offset, or an error of its own. *)
Definition Offsets : Type := gmap partitionKey (Z * option error).

(** A failed fetch: whether [errors.Is] finds OffsetOutOfRange in it and
    [errors.As] a data loss. *)
Record Failure : Type := mkFailure { fl_Topic : string; fl_Partition : Z; OffsetOutOfRange : bool; DataLoss : bool }.

Class Kafka (W : Type) : Type := {
  Others : W -> list section * W;       (* sections other goroutines ran during the last call *)
  FetchOffsets : string -> Act W (result error Offsets);
  ListStartOffsets : string -> Act W (result error Offsets);
  ListEndOffsets : string -> Act W (result error Offsets);
  CommitRecords : partitionKey -> Z -> Z -> Act W (result error unit);
  PartitionStarted : Scope -> string -> string -> Z -> Act W (result error bool);
  MarkPartitionStarted : Scope -> string -> string -> Z -> Act W (result error unit);
  DispatchAllowed : string -> Act W bool;
  DispatchBlock : string -> string -> Act W unit;
  DispatchSignal : Act W unit;
  PollRecords : Act W (list Failure * list (partitionKey * list KRecord));
  PauseFetch : partitionKey -> Act W unit;
  ResumeFetch : list partitionKey -> Act W unit;
  AllowRebalance : Act W unit;
  CloseClient : Act W unit;
  Choose : Act W bool;                  (* which ready case a select takes *)
  Wait : Act W unit }.                  (* blocked or asleep for a while *)

Inductive event : Type :=
| EvSection (x : section)
| EvOffsets (h : nat) (committed : option Z) (first last : Z)
| EvStarted (h : nat) (started : bool)
| EvBlock (source reason : string)
| EvAllowed (source : string) (allowed : bool)
| EvCommit (h : nat) (key : partitionKey) (offset epoch : Z)
| EvCommitDone (h : nat) (ok : bool)
| EvMark (h : nat) (ok : bool)
| EvReady (h : nat)
| EvProcess (h : nat) (record : RawRecord)
| EvProcessed (h : nat) (ok : bool)
| EvOutside (h : nat) (e : Delivery.event)         (* a call of the process function, with its answer *)
| EvLog (e : Entry)
| EvPolled (parts : list (partitionKey * list KRecord)).

Record Machine (W : Type) : Type := mkMachine { cn : Consumer; env : W; trace : list event }.
Arguments mkMachine {W}. Arguments cn {W}. Arguments env {W}. Arguments trace {W}.

(** [fmt]'s entries: a message about a partition of this destination. *)
Definition entry (level message destination topic : string) (partition : Z) (err : string) : Entry :=
  mkEntry "" (mkTime 0 0) level message "" destination 0 topic partition 0 "" "" "" 0 "" err.

Section Programs.
Context {W : Type} `{Kafka W}.
Abbreviation M := (Machine W).

Definition run_others (me : thread) (xs : list section) (c : Consumer) : Consumer * list event :=
  foldl (fun '(c, t) x => if enabled me x c then (run_section x c, t ++ [EvSection x]) else (c, t)) (c, []) xs.

(** A call, and what other goroutines did meanwhile. *)
Definition call {A : Type} (me : thread) (f : Act W A) : Act M A := fun m =>
  let '(a, w) := f (env m) in
  let '(xs, w) := Others w in
  let '(c, t) := run_others me xs (cn m) in
  (a, mkMachine c w (trace m ++ t)).

Definition note (e : event) : Act M unit := fun m => (tt, mkMachine (cn m) (env m) (trace m ++ [e])).
Definition section_ (x : section) : Act M unit := fun m => (tt, mkMachine (run_section x (cn m)) (env m) (trace m ++ [EvSection x])).
Definition reading {A : Type} (f : Consumer -> A) : Act M A := fun m => (f (cn m), m).
Definition ret {A : Type} (a : A) : Act M A := fun m => (a, m).

Definition Block (me : thread) (source reason : string) : Act M unit :=
  _ ← note (EvBlock source reason); call me (DispatchBlock source reason).

Definition log_add (e : Entry) : Act M unit := note (EvLog e).

(** Nothing of the caller's own: other goroutines run. *)
Definition meantime : Act W unit := fun w => (tt, w).

(** ** The partition worker *)

(** The two calls of [commit], each with its answer in the trace. *)
Definition ask_allowed (h : nat) (source : string) : Act M bool :=
  a ← (call (TWorker h) (DispatchAllowed source) : Act M bool);
  _ ← note (EvAllowed source a); ret a.

Definition commit_records (h : nat) (key : partitionKey) (offset epoch : Z) : Act M (result error unit) :=
  _ ← note (EvCommit h key offset epoch);
  r ← call (TWorker h) (CommitRecords key offset epoch);
  _ ← note (EvCommitDone h (is_ok r)); ret r.

(** [commit], holding [w.mu] from the check until Kafka has answered. *)
Definition commit (h : nat) (key : partitionKey) (offset epoch : Z) : Act M (result error unit) :=
  _ ← section_ (XLock h);
  mine ← (reading (fun c => owned_of h c && negb (ctx_done h c)) : Act M bool);
  source ← (reading (fun c => ID (source_of (key_of h c).1 c)) : Act M string);
  allowed ← ((if (mine : bool) then ask_allowed h source else ret false) : Act M bool);
  r ← ((if (allowed : bool) then commit_records h key offset epoch else ret (Err Canceled)) : Act M (result error unit));
  _ ← section_ (XUnlock h);
  ret r.

(** [Lookup], and the error an absent or failed offset becomes. *)
Definition offset_of (o : Offsets) (key : partitionKey) (what : string) : result error Z :=
  match o !! key with Some (at_, None) => Ok at_ | _ => Err (Errorf what []) end.

Definition committed_of (o : Offsets) (key : partitionKey) : result error (option Z) :=
  match o !! key with
  | None => Ok None
  | Some (_, Some e) => Err e
  | Some (at_, None) => Ok (Some at_)
  end.

(** What the committed offset says; [None] is a partition to baseline. *)
Inductive start : Type := Baseline | Lost (reason : string) | Resume.

Definition start_of (committed : option Z) (started : bool) (first last : Z) : start :=
  let none := match committed with None => true | Some at_ => at_ <? 0 end in
  let at_ := default 0 committed in
  if none then (if started || negb (first =? 0) then Lost "established consumer offsets or history lost" else Baseline)
  else if (at_ <? first) || (last <? at_) then Lost "committed offset is outside retained history" else Resume.

(** [initialize]'s attempt. *)
Definition attempt (h : nat) : Act M (result error unit) :=
  let me := TWorker h in
  key ← reading (key_of h);
  sc ← reading cn_scope; destination ← reading cn_destination;
  source ← reading (fun c => ID (source_of key.1 c));
  committed <~ call me (FetchOffsets (GroupID sc destination));
  startAt <~ call me (ListStartOffsets key.1);
  endAt <~ call me (ListEndOffsets key.1);
  first <~ pure (offset_of startAt key "partition start unavailable");
  last <~ pure (offset_of endAt key "partition end unavailable");
  _ ← section_ (XHorizon h last);
  offset <~ pure (committed_of committed key);
  _ ← note (EvOffsets h offset first last);
  started <~ call me (PartitionStarted sc destination key.1 key.2);
  _ ← note (EvStarted h started);
  let mark : Act M (result error unit) :=
    r ← call me (MarkPartitionStarted sc destination key.1 key.2); _ ← note (EvMark h (is_ok r)); ret r in
  match start_of offset started first last with
  | Lost reason => _ ← Block me source reason; _ ← section_ (XCancelWorker h); throw Canceled
  | Baseline => _ <~ commit h key (first - 1) (-1); mark
  | Resume => mark
  end.

(** [retry]: [None] when the fuel runs out with the worker still trying. *)
Fixpoint retry (fuel : nat) (h : nat) (fn : Act M (result error unit)) : Act M (option (result error unit)) :=
  match fuel with
  | O => ret None
  | S fuel =>
      over ← reading (ctx_done h);
      if (over : bool) then ret (Some (Err Canceled))
      else
        r ← fn;
        match r with
        | Ok _ => ret (Some (Ok tt))
        | Err _ => _ ← call (TWorker h) Wait; retry fuel h fn
        end
  end.

Definition initialize (fuel : nat) (h : nat) : Act M (option (result error unit)) := retry fuel h (attempt h).

(** A worker's context and its commit are what [process] gets; [None] is a
    record still being processed when its fuel runs out. *)
Definition CommitFunc : Type := RawRecord -> Act M (result error unit).
Context (process : nat -> RawRecord -> CommitFunc -> Act M (option (result error unit))).

Definition process_record (h : nat) (raw : KRecord) : Act M (option (result error unit)) :=
  horizon ← reading (horizon_of h);
  let record := mkRawRecord (kr_Topic raw) (kr_Partition raw) (kr_Offset raw) (kr_LeaderEpoch raw) (kr_Key raw) (kr_Value raw)
                  (kr_Offset raw <? horizon) in
  _ ← note (EvProcess h record);
  r ← process h record (fun position =>
        commit h (RawTopic position, RawPartition position) (RawOffset position) (LeaderEpoch position));
  match r with Some r => _ ← note (EvProcessed h (is_ok r)); ret (Some r) | None => ret None end.

Fixpoint process_batch (h : nat) (records : list KRecord) : Act M (option (result error unit)) :=
  match records with
  | [] => ret (Some (Ok tt))
  | r :: records =>
      r ← process_record h r;
      match r with Some (Ok _) => process_batch h records | _ => ret r end
  end.

(** The loop's select; with both cases ready the world chooses. *)
Inductive selected : Type := SDone | SBatch (records : list KRecord) | SNothing.

Definition select (h : nat) : Act M selected :=
  _ ← call (TWorker h) Wait;
  first ← (call (TWorker h) Choose : Act M bool);
  over ← (reading (ctx_done h) : Act M bool);
  queue ← reading (queue_of h);
  match queue with
  | records :: _ =>
      if (over : bool) && first then ret SDone else _ ← section_ (XTake h); ret (SBatch records)
  | [] => ret (if (over : bool) then SDone else SNothing)
  end.

(** Resumes fetching unless the worker was replaced or canceled. *)
Definition resume (h : nat) : Act M unit :=
  key ← reading (key_of h);
  current ← (reading (fun c => bool_decide (cn_workers c !! key = Some h) && negb (ctx_done h c)) : Act M bool);
  if (current : bool) then call (TWorker h) (ResumeFetch [key]) else ret tt.

(** Leaves the consumer to be restarted, unless the worker was told to stop. *)
Definition fail (h : nat) : Act M unit :=
  over ← (reading (ctx_done h) : Act M bool); if (over : bool) then ret tt else section_ XCancel.

(** Whether the worker has returned. *)
Fixpoint loop (fuel : nat) (h : nat) : Act M bool :=
  match fuel with
  | O => ret false
  | S fuel =>
      sel ← select h;
      match sel with
      | SDone => ret true
      | SNothing => loop fuel h
      | SBatch records =>
          r ← process_batch h records;
          match r with
          | None => ret false
          | Some (Err _) => _ ← fail h; ret true
          | Some (Ok _) => _ ← resume h; loop fuel h
          end
      end
  end.

Definition run (fuel : nat) (h : nat) : Act M bool :=
  r ← initialize fuel h;
  match r with
  | None => ret false
  | Some (Err _) => _ ← fail h; _ ← section_ (XDone h); ret true
  | Some (Ok _) =>
      _ ← section_ (XInit h);
      _ ← note (EvReady h);
      _ ← call (TWorker h) DispatchSignal;
      over ← (loop fuel h : Act M bool);
      if (over : bool) then _ ← section_ (XDone h); ret true else ret false
  end.

(** ** Group callbacks and the poll loop *)
Fixpoint wait_until (fuel : nat) (me : thread) (p : Consumer -> bool) : Act M bool :=
  match fuel with
  | O => ret false
  | S fuel => b ← (reading p : Act M bool); if (b : bool) then ret true else _ ← call me Wait; wait_until fuel me p
  end.

(** [stopWorkers]' second loop: whether every worker has been waited for. *)
Fixpoint disown_all (fuel : nat) (me : thread) (hs : list nat) : Act M bool :=
  match hs with
  | [] => ret true
  | h :: hs =>
      free ← wait_until fuel me (fun c => negb (locked_of h c));
      if (free : bool) then
        _ ← section_ (XDisown h);
        over ← wait_until fuel me (done_of h);
        if (over : bool) then disown_all fuel me hs else ret false
      else ret false
  end.

Definition stopWorkers (fuel : nat) (me : thread) (parts : option (list partitionKey)) : Act M bool :=
  hs ← reading (removed parts);
  _ ← section_ (XStop parts);
  disown_all fuel me hs.

Definition onAssigned (parts : list partitionKey) : Act M unit :=
  _ ← section_ (XAssign parts);
  _ ← call TGroup (ResumeFetch parts);
  d ← reading cn_destination;
  log_add (entry "" "partitions assigned" d "" 0 "").

Definition onRevoked (fuel : nat) (parts : list partitionKey) : Act M bool :=
  over ← (stopWorkers fuel TGroup (Some parts) : Act M bool);
  if (over : bool) then d ← reading cn_destination; _ ← log_add (entry "" "partitions revoked" d "" 0 ""); ret true else ret false.

Definition onLost (fuel : nat) (parts : list partitionKey) : Act M bool :=
  _ ← section_ XLost;
  over ← (stopWorkers fuel TGroup (Some parts) : Act M bool);
  if (over : bool) then
    d ← reading cn_destination; _ ← log_add (entry "warn" "partition ownership lost" d "" 0 "");
    _ ← call TGroup DispatchSignal; ret true
  else ret false.

Definition historyLost (f : Failure) : bool := OffsetOutOfRange f || DataLoss f.

(** The failures of one poll: whether [Run] returns. *)
Fixpoint failures (l : list Failure) : Act M bool :=
  match l with
  | [] => ret false
  | f :: l =>
      over ← (reading cn_canceled : Act M bool);
      if (over : bool) then ret true
      else if historyLost f then
        source ← reading (fun c => ID (source_of (fl_Topic f) c));
        _ ← Block TRun source "Kafka history boundary lost"; _ ← section_ XCancel; ret true
      else
        d ← reading cn_destination;
        _ ← log_add (entry "warn" "Kafka fetch unavailable" d (fl_Topic f) (fl_Partition f) "fetch failed");
        _ ← call TRun meantime;
        failures l
  end.

(** The select that hands a batch to a worker: whether it has ended. *)
Fixpoint send (fuel : nat) (h : nat) (records : list KRecord) : Act M bool :=
  match fuel with
  | O => ret false
  | S fuel =>
      first ← (call TRun Choose : Act M bool);
      over ← (reading (ctx_done h) : Act M bool);
      queue ← reading (queue_of h);
      match queue with
      | [] => if (over : bool) && first then ret true else _ ← section_ (XRoute h records); ret true
      | _ => if (over : bool) then ret true else _ ← call TRun Wait; send fuel h records
      end
  end.

Fixpoint route (fuel : nat) (parts : list (partitionKey * list KRecord)) : Act M bool :=
  match parts with
  | [] => ret true
  | (key, records) :: parts =>
      w ← (reading (fun c => match cn_workers c !! key with Some h => if ctx_done h c then None else Some h | None => None end) : Act M (option nat));
      match records, w with
      | _ :: _, Some h =>
          _ ← call TRun (PauseFetch key);
          sent ← (send fuel h records : Act M bool);
          if (sent : bool) then route fuel parts else ret false
      | _, _ => route fuel parts
      end
  end.

(** The polling loop: whether it has ended. *)
Fixpoint poll (fuel : nat) : Act M bool :=
  match fuel with
  | O => ret false
  | S fuel =>
      over ← (reading cn_canceled : Act M bool);
      if (over : bool) then ret true
      else
        '(errors, parts) ← call TRun PollRecords;
        _ ← note (EvPolled parts);
        stop ← (failures errors : Act M bool);
        if (stop : bool) then ret true
        else
          routed ← (route (S fuel) parts : Act M bool);
          if (routed : bool) then _ ← call TRun AllowRebalance; poll fuel else ret false
  end.

(** [Run]'s deferred calls follow the loop, last first. *)
Definition Run (fuel : nat) : Act M bool :=
  over ← (poll fuel : Act M bool);
  if (over : bool) then
    _ ← call TRun AllowRebalance;
    stopped ← (stopWorkers fuel TRun None : Act M bool);
    if (stopped : bool) then _ ← call TRun CloseClient; _ ← section_ XClose; ret true else ret false
  else ret false.

Definition Cancel : Act M unit := section_ XCancel.

(** [Stop], run by a goroutine of the control service: whether it returned. *)
Definition Stop (fuel : nat) : Act M bool := _ ← section_ XCancel; wait_until fuel TGroup cn_done.
End Programs.

(** ** Lemmas: sections *)
Lemma pool_upd (h k : nat) (f : partitionWorker -> partitionWorker) (c : Consumer) :
  cn_pool (upd h f c) !! k = if decide (h = k) then f <$> cn_pool c !! k else cn_pool c !! k.
Proof.
  unfold upd. cbn. destruct (decide (h = k)) as [->|Hne]; [by rewrite lookup_alter_eq|by rewrite lookup_alter_ne].
Qed.

Lemma cancel_all_lookup (l : list nat) (m : gmap nat partitionWorker) (h : nat) :
  exists w, foldl (fun m h => alter pw_cancel h m) m l !! h = (if (w : bool) then pw_cancel <$> m !! h else m !! h) /\ (h ∈ l -> w = true).
Proof.
  revert m. induction l as [|k l IH]; intros m; [exists false; split; [done|by intros ?%elem_of_nil]|]. cbn.
  destruct (IH (alter pw_cancel k m)) as (w & -> & Hw). destruct (decide (k = h)) as [->|Hne].
  - exists true. rewrite lookup_alter_eq. split; [|done]. destruct w; [|done]. by destruct (m !! h).
  - exists w. rewrite lookup_alter_ne by done. split; [done|]. intros [->|Hin]%elem_of_cons; [done|auto].
Qed.

Lemma add_worker_lookup (c : Consumer) (key : partitionKey) (h : nat) (w : partitionWorker) :
  cn_pool c !! h = Some w -> cn_pool (add_worker c key) !! h = Some w.
Proof.
  intros Hw. unfold add_worker. destruct (cn_workers c !! key); [done|]. cbn. rewrite lookup_insert_ne; [done|].
  intros Heq. apply (is_fresh (dom (cn_pool c))). rewrite Heq. apply elem_of_dom. eauto.
Qed.

Lemma add_workers_lookup (parts : list partitionKey) (c : Consumer) (h : nat) (w : partitionWorker) :
  cn_pool c !! h = Some w -> cn_pool (foldl add_worker c parts) !! h = Some w.
Proof.
  revert c. induction parts as [|p parts IH]; intros c Hw; [done|]. cbn. apply IH. by apply add_worker_lookup.
Qed.

(** What another goroutine's section can do to worker [h]: cancel it, disown it
    while its mutex is free, fill its empty channel. *)
Record meanwhile (h : nat) (x : section) (w w' : partitionWorker) : Prop := mkMeanwhile {
  mw_same : pw_key w' = pw_key w /\ pw_locked w' = pw_locked w /\ pw_horizon w' = pw_horizon w /\
            pw_initialized w' = pw_initialized w /\ pw_done w' = pw_done w;
  mw_canceled : pw_canceled w = true -> pw_canceled w' = true;
  mw_owned : (x <> XDisown h /\ pw_owned w' = pw_owned w) \/ (x = XDisown h /\ pw_locked w = false /\ pw_owned w' = false);
  mw_batches : ((forall rs, x <> XRoute h rs) /\ pw_batches w' = pw_batches w) \/
               (exists rs, x = XRoute h rs /\ pw_batches w = [] /\ pw_batches w' = [rs]) }.

Lemma meanwhile_same (h : nat) (x : section) (w : partitionWorker) :
  x <> XDisown h -> (forall rs, x <> XRoute h rs) -> meanwhile h x w w.
Proof. intros H1 H2. split; try done; by left. Qed.

Lemma section_meanwhile (h : nat) (x : section) (c : Consumer) (w : partitionWorker) :
  enabled (TWorker h) x c = true -> cn_pool c !! h = Some w ->
  exists w', cn_pool (run_section x c) !! h = Some w' /\ meanwhile h x w w'.
Proof.
  unfold enabled. rewrite andb_true_iff, negb_true_iff. intros [Hown Hen] Hw. apply (bool_decide_eq_false (owner x = _)) in Hown.
  destruct x as [|parts|k|parts| |k rs| |k|k|k|k z|k|k|k]; cbn [run_section owner] in *;
    try (rewrite ?pool_upd; rewrite ?decide_False by (intros ->; done); exists w; split; [done|]; by apply meanwhile_same).
  - destruct (cancel_all_lookup (removed parts c) (cn_pool c) h) as ([] & Heq & _); cbn; rewrite Heq, Hw;
      eexists; (split; [done|]); [split; try done; by left|by apply meanwhile_same].
  - rewrite pool_upd, Hw. unfold locked_of in Hen. case_decide as Hk; [subst k; rewrite Hw in Hen|].
    + eexists. split; [done|]. cbn in Hen. split; try done; [right|left; done]. by destruct (pw_locked w).
    + exists w. split; [done|]. apply meanwhile_same; [congruence|done].
  - exists w. split; [by apply add_workers_lookup|]. by apply meanwhile_same.
  - rewrite pool_upd, Hw. unfold queue_of in Hen. case_decide as Hk; [subst k; rewrite Hw in Hen|].
    + cbn in Hen. apply bool_decide_eq_true in Hen. eexists. split; [done|].
      split; try done; [left; done|right]. exists rs. by rewrite Hen.
    + exists w. split; [done|]. apply meanwhile_same; [done|congruence].
Qed.

(** ** Reasoning about one worker's goroutine

    An assertion about worker [h], its key and the consumer's sources fixed:
    it speaks of the worker's memory and of the trace. *)
Section Worker.
Context {W : Type} `{Kafka W}.
Abbreviation M := (Machine W).
Variables (h : nat) (key : partitionKey) (srcs : gmap string Source).

Definition assertion : Type := partitionWorker -> list event -> Prop.
Definition on (J : assertion) (m : M) : Prop :=
  exists w, cn_pool (cn m) !! h = Some w /\ pw_key w = key /\ cn_sources (cn m) = srcs /\ J w (trace m).

(** Kept by what other goroutines do. *)
Definition stable (J : assertion) : Prop := forall x w w' t, meanwhile h x w w' -> J w t -> J w' (t ++ [EvSection x]).

(** What a section of the worker itself does to it. *)
Definition own_effect (x : section) (w : partitionWorker) : partitionWorker :=
  match x with
  | XTake _ => pw_queue [] w | XLock _ => pw_lock true w | XUnlock _ => pw_lock false w
  | XHorizon _ last => pw_set_horizon last w | XCancelWorker _ => pw_cancel w | XInit _ => pw_init w | XDone _ => pw_finish w
  | _ => w
  end.
Definition own (x : section) : bool :=
  match x with XCancel => true | _ => bool_decide (owner x = Some (TWorker h)) end.

Lemma sources_section (x : section) (c : Consumer) : cn_sources (run_section x c) = cn_sources c.
Proof.
  destruct x as [| | |parts| | | | | | | | | |]; try done. cbn. change (cn_sources c) with (cn_sources (set_assigned c true)).
  generalize (set_assigned c true) as d. induction parts as [|p parts IH]; intros d; [done|]. cbn. rewrite IH.
  unfold add_worker. by destruct (cn_workers d !! p).
Qed.

Lemma on_others (J : assertion) (xs : list section) (m : M) : stable J -> on J m ->
  let '(c, t) := run_others (TWorker h) xs (cn m) in on J (mkMachine c (env m) (trace m ++ t)).
Proof.
  intros HJ Hon. unfold run_others.
  assert (forall xs c t, on J (mkMachine c (env m) (trace m ++ t)) ->
    let '(c, t) := foldl (fun '(c, t) x => if enabled (TWorker h) x c then (run_section x c, t ++ [EvSection x]) else (c, t)) (c, t) xs in
    on J (mkMachine c (env m) (trace m ++ t))) as Hgen.
  { induction xs0 as [|x xs0 IH]; intros c t Hc; [done|]. cbn [foldl]. destruct (enabled (TWorker h) x c) eqn:Hen; [|by apply IH].
    apply IH. destruct Hc as (w & Hw & Hk & Hs & Hj). cbn in *. destruct (section_meanwhile h x c w Hen Hw) as (w' & Hw' & Hm).
    exists w'. cbn. split; [done|]. split; [by rewrite <- Hk, (proj1 (mw_same _ _ _ _ Hm))|]. split; [by rewrite sources_section|].
    rewrite app_assoc. by eapply HJ. }
  apply Hgen. rewrite app_nil_r. by destruct m.
Qed.

Lemma on_call {A : Type} (J : assertion) (f : Act W A) : stable J -> triple (on J) (call (TWorker h) f) (fun _ => on J).
Proof.
  intros HJ m Hm. unfold call. destruct (f (env m)) as [a w]. destruct (Others w) as [xs w'].
  assert (on J (mkMachine (cn m) w' (trace m))) as Hm' by exact Hm.
  pose proof (on_others J xs _ HJ Hm') as Ho. cbn in Ho. by destruct (run_others (TWorker h) xs (cn m)).
Qed.

Lemma on_note (J K : assertion) (e : event) : (forall w t, J w t -> K w (t ++ [e])) -> triple (on J) (note e) (fun _ => on K).
Proof. intros HJ m (w & ? & ? & ? & Hj). exists w. cbn. auto. Qed.

Lemma on_section (J K : assertion) (x : section) : own x = true ->
  (forall w t, pw_key w = key -> J w t -> K (own_effect x w) (t ++ [EvSection x])) -> triple (on J) (section_ x) (fun _ => on K).
Proof.
  intros Hx HJ m (w & Hw & Hk & Hs & Hj). exists (own_effect x w). cbn. rewrite sources_section. specialize (HJ w (trace m) Hk Hj).
  destruct x; cbn in *; try done; apply bool_decide_eq_true in Hx; try done; injection Hx as ->; by rewrite lookup_alter_eq, Hw.
Qed.

Lemma on_reading {A : Type} (J : assertion) (f : Consumer -> A) : triple (on J) (reading f) (fun _ => on J).
Proof. by intros m. Qed.

Lemma on_ret {A : Type} (J : assertion) (a : A) : triple (on J) (ret a) (fun _ => on J).
Proof. by intros m. Qed.

Lemma on_weaken {A : Type} (J K : assertion) (f : Act M A) (Q : A -> M -> Prop) :
  (forall w t, J w t -> K w t) -> triple (on K) f Q -> triple (on J) f Q.
Proof. intros HJ Hf m (w & ? & ? & ? & Hj). apply Hf. exists w. auto. Qed.
End Worker.

(** A process function works through calls, recorded or not, and its commit
    alone: what those keep, it keeps. *)
Definition confined {W : Type} `{Kafka W}
  (process : nat -> RawRecord -> CommitFunc (W := W) -> Act (Machine W) (option (result error unit))) : Prop :=
  forall (P : Machine W -> Prop) h r commit,
    (forall A (f : Act W A), triple P (call (TWorker h) f) (fun _ => P)) ->
    (forall e, triple P (note (EvOutside h e)) (fun _ => P)) ->
    (forall position, triple P (commit position) (fun _ => P)) ->
    triple P (process h r commit) (fun _ => P).

(** The calls of a worker's goroutine, what it does with records apart. *)
Inductive worker_call {W : Type} `{Kafka W} : forall A : Type, Act W A -> Prop :=
| wc_committed g : worker_call _ (FetchOffsets g)
| wc_start t : worker_call _ (ListStartOffsets t)
| wc_end t : worker_call _ (ListEndOffsets t)
| wc_commit k o e : worker_call _ (CommitRecords k o e)
| wc_started sc d t p : worker_call _ (PartitionStarted sc d t p)
| wc_mark sc d t p : worker_call _ (MarkPartitionStarted sc d t p)
| wc_allowed s : worker_call _ (DispatchAllowed s)
| wc_block s reason : worker_call _ (DispatchBlock s reason)
| wc_signal : worker_call _ DispatchSignal
| wc_resume k : worker_call _ (ResumeFetch k)
| wc_choose : worker_call _ Choose
| wc_wait : worker_call _ Wait.
#[export] Hint Constructors worker_call : core.

(** Assertions kept by every step of a worker's goroutine before it handles
    records, and by commits. *)
Section Frame.
Context {W : Type} `{Kafka W}.
Abbreviation M := (Machine W).
Variables (h : nat) (P : M -> Prop).
Abbreviation kept f := (triple P f (fun _ => P)).
Hypothesis P_call : forall A (f : Act W A), worker_call A f -> kept (call (TWorker h) f).
Hypothesis P_baseline : forall k, kept (commit h k (-1) (-1)).
Hypothesis P_section : forall x, own h x = true -> (forall k, x <> XLock k) -> (forall k, x <> XTake k) -> kept (section_ x).
Hypothesis P_note : forall e, (forall k o ep, e <> EvCommit h k o ep) -> (forall r, e <> EvProcess h r) -> (forall x, e <> EvSection x) ->
  (forall k o, e <> EvOutside k o) -> kept (note e).

Lemma kept_reading {A : Type} (f : Consumer -> A) : kept (reading f).
Proof. by intros m. Qed.
Lemma kept_ret {A : Type} (a : A) : kept (ret a).
Proof. by intros m. Qed.
Lemma kept_pure {A : Type} (r : result error A) : kept (pure r).
Proof. by intros m. Qed.
Lemma kept_own (x : section) : own h x = true -> (forall k, x <> XLock k) -> (forall k, x <> XTake k) -> kept (section_ x).
Proof. apply P_section. Qed.
Hint Resolve kept_reading kept_ret kept_pure P_call P_baseline : core.
Hint Extern 1 (triple _ (note _) _) => apply P_note; done : core.
Hint Extern 1 (triple _ (section_ _) _) => apply kept_own; [cbn; by apply bool_decide_eq_true| done| done] : core.

Lemma kept_throw {A : Type} (e : error) : kept (throw (A := A) e).
Proof. by intros m. Qed.
Hint Resolve kept_throw : core.

Ltac walk := repeat first [ by auto | match goal with
  | |- triple _ (act_try _ _) _ => apply kept_try; [|intros ?]
  | |- triple _ (mbind _ _) _ => apply kept_bind; [|intros ?]
  end | case_match ].

(** A baseline is only ever the beginning of an untouched partition. *)
Lemma start_baseline (committed : option Z) (started : bool) (first last : Z) :
  start_of committed started first last = Baseline -> first = 0 /\ started = false.
Proof.
  unfold start_of. destruct (match committed with None => true | Some at_ => at_ <? 0 end).
  - destruct started; [done|]. cbn [orb]. destruct (Z.eqb_spec first 0); [auto|done].
  - by destruct (_ || _).
Qed.

Lemma kept_attempt : kept (attempt h).
Proof.
  unfold attempt, Block. walk; match goal with Hs : start_of _ _ _ _ = Baseline |- _ => apply start_baseline in Hs as [-> _] end; walk.
Qed.

Lemma kept_retry (fuel : nat) (fn : Act M (result error unit)) : kept fn -> kept (retry fuel h fn).
Proof. intros Hfn. induction fuel as [|fuel IH]; cbn [retry]; walk. Qed.

Lemma kept_fail : kept (fail h).
Proof. unfold fail. apply kept_bind; [done|]. intros []; [done|]. by apply kept_own. Qed.

Lemma kept_resume : kept (resume h).
Proof. unfold resume. walk. Qed.

Lemma kept_run (process : nat -> RawRecord -> CommitFunc (W := W) -> Act M (option (result error unit))) (fuel : nat) :
  kept (loop process fuel h) -> kept (run process fuel h).
Proof.
  intros Hloop. unfold run, initialize. apply kept_bind; [apply kept_retry, kept_attempt|]. pose proof kept_fail as Hf.
  intros [[]|]; walk.
Qed.

(** The rest of the goroutine, when a record and a receive keep it too. *)
Lemma kept_loop (process : nat -> RawRecord -> CommitFunc (W := W) -> Act M (option (result error unit))) (fuel : nat) :
  (forall r, kept (process h r (fun position => commit h (RawTopic position, RawPartition position) (RawOffset position) (LeaderEpoch position)))) ->
  kept (section_ (XTake h)) -> (forall r, kept (note (EvProcess h r))) -> kept (loop process fuel h).
Proof.
  intros Hp Htake Hnote. pose proof kept_fail as Hf. pose proof kept_resume as Hres.
  assert (forall r, kept (process_record process h r)) as Hrec.
  { intros r. unfold process_record. apply kept_bind; [done|]. intros hz. apply kept_bind; [done|]. intros [].
    apply kept_bind; [apply Hp|]. intros res. walk. }
  assert (forall rs, kept (process_batch process h rs)) as Hbatch by (induction rs as [|r rs IH]; cbn [process_batch]; walk).
  assert (kept (select h)) as Hsel by (unfold select; walk).
  induction fuel as [|fuel IH]; cbn [loop]; walk.
Qed.
End Frame.

(** ** The commit fence *)
Definition disown (h : nat) : event := EvSection (XDisown h).

(** Every commit of [h] follows an answer that its source may dispatch, and no
    disowning of [h] precedes it or runs before its answer. *)
Definition fenced (h : nat) (source : string) (t : list event) : Prop :=
  forall pre k offset epoch post, t = pre ++ EvCommit h k offset epoch :: post ->
    (disown h ∉ pre) /\ (exists before, pre = before ++ [EvAllowed source true]) /\
    (exists xs ok after, post = map EvSection xs ++ EvCommitDone h ok :: after /\ XDisown h ∉ xs).

Lemma snoc_split {A : Type} (t pre post : list A) (e x : A) :
  t ++ [e] = pre ++ x :: post -> (exists post', t = pre ++ x :: post' /\ post = post' ++ [e]) \/ (e = x /\ post = [] /\ t = pre).
Proof.
  intros Heq. destruct post as [|y post' _] using rev_ind.
  - apply app_inj_tail in Heq as [-> ->]. by right.
  - left. exists post'. rewrite app_comm_cons, app_assoc in Heq. apply app_inj_tail in Heq as [-> ->]. done.
Qed.

Lemma fenced_snoc (h : nat) (source : string) (t : list event) (e : event) :
  (forall k o ep, e <> EvCommit h k o ep) -> fenced h source t -> fenced h source (t ++ [e]).
Proof.
  intros He Hf pre k o ep post Heq. apply snoc_split in Heq as [(post' & -> & ->)|(-> & _)]; [|by destruct (He k o ep)].
  destruct (Hf pre k o ep post' eq_refl) as (H1 & H2 & xs & ok & after & -> & H3). split; [done|]. split; [done|].
  exists xs, ok, (after ++ [e]). by rewrite <- app_assoc.
Qed.

(** A whole commit keeps the trace fenced. *)
Lemma fenced_commit (h : nat) (source : string) (before : list event) (k : partitionKey) (o ep : Z) (xs : list section) (ok : bool) :
  let pre := before ++ [EvAllowed source true] in
  fenced h source pre -> disown h ∉ pre -> XDisown h ∉ xs ->
  fenced h source (pre ++ EvCommit h k o ep :: map EvSection xs ++ [EvCommitDone h ok]).
Proof.
  intros pre Hf Hd Hx pre' k' o' ep' post Heq. apply app_eq_app in Heq as (l & [[Hp Hl]|[Hp Hl]]); destruct l as [|c l].
  1,3: injection Hl; rewrite app_nil_r in Hp; subst pre'; intros; subst; split; [done|]; split; [by eexists|]; by eexists xs, ok, [].
  - injection Hl as <- ->. destruct (Hf pre' k' o' ep' l Hp) as (H1 & H2 & ys & ok' & after & -> & H3).
    split; [done|]. split; [done|]. eexists ys, ok', _. split; [by rewrite <- app_assoc|done].
  - injection Hl as <- Hl. exfalso. assert (EvCommit h k' o' ep' ∈ map EvSection xs ++ [EvCommitDone h ok]) as Hin
      by (rewrite Hl; apply elem_of_app; right; by left).
    apply elem_of_app in Hin as [(x & [=] & _)%list_elem_of_fmap|[=]%list_elem_of_singleton].
Qed.

(** Between commits, and while one is in flight. *)
Definition idle (h : nat) (source : string) (w : partitionWorker) (t : list event) : Prop :=
  pw_locked w = false /\ (disown h ∈ t -> pw_owned w = false) /\ fenced h source t.

Definition checking (h : nat) (source : string) (mine : bool) (w : partitionWorker) (t : list event) : Prop :=
  pw_locked w = true /\ (disown h ∈ t -> pw_owned w = false) /\ fenced h source t /\ (mine = true -> pw_owned w = true).

Definition flying (h : nat) (source : string) (w : partitionWorker) (t : list event) : Prop :=
  pw_locked w = true /\ pw_owned w = true /\
  (exists before k o ep xs, let pre := before ++ [EvAllowed source true] in
    t = pre ++ EvCommit h k o ep :: map EvSection xs /\ fenced h source pre /\ (disown h ∉ pre) /\ XDisown h ∉ xs).

Section Fence.
Context {W : Type} `{Kafka W}.
Abbreviation M := (Machine W).
Variables (h : nat) (key : partitionKey) (srcs : gmap string Source).
Let source : string := ID (default (mkSource "" "" "" [] "" "") (srcs !! key.1)).
Abbreviation On J := (on (W := W) h key srcs J).

Lemma disown_snoc (t : list event) (x : section) : disown h ∈ t ++ [EvSection x] -> x = XDisown h \/ disown h ∈ t.
Proof. intros [Ht|[= ->]%list_elem_of_singleton]%elem_of_app; auto. Qed.

Lemma idle_stable : stable h (idle h source).
Proof.
  intros x w w' t [(_ & Hl & _) _ Ho _] (H1 & H2 & H3). split; [by rewrite Hl|]. split; [|by apply fenced_snoc].
  intros [->|Ht]%disown_snoc; destruct Ho as [[Hx Ho]|(_ & _ & Ho)]; try done. rewrite Ho. auto.
Qed.

Lemma checking_stable (mine : bool) : stable h (checking h source mine).
Proof.
  intros x w w' t [(_ & Hl & _) _ Ho _] (H1 & H2 & H3 & H4). destruct Ho as [[Hx Ho]|(_ & Ho & _)]; [|congruence].
  split; [by rewrite Hl|]. rewrite Ho. split; [|split; [by apply fenced_snoc|done]]. by intros [->|Ht]%disown_snoc; [|auto].
Qed.

Lemma flying_stable : stable h (flying h source).
Proof.
  intros x w w' t [(_ & Hl & _) _ Ho _] (H1 & H2 & before & k & o & ep & xs & -> & Hf & Hd & Hx).
  destruct Ho as [[Hne Ho]|(_ & Ho & _)]; [|congruence]. split; [by rewrite Hl|]. split; [by rewrite Ho|].
  exists before, k, o, ep, (xs ++ [x]). cbn zeta. rewrite map_app, <- (app_assoc (before ++ _)). split; [done|]. split; [done|]. split; [done|].
  rewrite elem_of_app, list_elem_of_singleton. intros [?|<-]; done.
Qed.

Lemma idle_note (e : event) : (forall k o ep, e <> EvCommit h k o ep) -> (forall x, e <> EvSection x) ->
  triple (On (idle h source)) (note e) (fun _ => On (idle h source)).
Proof.
  intros He Hs. apply on_note. intros w t (H1 & H2 & H3). split; [done|]. split; [|by apply fenced_snoc].
  intros [Ht|Heq%list_elem_of_singleton]%elem_of_app; [auto|]. by destruct (Hs (XDisown h)).
Qed.

Lemma idle_section (x : section) : own h x = true -> (forall k, x <> XLock k) -> triple (On (idle h source)) (section_ x) (fun _ => On (idle h source)).
Proof.
  intros Hx Hn. apply on_section; [done|]. intros w t _ (H1 & H2 & H3).
  assert (disown h ∈ t ++ [EvSection x] -> disown h ∈ t) as Hd by (intros [->|]%disown_snoc; done).
  split; [|split; [|by apply fenced_snoc]]; destruct x; cbn in *; auto; by destruct (Hn h0).
Qed.

(** The commit, from its lock to its unlock. *)
Lemma commit_fenced (k : partitionKey) (offset epoch : Z) :
  triple (On (idle h source)) (commit h k offset epoch) (fun _ => On (idle h source)).
Proof.
  unfold commit.
  eapply triple_bind; [apply (on_section h key srcs _ (checking h source false)); [cbn; by apply bool_decide_eq_true|]|].
  { intros w t _ (H1 & H2 & H3). split; [done|]. split; [|split; [by apply fenced_snoc|done]]. by intros [?|Ht]%disown_snoc; [|auto]. }
  intros []. apply (triple_bind _ _ (fun mine => On (checking h source mine))).
  { intros m (w & Hw & Hk & Hs & H1 & H2 & H3 & _). exists w. cbn. split_and!; try done. split_and!; try done.
    intros Hm. unfold owned_of in Hm. rewrite Hw in Hm. cbn in Hm. by apply andb_true_iff in Hm as [Hm _]. }
  intros mine. apply (triple_bind _ _ (fun s m => On (checking h source mine) m /\ s = source)).
  { intros m Hm. split; [done|]. destruct Hm as (w & Hw & Hk & Hs & _). cbn. unfold source_of, source, key_of. by rewrite Hw, Hs, <- Hk. }
  intros src. set (J := fun (w : partitionWorker) (t : list event) => checking h source true w t /\ exists before, t = before ++ [EvAllowed source true]).
  apply (triple_bind _ _ (fun (a : bool) => On (if a then J else checking h source false))).
  { intros m [Hm Hsrc]. rewrite Hsrc. clear src Hsrc. destruct mine; [|exact Hm]. revert m Hm. change (triple (On (checking h source true)) (ask_allowed h source)
      (fun (a : bool) => On (if a then J else checking h source false))). unfold ask_allowed.
    eapply triple_bind; [apply on_call, checking_stable|]. intros a m (w & Hw & Hk & Hs & H1 & H2 & H3 & H4).
    assert (disown h ∈ trace m ++ [EvAllowed source a] -> disown h ∈ trace m) as Hd by (intros [?|[=]%list_elem_of_singleton]%elem_of_app; done).
    exists w. destruct a; cbn; split_and!; try done; [split; [|by eexists]|]; split_and!; auto; by apply fenced_snoc. }
  intros allowed. apply (triple_bind _ _ (fun _ => On (checking h source false))).
  { destruct allowed; [|by intros m]. unfold commit_records.
    eapply triple_bind; [apply (on_note h key srcs _ (flying h source))|].
    { intros w t [(H1 & H2 & H3 & H4) [before ->]]. split; [done|]. split; [auto|]. exists before, k, offset, epoch, [].
      split_and!; try done; [|by apply not_elem_of_nil]. intros Hd%H2. by rewrite H4 in Hd. }
    intros []. eapply triple_bind; [apply on_call, flying_stable|]. intros r.
    eapply triple_bind; [apply (on_note h key srcs _ (checking h source false))|by intros [] m].
    intros w t (H1 & H2 & before & k0 & o & ep & xs & -> & Hf & Hd & Hx). split; [done|]. rewrite <- app_assoc. cbn. split; [|split; [|done]].
    - intros [?|[[=]|[(x & [= <-] & ?)%list_elem_of_fmap|[=]%list_elem_of_singleton]%elem_of_app]%elem_of_cons]%elem_of_app; done.
    - by apply fenced_commit. }
  intros r. eapply triple_bind; [apply (on_section h key srcs _ (idle h source)); [cbn; by apply bool_decide_eq_true|]|by intros [] m].
  intros w t _ (H1 & H2 & H3 & _). split; [done|]. split; [|by apply fenced_snoc]. by intros [?|Ht]%disown_snoc; [|auto].
Qed.
End Fence.

(** C6. The worker's goroutine never commits for a partition it may have lost:
    whatever Kafka, the store, the dispatcher and the other goroutines do, every
    commit it sends follows an answer that its source may dispatch, none follows
    the moment a revocation disowned the worker, and no revocation disowns it
    while a commit is in flight. *)
Theorem ownership_fence {W : Type} `{Kafka W}
  (process : nat -> RawRecord -> CommitFunc (W := W) -> Act (Machine W) (option (result error unit)))
  (fuel : nat) (h : nat) (m : Machine W) (w : partitionWorker) :
  confined process -> cn_pool (cn m) !! h = Some w -> pw_locked w = false -> trace m = [] ->
  fenced h (ID (source_of (pw_key w).1 (cn m))) (trace (run process fuel h m).2).
Proof.
  intros Hp Hw Hl Ht. set (J := idle h (ID (source_of (pw_key w).1 (cn m)))).
  assert (on h (pw_key w) (cn_sources (cn m)) J m) as Hm.
  { exists w. split_and!; try done. rewrite Ht. split; [done|]. split; [by intros ?%elem_of_nil|]. by intros [|] ? ? ? ? [=]. }
  pose proof (fun A (f : Act W A) => on_call h (pw_key w) (cn_sources (cn m)) J f (idle_stable h _ _)) as Hc.
  pose proof (commit_fenced (W := W) h (pw_key w) (cn_sources (cn m))) as Hcommit.
  assert (triple (on h (pw_key w) (cn_sources (cn m)) J) (run process fuel h) (fun _ => on h (pw_key w) (cn_sources (cn m)) J)) as Hrun;
    [|by destruct (Hrun m Hm) as (w' & _ & _ & _ & _ & _ & Hf)].
  apply kept_run; auto using idle_section, idle_note. apply kept_loop; auto using idle_section, idle_note.
  apply idle_section; [cbn; by apply bool_decide_eq_true|done].
Qed.

(** ** The worker's protocol

    An abstract specification of one partition worker: what it learns, what it
    decides, and only then what it does. *)
Inductive phase : Type :=
| Checking
| Known (committed : option Z) (first last : Z)
| Decided (s : start) (first : Z)
| Baselining
| Marking
| Marked
| Serving
| Handling
| Halted.

Definition protocol (h : nat) (key : partitionKey) (source : string) (p : phase) (e : event) : option phase :=
  match e, p with
  | EvSection _, _ | EvLog _, _ | EvOutside _ _, _ => Some p
  | EvOffsets k c f l, (Checking | Known _ _ _ | Decided _ _) => if decide (k = h) then Some (Known c f l) else None
  | EvStarted k b, Known c f l => if decide (k = h) then Some (Decided (start_of c b f l) f) else None
  | EvBlock s r, Decided (Lost reason) _ => if decide (s = source /\ r = reason) then Some Halted else None
  | EvAllowed _ _, (Decided Baseline _ | Handling) => Some p
  | EvCommit k c o ep, Decided Baseline f => if decide (k = h /\ c = key /\ o = f - 1 /\ ep = -1) then Some Baselining else None
  | EvCommit k _ _ _, Handling => if decide (k = h) then Some p else None
  | EvCommitDone k ok, Baselining => if decide (k = h) then Some (if ok then Marking else Checking) else None
  | EvCommitDone k _, Handling => if decide (k = h) then Some p else None
  | EvMark k ok, (Marking | Decided Resume _) => if decide (k = h) then Some (if ok then Marked else Checking) else None
  | EvReady k, Marked => if decide (k = h) then Some Serving else None
  | EvProcess k _, Serving => if decide (k = h) then Some Handling else None
  | EvProcessed k ok, Handling => if decide (k = h) then Some (if ok then Serving else Halted) else None
  | _, _ => None
  end.

Definition accepts (h : nat) (key : partitionKey) (source : string) (t : list event) : option phase :=
  foldl (fun p e => p ≫= fun p => protocol h key source p e) (Some Checking) t.

Lemma accepts_snoc (h : nat) (key : partitionKey) (source : string) (t : list event) (e : event) (p : phase) :
  accepts h key source t = Some p -> accepts h key source (t ++ [e]) = protocol h key source p e.
Proof. intros Ht. unfold accepts. rewrite foldl_app. cbn. fold (accepts h key source t). by rewrite Ht. Qed.

Section Protocol.
Context {W : Type} `{Kafka W}.
Abbreviation M := (Machine W).
Variables (h : nat) (key : partitionKey) (srcs : gmap string Source).
Let source : string := ID (default (mkSource "" "" "" [] "" "") (srcs !! key.1)).
Abbreviation On J := (on (W := W) h key srcs J).
Definition at_ (p : phase) : assertion := fun _ t => accepts h key source t = Some p.
Abbreviation At p := (On (at_ p)).

Lemma at_stable (p : phase) : stable h (at_ p).
Proof. intros x w w' t _ Ht. unfold at_ in *. by rewrite (accepts_snoc _ _ _ _ _ _ Ht). Qed.

Lemma at_call {A : Type} (p : phase) (f : Act W A) : triple (At p) (call (TWorker h) f) (fun _ => At p).
Proof. apply on_call, at_stable. Qed.

Lemma at_note (p q : phase) (e : event) : protocol h key source p e = Some q -> triple (At p) (note e) (fun _ => At q).
Proof. intros He. apply on_note. intros w t Ht. unfold at_. by rewrite (accepts_snoc _ _ _ _ _ _ Ht). Qed.

Lemma at_section (p : phase) (x : section) : own h x = true -> triple (At p) (section_ x) (fun _ => At p).
Proof. intros Hx. apply on_section; [done|]. intros w t _ Ht. unfold at_. by rewrite (accepts_snoc _ _ _ _ _ _ Ht). Qed.

Lemma at_reading {A : Type} (p : phase) (f : Consumer -> A) : triple (At p) (reading f) (fun _ => At p).
Proof. by intros m. Qed.

Lemma at_key (p : phase) : triple (At p) (reading (key_of h)) (fun k m => At p m /\ k = key).
Proof. intros m Hm. split; [done|]. destruct Hm as (w & Hw & Hk & _). cbn. unfold key_of. by rewrite Hw. Qed.

Lemma at_source (p : phase) : triple (At p) (reading (fun c => ID (source_of key.1 c))) (fun s m => At p m /\ s = source).
Proof. intros m Hm. split; [done|]. destruct Hm as (w & _ & _ & Hs & _). cbn. unfold source_of, source. by rewrite Hs. Qed.

(** A commit from phase [p] that the protocol lets through [q]. *)
Lemma at_commit (p q : phase) (end_ : bool -> phase) (k : partitionKey) (o ep : Z) :
  (forall s a, protocol h key source p (EvAllowed s a) = Some p) ->
  protocol h key source p (EvCommit h k o ep) = Some q ->
  (forall ok, protocol h key source q (EvCommitDone h ok) = Some (end_ ok)) ->
  triple (At p) (commit h k o ep) (fun r m => At (end_ (is_ok r)) m \/ (is_ok r = false /\ At p m)).
Proof.
  intros Ha Hc Hd. unfold commit. eapply triple_bind; [apply at_section; cbn; by apply bool_decide_eq_true|]. intros [].
  eapply triple_bind; [apply at_reading|]. intros mine. eapply triple_bind; [apply at_reading|]. intros src.
  apply (triple_bind _ _ (fun _ => At p)).
  { destruct mine; [|by intros m]. unfold ask_allowed. eapply triple_bind; [apply at_call|]. intros a.
    eapply triple_bind; [by apply at_note|]. by intros [] m. }
  intros allowed. apply (triple_bind _ _ (fun r m => At (end_ (is_ok r)) m \/ (is_ok r = false /\ At p m))).
  { destruct allowed; [|intros m Hm; by right]. unfold commit_records. eapply triple_bind; [by apply at_note|]. intros [].
    eapply triple_bind; [apply at_call|]. intros r. eapply triple_bind; [by apply at_note|]. intros [] m Hm. by left. }
  intros r. assert (forall p', triple (At p') (section_ (XUnlock h) ≫= fun _ => ret r) (fun r' m => r' = r /\ At p' m)) as Hun.
  { intros p'. eapply triple_bind; [apply at_section; cbn; by apply bool_decide_eq_true|]. by intros [] m. }
  intros m [Hm|[Hr Hm]]; destruct (Hun _ m Hm) as [-> Hu]; auto.
Qed.

(** Phases an attempt can end in with an error, to be tried again or, once the
    source is blocked and the worker canceled, not. *)
Definition trying (w : partitionWorker) (t : list event) : Prop :=
  exists p, accepts h key source t = Some p /\
    match p with Checking | Known _ _ _ | Decided Baseline _ | Decided Resume _ => True | Halted => pw_canceled w = true | _ => False end.

Lemma trying_stable : stable h trying.
Proof.
  intros x w w' t Hm (p & Ht & Hp). exists p. split; [by rewrite (accepts_snoc _ _ _ _ _ _ Ht)|].
  destruct p as [|? ? ?|[]| | | | | |]; try done. by apply (mw_canceled _ _ _ _ Hm).
Qed.

Definition attempted (r : result error unit) : M -> Prop := match r with Ok _ => At Marked | Err _ => On trying end.

Definition retryable (p : phase) : bool :=
  match p with Checking | Known _ _ _ | Decided Baseline _ | Decided Resume _ => true | _ => false end.

Lemma at_trying (p : phase) (m : M) : retryable p = true -> At p m -> On trying m.
Proof. intros Hp (w & ? & ? & ? & Ht). exists w. split_and!; try done. exists p. split; [done|]. by destruct p as [| |[]| | | | | |]. Qed.

Lemma try_call {A : Type} (p : phase) (f : Act W (result error A)) (k : A -> Act M (result error unit)) :
  retryable p = true -> (forall a, triple (At p) (k a) attempted) -> triple (At p) (act_try (call (TWorker h) f) k) attempted.
Proof.
  intros Hp Hk. eapply triple_try; [apply at_call|exact Hk|]. intros e m. by apply at_trying.
Qed.

Lemma try_pure {A : Type} (p : phase) (r : result error A) (k : A -> Act M (result error unit)) :
  retryable p = true -> (forall a, r = Ok a -> triple (At p) (k a) attempted) -> triple (At p) (act_try (pure r) k) attempted.
Proof.
  intros Hp Hk m Hm. unfold act_try, pure. destruct r as [a|e]; [by apply Hk|by eapply at_trying].
Qed.

Lemma attempt_mark (p : phase) (f : Act W (result error unit)) :
  (forall ok, protocol h key source p (EvMark h ok) = Some (if ok then Marked else Checking)) ->
  triple (At p) (r ← call (TWorker h) f; _ ← note (EvMark h (is_ok r)); ret r) attempted.
Proof.
  intros Hp. eapply triple_bind; [apply at_call|]. intros r. eapply triple_bind; [by apply at_note|].
  intros [] m Hm. destruct r; [done|]. by apply (at_trying Checking).
Qed.

Lemma attempt_follows (p : phase) : retryable p = true -> triple (At p) (attempt h) attempted.
Proof.
  intros Hp. unfold attempt. eapply triple_bind; [apply at_key|]. intros k m [Hm ->]. revert m Hm.
  apply (triple_bind _ _ (fun _ => At p)); [by intros m|]. intros sc. apply (triple_bind _ _ (fun _ => At p)); [by intros m|].
  intros destination. eapply triple_bind; [apply at_source|]. intros src m [Hm Hsrc]. rewrite Hsrc. clear src Hsrc. revert m Hm.
  apply try_call; [done|]. intros committed. apply try_call; [done|]. intros startAt. apply try_call; [done|]. intros endAt.
  apply try_pure; [done|]. intros first _. apply try_pure; [done|]. intros last _.
  eapply triple_bind; [apply at_section; cbn; by apply bool_decide_eq_true|]. intros [].
  apply try_pure; [done|]. intros offset _.
  eapply triple_bind; [apply (at_note p (Known offset first last))|].
  { destruct p as [| |[]| | | | | |]; try done; cbn; by rewrite decide_True. }
  intros []. apply try_call; [done|]. intros started.
  eapply triple_bind; [apply at_note; cbn; by rewrite decide_True by done|]. intros [].
  destruct (start_of offset started first last) as [|reason|].
  - eapply triple_try; [apply (at_commit (Decided Baseline first) Baselining (fun ok => if ok then Marking else Checking))| |].
    + done.
    + cbn. by rewrite decide_True.
    + intros ok. cbn. by rewrite decide_True.
    + intros [] m [Hm|[? _]]; [|done]. revert m Hm. apply attempt_mark. intros ok. cbn. by rewrite decide_True.
    + intros e m [Hm|[_ Hm]]; [by apply (at_trying Checking)|by apply (at_trying (Decided Baseline first))].
  - unfold Block. eapply (triple_bind _ _ (fun _ => At Halted)).
    { eapply triple_bind; [apply at_note; cbn; by rewrite decide_True by done|]. intros []. apply at_call. }
    intros []. eapply triple_bind; [apply (on_section h key srcs _ trying); [cbn; by apply bool_decide_eq_true|]|by intros [] m].
    intros w t _ Ht. exists Halted. by rewrite (accepts_snoc _ _ _ _ _ _ Ht).
  - apply attempt_mark. intros ok. cbn. by rewrite decide_True.
Qed.

Lemma retry_follows (fuel : nat) :
  triple (On trying) (retry fuel h (attempt h)) (fun r => match r with Some (Ok _) => At Marked | _ => On trying end).
Proof.
  induction fuel as [|fuel IH]; cbn [retry]; [by intros m|].
  apply (triple_bind _ _ (fun over m => On trying m /\ over = ctx_done h (cn m))); [by intros m|].
  intros [] m [(w & Hw & Hk & Hs & p & Ht & Hp) Hd]; [exists w; split_and!; try done; by exists p|].
  assert (retryable p = true) as Hr.
  { unfold ctx_done in Hd. rewrite Hw in Hd. cbn in Hd. symmetry in Hd. apply orb_false_iff in Hd as [_ Hd].
    destruct p as [| |[]| | | | | |]; try done. congruence. }
  assert (At p m) as Hm by (by exists w). clear w Hw Hk Hs Ht Hp Hd. revert m Hm.
  change (triple (At p) (r ← attempt h; match r with Ok _ => ret (Some (Ok tt)) | Err _ => _ ← call (TWorker h) Wait; retry fuel h (attempt h) end)
    (fun r => match r with Some (Ok _) => At Marked | _ => On trying end)).
  eapply triple_bind; [by apply attempt_follows|]. intros [[]|e]; [by intros m|].
  eapply triple_bind; [apply on_call, trying_stable|]. intros []. apply IH.
Qed.

Definition accepted : assertion := fun _ t => is_Some (accepts h key source t).

Lemma at_accepted (p : phase) (m : M) : At p m -> On accepted m.
Proof. intros (w & ? & ? & ? & Ht). exists w. split_and!; try done. by exists p. Qed.

Lemma accepted_any {A : Type} (p : phase) (f : Act M A) : triple (At p) f (fun _ => At p) -> triple (At p) f (fun _ => On accepted).
Proof. intros Hf m Hm. by apply (at_accepted p), Hf. Qed.

Variable process : nat -> RawRecord -> CommitFunc (W := W) -> Act M (option (result error unit)).
Hypothesis process_confined : confined process.

Definition served (r : option (result error unit)) : M -> Prop :=
  match r with Some (Ok _) => At Serving | Some (Err _) => At Halted | None => On accepted end.

Lemma record_follows (raw : KRecord) : triple (At Serving) (process_record process h raw) served.
Proof.
  unfold process_record. eapply triple_bind; [apply at_reading|]. intros horizon.
  eapply triple_bind; [apply (at_note Serving Handling); cbn; by rewrite decide_True|]. intros [].
  eapply triple_bind; [apply process_confined|].
  { intros A f. apply at_call. }
  { intros e. by apply at_note. }
  { intros position. apply (triple_weaken (At Handling) _ _ (fun r m => At Handling m \/ (is_ok r = false /\ At Handling m)));
      [|done|by intros r m [|[_ ?]]].
    apply (at_commit Handling Handling (fun _ => Handling)); [done|cbn; by rewrite decide_True|intros ok; cbn; by rewrite decide_True]. }
  intros [r|]; [|intros m; apply (at_accepted Handling)]. apply (triple_bind _ _ (fun _ => served (Some r))); [|intros []; by destruct r; intros m].
  destruct r; cbn [is_ok served]; apply at_note; cbn; by rewrite decide_True.
Qed.

Lemma batch_follows (records : list KRecord) : triple (At Serving) (process_batch process h records) served.
Proof.
  induction records as [|r rs IH]; cbn [process_batch]; [by intros m|].
  eapply triple_bind; [apply record_follows|]. intros [[[]|e]|]; [apply IH|by intros m|by intros m].
Qed.

Lemma select_follows (p : phase) : triple (At p) (select h) (fun _ => At p).
Proof.
  unfold select. eapply triple_bind; [apply at_call|]. intros []. eapply triple_bind; [apply at_call|]. intros first.
  eapply triple_bind; [apply at_reading|]. intros over. eapply triple_bind; [apply at_reading|]. intros [|records queue]; [by intros m|].
  destruct (over && first); [by intros m|]. eapply triple_bind; [apply at_section; cbn; by apply bool_decide_eq_true|]. by intros [] m.
Qed.

Lemma fail_follows (p : phase) : triple (At p) (fail h) (fun _ => At p).
Proof.
  unfold fail. eapply triple_bind; [apply at_reading|]. intros []; [by intros m|]. by apply at_section.
Qed.

Lemma resume_follows (p : phase) : triple (At p) (resume h) (fun _ => At p).
Proof.
  unfold resume. eapply triple_bind; [apply at_reading|]. intros k.
  eapply triple_bind; [apply at_reading|]. intros []; [apply at_call|by intros m].
Qed.

Lemma loop_follows (fuel : nat) : triple (At Serving) (loop process fuel h) (fun _ => On accepted).
Proof.
  induction fuel as [|fuel IH]; cbn [loop]; [intros m; apply (at_accepted Serving)|].
  eapply triple_bind; [apply select_follows|]. intros []; [intros m; apply (at_accepted Serving)| |exact IH].
  eapply triple_bind; [apply batch_follows|]. intros [[[]|e]|]; [| |by intros m].
  - eapply triple_bind; [apply resume_follows|intros []; apply IH].
  - eapply triple_bind; [apply fail_follows|]. intros [] m. apply (at_accepted Halted).
Qed.

Lemma on_accepted_section (x : section) : own h x = true -> triple (On accepted) (section_ x) (fun _ => On accepted).
Proof. intros Hx. apply on_section; [done|]. intros w t _ [p Ht]. exists p. by rewrite (accepts_snoc _ _ _ _ _ _ Ht). Qed.

Lemma run_follows (fuel : nat) : triple (At Checking) (run process fuel h) (fun _ => On accepted).
Proof.
  unfold run, initialize. eapply triple_bind; [eapply triple_weaken; [apply retry_follows| |by intros a m; apply id]|].
  { intros m. by apply at_trying. }
  assert (forall m, On trying m -> On accepted m) as Hacc.
  { intros m (w & ? & ? & ? & p & Ht & _). exists w. split_and!; try done. by exists p. }
  intros [[[]|e]|]; [| |intros m; apply Hacc].
  - eapply triple_bind; [apply at_section; cbn; by apply bool_decide_eq_true|]. intros [].
    eapply triple_bind; [apply (at_note Marked Serving); cbn; by rewrite decide_True|]. intros [].
    eapply triple_bind; [apply at_call|]. intros []. eapply triple_bind; [apply loop_follows|]. intros []; [|by intros m].
    eapply triple_bind; [apply on_accepted_section; cbn; by apply bool_decide_eq_true|]. by intros [] m.
  - eapply (triple_bind _ _ (fun _ => On accepted)).
    { unfold fail. eapply triple_bind; [apply on_reading|]. intros over m Hm%Hacc. destruct over; [done|].
      by apply (on_accepted_section XCancel). }
    intros []. eapply triple_bind; [apply on_accepted_section; cbn; by apply bool_decide_eq_true|]. by intros [] m.
Qed.
End Protocol.

(** C12. Whatever happens around it, a partition worker follows its protocol: it
    baselines a partition only when nothing was ever committed or started there
    and its history begins at zero, blocks the source exactly on a lost history,
    marks the partition started only then, hands over records only once it is
    marked and ready, one at a time, and none after a failure. *)
Theorem worker_protocol {W : Type} `{Kafka W}
  (process : nat -> RawRecord -> CommitFunc (W := W) -> Act (Machine W) (option (result error unit)))
  (fuel : nat) (h : nat) (m : Machine W) (w : partitionWorker) :
  confined process -> cn_pool (cn m) !! h = Some w -> trace m = [] ->
  is_Some (accepts h (pw_key w) (ID (source_of (pw_key w).1 (cn m))) (trace (run process fuel h m).2)).
Proof.
  intros Hp Hw Ht. destruct (run_follows (W := W) h (pw_key w) (cn_sources (cn m)) process Hp fuel m) as (w' & _ & _ & _ & Ha); [|done].
  exists w. split_and!; try done. unfold at_. by rewrite Ht.
Qed.

(** ** Record order *)
Definition routed (h : nat) (t : list event) : list KRecord :=
  t ≫= fun e => match e with EvSection (XRoute k rs) => if decide (k = h) then rs else [] | _ => [] end.

Definition record_of (r : RawRecord) : KRecord :=
  mkKRecord (RawTopic r) (RawPartition r) (RawOffset r) (LeaderEpoch r) (Key r) (Value r).

Definition handed (h : nat) (t : list event) : list KRecord :=
  omap (fun e => match e with EvProcess k r => if decide (k = h) then Some (record_of r) else None | _ => None end) t.

Lemma routed_snoc (h : nat) (t : list event) (e : event) :
  routed h (t ++ [e]) = routed h t ++ match e with EvSection (XRoute k rs) => if decide (k = h) then rs else [] | _ => [] end.
Proof. unfold routed. rewrite bind_app. cbn. by rewrite app_nil_r. Qed.

Lemma handed_snoc (h : nat) (t : list event) (e : event) :
  handed h (t ++ [e]) = handed h t ++ match e with EvProcess k r => if decide (k = h) then [record_of r] else [] | _ => [] end.
Proof. unfold handed. rewrite omap_app. cbn. destruct e; cbn; try case_decide; by rewrite ?app_nil_r. Qed.

(** Everything routed was handed on, is still to be handed on from the batch in
    hand, or waits in the channel. *)
Definition fifo (h : nat) (rest : list KRecord) (w : partitionWorker) (t : list event) : Prop :=
  routed h t = handed h t ++ rest ++ concat (pw_batches w) /\ (length (pw_batches w) <= 1)%nat.

Section Fifo.
Context {W : Type} `{Kafka W}.
Abbreviation M := (Machine W).
Variables (h : nat) (key : partitionKey) (srcs : gmap string Source).
Abbreviation On J := (on (W := W) h key srcs J).
Abbreviation Fifo rest := (On (fifo h rest)).

Lemma fifo_stable (rest : list KRecord) : stable h (fifo h rest).
Proof.
  intros x w w' t [_ _ _ Hb] [Hf Hl]. unfold fifo. rewrite routed_snoc, handed_snoc, Hf, app_nil_r.
  destruct Hb as [[Hx Hb]|(rs & -> & Hb & Hb')].
  - rewrite Hb. split; [|done]. destruct x; rewrite ?app_nil_r; try done. rewrite decide_False, ?app_nil_r; [done|].
    intros ->. by destruct (Hx records).
  - rewrite Hb, Hb', decide_True by done. cbn. rewrite !app_nil_r, <- app_assoc. split; [done|lia].
Qed.

Lemma fifo_quiet (rest : list KRecord) (w : partitionWorker) (t : list event) (e : event) :
  (forall r, e <> EvProcess h r) -> (forall rs, e <> EvSection (XRoute h rs)) -> fifo h rest w t -> fifo h rest w (t ++ [e]).
Proof.
  intros Hp Hr [Hf Hl]. split; [|done]. rewrite routed_snoc, handed_snoc, Hf.
  assert (match e with EvProcess k r => if decide (k = h) then [record_of r] else [] | _ => [] end = []) as ->
    by (destruct e; try done; rewrite decide_False; [done|]; intros ->; by destruct (Hp record)).
  rewrite app_nil_r. destruct e as [[]| | | | | | | | | | | | |]; rewrite ?app_nil_r; try done.
  rewrite decide_False, app_nil_r; [done|]. intros ->. by destruct (Hr records).
Qed.

Lemma fifo_note (rest : list KRecord) (e : event) :
  (forall r, e <> EvProcess h r) -> (forall x, e <> EvSection x) -> triple (Fifo rest) (note e) (fun _ => Fifo rest).
Proof. intros Hp Hx. apply on_note. intros w t. apply fifo_quiet; auto. Qed.

Lemma fifo_section (rest : list KRecord) (x : section) : own h x = true -> (forall k, x <> XTake k) ->
  triple (Fifo rest) (section_ x) (fun _ => Fifo rest).
Proof.
  intros Hx Ht. apply on_section; [done|]. intros w t _ Hf. apply fifo_quiet; [done| |].
  - intros rs [= ->]. cbn in Hx. by apply bool_decide_eq_true in Hx.
  - destruct x; try done. by destruct (Ht h0).
Qed.

Lemma fifo_call {A : Type} (rest : list KRecord) (f : Act W A) : triple (Fifo rest) (call (TWorker h) f) (fun _ => Fifo rest).
Proof. apply on_call, fifo_stable. Qed.

Lemma fifo_commit (rest : list KRecord) (k : partitionKey) (o ep : Z) : triple (Fifo rest) (commit h k o ep) (fun _ => Fifo rest).
Proof.
  unfold commit, ask_allowed, commit_records.
  repeat first [ case_match | match goal with
  | |- triple _ (mbind _ _) _ => apply (triple_bind _ _ (fun _ => Fifo rest)); [|intros ?]
  | |- triple _ (section_ _) _ => apply fifo_section; [cbn; by apply bool_decide_eq_true|done]
  | |- triple _ (note _) _ => by apply fifo_note
  | |- triple _ (call _ _) _ => apply fifo_call
  | |- _ => by intros m
  end ].
Qed.
Hint Resolve fifo_call fifo_commit fifo_section fifo_note : core.

Variable process : nat -> RawRecord -> CommitFunc (W := W) -> Act M (option (result error unit)).
Hypothesis process_confined : confined process.

Lemma fifo_record (raw : KRecord) (rest : list KRecord) :
  triple (Fifo (raw :: rest)) (process_record process h raw) (fun _ => Fifo rest).
Proof.
  unfold process_record. apply (triple_bind _ _ (fun _ => Fifo (raw :: rest))); [by intros m|]. intros horizon.
  apply (triple_bind _ _ (fun _ => Fifo rest)).
  { apply on_note. intros w t [Hf Hl]. split; [|done]. rewrite routed_snoc, handed_snoc, Hf, app_nil_r. rewrite decide_True by done.
    rewrite <- app_assoc. by destruct raw. }
  intros []. apply (triple_bind _ _ (fun _ => Fifo rest)); [apply process_confined; auto|]. intros r.
  destruct r as [r|]; [|by intros m]. apply (triple_bind _ _ (fun _ => Fifo rest)); [by apply fifo_note|]. by intros [] m.
Qed.

Definition some_left (m : M) : Prop := exists rest, Fifo rest m.

Lemma fifo_batch (records : list KRecord) :
  triple (Fifo records) (process_batch process h records) (fun r => match r with Some (Ok _) => Fifo [] | _ => some_left end).
Proof.
  induction records as [|r rs IH]; cbn [process_batch]; [by intros m|].
  eapply triple_bind; [apply fifo_record|]. intros [[[]|e]|]; [apply IH|intros m Hm; by exists rs..].
Qed.

Lemma fifo_select : triple (Fifo []) (select h) (fun s => Fifo (match s with SBatch records => records | _ => [] end)).
Proof.
  unfold select. apply (triple_bind _ _ (fun _ => Fifo [])); [auto|]. intros []. apply (triple_bind _ _ (fun _ => Fifo [])); [auto|].
  intros first. apply (triple_bind _ _ (fun _ => Fifo [])); [by intros m|]. intros over.
  apply (triple_bind _ _ (fun q => On (fun w t => fifo h [] w t /\ q = pw_batches w))).
  { intros m (w & Hw & Hk & Hs & Hf). exists w. cbn. split_and!; try done. cbn. unfold queue_of. by rewrite Hw. }
  intros [|records queue]; [by destruct over; intros m (w & ? & ? & ? & Hf & _); exists w|].
  destruct (over && first); [by intros m (w & ? & ? & ? & Hf & _); exists w|].
  apply (triple_bind _ _ (fun _ => Fifo records)); [|by intros [] m].
  apply on_section; [cbn; by apply bool_decide_eq_true|]. intros w t _ [[Hf Hl] Hq]. split; [|cbn; lia].
  rewrite routed_snoc, handed_snoc, Hf, <- Hq. rewrite <- Hq in Hl. destruct queue; [|cbn in Hl; lia]. cbn. by rewrite !app_nil_r.
Qed.

Lemma some_section (x : section) : own h x = true -> (forall k, x <> XTake k) -> triple some_left (section_ x) (fun _ => some_left).
Proof. intros Hx Ht m [rest Hm]. exists rest. by apply fifo_section. Qed.

Lemma some_fail : triple some_left (fail h) (fun _ => some_left).
Proof.
  unfold fail. apply (triple_bind _ _ (fun _ => some_left)); [by intros m|]. intros []; [by intros m|]. by apply some_section.
Qed.

Lemma fifo_loop (fuel : nat) : triple (Fifo []) (loop process fuel h) (fun _ => some_left).
Proof.
  induction fuel as [|fuel IH]; cbn [loop]; [intros m Hm; by exists []|].
  eapply triple_bind; [apply fifo_select|]. intros [|records|]; [intros m Hm; by exists []| |apply IH].
  eapply triple_bind; [apply fifo_batch|]. intros [[[]|e]|]; [| |by intros m].
  - apply (triple_bind _ _ (fun _ => Fifo [])); [|intros []; apply IH]. apply kept_resume; auto.
  - apply (triple_bind _ _ (fun _ => some_left)); [apply some_fail|by intros [] m].
Qed.

Lemma fifo_run (fuel : nat) : triple (Fifo []) (run process fuel h) (fun _ => some_left).
Proof.
  unfold run, initialize. apply (triple_bind _ _ (fun _ => Fifo [])); [apply kept_retry; auto; apply kept_attempt; auto|].
  intros [[[]|e]|]; [| |intros m Hm; by exists []].
  - apply (triple_bind _ _ (fun _ => Fifo [])); [apply fifo_section; [cbn; by apply bool_decide_eq_true|done]|]. intros [].
    apply (triple_bind _ _ (fun _ => Fifo [])); [auto|]. intros []. apply (triple_bind _ _ (fun _ => Fifo [])); [auto|]. intros [].
    eapply triple_bind; [apply fifo_loop|]. intros []; [|by intros m].
    apply (triple_bind _ _ (fun _ => some_left)); [apply some_section; [cbn; by apply bool_decide_eq_true|done]|by intros [] m].
  - apply (triple_bind _ _ (fun _ => some_left)); [intros m Hm; apply some_fail; by exists []|]. intros [].
    apply (triple_bind _ _ (fun _ => some_left)); [apply some_section; [cbn; by apply bool_decide_eq_true|done]|by intros [] m].
Qed.
End Fifo.

(** Records reach the process function in the order they were routed to the
    worker, none skipped and none twice: what was handed on is at every moment
    a prefix of what was routed. *)
Theorem partition_order {W : Type} `{Kafka W}
  (process : nat -> RawRecord -> CommitFunc (W := W) -> Act (Machine W) (option (result error unit)))
  (fuel : nat) (h : nat) (m : Machine W) (w : partitionWorker) :
  confined process -> cn_pool (cn m) !! h = Some w -> pw_batches w = [] -> trace m = [] ->
  let t := trace (run process fuel h m).2 in handed h t `prefix_of` routed h t.
Proof.
  intros Hp Hw Hb Ht. destruct (fifo_run (W := W) h (pw_key w) (cn_sources (cn m)) process Hp fuel m) as (rest & w' & _ & _ & _ & Hf & _).
  - exists w. split_and!; try done. rewrite Ht. split; rewrite Hb; [done|cbn; lia].
  - cbn zeta. rewrite Hf. by eexists.
Qed.

(** ** Revocation *)

(** What no section takes back. *)
Record persists (w w' : partitionWorker) : Prop := mkPersists {
  ps_canceled : pw_canceled w = true -> pw_canceled w' = true;
  ps_owned : pw_owned w = false -> pw_owned w' = false;
  ps_done : pw_done w = true -> pw_done w' = true }.

#[export] Instance persists_preorder : PreOrder persists.
Proof. split; [by intros w|]. intros w1 w2 w3 [] []. split; auto. Qed.

Lemma section_persists (x : section) (c : Consumer) (h : nat) (w : partitionWorker) :
  cn_pool c !! h = Some w -> exists w', cn_pool (run_section x c) !! h = Some w' /\ persists w w'.
Proof.
  intros Hw. destruct x as [|parts|k|parts| |k rs| |k|k|k|k z|k|k|k]; cbn [run_section];
    try (rewrite pool_upd, Hw; case_decide; eexists; (split; [done|by split])); try (exists w; split; [done|by split]).
  - destruct (cancel_all_lookup (removed parts c) (cn_pool c) h) as ([] & Heq & _); cbn; rewrite Heq, Hw;
      eexists; (split; [done|]); by split.
  - exists w. split; [by apply add_workers_lookup|by split].
Qed.

Section Revocation.
Context {W : Type} `{Kafka W}.
Abbreviation M := (Machine W).
Variable me : thread.

(** A worker of the pool, with a fact that persists. *)
Definition has (h : nat) (Q : partitionWorker -> Prop) (m : M) : Prop := exists w, cn_pool (cn m) !! h = Some w /\ Q w.
Definition lasting (Q : partitionWorker -> Prop) : Prop := forall w w', persists w w' -> Q w -> Q w'.

Lemma has_section (h : nat) (Q : partitionWorker -> Prop) (x : section) : lasting Q ->
  triple (has h Q) (section_ x) (fun _ => has h Q).
Proof.
  intros HQ m (w & Hw & Hq). destruct (section_persists x _ _ _ Hw) as (w' & Hw' & Hp). exists w'. split; [done|by eapply HQ].
Qed.

Lemma has_call {A : Type} (h : nat) (Q : partitionWorker -> Prop) (f : Act W A) : lasting Q ->
  triple (has h Q) (call me f) (fun _ => has h Q).
Proof.
  intros HQ m Hm. unfold call. destruct (f (env m)) as [a w0]. destruct (Others w0) as [xs w1]. unfold run_others.
  assert (forall xs c t, (exists w, cn_pool c !! h = Some w /\ Q w) ->
    exists w, cn_pool (foldl (fun '(c, t) x => if enabled me x c then (run_section x c, t ++ [EvSection x]) else (c, t)) (c, t) xs).1 !! h = Some w /\ Q w) as Hgen.
  { induction xs0 as [|x xs0 IH]; intros c t Hc; [done|]. cbn [foldl]. destruct (enabled me x c); apply IH; [|done].
    destruct Hc as (w & Hw & Hq). destruct (section_persists x c h w Hw) as (w' & Hw' & Hp). exists w'. split; [done|by eapply HQ]. }
  specialize (Hgen xs (cn m) [] Hm). destruct (foldl _ _ xs). exact Hgen.
Qed.

Lemma has_wait (h : nat) (Q : partitionWorker -> Prop) (fuel : nat) (p : Consumer -> bool) : lasting Q ->
  triple (has h Q) (wait_until fuel me p) (fun b m => has h Q m /\ (b = true -> p (cn m) = true)).
Proof.
  intros HQ. induction fuel as [|fuel IH]; cbn [wait_until]; [by intros m|].
  apply (triple_bind _ _ (fun b m => has h Q m /\ b = p (cn m))); [by intros m|].
  intros []; [by intros m [Hm Hb]|]. apply (triple_pre (has h Q)); [by intros m []|].
  eapply triple_bind; [by apply has_call|]. intros []. apply IH.
Qed.

Definition stopped (w : partitionWorker) : Prop := pw_canceled w = true /\ pw_owned w = false /\ pw_done w = true.

Lemma stopped_lasting : lasting stopped.
Proof. intros w w' [] (? & ? & ?). repeat split; auto. Qed.

Lemma canceled_lasting : lasting (fun w => pw_canceled w = true).
Proof. intros w w' [] ?. auto. Qed.

Lemma disowned_lasting : lasting (fun w => pw_canceled w = true /\ pw_owned w = false).
Proof. intros w w' [] [? ?]. auto. Qed.

Lemma has_disown_all (h : nat) (Q : partitionWorker -> Prop) (fuel : nat) (hs : list nat) : lasting Q ->
  triple (has h Q) (disown_all fuel me hs) (fun _ => has h Q).
Proof.
  intros HQ. induction hs as [|k hs IH]; cbn [disown_all]; [by intros m|].
  eapply triple_bind; [by apply has_wait|]. intros []; [|by intros m []].
  apply (triple_pre (has h Q)); [by intros m []|]. eapply triple_bind; [by apply has_section|]. intros [].
  eapply triple_bind; [by apply has_wait|]. intros []; [intros m [Hm _]; by apply IH|by intros m []].
Qed.

(** The loop stops each worker of its list. *)
Lemma disown_all_stops (h : nat) (fuel : nat) (hs : list nat) : h ∈ hs ->
  triple (has h (fun w => pw_canceled w = true)) (disown_all fuel me hs) (fun b m => b = true -> has h stopped m).
Proof.
  induction hs as [|k hs IH]; intros Hin; [by apply elem_of_nil in Hin|]. cbn [disown_all].
  eapply triple_bind; [apply has_wait, canceled_lasting|]. intros []; [|by intros m []].
  apply (triple_pre (has h (fun w => pw_canceled w = true))); [by intros m []|]. destruct (decide (h = k)) as [<-|Hne].
  - eapply (triple_bind _ _ (fun _ => has h (fun w => pw_canceled w = true /\ pw_owned w = false))).
    { intros m (w & Hw & Hc). exists (pw_disown w). unfold section_. cbn. by rewrite lookup_alter_eq, Hw. }
    intros []. eapply triple_bind; [apply has_wait, disowned_lasting|]. intros []; [|by intros m []].
    intros m [(w & Hw & Hc & Ho) Hd] Hr. pose proof (has_disown_all h stopped fuel hs stopped_lasting) as Hs. apply Hs.
    exists w. split; [done|]. split_and!; try done. specialize (Hd eq_refl). unfold done_of in Hd. by rewrite Hw in Hd.
  - eapply triple_bind; [apply has_section, canceled_lasting|]. intros [].
    eapply triple_bind; [apply has_wait, canceled_lasting|]. intros []; [|by intros m []].
    intros m [Hm _]. apply IH; [|done]. apply elem_of_cons in Hin as [|]; done.
Qed.
End Revocation.

(** C21. Revocation waits: when [stopWorkers] returns, every worker it removed is
    canceled, disowned — so by [ownership_fence] it sends no commit any more —
    and its goroutine has returned, whatever ran in between. *)
Theorem revocation_waits {W : Type} `{Kafka W} (fuel : nat) (me : thread) (parts : option (list partitionKey)) (m m' : Machine W)
  (key : partitionKey) (h : nat) :
  cn_workers (cn m) !! key = Some h -> chosen parts key = true -> is_Some (cn_pool (cn m) !! h) ->
  stopWorkers fuel me parts m = (true, m') ->
  exists w, cn_pool (cn m') !! h = Some w /\ pw_canceled w = true /\ pw_owned w = false /\ pw_done w = true.
Proof.
  intros Hkey Hch [w Hw] Hs. assert (h ∈ removed parts (cn m)) as Hin.
  { unfold removed. apply list_elem_of_omap. exists (key, h). rewrite Hch. split; [|done]. by apply elem_of_map_to_list. }
  pose proof (disown_all_stops (W := W) me h fuel (removed parts (cn m)) Hin) as Hd.
  unfold stopWorkers, mbind, act_bind, reading, section_ in Hs.
  specialize (Hd (mkMachine (run_section (XStop parts) (cn m)) (env m) (trace m ++ [EvSection (XStop parts)]))).
  rewrite Hs in Hd. cbn [fst snd] in Hd. apply Hd; [|done].
  destruct (cancel_all_lookup (removed parts (cn m)) (cn_pool (cn m)) h) as (b & Heq & Hb). rewrite (Hb Hin), Hw in Heq.
  eexists. split; [exact Heq|done].
Qed.

(** ** History loss *)
Lemma others_events (me : thread) (xs : list section) (c : Consumer) :
  exists ys, (run_others me xs c).2 = map EvSection ys.
Proof.
  unfold run_others. assert (forall xs c t, (exists ys, t = map EvSection ys) ->
    exists ys, (foldl (fun '(c, t) x => if enabled me x c then (run_section x c, t ++ [EvSection x]) else (c, t)) (c, t) xs).2 = map EvSection ys) as Hgen.
  { induction xs0 as [|x xs0 IH]; intros c0 t [ys ->]; [by exists ys|]. cbn [foldl]. destruct (enabled me x c0); apply IH; [|by exists ys].
    exists (ys ++ [x]). by rewrite map_app. }
  apply Hgen. by exists [].
Qed.

(** What the goroutine itself did, without the sections of others. *)
Definition deeds (t : list event) : list event := List.filter (fun e => match e with EvSection _ => false | _ => true end) t.

Lemma deeds_app (t t' : list event) : deeds (t ++ t') = deeds t ++ deeds t'.
Proof. apply List.filter_app. Qed.

Lemma deeds_sections (ys : list section) : deeds (map EvSection ys) = [].
Proof. induction ys as [|y ys IH]; [done|exact IH]. Qed.

(** What no section changes, and that only [XCancel] cancels. *)
Lemma destination_section (x : section) (c : Consumer) : cn_destination (run_section x c) = cn_destination c.
Proof.
  destruct x as [| | |parts| | | | | | | | | |]; try done. cbn. change (cn_destination c) with (cn_destination (set_assigned c true)).
  generalize (set_assigned c true). induction parts as [|k parts IH]; intros c'; [done|]. cbn. rewrite IH. unfold add_worker. by destruct (cn_workers c' !! k).
Qed.

Lemma canceled_section (x : section) (c : Consumer) : cn_canceled (run_section x c) = true -> x = XCancel \/ cn_canceled c = true.
Proof.
  destruct x as [| | |parts| | | | | | | | | |]; try (by auto). cbn. change (cn_canceled c) with (cn_canceled (set_assigned c true)).
  intros Hc. right. revert Hc. generalize (set_assigned c true). induction parts as [|k parts IH]; intros c'; [done|]. cbn. intros Hc%IH.
  unfold add_worker in Hc. by destruct (cn_workers c' !! k).
Qed.

(** Other goroutines, as the poll loop sees them. *)
Lemma others_view (me : thread) (xs : list section) (c : Consumer) :
  let '(c', t) := run_others me xs c in
  cn_destination c' = cn_destination c /\ cn_sources c' = cn_sources c /\ deeds t = [] /\
  (cn_canceled c' = true -> cn_canceled c = true \/ EvSection XCancel ∈ t).
Proof.
  unfold run_others. assert (forall xs c0 t0,
    (cn_destination c0 = cn_destination c /\ cn_sources c0 = cn_sources c /\ deeds t0 = [] /\
      (cn_canceled c0 = true -> cn_canceled c = true \/ EvSection XCancel ∈ t0)) ->
    let '(c', t) := foldl (fun '(c, t) x => if enabled me x c then (run_section x c, t ++ [EvSection x]) else (c, t)) (c0, t0) xs in
    cn_destination c' = cn_destination c /\ cn_sources c' = cn_sources c /\ deeds t = [] /\
      (cn_canceled c' = true -> cn_canceled c = true \/ EvSection XCancel ∈ t)) as Hgen; [|apply Hgen; auto].
  clear xs. induction xs as [|x xs IH]; intros c0 t0 Hi; [exact Hi|]. cbn [foldl]. destruct (enabled me x c0); [|by apply IH].
  apply IH. destruct Hi as (Hd & Hs & Ht & Hx). rewrite destination_section, sources_section, deeds_app, Ht. split; [done|]. split; [done|].
  split; [done|]. intros [->|Hc]%canceled_section; [right; set_solver|]. destruct (Hx Hc); [by left|right; set_solver].
Qed.

Definition warn (destination : string) (g : Failure) : event :=
  EvLog (entry "warn" "Kafka fetch unavailable" destination (fl_Topic g) (fl_Partition g) "fetch failed").

(** Failures that lost nothing are logged, up to a cancel. *)
Lemma failures_logged {W : Type} `{Kafka W} (pre l : list Failure) (m : Machine W) :
  Forall (fun g => historyLost g = false) pre -> cn_canceled (cn m) = false ->
  exists logged rest t m1, pre = logged ++ rest /\ trace m1 = trace m ++ t /\ deeds t = map (warn (cn_destination (cn m))) logged /\
    cn_destination (cn m1) = cn_destination (cn m) /\ cn_sources (cn m1) = cn_sources (cn m) /\
    (cn_canceled (cn m1) = true -> EvSection XCancel ∈ t) /\
    (rest = [] /\ failures (pre ++ l) m = failures l m1 \/ cn_canceled (cn m1) = true /\ failures (pre ++ l) m = (true, m1)).
Proof.
  intros Hpre. revert m. induction Hpre as [|g pre Hg Hpre IH]; intros m Hc.
  - exists [], [], [], m. split_and!; try done; [by rewrite app_nil_r|congruence|by left].
  - cbn [app failures]. unfold log_add, note, reading, call, meantime, mbind, act_bind. cbn [cn env trace]. rewrite Hc, Hg.
    destruct (Others (env m)) as [xs w]. pose proof (others_view TRun xs (cn m)) as Ho.
    destruct (run_others TRun xs (cn m)) as [c1 t1]. destruct Ho as (Hd & Hs & Ht & Hx). rewrite <- app_assoc. cbn [app].
    set (e := EvLog _). set (m1 := mkMachine c1 w (trace m ++ e :: t1)).
    destruct (cn_canceled c1) eqn:Hc1.
    + destruct (Hx eq_refl) as [Hf|Hin]; [congruence|]. exists [g], pre, (e :: t1), m1. split_and!; try done; [change (e :: deeds t1 = [e]); by rewrite Ht|intros _; by right|].
      destruct pre as [|g' pre']; [by left|]. right. split; [done|]. cbn [app failures]. unfold reading, mbind, act_bind. cbn [cn m1]. by rewrite Hc1.
    + destruct (IH m1 Hc1) as (logged & rest & t & m2 & -> & Htr & Hde & Hd2 & Hs2 & Hx2 & Hcase). cbn [cn trace m1] in *.
      exists (g :: logged), rest, (e :: t1 ++ t), m2. split_and!; [done|by rewrite Htr, <- app_assoc| |congruence|congruence| |exact Hcase].
      * change (e :: deeds (t1 ++ t) = e :: map (warn (cn_destination (cn m))) logged). rewrite deeds_app, Ht, Hde, Hd. done.
      * intros Hc2. set_solver.
Qed.

(** C31. A poll's failures: each is logged until one shows that Kafka no longer holds
    the history; that one blocks its topic's source, cancels the consumer and
    ends the loop, before any record of the poll is routed.  Only a cancel of
    the consumer by another goroutine, between two failures, ends it earlier. *)
Theorem history_loss_blocks {W : Type} `{Kafka W} (pre post : list Failure) (f : Failure) (m : Machine W) :
  cn_canceled (cn m) = false -> Forall (fun g => historyLost g = false) pre ->
  (let '(returned, m') := failures pre m in exists logged t,
    trace m' = trace m ++ t /\ deeds t = map (warn (cn_destination (cn m))) logged /\
    (returned = false /\ logged = pre \/ returned = true /\ logged `prefix_of` pre /\ EvSection XCancel ∈ t)) /\
  (historyLost f = true -> let '(returned, m') := failures (pre ++ f :: post) m in
   returned = true /\ cn_canceled (cn m') = true /\ exists logged t,
    trace m' = trace m ++ t /\ logged `prefix_of` pre /\
    (deeds t = map (warn (cn_destination (cn m))) logged /\ EvSection XCancel ∈ t \/
     exists t0 xs, t = t0 ++ EvBlock (ID (source_of (fl_Topic f) (cn m))) "Kafka history boundary lost" :: map EvSection xs ++ [EvSection XCancel] /\
       deeds t0 = map (warn (cn_destination (cn m))) pre)).
Proof.
  intros Hc Hpre. split.
  { destruct (failures_logged pre [] m Hpre Hc) as (logged & rest & t & m1 & Hl & Ht & Hd & _ & _ & Hx & Hcase). rewrite app_nil_r in Hcase.
    destruct Hcase as [[-> ->]|[Hc1 ->]]; exists logged, t; (split; [done|]; split; [done|]).
    - left. by rewrite app_nil_r in Hl.
    - right. split; [done|]. split; [by exists rest|auto]. }
  intros Hf. destruct (failures_logged pre (f :: post) m Hpre Hc) as (logged & rest & t & m1 & Hl & Ht & Hd & _ & Hs & Hx & [[-> ->]|[Hc1 ->]]).
  - rewrite app_nil_r in Hl. subst logged. cbn [failures]. unfold Block, reading, note, call, section_, ret, mbind, act_bind. cbn beta iota.
    destruct (cn_canceled (cn m1)) eqn:Hc1.
    { split; [done|]. split; [done|]. exists pre, t. split; [done|]. split; [by exists []; rewrite app_nil_r|]. left. auto. }
    rewrite Hf. cbn beta iota. cbn [cn env trace]. destruct (DispatchBlock _ _ (env m1)) as [u w].
    destruct (Others w) as [xs w']. pose proof (others_events TRun xs (cn m1)) as [ys Hys]. destruct (run_others TRun xs (cn m1)) as [c t1].
    cbn in *. subst t1. split; [done|]. split; [done|]. exists pre. eexists. split; [rewrite Ht, <- !app_assoc; reflexivity|]. split; [done|].
    right. exists t, ys. split; [|done]. unfold source_of. by rewrite Hs.
  - split; [done|]. split; [done|]. exists logged, t. split; [done|]. split; [by exists rest|]. left. auto.
Qed.

(** ** Witnesses

    A scripted world: Kafka holds offsets 0 to 5 of a partition nobody started,
    everything succeeds, and the script says what other goroutines do during
    each call. *)
Module Sim.
Record Script : Type := mkScript { script : list (list section); poll_ : list Failure * list (partitionKey * list KRecord) }.
Definition key : partitionKey := ("orders", 0).
Definition offsets (at_ : Z) : Offsets := {[ key := (at_, None) ]}.

#[export] Instance sim_kafka : Kafka Script := {
  Others w := (default [] (head (script w)), mkScript (tail (script w)) (poll_ w));
  FetchOffsets _ w := (Ok ∅, w);
  ListStartOffsets _ w := (Ok (offsets 0), w);
  ListEndOffsets _ w := (Ok (offsets 5), w);
  CommitRecords _ _ _ w := (Ok tt, w);
  PartitionStarted _ _ _ _ w := (Ok false, w);
  MarkPartitionStarted _ _ _ _ w := (Ok tt, w);
  DispatchAllowed _ w := (true, w);
  DispatchBlock _ _ w := (tt, w);
  DispatchSignal w := (tt, w);
  PollRecords w := (poll_ w, w);
  PauseFetch _ w := (tt, w);
  ResumeFetch _ w := (tt, w);
  AllowRebalance w := (tt, w);
  CloseClient w := (tt, w);
  Choose w := (false, w);
  Wait w := (tt, w) }.

Definition consumer : Consumer :=
  match NewConsumer (mkScope "acme" "production" 1) "billing" {[ "orders" := mkSource "orders" "" "orders" [] "" "" ]} (fun _ _ => Ok tt) with
  | Ok c => run_section (XAssign [key]) c
  | Err _ => mkConsumer (mkScope "" "" 1) "" ∅ false false ∅ ∅ false
  end.
Definition record : KRecord := mkKRecord "orders" 0 3 1 "k" "v".
(** A first batch is committed; a revocation comes together with a second one,
    which the worker still receives but can no longer commit. *)
Definition busy : list (list section) :=
  replicate 8 [] ++ [[XRoute 0 [record]]] ++ replicate 4 [] ++
  [[XRoute 0 [mkKRecord "orders" 0 4 1 "k" "v"]; XStop None; XDisown 0]].
Definition machine : Machine Script := mkMachine consumer (mkScript busy ([], [])) [].
Definition process (h : nat) (r : RawRecord) (commit : CommitFunc (W := Script)) : Act (Machine Script) (option (result error unit)) :=
  r ← (commit r : Act (Machine Script) (result error unit)); ret (Some r).
End Sim.
#[export] Existing Instance Sim.sim_kafka.

Lemma sim_confined : confined Sim.process.
Proof. intros P h r commit _ _ Hc. apply (triple_bind _ _ (fun _ => P)); [apply Hc|by intros res m]. Qed.

Definition is_commit (e : event) : bool := match e with EvCommit _ _ _ _ => true | _ => false end.

Definition ex_done : Machine Sim.Script := (run Sim.process 20 0 Sim.machine).2.

Example sim_trace : map (fun e => match e with EvCommit _ _ o _ => Some o | _ => None end) (List.filter is_commit (trace ex_done)) =
  [Some (-1); Some 3] /\ handed 0 (trace ex_done) = [Sim.record; mkKRecord "orders" 0 4 1 "k" "v"].
Proof. vm_compute. done. Qed.

Lemma ownership_fence_witness :
  existsb is_commit (trace ex_done) = true /\ fenced 0 "orders" (trace ex_done).
Proof.
  split; [vm_compute; reflexivity|].
  apply (ownership_fence Sim.process 20 0 Sim.machine (mkPartitionWorker Sim.key false [] 0 false true false false));
    [apply sim_confined|reflexivity..].
Defined.

Lemma worker_protocol_witness : is_Some (accepts 0 Sim.key "orders" (trace ex_done)).
Proof.
  apply (worker_protocol Sim.process 20 0 Sim.machine (mkPartitionWorker Sim.key false [] 0 false true false false));
    [apply sim_confined|reflexivity..].
Defined.

Lemma partition_order_witness : handed 0 (trace ex_done) `prefix_of` routed 0 (trace ex_done).
Proof.
  apply (partition_order Sim.process 20 0 Sim.machine (mkPartitionWorker Sim.key false [] 0 false true false false));
    [apply sim_confined|reflexivity..].
Defined.

(** The worker returns while the revocation waits for it. *)
Definition ex_revoking : Machine Sim.Script := mkMachine Sim.consumer (Sim.mkScript [[]; [XDone 0]] ([], [])) [].

Lemma revocation_waits_witness :
  (stopWorkers 5 TGroup (Some [Sim.key]) ex_revoking).1 = true /\
  exists w, cn_pool (cn (stopWorkers 5 TGroup (Some [Sim.key]) ex_revoking).2) !! 0%nat = Some w /\ pw_owned w = false.
Proof.
  split; [vm_compute; reflexivity|].
  destruct (revocation_waits 5 TGroup (Some [Sim.key]) ex_revoking (stopWorkers 5 TGroup (Some [Sim.key]) ex_revoking).2 Sim.key 0)
    as (w & Hw & _ & Ho & _); [reflexivity|reflexivity|by eexists|vm_compute; reflexivity|]. exists w. split; [exact Hw|exact Ho].
Defined.

Lemma history_loss_blocks_witness :
  (failures [mkFailure "orders" 0 false false; mkFailure "orders" 0 true false] Sim.machine).1 = true.
Proof.
  assert (Forall (fun g => historyLost g = false) [mkFailure "orders" 0 false false]) as Hpre by (repeat constructor).
  pose proof (history_loss_blocks [mkFailure "orders" 0 false false] [] (mkFailure "orders" 0 true false) Sim.machine eq_refl Hpre) as Hb. apply proj2 in Hb. specialize (Hb eq_refl).
  cbn [app] in Hb. destruct (failures _ Sim.machine). exact (proj1 Hb).
Defined.
