(* ===== verification/Polling.v ===== *)
(** * Polling: from the Kafka client to the partition workers

    What the poll loop of [Consumer] does with what it polls.  [Consumer] and
    [Wiring] begin with the batches routed to a worker; here they are shown to
    be a block of what was polled for the worker's partition, whatever the
    workers and the group callbacks do between any two steps of the loop. *)

From S2P Require Import Prelude Strconv JsonCodec GoFmt GoTime Stream Activity Delivery Act Consumer.
Local Open Scope Z_scope.

(** The records of a partition among those of a poll, and in all polls. *)
Definition pend (key : partitionKey) (parts : list (partitionKey * list KRecord)) : list KRecord :=
  mjoin (map (fun '(k, rs) => if decide (k = key) then rs else []) parts).

Definition polled (key : partitionKey) (t : list event) : list KRecord :=
  mjoin (map (fun e => match e with EvPolled parts => pend key parts | _ => [] end) t).

Lemma polled_snoc (key : partitionKey) (t : list event) (e : event) :
  polled key (t ++ [e]) = polled key t ++ match e with EvPolled parts => pend key parts | _ => [] end.
Proof. unfold polled. rewrite map_app, join_app. cbn. by rewrite app_nil_r. Qed.

Lemma pend_cons (key k : partitionKey) (rs : list KRecord) (parts : list (partitionKey * list KRecord)) :
  pend key ((k, rs) :: parts) = (if decide (k = key) then rs else []) ++ pend key parts.
Proof. done. Qed.

(** ** How the consumer evolves *)

(** Every current worker is in the pool under its own key. *)
Definition registered_ok (c : Consumer) : Prop :=
  forall key h, cn_workers c !! key = Some h -> exists w, cn_pool c !! h = Some w /\ pw_key w = key.

(** No section forgets a worker or its end, or makes an old one current again. *)
Record evolves (c c' : Consumer) : Prop := mkEvolves {
  ev_pool : forall h w, cn_pool c !! h = Some w -> exists w', cn_pool c' !! h = Some w' /\ pw_key w' = pw_key w /\
    (pw_canceled w = true -> pw_canceled w' = true);
  ev_canceled : cn_canceled c = true -> cn_canceled c' = true;
  ev_workers : forall key h, cn_workers c' !! key = Some h -> cn_workers c !! key = Some h \/ cn_pool c !! h = None;
  ev_ok : registered_ok c -> registered_ok c' }.

#[export] Instance evolves_preorder : PreOrder evolves.
Proof.
  split; [intros c; split; eauto|]. intros c1 c2 c3 [A1 B1 C1 D1] [A2 B2 C2 D2]. split; auto.
  - intros h w Hw. destruct (A1 h w Hw) as (w2 & Hw2 & Hk & Hc). destruct (A2 h w2 Hw2) as (w3 & Hw3 & Hk' & Hc').
    exists w3. split; [done|]. split; [congruence|auto].
  - intros key h [Hk|Hn]%C2; [by apply C1|right]. destruct (cn_pool c1 !! h) as [w|] eqn:Hw; [|done].
    destruct (A1 h w Hw) as (w' & Hw' & _). congruence.
Qed.

Lemma evolves_pool (c : Consumer) (f : partitionWorker -> partitionWorker) (h : nat) :
  (forall w, pw_key (f w) = pw_key w /\ (pw_canceled w = true -> pw_canceled (f w) = true)) -> evolves c (upd h f c).
Proof.
  intros Hf. assert (forall k w, cn_pool c !! k = Some w -> exists w', cn_pool (upd h f c) !! k = Some w' /\ pw_key w' = pw_key w /\
    (pw_canceled w = true -> pw_canceled w' = true)) as Hpool.
  { intros k w Hw. rewrite pool_upd, Hw. case_decide; cbn; eexists; (split; [done|]); [apply Hf|done]. }
  split; [done|done|by left|]. intros Hok key k Hk. destruct (Hok key k Hk) as (w & Hw & <-).
  destruct (Hpool k w Hw) as (w' & Hw' & Hkey & _). by exists w'.
Qed.

Lemma evolves_add (c : Consumer) (key : partitionKey) : evolves c (add_worker c key).
Proof.
  unfold add_worker. destruct (cn_workers c !! key) as [k|] eqn:Hkey; [done|].
  assert (cn_pool c !! fresh (dom (cn_pool c)) = None) as Hn by (apply not_elem_of_dom, is_fresh).
  set (h := fresh _) in *. split; cbn; [|done| |].
  - intros k w Hw. exists w. rewrite lookup_insert_ne by congruence. done.
  - intros k h' [[<- <-]|[_ Hk]]%lookup_insert_Some; [by right|by left].
  - intros Hok k h' Hk. cbn in Hk. apply lookup_insert_Some in Hk as [[<- <-]|[_ Hk]].
    + cbn. eexists. rewrite lookup_insert_eq. done.
    + destruct (Hok k h' Hk) as (w & Hw & Hkw). cbn. exists w. rewrite lookup_insert_ne by congruence. done.
Qed.

Lemma section_evolves (x : section) (c : Consumer) : evolves c (run_section x c).
Proof.
  destruct x as [|parts|h|parts| |h rs| |h|h|h|h z|h|h|h]; cbn [run_section];
    try (apply evolves_pool; by intros w); try (split; eauto; fail).
  - split; cbn; [|done| |].
    + intros h w Hw. destruct (cancel_all_lookup (removed parts c) (cn_pool c) h) as (b & Heq & _). rewrite Heq, Hw.
      destruct b; by eexists.
    + intros key h [Hk _]%map_lookup_filter_Some. by left.
    + intros Hok key h Hk. cbn in Hk. apply map_lookup_filter_Some in Hk as [Hk _]. destruct (Hok key h Hk) as (w & Hw & Hkw).
      cbn. destruct (cancel_all_lookup (removed parts c) (cn_pool c) h) as (b & Heq & _). rewrite Heq, Hw.
      destruct b; by eexists.
  - assert (evolves c (set_assigned c true)) as H1 by (split; eauto). etransitivity; [exact H1|]. generalize (set_assigned c true) as d.
    induction parts as [|p parts IH]; intros d; cbn; [done|]. etransitivity; [apply evolves_add|apply IH].
Qed.

(** ** What has been dealt out

    A worker that may still be given records; what it was given is a block of
    its partition's polled records, and ends where [pf], what is still to be
    dealt, begins — for all workers but [but]. *)
Definition alive (h : nat) (c : Consumer) : Prop := (exists key, cn_workers c !! key = Some h) /\ ctx_done h c = false.

Record dealt (pf : partitionKey -> list KRecord) (but : option nat) (c : Consumer) (t : list event) : Prop := mkDealt {
  dl_ok : registered_ok c;
  dl_rest : forall key, exists a, polled key t = a ++ pf key;
  dl_fresh : forall h, cn_pool c !! h = None -> routed h t = [];
  dl_block : forall h w, cn_pool c !! h = Some w -> but <> Some h ->
    exists a b, polled (pw_key w) t = a ++ routed h t ++ b /\ (alive h c -> b = pf (pw_key w)) }.

(** [h] was given all of its partition's records but [rs]. *)
Definition owed (h : nat) (key : partitionKey) (rs : list KRecord) (c : Consumer) (t : list event) : Prop :=
  exists w a, cn_pool c !! h = Some w /\ pw_key w = key /\ polled key t = a ++ routed h t ++ rs.

(** Events that neither poll nor route. *)
Definition silent (t t' : list event) : Prop :=
  (forall key, polled key t' = polled key t) /\ (forall h, routed h t' = routed h t).

Definition is_silent (e : event) : bool := match e with EvPolled _ | EvSection (XRoute _ _) => false | _ => true end.

Lemma silent_snoc (t : list event) (e : event) : is_silent e = true -> silent t (t ++ [e]).
Proof.
  intros He. split; intros k; rewrite ?polled_snoc, ?routed_snoc; destruct e as [[]| | | | | | | | | | | | |]; try done; apply app_nil_r.
Qed.

Lemma silent_refl (t : list event) : silent t t.
Proof. done. Qed.

Lemma silent_trans (t1 t2 t3 : list event) : silent t1 t2 -> silent t2 t3 -> silent t1 t3.
Proof. intros [A1 B1] [A2 B2]. split; intros k; [by rewrite A2|by rewrite B2]. Qed.

Lemma alive_back (c c' : Consumer) (h : nat) (w : partitionWorker) :
  evolves c c' -> cn_pool c !! h = Some w -> alive h c' -> alive h c.
Proof.
  intros [Hpool Hcan Hwork _] Hw [[key Hk] Hd]. destruct (Hpool h w Hw) as (w' & Hw' & _ & Hc). split.
  - apply Hwork in Hk as [Hk|Hn]; [by exists key|congruence].
  - unfold ctx_done in *. rewrite Hw. rewrite Hw' in Hd. cbn in *. apply orb_false_iff in Hd as [H1 H2]. apply orb_false_iff. split.
    + destruct (cn_canceled c); [|done]. by rewrite Hcan in H1.
    + destruct (pw_canceled w); [|done]. by rewrite Hc in H2.
Qed.

Lemma dealt_evolves (pf : partitionKey -> list KRecord) (but : option nat) (c c' : Consumer) (t t' : list event) :
  evolves c c' -> silent t t' -> dealt pf but c t -> dealt pf but c' t'.
Proof.
  intros Hev [Hp Hr] [Hok Hrest Hfresh Hblock]. split.
  - by apply (ev_ok _ _ Hev).
  - intros key. rewrite Hp. apply Hrest.
  - intros h Hn. rewrite Hr. apply Hfresh. destruct (cn_pool c !! h) as [w|] eqn:Hw; [|done].
    destruct (ev_pool _ _ Hev h w Hw) as (w' & Hw' & _). congruence.
  - intros h w' Hw' Hb. rewrite Hp, Hr. destruct (cn_pool c !! h) as [w|] eqn:Hw.
    + destruct (ev_pool _ _ Hev h w Hw) as (w'' & Hw'' & Hk & _). rewrite Hw' in Hw''. injection Hw'' as <-. rewrite Hk.
      destruct (Hblock h w Hw Hb) as (a & b & Heq & Ha). exists a, b. split; [done|]. intros Hal. by apply Ha, (alive_back c c' h w).
    + rewrite (Hfresh h Hw). destruct (Hrest (pw_key w')) as [a Ha]. by exists a, (pf (pw_key w')).
Qed.

Lemma owed_evolves (h : nat) (key : partitionKey) (rs : list KRecord) (c c' : Consumer) (t t' : list event) :
  evolves c c' -> silent t t' -> owed h key rs c t -> owed h key rs c' t'.
Proof.
  intros Hev [Hp Hr] (w & a & Hw & Hk & Heq). destruct (ev_pool _ _ Hev h w Hw) as (w' & Hw' & Hk' & _).
  exists w', a. rewrite Hp, Hr. split; [done|]. split; [congruence|done].
Qed.

(** ** The steps of dealing *)

(** A poll is all still to be dealt. *)
Lemma dealt_poll (c : Consumer) (t : list event) (parts : list (partitionKey * list KRecord)) :
  dealt (fun _ => []) None c t -> dealt (fun key => pend key parts) None c (t ++ [EvPolled parts]).
Proof.
  intros [Hok Hrest Hfresh Hblock].
  assert (forall h, routed h (t ++ [EvPolled parts]) = routed h t) as Hr by (intros h; by rewrite routed_snoc, app_nil_r).
  split; [done| | |].
  - intros key. rewrite polled_snoc. by eexists.
  - intros h. rewrite Hr. apply Hfresh.
  - intros h w Hw Hb. rewrite polled_snoc, Hr. destruct (Hblock h w Hw Hb) as (a & b & Heq & Ha).
    exists a, (b ++ pend (pw_key w) parts). rewrite Heq, <- !app_assoc. split; [done|]. intros Hal. by rewrite (Ha Hal).
Qed.

(** The next part goes to no one alive: it is passed over. *)
Lemma dealt_drop (c : Consumer) (t : list event) (key : partitionKey) (rs : list KRecord) (parts : list (partitionKey * list KRecord)) :
  (rs <> [] -> forall h, cn_workers c !! key = Some h -> ctx_done h c = true) ->
  dealt (fun k => pend k ((key, rs) :: parts)) None c t -> dealt (fun k => pend k parts) None c t.
Proof.
  intros Hno [Hok Hrest Hfresh Hblock]. split; [done| |done|].
  - intros k. destruct (Hrest k) as [a ->]. rewrite pend_cons, app_assoc. by eexists.
  - intros h w Hw Hb. destruct (Hblock h w Hw Hb) as (a & b & Heq & Ha). exists a, b. split; [done|]. intros Hal. rewrite (Ha Hal), pend_cons.
    case_decide as Hk; [|done]. destruct rs as [|r rs]; [done|]. destruct Hal as [[k Hkk] Hd]. exfalso.
    destruct (Hok k h Hkk) as (w' & Hw' & <-). rewrite Hw in Hw'. injection Hw' as <-. subst key. rewrite (Hno ltac:(done) h Hkk) in Hd. done.
Qed.

(** It goes to the current worker, which is then owed it. *)
Lemma dealt_current (c : Consumer) (t : list event) (key : partitionKey) (rs : list KRecord) (parts : list (partitionKey * list KRecord)) (h : nat) :
  cn_workers c !! key = Some h -> ctx_done h c = false ->
  dealt (fun k => pend k ((key, rs) :: parts)) None c t ->
  dealt (fun k => pend k parts) (Some h) c t /\ owed h key (rs ++ pend key parts) c t.
Proof.
  intros Hh Hd [Hok Hrest Hfresh Hblock]. split.
  - split; [done| |done|].
    + intros k. destruct (Hrest k) as [a ->]. rewrite pend_cons, app_assoc. by eexists.
    + intros k w Hw Hb. destruct (Hblock k w Hw ltac:(done)) as (a & b & Heq & Ha). exists a, b. split; [done|]. intros Hal. rewrite (Ha Hal), pend_cons.
      case_decide as Hk; [|done]. destruct Hal as [[k' Hkk] _]. destruct (Hok k' k Hkk) as (w' & Hw' & <-). rewrite Hw in Hw'. injection Hw' as <-.
      rewrite <- Hk, Hh in Hkk. congruence.
  - destruct (Hok key h Hh) as (w & Hw & Hk). destruct (Hblock h w Hw ltac:(done)) as (a & b & Heq & Ha). exists w, a. split; [done|]. split; [done|].
    rewrite Hk in *. rewrite Heq, Ha; [|by split; [exists key|]]. by rewrite pend_cons, decide_True.
Qed.

(** The worker is given what it is owed, or is told to stop first. *)
Lemma dealt_route (c : Consumer) (t : list event) (pf : partitionKey -> list KRecord) (key : partitionKey) (rs : list KRecord) (h : nat) :
  dealt pf (Some h) c t -> owed h key (rs ++ pf key) c t ->
  dealt pf None (run_section (XRoute h rs) c) (t ++ [EvSection (XRoute h rs)]).
Proof.
  intros Hdealt (w & a & Hw & Hk & Heq).
  assert (dealt pf None c (t ++ [EvSection (XRoute h rs)])) as Hd; [|by eapply dealt_evolves; [apply section_evolves|apply silent_refl|]].
  destruct Hdealt as [Hok Hrest Hfresh Hblock].
  assert (forall k, polled k (t ++ [EvSection (XRoute h rs)]) = polled k t) as Hp by (intros k; by rewrite polled_snoc, app_nil_r).
  split; [done| | |].
  - intros k. rewrite Hp. apply Hrest.
  - intros k Hn. rewrite routed_snoc, Hfresh by done. rewrite decide_False; [done|]. congruence.
  - intros k w' Hw' _. rewrite Hp, routed_snoc. destruct (decide (h = k)) as [<-|Hne].
    + rewrite Hw in Hw'. injection Hw' as <-. exists a, (pf key). rewrite Hk, Heq, <- app_assoc. done.
    + rewrite app_nil_r. apply (Hblock k w' Hw'). congruence.
Qed.

Lemma dealt_over (c : Consumer) (t : list event) (pf : partitionKey -> list KRecord) (key : partitionKey) (rs : list KRecord) (h : nat) :
  ctx_done h c = true -> dealt pf (Some h) c t -> owed h key rs c t -> dealt pf None c t.
Proof.
  intros Hover [Hok Hrest Hfresh Hblock] (w & a & Hw & Hk & Heq). split; try done. intros k w' Hw' _. destruct (decide (k = h)) as [->|Hne].
  - rewrite Hw in Hw'. injection Hw' as <-. exists a, rs. rewrite Hk. split; [done|]. intros [_ Hd]. congruence.
  - apply (Hblock k w' Hw'). congruence.
Qed.

(** ** The poll loop *)
Section Poll.
Context {W : Type} `{Kafka W}.
Abbreviation M := (Machine W).

(** Assertions of the loop: kept when the consumer evolves in silence. *)
Definition of_machine (J : Consumer -> list event -> Prop) (m : M) : Prop := J (cn m) (trace m).
Definition lasts (J : Consumer -> list event -> Prop) : Prop := forall c c' t t', evolves c c' -> silent t t' -> J c t -> J c' t'.
Abbreviation Dealt pf := (of_machine (dealt pf None)).

Lemma others_last (J : Consumer -> list event -> Prop) (xs : list section) (c : Consumer) (t : list event) : lasts J -> J c t ->
  let '(c', ys) := run_others TRun xs c in J c' (t ++ ys).
Proof.
  intros HJ Hc. unfold run_others. assert (forall xs c ys, J c (t ++ ys) ->
    let '(c', ys') := foldl (fun '(c, t) x => if enabled TRun x c then (run_section x c, t ++ [EvSection x]) else (c, t)) (c, ys) xs in J c' (t ++ ys')) as Hgen.
  { induction xs0 as [|x xs0 IH]; intros d ys Hd; [done|]. cbn [foldl]. destruct (enabled TRun x d) eqn:Hen; [|by apply IH].
    apply IH. rewrite app_assoc. eapply HJ; [apply section_evolves| |exact Hd]. apply silent_snoc. by destruct x. }
  apply Hgen. by rewrite app_nil_r.
Qed.

Lemma lasts_call {A : Type} (J : Consumer -> list event -> Prop) (f : Act W A) : lasts J ->
  triple (of_machine J) (call TRun f) (fun _ => of_machine J).
Proof.
  intros HJ m Hm. unfold call. destruct (f (env m)) as [a w]. destruct (Others w) as [xs w'].
  pose proof (others_last J xs (cn m) (trace m) HJ Hm) as Ho. by destruct (run_others TRun xs (cn m)).
Qed.

Lemma lasts_section (J : Consumer -> list event -> Prop) (x : section) : lasts J -> is_silent (EvSection x) = true ->
  triple (of_machine J) (section_ x) (fun _ => of_machine J).
Proof. intros HJ Hx m Hm. eapply HJ; [apply section_evolves|by apply silent_snoc|exact Hm]. Qed.

Lemma lasts_note (J : Consumer -> list event -> Prop) (e : event) : lasts J -> is_silent e = true ->
  triple (of_machine J) (note e) (fun _ => of_machine J).
Proof. intros HJ He m Hm. eapply HJ; [reflexivity|by apply silent_snoc|exact Hm]. Qed.

Lemma lasts_reading {A : Type} (J : Consumer -> list event -> Prop) (f : Consumer -> A) :
  triple (of_machine J) (reading f) (fun _ => of_machine J).
Proof. by intros m. Qed.

Lemma lasts_ret {A : Type} (J : Consumer -> list event -> Prop) (a : A) : triple (of_machine J) (ret a) (fun _ => of_machine J).
Proof. by intros m. Qed.

Ltac quietly := repeat first [ done | apply lasts_reading | apply lasts_ret | match goal with
  | |- triple _ (mbind _ _) _ => apply kept_bind; [|intros ?]
  | |- triple _ (section_ _) _ => by apply lasts_section
  | |- triple _ (note _) _ => by apply lasts_note
  | |- triple _ (call _ _) _ => by apply lasts_call
  end | case_match ].

Lemma lasts_failures (J : Consumer -> list event -> Prop) (l : list Failure) : lasts J ->
  triple (of_machine J) (failures l) (fun _ => of_machine J).
Proof. intros HJ. induction l as [|f l IH]; cbn [failures]; unfold Block, log_add; quietly. Qed.

Lemma lasts_wait (J : Consumer -> list event -> Prop) (fuel : nat) (p : Consumer -> bool) : lasts J ->
  triple (of_machine J) (wait_until fuel TRun p) (fun _ => of_machine J).
Proof. intros HJ. induction fuel as [|fuel IH]; cbn [wait_until]; quietly. Qed.

Lemma lasts_stop (J : Consumer -> list event -> Prop) (fuel : nat) (parts : option (list partitionKey)) : lasts J ->
  triple (of_machine J) (stopWorkers fuel TRun parts) (fun _ => of_machine J).
Proof.
  intros HJ. pose proof (fun p => lasts_wait J fuel p HJ) as Hwait. unfold stopWorkers. apply kept_bind; [apply lasts_reading|]. intros hs.
  apply kept_bind; [by apply lasts_section|]. intros _. induction hs as [|h hs IH]; cbn [disown_all]; quietly.
Qed.

(** Every worker was given a block of what was polled. *)
Definition sound_block (c : Consumer) (t : list event) : Prop :=
  exists pf but, dealt pf but c t /\ forall h, but = Some h -> exists key rs, owed h key rs c t.

Lemma sound_lasts : lasts sound_block.
Proof.
  intros c c' t t' He Hs (pf & but & Hd & Ho). exists pf, but. split; [by eapply dealt_evolves|]. intros h Hh.
  destruct (Ho h Hh) as (key & rs & Hk). exists key, rs. by eapply owed_evolves.
Qed.

Lemma dealt_lasts (pf : partitionKey -> list KRecord) : lasts (dealt pf None).
Proof. intros c c' t t'. apply dealt_evolves. Qed.

Lemma dealt_sound (pf : partitionKey -> list KRecord) (m : M) : of_machine (dealt pf None) m -> of_machine sound_block m.
Proof. intros Hm. by exists pf, None. Qed.

(** A batch on its way to a worker. *)
Definition sending (pf : partitionKey -> list KRecord) (key : partitionKey) (rs : list KRecord) (h : nat) (c : Consumer) (t : list event) : Prop :=
  dealt pf (Some h) c t /\ owed h key (rs ++ pf key) c t.

Lemma sending_lasts (pf : partitionKey -> list KRecord) (key : partitionKey) (rs : list KRecord) (h : nat) : lasts (sending pf key rs h).
Proof. intros c c' t t' He Hs [Hd Ho]. split; [by eapply dealt_evolves|by eapply owed_evolves]. Qed.

Lemma sending_sound (pf : partitionKey -> list KRecord) (key : partitionKey) (rs : list KRecord) (h : nat) (m : M) :
  of_machine (sending pf key rs h) m -> of_machine sound_block m.
Proof. intros [Hd Ho]. exists pf, (Some h). split; [done|]. intros k [= <-]. by exists key, (rs ++ pf key). Qed.

(** Dealt, or cut short. *)
Definition dealt_if (pf : partitionKey -> list KRecord) (b : bool) : M -> Prop :=
  if b then of_machine (dealt pf None) else of_machine sound_block.

Lemma send_deals (pf : partitionKey -> list KRecord) (key : partitionKey) (rs : list KRecord) (h : nat) (fuel : nat) :
  triple (of_machine (sending pf key rs h)) (send fuel h rs) (dealt_if pf).
Proof.
  assert (triple (of_machine (sending pf key rs h)) (_ ← section_ (XRoute h rs); ret true) (dealt_if pf)) as Hroute.
  { apply (triple_bind _ _ (fun _ => of_machine (dealt pf None))); [|by intros [] m]. intros m [Hd Ho]. by eapply dealt_route. }
  induction fuel as [|fuel IH]; cbn [send]; [intros m; apply sending_sound|].
  eapply triple_bind; [apply lasts_call, sending_lasts|]. intros first.
  apply (triple_bind _ _ (fun b m => of_machine (sending pf key rs h) m /\ b = ctx_done h (cn m))); [by intros m|]. intros over.
  apply (triple_bind _ _ (fun _ m => of_machine (sending pf key rs h) m /\ over = ctx_done h (cn m))); [by intros m|].
  assert (forall m : M, of_machine (sending pf key rs h) m /\ over = ctx_done h (cn m) -> over = true -> of_machine (dealt pf None) m) as Hover.
  { intros m [[Hd Ho] He] ->. by eapply dealt_over. }
  intros [|b bs]; [destruct (over && first) eqn:Hb|destruct over].
  - intros m Hm. apply Hover; [done|]. by apply andb_prop in Hb as [-> _].
  - intros m [Hm _]. by apply Hroute.
  - intros m Hm. by apply Hover.
  - apply (triple_pre (of_machine (sending pf key rs h))); [by intros m []|].
    eapply triple_bind; [apply lasts_call, sending_lasts|]. intros []. apply IH.
Qed.

Lemma route_deals (fuel : nat) (parts : list (partitionKey * list KRecord)) :
  triple (Dealt (fun key => pend key parts)) (route fuel parts) (dealt_if (fun _ => [])).
Proof.
  induction parts as [|[key rs] parts IH]; cbn [route]; [by intros m|].
  set (current := fun c => match cn_workers c !! key with Some h => if ctx_done h c then None else Some h | None => None end).
  apply (triple_bind _ _ (fun w m => Dealt (fun k => pend k ((key, rs) :: parts)) m /\ w = current (cn m))); [by intros m|]. intros w.
  assert (rs = [] \/ w = None -> triple (fun m => Dealt (fun k => pend k ((key, rs) :: parts)) m /\ w = current (cn m)) (route fuel parts) (dealt_if (fun _ => []))) as Hpass.
  { intros Hno. apply (triple_pre (Dealt (fun key => pend key parts))); [|exact IH]. intros m [Hd Hw]. eapply dealt_drop; [|exact Hd].
    intros Hrs h Hh. destruct Hno as [|Hno]; [done|]. rewrite Hno in Hw. unfold current in Hw. rewrite Hh in Hw. by destruct (ctx_done h (cn m)). }
  destruct rs as [|r rs]; [apply Hpass; by left|]. destruct w as [h|]; [|apply Hpass; by right].
  apply (triple_pre (of_machine (sending (fun k => pend k parts) key (r :: rs) h))).
  { intros m [Hd Hw]. unfold current in Hw. destruct (cn_workers (cn m) !! key) as [k|] eqn:Hk; [|done].
    destruct (ctx_done k (cn m)) eqn:Hdone; [done|]. injection Hw as <-. by apply dealt_current. }
  eapply triple_bind; [apply lasts_call, sending_lasts|]. intros []. eapply triple_bind; [apply send_deals|].
  intros []; [exact IH|by intros m].
Qed.

Lemma poll_deals (fuel : nat) : triple (Dealt (fun _ => [])) (poll fuel) (fun _ => of_machine sound_block).
Proof.
  induction fuel as [|fuel IH]; cbn [poll]; [intros m; apply dealt_sound|].
  eapply triple_bind; [apply lasts_reading|]. intros []; [intros m; apply dealt_sound|].
  eapply triple_bind; [apply lasts_call, dealt_lasts|]. intros [errors parts].
  apply (triple_bind _ _ (fun _ => Dealt (fun key => pend key parts))); [intros m; apply dealt_poll|]. intros [].
  eapply triple_bind; [apply lasts_failures, dealt_lasts|]. intros []; [intros m; apply dealt_sound|].
  eapply triple_bind; [apply route_deals|]. intros []; [|by intros m].
  eapply triple_bind; [apply lasts_call, dealt_lasts|]. intros []. apply IH.
Qed.

Lemma run_deals (fuel : nat) : triple (Dealt (fun _ => [])) (Run fuel) (fun _ => of_machine sound_block).
Proof.
  unfold Run. eapply triple_bind; [apply poll_deals|]. pose proof sound_lasts as Hl. intros [|]; [|by intros m].
  apply kept_bind; [by apply lasts_call|]. intros []. apply kept_bind; [by apply lasts_stop|]. intros [|]; [|by intros m]. quietly.
Qed.
End Poll.

(** C20. Records reach a worker in the order of the log, without a gap: what the
    poll loop of a new consumer routes to a worker is a contiguous block of the
    records polled for the worker's partition, in the order of the polls,
    whatever is assigned, revoked, canceled or processed meanwhile. *)
Theorem poll_order {W : Type} `{Kafka W} (fuel : nat) (scope : Scope) (destination : string) (sources : gmap string Source)
  (client : string -> list string -> result error unit) (m : Machine W) (h : nat) (w : partitionWorker) :
  NewConsumer scope destination sources client = Ok (cn m) -> trace m = [] ->
  let m' := (Run fuel m).2 in
  cn_pool (cn m') !! h = Some w ->
  exists before after, polled (pw_key w) (trace m') = before ++ routed h (trace m') ++ after.
Proof.
  intros Hnew Ht m' Hw. assert (dealt (fun _ => []) None (cn m) (trace m)) as Hd.
  { unfold NewConsumer in Hnew. apply bind_Ok in Hnew as ([] & _ & [= <-]). rewrite Ht. split; cbn.
    - intros key k Hk. cbn in Hk. by rewrite lookup_empty in Hk.
    - intros key. by exists [].
    - done.
    - intros k x Hk. cbn in Hk. by rewrite lookup_empty in Hk. }
  destruct (run_deals fuel m Hd) as (pf & but & [_ _ _ Hblock] & Ho). fold m' in Hblock, Ho. destruct (decide (but = Some h)) as [->|Hne].
  - destruct (Ho h eq_refl) as (key & rs & x & a & Hx & <- & Heq). rewrite Hw in Hx. injection Hx as <-. by exists a, rs.
  - destruct (Hblock h w Hw Hne) as (a & b & Heq & _). by exists a, b.
Qed.

(** ** Witness: a partition is assigned during the first poll; the worker takes
    its batch while the second is on its way, and is revoked. *)
Module PollSim.
Import Consumer.Sim.
Definition client (group : string) (topics : list string) : result error unit := Ok tt.
Definition sources : gmap string Source := {[ "orders" := mkSource "orders" "" "orders" [] "" "" ]}.
Definition fresh_consumer : Consumer :=
  match NewConsumer (mkScope "acme" "production" 1) "billing" sources client with
  | Ok c => c
  | Err _ => mkConsumer (mkScope "" "" 1) "" ∅ false false ∅ ∅ false
  end.
Definition polling : Machine Script :=
  mkMachine fresh_consumer (mkScript [[XAssign [key]]; []; []; []; []; []; [XTake 0]; []; []; []; [XStop None]] ([], [(key, [record])])) [].
Definition final : Machine Script := (Run 4 polling).2.
End PollSim.

Lemma poll_order_witness : length (routed 0 (trace PollSim.final)) = 2%nat /\ length (polled Consumer.Sim.key (trace PollSim.final)) = 4%nat /\
  exists before after, polled Consumer.Sim.key (trace PollSim.final) = before ++ routed 0 (trace PollSim.final) ++ after.
Proof.
  split; [vm_compute; reflexivity|]. split; [vm_compute; reflexivity|].
  destruct (cn_pool (cn PollSim.final) !! 0%nat) as [w|] eqn:Hw; [|vm_compute in Hw; discriminate Hw].
  assert (pw_key w = Consumer.Sim.key) as <- by (vm_compute in Hw; injection Hw as <-; reflexivity).
  apply (poll_order 4 (mkScope "acme" "production" 1) "billing" PollSim.sources PollSim.client PollSim.polling 0 w); [reflexivity|reflexivity|exact Hw].
Defined.
