(* ===== verification/Config.v ===== *)
(** * Config: application and engine configuration

    Models [internal/config/config.go], [validate.go] and [load.go]: the
    validation rules, the defaults, the expansion of [${NAME}] references over
    the parsed document, and the operator token.  Reading the file and the
    YAML parser and decoder are outside: a document is the tree they give. *)

From S2P Require Import Prelude Strconv Stream.
From stdpp Require Import sorting.
Local Open Scope Z_scope.

(** ** Data *)
Record ConfigFilter : Type := mkConfigFilter { cf_Column : string; cf_Values : list string }.

Record ConfigSource : Type := mkConfigSource {
  cs_ID : string;
  cs_Description : string;
  cs_Type : string;
  cs_Host : string;
  cs_Port : Z;
  cs_Username : string;
  cs_Password : string;
  cs_Database : string;
  cs_Table : string;
  cs_Columns : list string;
  cs_SerialColumn : string;
  cs_PartitioningColumn : string }.

Record ConfigDestination : Type := mkConfigDestination {
  cd_ID : string;
  cd_Description : string;
  cd_Type : string;
  cd_Endpoint : string;
  cd_Username : string;
  cd_Password : string;
  cd_Sources : list string;
  cd_Filter : option ConfigFilter }.

Record Application : Type := mkApplication {
  app_Sources : list ConfigSource; app_Destinations : list ConfigDestination }.

Definition SourcePostgres : string := "postgres".
Definition DestinationHTTPPush : string := "http-push".

(** Durations are nanoseconds. *)
Record Engine : Type := mkEngine {
  en_Version : Z;
  en_Namespace : string;
  en_Environment : string;
  en_ApplicationConfig : string;
  en_Brokers : list string;
  en_Partitions : Z;                    (* int32 *)
  en_ReplicationFactor : Z;             (* int16 *)
  en_ConnectURL : string;
  en_Listen : string;
  en_TokenFile : string;
  en_DatabaseURL : string;
  en_RequestTimeout : Z;
  en_DrainTimeout : Z;
  en_Publications : list (string * string) }.

(** ** Application validation *)
Definition validateSource (s : ConfigSource) : result error unit :=
  _ ← reject_if (negb (str_eqb (cs_Type s) SourcePostgres))
        (Errorf "source %q: unsupported type %q; v1 supports postgres" [cs_ID s; cs_Type s]);
  _ ← reject_if (str_eqb (cs_Host s) "" || (cs_Port s <? 1) || str_eqb (cs_Username s) "" ||
                 str_eqb (cs_Database s) "" || str_eqb (cs_Table s) "")
        (Errorf "source %q: incomplete PostgreSQL connection" [cs_ID s]);
  reject_if (str_eqb (cs_SerialColumn s) "" || str_eqb (cs_PartitioningColumn s) "" ||
             negb (str_mem (cs_SerialColumn s) (cs_Columns s)) ||
             negb (str_mem (cs_PartitioningColumn s) (cs_Columns s)))
    (Errorf "source %q: columns must include serialColumn and partitioningColumn" [cs_ID s]).

Fixpoint validateSources_loop (sources : list ConfigSource) (seen : list string) : result error (list string) :=
  match sources with
  | [] => Ok seen
  | s :: sources =>
      _ ← reject_if (str_eqb (cs_ID s) "" || str_eqb (cs_Description s) "")
            (Errorf "source id and description are required" []);
      _ ← reject_if (str_mem (cs_ID s) seen) (Errorf "duplicate source id %q" [cs_ID s]);
      _ ← validateSource s;
      validateSources_loop sources (cs_ID s :: seen)
  end.

Definition validateSources (sources : list ConfigSource) : result error (list string) :=
  seen ← validateSources_loop sources [];
  _ ← reject_if (bool_decide (seen = [])) (Errorf "at least one source is required" []);
  Ok seen.

Fixpoint knownSources (d : ConfigDestination) (ids sources : list string) : result error unit :=
  match ids with
  | [] => Ok tt
  | id :: ids =>
      _ ← reject_if (negb (str_mem id sources)) (Errorf "destination %q: unknown source %q" [cd_ID d; id]);
      knownSources d ids sources
  end.

Definition validateDestination (d : ConfigDestination) (sources : list string) : result error unit :=
  _ ← reject_if (negb (str_eqb (cd_Type d) DestinationHTTPPush))
        (Errorf "destination %q: unsupported type %q; v1 supports http-push" [cd_ID d; cd_Type d]);
  _ ← reject_if (str_eqb (cd_Endpoint d) "" || str_eqb (cd_Username d) "" || bool_decide (cd_Sources d = []))
        (Errorf "destination %q: incomplete HTTP push configuration" [cd_ID d]);
  _ ← knownSources d (cd_Sources d) sources;
  reject_if (match cd_Filter d with
             | Some f => str_eqb (cf_Column f) "" || bool_decide (cf_Values f = [])
             | None => false
             end)
    (Errorf "destination %q: filter column and values are required" [cd_ID d]).

Fixpoint validateDestinations (destinations : list ConfigDestination) (sources seen : list string) : result error unit :=
  match destinations with
  | [] => Ok tt
  | d :: destinations =>
      _ ← reject_if (str_eqb (cd_ID d) "" || str_eqb (cd_Description d) "")
            (Errorf "destination id and description are required" []);
      _ ← reject_if (str_mem (cd_ID d) seen) (Errorf "duplicate destination id %q" [cd_ID d]);
      _ ← validateDestination d sources;
      validateDestinations destinations sources (cd_ID d :: seen)
  end.

Definition ApplicationValidate (c : Application) : result error unit :=
  sources ← validateSources (app_Sources c);
  validateDestinations (app_Destinations c) sources [].

(** ** Engine validation *)
Definition defaultPartitions : Z := 10.
Definition defaultReplicationFactor : Z := 1.
Definition defaultRequestTimeout : Z := 60 * 1000000000.
Definition defaultDrainTimeout : Z := 30 * 1000000000.
Definition productionReplication : Z := 3.

Definition or_default (z d : Z) : Z := if z =? 0 then d else z.

Definition applyDefaults (c : Engine) : Engine :=
  mkEngine (en_Version c) (en_Namespace c) (en_Environment c) (en_ApplicationConfig c) (en_Brokers c)
    (or_default (en_Partitions c) defaultPartitions)
    (or_default (en_ReplicationFactor c) defaultReplicationFactor)
    (en_ConnectURL c) (en_Listen c) (en_TokenFile c) (en_DatabaseURL c)
    (or_default (en_RequestTimeout c) defaultRequestTimeout)
    (or_default (en_DrainTimeout c) defaultDrainTimeout)
    (en_Publications c).

Definition check (c : Engine) : result error unit :=
  _ ← reject_if (negb (en_Version c =? 1)) (Errorf "engine config version must be 1" []);
  _ ← reject_if (str_eqb (en_Namespace c) "" || str_eqb (en_Environment c) "")
        (Errorf "namespace and environment are required" []);
  _ ← reject_if (bool_decide (en_Brokers c = [])) (Errorf "at least one Kafka broker is required" []);
  _ ← reject_if (en_Partitions c <? 1) (Errorf "kafka partitions must be positive" []);
  _ ← reject_if (en_ReplicationFactor c <? 1) (Errorf "kafka replication_factor must be positive" []);
  _ ← reject_if (str_eqb (en_Environment c) "production" &&
                 negb (en_ReplicationFactor c =? productionReplication))
        (Errorf "kafka replication_factor must be 3 in production" []);
  _ ← reject_if (str_eqb (en_ConnectURL c) "" || str_eqb (en_Listen c) "")
        (Errorf "connect.url and operator.listen are required" []);
  reject_if (str_eqb (en_DatabaseURL c) "") (Errorf "control.database_url is required" []).

(** [Engine.Validate] changes its receiver. *)
Definition EngineValidate (c : Engine) : Engine * result error unit :=
  let c := applyDefaults c in (c, check c).

(** ** Environment references *)
Definition name_start (c : ascii) : bool := in_range 65 90 c || in_range 97 122 c || Ascii.eqb c "_".
Definition name_char (c : ascii) : bool := name_start c || is_digit c.

(** A match of the pattern at the front: the name and its length in bytes. *)
Definition match_variable (s : string) : option (string * nat) :=
  match s with
  | String "$" (String "{" (String c r)) =>
      if name_start c then
        let '(n, r') := str_span name_char r in
        match r' with
        | String "}" _ => Some (String c n, S (S (S (S (String.length n)))))
        | _ => None
        end
      else None
  | _ => None
  end.

(** A text cut into literal bytes and references, leftmost first. *)
Inductive piece : Type := Lit (c : ascii) | Var (name : string).

Fixpoint pieces (s : string) (skip : nat) : list piece :=
  match s with
  | EmptyString => []
  | String c r =>
      match skip with
      | S k => pieces r k
      | O =>
          match match_variable s with
          | Some (n, len) => Var n :: pieces r (len - 1)
          | None => Lit c :: pieces r 0
          end
      end
  end.

Definition variables (s : string) : list string :=
  omap (fun p => match p with Var n => Some n | Lit _ => None end) (pieces s 0).

(** [slices.Compact]. *)
Fixpoint compact_list (l : list string) : list string :=
  match l with
  | x :: ((y :: _) as l') => if str_eqb x y then compact_list l' else x :: compact_list l'
  | _ => l
  end.

Definition name_le (a b : string) : Prop := String.leb a b = true.
#[export] Instance name_le_dec : RelDecision name_le := fun a b => decide (String.leb a b = true).

Definition missingVariables (s : string) (lookup : string -> option string) : list string :=
  compact_list (merge_sort name_le (List.filter (fun n => bool_decide (lookup n = None)) (variables s))).

Definition missingError (names : list string) : error :=
  match names with
  | [n] => Errorf "environment variable %s is not set" [n]
  | _ => Errorf "environment variables %s are not set" names
  end.

Definition render (f : string -> string) (l : list piece) : string :=
  foldr (fun p acc => match p with Lit c => String c acc | Var n => f n +:+ acc end) "" l.

Definition ExpandEnvironment (s : string) (lookup : string -> option string) : result error string :=
  let missing := missingVariables s lookup in
  if negb (bool_decide (missing = [])) then Err (missingError missing)
  else Ok (render (fun n => default "" (lookup n)) (pieces s 0)).

(** ** The document

    A parsed YAML tree as the code sees it: a mapping's content alternates keys
    and values; documents and sequences hold children; a scalar has its short
    tag and text; anything else (an alias) is left alone. *)
#[local] Set Warnings "-register-all".
Inductive node : Type :=
| Mapping (content : list node)
| Children (content : list node)
| Scalar (tag value : string)
| OtherNode.

(** The positions of a mapping's values are the odd ones. *)
Fixpoint stringScalars (n : node) : list string :=
  match n with
  | Mapping content =>
      (fix odd (is_value : bool) (l : list node) : list string :=
        match l with
        | [] => []
        | x :: l => (if is_value then stringScalars x else []) ++ odd (negb is_value) l
        end) false content
  | Children content => flat_map stringScalars content
  | Scalar tag value => if str_eqb tag "!!str" then [value] else []
  | OtherNode => []
  end.

(** The tree after every string scalar's value has been replaced in place. *)
Fixpoint replaceScalars (f : string -> string) (n : node) : node :=
  match n with
  | Mapping content =>
      Mapping ((fix odd (is_value : bool) (l : list node) : list node :=
        match l with
        | [] => []
        | x :: l => (if is_value then replaceScalars f x else x) :: odd (negb is_value) l
        end) false content)
  | Children content => Children (map (replaceScalars f) content)
  | Scalar tag value => if str_eqb tag "!!str" then Scalar tag (f value) else n
  | OtherNode => n
  end.

(** [strings.Join]. *)
Fixpoint join (sep : string) (l : list string) : string :=
  match l with
  | [] => ""
  | [s] => s
  | s :: l => s +:+ sep +:+ join sep l
  end.

Definition newline : string := String (byte_of 10) "".

(** The second loop: one scalar after another, stopping at an error. *)
Fixpoint expandEach (values : list string) (lookup : string -> option string) : result error (list string) :=
  match values with
  | [] => Ok []
  | v :: values => e ← ExpandEnvironment v lookup; es ← expandEach values lookup; Ok (e :: es)
  end.

(** [expandScalars] of the document's scalars, all checked together first; the
    document is rewritten with the expansion of each. *)
Definition expandScalars (n : node) (lookup : string -> option string) : result error node :=
  let values := stringScalars n in
  _ ← ExpandEnvironment (join newline values) lookup;
  _ ← expandEach values lookup;
  Ok (replaceScalars (fun v => render (fun x => default "" (lookup x)) (pieces v 0)) n).

(** ** Operator token *)
Definition OperatorToken (env file : string) (readFile : string -> result error string) : result error string :=
  token ← (if negb (str_eqb file "") then
             match readFile file with
             | Err e => Err (Wrapf "operator token file: %w" [] e)
             | Ok b => Ok b
             end
           else Ok env);
  let token := TrimSpace token in
  if str_eqb token "" then
    errorf "operator token is required: set POSTIE_OPERATOR_TOKEN or operator.token_file" []
  else Ok token.

(** ** Lemmas: references *)
Lemma pieces_skip (s : string) (k : nat) : pieces s k = pieces (str_drop k s) 0.
Proof.
  revert k. induction s as [|c s IH]; intros [|k]; try done. cbn [pieces str_drop]. apply IH.
Qed.

Definition reference (n : string) : string := "${" +:+ n +:+ "}".

Lemma match_variable_spec (s n : string) (len : nat) : match_variable s = Some (n, len) ->
  (exists r, s = reference n +:+ r) /\ len = String.length (reference n).
Proof.
  unfold match_variable. destruct s as [|c0 [|c1 [|c r]]]; try (repeat case_match; done).
  destruct (Ascii.eqb_spec c0 "$") as [->|H0]; [|intros H; exfalso; revert H; repeat case_match; congruence].
  destruct (Ascii.eqb_spec c1 "{") as [->|H1]; [|intros H; exfalso; revert H; repeat case_match; congruence].
  destruct (name_start c); [|done]. destruct (str_span_spec name_char r) as (Hr & _ & _).
  destruct (str_span name_char r) as [m r']. cbn [fst snd] in Hr.
  destruct r' as [|d r']; [done|]. destruct (Ascii.eqb_spec d "}") as [->|Hd]; [|intros H; exfalso; revert H; repeat case_match; congruence].
  intros [= <- <-]. split; [exists r'; unfold reference; rewrite Hr; by str_norm|].
  unfold reference. rewrite !str_length_app. cbn. lia.
Qed.

(** Cutting loses nothing. *)
Lemma pieces_render (s : string) : render reference (pieces s 0) = s.
Proof.
  induction s as [s IH] using str_length_ind. destruct s as [|c r]; [done|]. cbn [pieces].
  destruct (match_variable (String c r)) as [[n len]|] eqn:Hm.
  - apply match_variable_spec in Hm as [[q Hq] ->]. cbn [render foldr]. fold (render reference).
    rewrite pieces_skip. rewrite Hq. f_equal.
    assert (str_drop (String.length (reference n) - 1) r = q) as ->.
    { unfold reference in Hq |- *. rewrite !str_app_assoc in Hq. cbn in Hq. injection Hq as -> ->.
      rewrite !str_length_app. cbn [String.length]. replace (2 + (String.length n + 1) - 1)%nat
        with (S (String.length n + 1)) by lia. cbn [str_drop]. by rewrite str_drop_app. }
    apply IH. rewrite Hq, str_length_app. unfold reference. cbn. lia.
  - cbn [render foldr]. fold (render reference). f_equal. apply IH. cbn. lia.
Qed.

Definition nl : ascii := byte_of 10.

Lemma match_variable_dollar (c : ascii) (s : string) : c <> "$"%char -> match_variable (String c s) = None.
Proof.
  intros Hc. destruct (match_variable (String c s)) as [[n len]|] eqn:Hm; [|done].
  apply match_variable_spec in Hm as [[r Hr] _]. unfold reference in Hr. cbn in Hr. by injection Hr as ? _.
Qed.

Lemma match_variable_brace (c0 c : ascii) (s : string) : c <> "{"%char ->
  match_variable (String c0 (String c s)) = None.
Proof.
  intros Hc. destruct (match_variable (String c0 (String c s))) as [[n len]|] eqn:Hm; [|done].
  apply match_variable_spec in Hm as [[r Hr] _]. unfold reference in Hr. cbn in Hr. by injection Hr as _ ? _.
Qed.

Lemma match_variable_nl (a b : string) : a <> "" -> match_variable (a +:+ String nl b) = match_variable a.
Proof.
  intros Hne. destruct a as [|c0 a]; [done|]. cbn [String.append].
  destruct (Ascii.eqb_spec c0 "$") as [->|H0]; [|by rewrite !match_variable_dollar].
  destruct a as [|c1 a]; [cbn [String.append]; by rewrite match_variable_brace|]. cbn [String.append].
  destruct (Ascii.eqb_spec c1 "{") as [->|H1]; [|by rewrite !match_variable_brace].
  destruct a as [|c r]; [by destruct b|]. cbn [String.append]. unfold match_variable.
  destruct (str_span_spec name_char r) as (Hr & Hn & Hs). destruct (str_span name_char r) as [n r'] eqn:Hsp.
  cbn [fst snd] in *. assert (str_span name_char (r +:+ String nl b) = (n, r' +:+ String nl b)) as ->.
  { rewrite Hr, str_app_assoc. apply str_span_app; [done|]. by destruct r'. }
  by destruct r'.
Qed.

Lemma match_variable_len (s n : string) (len : nat) : match_variable s = Some (n, len) -> (1 <= len <= String.length s)%nat.
Proof.
  intros ([r ->] & ->)%match_variable_spec. unfold reference. rewrite !str_length_app. cbn. lia.
Qed.

Lemma pieces_nl (a b : string) (k : nat) : (k <= String.length a)%nat ->
  pieces (a +:+ String nl b) k = pieces a k ++ Lit nl :: pieces b 0.
Proof.
  revert k. induction a as [|c a IH]; intros k Hk.
  - cbn in Hk. replace k with 0%nat by lia. cbn [String.append pieces].
    assert (match_variable (String nl b) = None) as -> by (by destruct b). done.
  - destruct k as [|k]; cbn [String.append pieces].
    + change (String c (a +:+ String nl b)) with (String c a +:+ String nl b). rewrite match_variable_nl by done.
      destruct (match_variable (String c a)) as [[n len]|] eqn:Hm.
      * apply match_variable_len in Hm. cbn in Hm. rewrite IH by lia. done.
      * rewrite IH by lia. done.
    + cbn in Hk. apply IH. lia.
Qed.

Lemma variables_join (values : list string) : variables (join newline values) = flat_map variables values.
Proof.
  induction values as [|v values IH]; [done|]. destruct values as [|w values].
  - cbn. by rewrite app_nil_r.
  - cbn [join flat_map] in *. rewrite <- IH. unfold variables, newline.
    change (String (byte_of 10) "" +:+ ?x) with (String nl x). rewrite pieces_nl by lia. rewrite omap_app. done.
Qed.

Lemma compact_list_in (l : list string) (x : string) : x ∈ compact_list l <-> x ∈ l.
Proof.
  induction l as [|a [|b l] IH]; [done|done|]. cbn [compact_list] in *.
  destruct (str_eqb a b) eqn:He; bools; [subst|]; set_solver.
Qed.

Lemma missing_in (s : string) (lookup : string -> option string) (x : string) :
  x ∈ missingVariables s lookup <-> x ∈ variables s /\ lookup x = None.
Proof.
  unfold missingVariables. rewrite compact_list_in, merge_sort_Permutation.
  rewrite list_elem_of_In, filter_In, <- list_elem_of_In, bool_decide_eq_true. done.
Qed.

Lemma missing_nil (s : string) (lookup : string -> option string) :
  missingVariables s lookup = [] <-> forall x, x ∈ variables s -> lookup x <> None.
Proof.
  split.
  - intros H x Hx Hn. assert (x ∈ missingVariables s lookup) as Hin by (by apply missing_in).
    rewrite H in Hin. by apply not_elem_of_nil in Hin.
  - intros H. apply elem_of_nil_inv. intros x [Hx Hn]%missing_in. by apply (H x).
Qed.

Definition substitute (lookup : string -> option string) (v : string) : string :=
  render (fun x => default "" (lookup x)) (pieces v 0).

Lemma expand_ok (s out : string) (lookup : string -> option string) :
  ExpandEnvironment s lookup = Ok out <->
  (forall x, x ∈ variables s -> lookup x <> None) /\ out = substitute lookup s.
Proof.
  unfold ExpandEnvironment. rewrite <- missing_nil. destruct (decide (missingVariables s lookup = [])) as [He|He].
  - rewrite bool_decide_eq_true_2 by done. unfold substitute. naive_solver.
  - rewrite bool_decide_eq_false_2 by done. naive_solver.
Qed.

Lemma expand_err (s : string) (e : error) (lookup : string -> option string) :
  ExpandEnvironment s lookup = Err e ->
  exists names, names <> [] /\ e = missingError names /\ forall x, x ∈ names <-> x ∈ variables s /\ lookup x = None.
Proof.
  unfold ExpandEnvironment. destruct (bool_decide_reflect (missingVariables s lookup = [])) as [He|He]; [done|].
  intros [= <-]. exists (missingVariables s lookup). split; [done|]. split; [done|]. apply missing_in.
Qed.

Lemma expandEach_ok (values : list string) (lookup : string -> option string) :
  (forall x, x ∈ flat_map variables values -> lookup x <> None) ->
  expandEach values lookup = Ok (map (substitute lookup) values).
Proof.
  induction values as [|v values IH]; intros H; [done|]. cbn [expandEach map]. cbn in H.
  assert (ExpandEnvironment v lookup = Ok (substitute lookup v)) as ->.
  { apply expand_ok. split; [|done]. intros x Hx. apply H. set_solver. }
  rewrite IH; [done|]. intros x Hx. apply H. set_solver.
Qed.

(** *** The document *)
Section NodeInd.
Variable P : node -> Prop.
Hypothesis Hmap : forall l, Forall P l -> P (Mapping l).
Hypothesis Hchildren : forall l, Forall P l -> P (Children l).
Hypothesis Hscalar : forall tag v, P (Scalar tag v).
Hypothesis Hother : P OtherNode.
Fixpoint node_forall (n : node) : P n :=
  let go := fix go (l : list node) : Forall P l :=
    match l with [] => Forall_nil_2 _ | x :: l => Forall_cons_2 _ x l (node_forall x) (go l) end in
  match n with
  | Mapping l => Hmap l (go l)
  | Children l => Hchildren l (go l)
  | Scalar tag v => Hscalar tag v
  | OtherNode => Hother
  end.
End NodeInd.

Lemma replace_scalars (f : string -> string) (n : node) :
  stringScalars (replaceScalars f n) = map f (stringScalars n).
Proof.
  induction n as [l IH|l IH|tag v|] using node_forall; cbn.
  - generalize false. induction IH as [|x l Hx Hl IHl]; intros b; [done|]. cbn.
    rewrite map_app, <- IHl. by destruct b; cbn; rewrite ?Hx.
  - induction IH as [|x l Hx Hl IHl]; [done|]. cbn. by rewrite map_app, Hx, IHl.
  - destruct (str_eqb tag "!!str") eqn:H; cbn; by rewrite H.
  - done.
Qed.

(** The document with its string scalars blanked. *)
Definition skeleton (n : node) : node := replaceScalars (fun _ => "") n.

Lemma replace_skeleton (f : string -> string) (n : node) : skeleton (replaceScalars f n) = skeleton n.
Proof.
  unfold skeleton. induction n as [l IH|l IH|tag v|] using node_forall; cbn.
  - f_equal. generalize false. induction IH as [|x l Hx Hl IHl]; intros b; [done|]. cbn.
    rewrite IHl. by destruct b; cbn; rewrite ?Hx.
  - f_equal. induction IH as [|x l Hx Hl IHl]; [done|]. cbn. by rewrite Hx, IHl.
  - destruct (str_eqb tag "!!str") eqn:H; cbn; by rewrite H.
  - done.
Qed.

Lemma expandScalars_ok (n out : node) (lookup : string -> option string) :
  expandScalars n lookup = Ok out <->
  (forall x, x ∈ flat_map variables (stringScalars n) -> lookup x <> None) /\
  out = replaceScalars (substitute lookup) n.
Proof.
  unfold expandScalars. fold (substitute lookup). split.
  - rewrite bind_Ok. intros (o & (Hall & _)%expand_ok & H). rewrite variables_join in Hall.
    rewrite (expandEach_ok _ _ Hall) in H. cbn in H. by injection H as <-.
  - intros [Hall ->].
    assert (ExpandEnvironment (join newline (stringScalars n)) lookup = Ok (substitute lookup (join newline (stringScalars n)))) as ->
      by (apply expand_ok; by rewrite variables_join).
    cbn. by rewrite expandEach_ok.
Qed.

Lemma expandScalars_err (n : node) (e : error) (lookup : string -> option string) :
  expandScalars n lookup = Err e ->
  exists names, names <> [] /\ e = missingError names /\
    forall x, x ∈ names <-> x ∈ flat_map variables (stringScalars n) /\ lookup x = None.
Proof.
  unfold expandScalars. destruct (ExpandEnvironment (join newline (stringScalars n)) lookup) as [o|e'] eqn:Ho; cbn.
  - apply expand_ok in Ho as [Hall _]. rewrite variables_join in Hall. by rewrite expandEach_ok.
  - intros [= <-]. destruct (expand_err _ _ _ Ho) as (names & Hne & -> & Hn). exists names.
    rewrite variables_join in Hn. done.
Qed.

(** ** Lemmas: validation *)
Definition source_ok (s : ConfigSource) : Prop :=
  cs_ID s <> "" /\ cs_Description s <> "" /\ cs_Type s = SourcePostgres /\
  cs_Host s <> "" /\ 1 <= cs_Port s /\ cs_Username s <> "" /\ cs_Database s <> "" /\ cs_Table s <> "" /\
  cs_SerialColumn s <> "" /\ cs_PartitioningColumn s <> "" /\
  cs_SerialColumn s ∈ cs_Columns s /\ cs_PartitioningColumn s ∈ cs_Columns s.

Definition destination_ok (sources : list string) (d : ConfigDestination) : Prop :=
  cd_ID d <> "" /\ cd_Description d <> "" /\ cd_Type d = DestinationHTTPPush /\
  cd_Endpoint d <> "" /\ cd_Username d <> "" /\ cd_Sources d <> [] /\
  (forall id, id ∈ cd_Sources d -> id ∈ sources) /\
  (forall f, cd_Filter d = Some f -> cf_Column f <> "" /\ cf_Values f <> []).

Lemma configSource_ok (s : ConfigSource) (u : unit) : validateSource s = Ok u <->
  cs_Type s = SourcePostgres /\
  cs_Host s <> "" /\ 1 <= cs_Port s /\ cs_Username s <> "" /\ cs_Database s <> "" /\ cs_Table s <> "" /\
  cs_SerialColumn s <> "" /\ cs_PartitioningColumn s <> "" /\
  (cs_SerialColumn s ∈ cs_Columns s) /\ (cs_PartitioningColumn s ∈ cs_Columns s).
Proof.
  unfold validateSource. rewrite !reject_bind, reject_if_Ok, !orb_false_iff, !negb_false_iff, !str_eqb_false,
    !str_mem_true, str_eqb_true, Z.ltb_ge. naive_solver.
Qed.

(** The checks of one source, in the order of the loop. *)
Lemma sources_step (s : ConfigSource) (sources : list ConfigSource) (seen out : list string) :
  validateSources_loop (s :: sources) seen = Ok out <->
  source_ok s /\ (cs_ID s ∉ seen) /\ validateSources_loop sources (cs_ID s :: seen) = Ok out.
Proof.
  cbn [validateSources_loop]. rewrite !reject_bind, bind_Ok. setoid_rewrite configSource_ok.
  rewrite orb_false_iff, !str_eqb_false, !str_mem_false. unfold source_ok. naive_solver.
Qed.

Lemma sources_loop_ok (sources : list ConfigSource) (seen out : list string) :
  validateSources_loop sources seen = Ok out <->
  Forall source_ok sources /\ NoDup (map cs_ID sources) /\
  (forall s, s ∈ sources -> cs_ID s ∉ seen) /\ out = rev (map cs_ID sources) ++ seen.
Proof.
  revert seen. induction sources as [|s sources IH]; intros seen.
  - cbn. split; [intros [= <-]|naive_solver]. split_and!; [constructor|constructor|set_solver|done].
  - rewrite sources_step, IH. cbn [map rev]. rewrite Forall_cons, NoDup_cons, <- app_assoc. cbn [app].
    rewrite list_elem_of_fmap. split.
    + intros (Hs & Hn & Hf & Hd & Hnot & ->). split_and!; [done|done| |done| |done].
      * intros (y & Hy & Hin). specialize (Hnot y Hin). set_solver.
      * intros y Hy. apply elem_of_cons in Hy as [->|Hy]; [done|]. specialize (Hnot y Hy). set_solver.
    + intros ((Hs & Hf) & (Hn & Hd) & Hnot & ->). split_and!; [done|set_solver|done|done| |done].
      intros y Hy. rewrite not_elem_of_cons. split; [|set_solver]. intros Heq. apply Hn. by exists y.
Qed.

Lemma validateSources_ok (sources : list ConfigSource) (out : list string) :
  validateSources sources = Ok out <->
  sources <> [] /\ Forall source_ok sources /\ NoDup (map cs_ID sources) /\ out = rev (map cs_ID sources).
Proof.
  unfold validateSources. rewrite bind_Ok. setoid_rewrite sources_loop_ok. setoid_rewrite reject_bind.
  setoid_rewrite bool_decide_eq_false. setoid_rewrite app_nil_r. split.
  - intros (seen & (Hf & Hd & _ & ->) & Hne & [= <-]). split_and!; [|done..]. by intros ->.
  - intros (Hne & Hf & Hd & ->). exists (rev (map cs_ID sources)). split; [split_and!; try done; set_solver|].
    split; [|done]. destruct sources; [done|]. cbn. intros H. by apply app_nil in H as [_ ?].
Qed.

Lemma knownSources_ok (d : ConfigDestination) (ids sources : list string) (u : unit) :
  knownSources d ids sources = Ok u <-> forall id, id ∈ ids -> id ∈ sources.
Proof.
  induction ids as [|id ids IH]; cbn [knownSources].
  - destruct u. split; [set_solver|done].
  - rewrite reject_bind, IH, negb_false_iff, str_mem_true. set_solver.
Qed.

Lemma validateDestination_ok (d : ConfigDestination) (sources : list string) (u : unit) :
  validateDestination d sources = Ok u <->
  cd_Type d = DestinationHTTPPush /\ cd_Endpoint d <> "" /\ cd_Username d <> "" /\ cd_Sources d <> [] /\
  (forall id, id ∈ cd_Sources d -> id ∈ sources) /\
  (forall f, cd_Filter d = Some f -> cf_Column f <> "" /\ cf_Values f <> []).
Proof.
  unfold validateDestination. rewrite !reject_bind, bind_Ok. setoid_rewrite knownSources_ok. setoid_rewrite reject_if_Ok.
  rewrite !orb_false_iff, negb_false_iff, !str_eqb_false, str_eqb_true, (bool_decide_eq_false (cd_Sources d = [])).
  assert (Hfilter : (match cd_Filter d with Some f => str_eqb (cf_Column f) "" || bool_decide (cf_Values f = []) | None => false end) = false
    <-> forall f, cd_Filter d = Some f -> cf_Column f <> "" /\ cf_Values f <> []).
  { destruct (cd_Filter d) as [f|]; [|naive_solver].
    rewrite orb_false_iff, str_eqb_false, (bool_decide_eq_false (cf_Values f = [])). split; [by intros [? ?] g [= <-]|intros H; by apply H]. }
  setoid_rewrite Hfilter. split.
  - intros (Ht & (? & ?) & _ & ? & ?). naive_solver.
  - intros (? & ? & ? & ? & ? & ?). split; [done|]. split; [done|]. exists tt. done.
Qed.

Lemma destinations_ok (ds : list ConfigDestination) (sources seen : list string) (u : unit) :
  validateDestinations ds sources seen = Ok u <->
  Forall (destination_ok sources) ds /\ NoDup (map cd_ID ds) /\ (forall d, d ∈ ds -> cd_ID d ∉ seen).
Proof.
  revert seen. induction ds as [|d ds IH]; intros seen; cbn [validateDestinations].
  - destruct u. split; [intros _|done]. split_and!; [constructor|constructor|]. by intros d ?%not_elem_of_nil.
  - rewrite !reject_bind, bind_Ok. setoid_rewrite validateDestination_ok. setoid_rewrite IH.
    rewrite orb_false_iff, !str_eqb_false, str_mem_false. cbn [map].
    rewrite Forall_cons, NoDup_cons, list_elem_of_fmap. split.
    + intros (Hne & Hn & ([] & Hd & Hf & Hnd & Hnot)). destruct Hne as [Hid Hdesc].
      split; [split; [by unfold destination_ok|done]|]. split; [split; [|done]|].
      * intros (y & Hy & Hin). apply (Hnot y Hin). apply elem_of_cons. by left.
      * intros y [->|Hy]%elem_of_cons; [done|]. intros Hs. apply (Hnot y Hy). apply elem_of_cons. by right.
    + intros (((Hid & Hdesc & Hd) & Hf) & (Hn & Hnd) & Hnot). split; [done|].
      split; [apply Hnot; apply elem_of_cons; by left|]. exists tt. split; [done|]. split_and!; [done|done|].
      intros y Hy. rewrite not_elem_of_cons. split; [|apply Hnot; apply elem_of_cons; by right].
      intros Heq. apply Hn. by exists y.
Qed.

(** ** Properties *)
(** An application configuration is accepted exactly when it has a source,
    source and destination ids are unique, every source is a complete
    PostgreSQL source whose columns include its serial and partitioning
    columns, and every destination is a complete HTTP push destination that
    reads only configured sources and whose filter, if any, names a column and
    at least one value. *)
Theorem application_valid_iff (c : Application) :
  ApplicationValidate c = Ok tt <->
  app_Sources c <> [] /\
  NoDup (map cs_ID (app_Sources c)) /\ Forall source_ok (app_Sources c) /\
  NoDup (map cd_ID (app_Destinations c)) /\
  Forall (destination_ok (map cs_ID (app_Sources c))) (app_Destinations c).
Proof.
  unfold ApplicationValidate. rewrite bind_Ok. setoid_rewrite validateSources_ok. setoid_rewrite destinations_ok.
  assert (forall l ds, Forall (destination_ok (rev l)) ds <-> Forall (destination_ok l) ds) as Hrev.
  { intros l ds. apply Forall_iff. intros d. unfold destination_ok.
    setoid_rewrite rev_alt. setoid_rewrite elem_of_reverse. done. }
  split.
  - intros (a & (? & ? & ? & ->) & Hd & ? & _). apply (proj1 (Hrev _ _)) in Hd. by split_and!.
  - intros (? & ? & ? & ? & ?). eexists. split; [done|]. split_and!; [by apply Hrev|done|by intros ? ? ?%not_elem_of_nil].
Qed.

(** What a validated engine guarantees to the rest of the program. *)
Definition engine_ok (c : Engine) : Prop :=
  en_Version c = 1 /\ en_Namespace c <> "" /\ en_Environment c <> "" /\ en_Brokers c <> [] /\
  1 <= en_Partitions c /\ 1 <= en_ReplicationFactor c /\
  (en_Environment c = "production" -> en_ReplicationFactor c = 3) /\
  en_ConnectURL c <> "" /\ en_Listen c <> "" /\ en_DatabaseURL c <> "".

Lemma check_ok (c : Engine) (u : unit) : check c = Ok u <-> engine_ok c.
Proof.
  unfold check, engine_ok. rewrite !reject_bind, reject_if_Ok, andb_false_iff, !orb_false_iff, !negb_false_iff,
    !str_eqb_false, !bool_decide_eq_false, !Z.ltb_ge, !Z.eqb_eq. unfold productionReplication.
  destruct (decide (en_Environment c = "production")); naive_solver.
Qed.

Lemma or_default_idem (z d : Z) : d <> 0 -> or_default (or_default z d) d = or_default z d.
Proof. unfold or_default. destruct (Z.eqb_spec z 0); intros H; [by apply Z.eqb_neq in H as ->|]. by apply Z.eqb_neq in n as ->. Qed.

(** Validating an engine configuration fills the settings left at zero and no
    other, accepts exactly the configurations whose filled form meets every
    rule — three replicas in production included — and is idempotent: the
    configuration it leaves validates to itself with the same answer.  In an
    accepted one no defaulted setting is zero. *)
Theorem engine_validated (c : Engine) :
  let '(c', r) := EngineValidate c in
  (r = Ok tt <-> engine_ok c') /\ EngineValidate c' = (c', r) /\
  (en_Partitions c' = if en_Partitions c =? 0 then 10 else en_Partitions c) /\
  (en_ReplicationFactor c' = if en_ReplicationFactor c =? 0 then 1 else en_ReplicationFactor c) /\
  en_RequestTimeout c' <> 0 /\ en_DrainTimeout c' <> 0 /\
  (en_Partitions c <> 0 -> en_ReplicationFactor c <> 0 -> en_RequestTimeout c <> 0 -> en_DrainTimeout c <> 0 -> c' = c).
Proof.
  unfold EngineValidate. split; [apply check_ok|].
  assert (applyDefaults (applyDefaults c) = applyDefaults c) as ->.
  { unfold applyDefaults. cbn. by rewrite !or_default_idem. }
  split; [done|]. unfold applyDefaults. cbn. unfold or_default.
  split; [done|]. split; [done|]. unfold defaultRequestTimeout, defaultDrainTimeout.
  split; [by case_match; bools|]. split; [by case_match; bools|].
  rewrite <- !Z.eqb_neq. intros -> -> -> ->. by destruct c.
Qed.

(** A document expands exactly when every variable its string values mention is
    set; then each string value is the text with its references replaced —
    replaced text is never read again — and keys, other scalars and the shape
    of the document are unchanged.  Otherwise the one error lists exactly the
    unset variables of the whole document. *)
Theorem expand_document (n : node) (lookup : string -> option string) :
  match expandScalars n lookup with
  | Ok out =>
      (forall x, x ∈ flat_map variables (stringScalars n) -> lookup x <> None) /\
      stringScalars out = map (substitute lookup) (stringScalars n) /\ skeleton out = skeleton n
  | Err e =>
      exists names, names <> [] /\ e = missingError names /\
        forall x, x ∈ names <-> x ∈ flat_map variables (stringScalars n) /\ lookup x = None
  end.
Proof.
  destruct (expandScalars n lookup) as [out|e] eqn:H.
  - apply expandScalars_ok in H as [Hall ->]. split; [done|]. split; [apply replace_scalars|apply replace_skeleton].
  - by apply expandScalars_err.
Qed.

(** The operator token comes from the configured file when one is configured —
    an unreadable file is an error, never a fall back to the environment — and
    otherwise from the environment; it is never empty and has no ASCII
    white space at either end. *)
Theorem operator_token_sound (env file : string) (readFile : string -> result error string) (t : string) :
  OperatorToken env file readFile = Ok t ->
  t <> "" /\ str_stops ascii_space t = true /\ str_stops ascii_space (str_rev t) = true /\
  exists raw, t = TrimSpace raw /\ (if str_eqb file "" then raw = env else readFile file = Ok raw).
Proof.
  unfold OperatorToken. rewrite bind_Ok. intros (raw & Hraw & H).
  destruct (str_eqb (TrimSpace raw) "") eqn:He; [done|]. injection H as <-. apply (proj1 (str_eqb_false _ _)) in He.
  split; [done|]. split; [apply TrimSpace_ends|]. split; [apply TrimSpace_ends|]. exists raw. split; [done|].
  destruct (str_eqb file ""); cbn in Hraw; [by injection Hraw|]. destruct (readFile file); [by injection Hraw as ->|done].
Qed.

Lemma operator_token_sound_witness :
  "k" <> "" /\ str_stops ascii_space "k" = true /\ str_stops ascii_space (str_rev "k") = true /\
  exists raw, "k" = TrimSpace raw /\ (if str_eqb "/run/token" "" then raw = "other" else Ok (E := error) " k " = Ok raw).
Proof. apply (operator_token_sound "other" "/run/token" (fun _ => Ok " k ") "k"). vm_compute. reflexivity. Defined.
