(* ===== verification/Provision.v ===== *)
(** * Provision: the capture contract, inspection and provisioning

    Models [internal/provision/contract.go], [inspect.go] and [service.go].
    The catalog, Kafka, Kafka Connect and the control store are reached
    through an interface, [Infra]; [internal/adapters] implement it. *)

From S2P Require Import Prelude Strconv Stream Json JsonCodec JsonString GoFmt GoSha256 Act.
From stdpp Require Import sorting.
Local Open Scope Z_scope.

(** ** Errors

    What [errors.As] and [errors.Is] can find: a [*ContractError], a
    [*TopicMetadataError] (which unwraps to nothing) and the sentinel
    [ErrConnectorMissing]; any other error is [Plain]. *)
Inductive Error : Type :=
| Plain (e : error)
| ContractError (table reason : string)
| TopicMetadataError (partition : bool) (cause : Error)
| ErrConnectorMissing
| Wrap (format : string) (args : list string) (inner : Error).

Fixpoint ErrorText (e : Error) : string :=
  match e with
  | Plain e => error_text e
  | ContractError table reason => "capture: table public." +:+ table +:+ ": " +:+ reason
  | TopicMetadataError _ cause => ErrorText cause
  | ErrConnectorMissing => "capture: connector missing"
  | Wrap format args inner => Sprintf format (args ++ [ErrorText inner])
  end.

Definition contractFor (table format : string) (args : list string) : Error :=
  ContractError table (Sprintf format args).

Fixpoint isContract (e : Error) : bool :=
  match e with ContractError _ _ => true | Wrap _ _ inner => isContract inner | _ => false end.

(** [errors.As] for a [*TopicMetadataError]. *)
Fixpoint as_metadata (e : Error) : option (bool * Error) :=
  match e with TopicMetadataError p cause => Some (p, cause) | Wrap _ _ inner => as_metadata inner | _ => None end.

Fixpoint is_connector_missing (e : Error) : bool :=
  match e with ErrConnectorMissing => true | Wrap _ _ inner => is_connector_missing inner | _ => false end.

(** ** Facts *)
Record ColumnFacts : Type := mkColumnFacts { cf_Type : PGType; NotNull : bool }.

Record TableFacts : Type := mkTableFacts {
  tf_Exists : bool; tf_Columns : gmap string ColumnFacts; SerialUniqueIndex : bool }.

Inductive PublicationMode : Type := PublicationManaged | PublicationExternal.

Definition ConnectorState : Type := string.
Definition StateRunning : ConnectorState := "RUNNING".

Record Status : Type := mkStatus {
  st_Connector : ConnectorState; Tasks : list ConnectorState; Failed : bool; Trace : string }.

Record SlotStatus : Type := mkSlotStatus { sl_Exists : bool; WALStatus : string }.
Definition WALUnreserved : string := "unreserved".
Definition WALLost : string := "lost".

Record TopicFacts : Type := mkTopicFacts {
  to_Exists : bool; to_ID : list Z; to_Partitions : Z; Replicas : gmap Z Z }.

Definition historyLost (slot : SlotStatus) : bool :=
  str_eqb (WALStatus slot) WALLost || str_eqb (WALStatus slot) WALUnreserved.

Definition tasksRunning (tasks : list ConnectorState) : bool :=
  negb (existsb (fun t => negb (str_eqb t StateRunning)) tasks).

Definition captureReady (status : Status) (slot : SlotStatus) : bool :=
  str_eqb (st_Connector status) StateRunning && (0 <? length (Tasks status))%nat && negb (Failed status) &&
  tasksRunning (Tasks status) && sl_Exists slot && negb (historyLost slot).

(** ** The capture contract *)
Definition eventIDColumnName : string := "event_id".

Fixpoint configuredColumns_loop (src : Source) (facts : TableFacts) (names missing : list string)
  (columns : list Column) : result Error (list string * list Column) :=
  match names with
  | [] => Ok (missing, columns)
  | name :: names =>
      match tf_Columns facts !! name with
      | None => configuredColumns_loop src facts names (missing ++ [name]) columns
      | Some column =>
          if negb (Supported (cf_Type column)) then
            Err (contractFor (SrcTable src) "column %q has unsupported type %q" [name; cf_Type column])
          else configuredColumns_loop src facts names missing (columns ++ [mkColumn name (cf_Type column)])
      end
  end.

Fixpoint join_comma (l : list string) : string :=
  match l with [] => "" | [s] => s | s :: l => s +:+ ", " +:+ join_comma l end.

Definition configuredColumns (src : Source) (facts : TableFacts) : result Error (list Column) :=
  '(missing, columns) ← configuredColumns_loop src facts (SrcColumns src) [] [];
  _ ← reject_if (negb (bool_decide (missing = [])))
        (contractFor (SrcTable src) "missing configured columns: %s" [join_comma missing]);
  Ok columns.

Definition checkSerialColumn (src : Source) (facts : TableFacts) : result Error unit :=
  let contract := contractFor (SrcTable src) in
  match tf_Columns facts !! SrcSerialColumn src with
  | None => Err (contract "serialColumn %q not found" [SrcSerialColumn src])
  | Some serial =>
      if negb (Integer (cf_Type serial)) then
        Err (contract "serialColumn %q must be int2, int4, or int8, got %q" [SrcSerialColumn src; cf_Type serial])
      else if negb (NotNull serial) then Err (contract "serialColumn %q must be NOT NULL" [SrcSerialColumn src])
      else reject_if (negb (SerialUniqueIndex facts))
             (contract "serialColumn %q has no unique or primary-key index on it alone" [SrcSerialColumn src])
  end.

Definition checkPartitioningColumn (src : Source) (facts : TableFacts) : result Error unit :=
  let contract := contractFor (SrcTable src) in
  match tf_Columns facts !! SrcPartitioningColumn src with
  | None => Err (contract "partitioningColumn %q not found" [SrcPartitioningColumn src])
  | Some partitioning =>
      reject_if (negb (NotNull partitioning))
        (contract "partitioningColumn %q must be NOT NULL" [SrcPartitioningColumn src])
  end.

Definition eventIDColumn (columns : list string) : string :=
  if str_mem eventIDColumnName columns then eventIDColumnName else "".

Definition IdentityFrom (src : Source) (facts : TableFacts) (partitions : Z) : result Error Identity :=
  _ ← reject_if (negb (tf_Exists facts)) (contractFor (SrcTable src) "does not exist" []);
  columns ← configuredColumns src facts;
  _ ← checkSerialColumn src facts;
  _ ← checkPartitioningColumn src facts;
  Ok (mkIdentity (SrcTable src) (SrcSerialColumn src) (SrcPartitioningColumn src)
        (eventIDColumn (SrcColumns src)) partitions columns).

(** ** Names *)

(** [json.Marshal] of an array of strings. *)
Definition array_text (l : list string) : string := String "[" (commas (map MarshalString l) +:+ "]").

Definition name_prefix (namespace environment : string) (src : Source) (generation : Generation) : string :=
  let identity := array_text [namespace; environment; ID src; GenString generation] in
  "postie_g" +:+ GenString generation +:+ "_" +:+ EncodeToString (take 14 (Sum256 identity)).

Definition NamesFor (namespace environment : string) (src : Source) (generation : Generation) : Names :=
  let prefix := name_prefix namespace environment src generation in
  mkNames prefix (prefix +:+ ".public." +:+ SrcTable src) (prefix +:+ "_connector")
    (prefix +:+ "_slot") (prefix +:+ "_pub").

(** ** The outside world *)
Class Infra (W : Type) : Type := {
  InspectTable : string -> Act W (result Error TableFacts);
  SlotHealth : string -> string -> Act W (result Error SlotStatus);
  EnsureTopic : Names -> Z -> Z -> Act W (result Error (list Z));
  TopicOf : string -> Act W (result Error TopicFacts);
  EnsureConnector : Source -> Identity -> Names -> PublicationMode -> Act W (result Error unit);
  ConnectorStatus : string -> Act W (result Error Status);
  GetStream : Scope -> string -> Act W (result Error (option Registration));
  RegisterStream : Scope -> Registration -> Act W (result Error unit);
  BlockSource : Scope -> string -> string -> Act W (result Error unit);
  PollWait : Act W bool }.              (* [awaitCapture]'s select: whether ctx is done *)

(** [Service]'s settings; [Sources] holds a client for every configured
    source, and [inspector] is the client of that source. *)
Record Service : Type := mkService {
  sv_Scope : Scope;
  sv_Partitions : Z;                    (* int32 *)
  sv_Replication : Z;                   (* int16 *)
  sv_Publications : gmap string string }.

Definition captureNames (s : Service) (source : Source) : Names * PublicationMode :=
  let names := NamesFor (Namespace (sv_Scope s)) (Environment (sv_Scope s)) source (ScopeGeneration (sv_Scope s)) in
  let external := default "" (sv_Publications s !! ID source) in
  if negb (str_eqb external "") then
    (mkNames (TopicPrefix names) (Topic names) (Connector names) (Slot names) external, PublicationExternal)
  else (names, PublicationManaged).

(** The partitions in ascending order, looking for the first wrong count. *)
Fixpoint replication_loop (topic : string) (partitions : list Z) (replicas : gmap Z Z) (replication : Z) : result Error unit :=
  match partitions with
  | [] => Ok tt
  | p :: partitions =>
      let count := default 0 (replicas !! p) in
      if negb (count =? replication) then
        Err (Plain (Errorf "capture: topic %q partition %d has %d replicas, want %d"
               [topic; Itoa p; Itoa count; Itoa replication]))
      else replication_loop topic partitions replicas replication
  end.

Definition validateReplication (topic : string) (facts : TopicFacts) (replication : Z) : result Error unit :=
  replication_loop topic (merge_sort Z.le (map fst (map_to_list (Replicas facts)))) (Replicas facts) replication.

(** ** Inspection *)
Inductive health : Type := healthRunning | healthBlocked | healthUnavailable.

Definition healthText (h : health) : string :=
  match h with healthRunning => "running" | healthBlocked => "blocked" | healthUnavailable => "unavailable" end.

(** A finding; none is the zero value. *)
Definition finding : Type := option (health * string).
Definition blocked (reason : string) : finding := Some (healthBlocked, reason).
Definition unavailable (reason : string) : finding := Some (healthUnavailable, reason).

Definition tableFailure (e : Error) : finding :=
  if isContract e then blocked "source table violates capture contract" else unavailable "source database unavailable".

Definition topicFailure (e : Error) : string :=
  match as_metadata e with
  | None => "Kafka metadata unavailable"
  | Some (true, cause) => ErrorText cause
  | Some (false, _) => "Kafka topic unavailable"
  end.

Definition inspectNames (registered : Registration) (names : Names) : finding :=
  if bool_decide (RegNames registered = names) then None else blocked "stream configuration changed".

(** What each answer says, without the call that got it. *)
Definition identityFinding (s : Service) (source : Source) (registered : Registration) (answer : result Error TableFacts) : finding :=
  match answer with
  | Err e => tableFailure e
  | Ok facts =>
      match IdentityFrom source facts (sv_Partitions s) with
      | Err e => tableFailure e
      | Ok current => if bool_decide (current = RegIdentity registered) then None else blocked "stream identity changed"
      end
  end.

Definition topicFinding (s : Service) (names : Names) (registered : Registration) (answer : result Error TopicFacts) : finding :=
  match answer with
  | Err e => unavailable (topicFailure e)
  | Ok details =>
      if negb (to_Exists details) then blocked "established topic missing"
      else match validateReplication (Topic names) details (sv_Replication s) with
      | Err e => unavailable (ErrorText e)
      | Ok _ =>
          if negb (bool_decide (to_ID details = TopicID registered)) ||
             negb (to_Partitions details =? Partitions (RegIdentity registered))
          then blocked "topic identity changed" else None
      end
  end.

Definition slotFinding (answer : result Error SlotStatus) : finding :=
  match answer with
  | Err _ => unavailable "replication slot health unavailable"
  | Ok slot => if negb (sl_Exists slot) || historyLost slot then blocked "replication slot or WAL history lost" else None
  end.

Definition connectorFinding (answer : result Error Status) : finding :=
  match answer with
  | Err e => if is_connector_missing e then blocked "established connector missing" else unavailable "capture connector unavailable"
  | Ok status =>
      if Failed status || negb (str_eqb (st_Connector status) StateRunning) || bool_decide (Tasks status = [])
      then unavailable "capture connector unavailable"
      else if negb (tasksRunning (Tasks status)) then unavailable "capture task unavailable" else None
  end.

Section Programs.
Context {W : Type} `{Infra W}.

Definition inspectIdentity (s : Service) (source : Source) (registered : Registration) : Act W finding :=
  answer ← InspectTable (ID source); mret (identityFinding s source registered answer).

Definition inspectTopic (s : Service) (names : Names) (registered : Registration) : Act W finding :=
  answer ← TopicOf (Topic names); mret (topicFinding s names registered answer).

Definition inspectSlot (source : Source) (names : Names) : Act W finding :=
  answer ← SlotHealth (ID source) (Slot names); mret (slotFinding answer).

Definition inspectConnector (names : Names) : Act W finding :=
  answer ← ConnectorStatus (Connector names); mret (connectorFinding answer).

(** The first finding of a list of checks. *)
Fixpoint first_finding (checks : list (Act W finding)) : Act W finding :=
  match checks with
  | [] => mret None
  | check :: checks => f ← check; match f with Some _ => mret f | None => first_finding checks end
  end.

Definition InspectSource (s : Service) (source : Source) (registered : Registration) : Act W (health * string) :=
  let names := (captureNames s source).1 in
  f ← first_finding [
        inspectIdentity s source registered;
        mret (inspectNames registered names);
        inspectTopic s names registered;
        inspectSlot source names;
        inspectConnector names ];
  mret (default (healthRunning, "") f).

(** ** Verification of a registered stream *)
Definition topicVerdict (s : Service) (source : Source) (ident : Identity) (names : Names) (registered : Registration)
  (answer : result Error TopicFacts) : result Error unit :=
  let contract := contractFor (SrcTable source) in
  match answer with
  | Err e =>
      match as_metadata e with
      | Some (true, _) => Err e
      | _ => Err (Plain (Errorf "topic inspection unavailable" []))
      end
  | Ok details =>
      _ ← reject_if (negb (to_Exists details)) (contract "established topic is missing" []);
      _ ← validateReplication (Topic names) details (sv_Replication s);
      _ ← reject_if (negb (bool_decide (to_ID details = TopicID registered)))
            (contract "established topic has a different UUID" []);
      reject_if (negb (to_Partitions details =? Partitions ident)) (contract "established partition count changed" [])
  end.

Definition validateTopic (s : Service) (source : Source) (ident : Identity) (names : Names) (registered : Registration) :
  Act W (result Error unit) :=
  answer ← TopicOf (Topic names); mret (topicVerdict s source ident names registered answer).

Definition slotVerdict (source : Source) (answer : result Error SlotStatus) : result Error unit :=
  let contract := contractFor (SrcTable source) in
  match answer with
  | Err _ => Err (Plain (Errorf "slot inspection unavailable" []))
  | Ok slot =>
      _ ← reject_if (negb (sl_Exists slot)) (contract "established slot is missing" []);
      reject_if (historyLost slot) (contract "established slot has lost WAL history" [])
  end.

Definition validateSlot (source : Source) (names : Names) : Act W (result Error unit) :=
  answer ← SlotHealth (ID source) (Slot names); mret (slotVerdict source answer).

Definition connectorVerdict (source : Source) (answer : result Error Status) : result Error unit :=
  match answer with
  | Err e => if is_connector_missing e then Err (contractFor (SrcTable source) "established connector is missing" [])
             else Err (Plain (Errorf "connector is unavailable" []))
  | Ok status => reject_if (Failed status) (Plain (Errorf "connector is unavailable" []))
  end.

Definition validateConnector (source : Source) (names : Names) : Act W (result Error unit) :=
  answer ← ConnectorStatus (Connector names); mret (connectorVerdict source answer).

Definition validateRegisteredStream (s : Service) (source : Source) (ident : Identity) (names : Names)
  (registered : Registration) : Act W (result Error unit) :=
  let contract := contractFor (SrcTable source) in
  _ <~ stop_if (negb (bool_decide (RegIdentity registered = ident)))
         (contract "established identity differs from the source table" []);
  _ <~ stop_if (negb (bool_decide (RegNames registered = names)))
         (contract "established capture names differ from configuration" []);
  _ <~ validateTopic s source ident names registered;
  _ <~ validateSlot source names;
  validateConnector source names.

(** ** Provisioning *)
Definition confirmEstablished (s : Service) (source : Source) (ident : Identity) (names : Names)
  (registered : Registration) : Act W (result Error Registration) :=
  if negb (str_eqb (Blocked registered) "") then
    throw (Plain (Errorf "control: source is blocked: %s" [Blocked registered]))
  else
    r ← validateRegisteredStream s source ident names registered;
    match r with
    | Ok _ => give registered
    | Err e =>
        if negb (isContract e) then
          throw (Wrap "capture health could not be verified; retry provisioning: %w" [] e)
        else
          let reason := ErrorText e in
          b ← BlockSource (sv_Scope s) (ID source) reason;
          match b with
          | Err blockErr => throw (Wrap "%v; block source: %w" [ErrorText e] blockErr)
          | Ok _ => throw (Plain (Errorf "control: source blocked: %s" [reason]))
          end
    end.

(** Polls until the capture is ready or ctx ends; [None] when fuel runs out. *)
Fixpoint awaitCapture (fuel : nat) (source : string) (names : Names) (w : W) : option (result Error unit * W) :=
  let '(status, w) := ConnectorStatus (Connector names) w in
  let '(slot, w) := SlotHealth source (Slot names) w in
  if match status, slot with Ok st, Ok sl => captureReady st sl | _, _ => false end then Some (Ok tt, w)
  else
    let '(over, w) := PollWait w in
    if over then Some (Err (Plain (Errorf "capture did not become ready before provisioning timed out" [])), w)
    else match fuel with
    | O => None
    | S fuel => awaitCapture fuel source names w
    end.

Definition establish (fuel : nat) (s : Service) (source : Source) (ident : Identity) (names : Names)
  (publication : PublicationMode) (w : W) : option (result Error Registration * W) :=
  let '(r, w) := EnsureTopic names (Partitions ident) (sv_Replication s) w in
  match r with
  | Err e => Some (Err e, w)
  | Ok topicID =>
      let '(r, w) := EnsureConnector source ident names publication w in
      match r with
      | Err e => Some (Err e, w)
      | Ok _ =>
          '(r, w) ← awaitCapture fuel (ID source) names w;
          match r with
          | Err e => Some (Err e, w)
          | Ok _ =>
              let registered := mkRegistration (ID source) ident names topicID "" in
              let '(r, w) := RegisterStream (sv_Scope s) registered w in
              match r with
              | Err e => Some (Err e, w)
              | Ok _ => Some (Ok registered, w)
              end
          end
      end
  end.

Definition ProvisionSource (fuel : nat) (s : Service) (source : Source) (w : W) : option (result Error Registration * W) :=
  let '(facts, w) := InspectTable (ID source) w in
  match facts with
  | Err e => Some (Err e, w)
  | Ok facts =>
      match IdentityFrom source facts (sv_Partitions s) with
      | Err e => Some (Err e, w)
      | Ok ident =>
          let '(names, publication) := captureNames s source in
          let '(found, w) := GetStream (sv_Scope s) (ID source) w in
          match found with
          | Err e => Some (Err e, w)
          | Ok (Some registered) => Some (confirmEstablished s source ident names registered w)
          | Ok None => establish fuel s source ident names publication w
          end
      end
  end.
End Programs.

(** ** Lemmas: the contract *)
Definition contract_ok (src : Source) (facts : TableFacts) : Prop :=
  tf_Exists facts = true /\
  (forall n, n ∈ SrcColumns src -> exists c, tf_Columns facts !! n = Some c /\ Supported (cf_Type c) = true) /\
  (exists c, tf_Columns facts !! SrcSerialColumn src = Some c /\ Integer (cf_Type c) = true /\ NotNull c = true) /\
  SerialUniqueIndex facts = true /\
  (exists c, tf_Columns facts !! SrcPartitioningColumn src = Some c /\ NotNull c = true).

Definition column_of (facts : TableFacts) (n : string) : Column :=
  mkColumn n (default "" (cf_Type <$> tf_Columns facts !! n)).

Definition identity_of (src : Source) (facts : TableFacts) (partitions : Z) : Identity :=
  mkIdentity (SrcTable src) (SrcSerialColumn src) (SrcPartitioningColumn src)
    (if str_mem "event_id" (SrcColumns src) then "event_id" else "") partitions
    (map (column_of facts) (SrcColumns src)).

Lemma columns_loop_ok (src : Source) (facts : TableFacts) (names missing m' : list string) (cols cs' : list Column) :
  configuredColumns_loop src facts names missing cols = Ok (m', cs') /\ m' = [] <->
  missing = [] /\ m' = [] /\ cs' = cols ++ map (column_of facts) names /\
  (forall n, n ∈ names -> exists c, tf_Columns facts !! n = Some c /\ Supported (cf_Type c) = true).
Proof.
  revert missing cols. induction names as [|n names IH]; intros missing cols.
  - cbn [configuredColumns_loop map]. rewrite app_nil_r. split.
    + intros [[= -> ->] ->]. split_and!; [done..|]. by intros n ?%not_elem_of_nil.
    + naive_solver.
  - cbn [configuredColumns_loop map]. setoid_rewrite elem_of_cons. destruct (tf_Columns facts !! n) as [c|] eqn:Hc.
    + destruct (Supported (cf_Type c)) eqn:Hs; cbn [negb].
      * rewrite IH. unfold column_of at 2. rewrite Hc. cbn [fmap option_fmap option_map default]. rewrite <- app_assoc. naive_solver.
      * split; [naive_solver|]. intros (_ & _ & _ & Hall). destruct (Hall n) as (c' & Hc' & Hs'); [by left|]. congruence.
    + rewrite IH. split; [intros (Hm & _); by apply app_nil in Hm as [_ ?]|].
      intros (_ & _ & _ & Hall). destruct (Hall n) as (c' & Hc' & _); [by left|]. congruence.
Qed.

Lemma configuredColumns_ok (src : Source) (facts : TableFacts) (cs : list Column) :
  configuredColumns src facts = Ok cs <->
  cs = map (column_of facts) (SrcColumns src) /\
  (forall n, n ∈ SrcColumns src -> exists c, tf_Columns facts !! n = Some c /\ Supported (cf_Type c) = true).
Proof.
  pose proof (columns_loop_ok src facts (SrcColumns src) []) as H.
  unfold configuredColumns. rewrite bind_Ok. split.
  - intros ([m cs'] & Hl & Hr). apply reject_bind in Hr as [Hm [= <-]].
    rewrite negb_false_iff, bool_decide_eq_true in Hm.
    destruct (proj1 (H m [] cs') (conj Hl Hm)) as (_ & _ & -> & ?). done.
  - intros [-> Hall]. destruct (proj2 (H [] [] (map (column_of facts) (SrcColumns src)))) as [Hl _]; [done|].
    eexists. split; [exact Hl|]. done.
Qed.

Lemma identity_from_ok (src : Source) (facts : TableFacts) (partitions : Z) (ident : Identity) :
  IdentityFrom src facts partitions = Ok ident <->
  contract_ok src facts /\ ident = identity_of src facts partitions.
Proof.
  unfold IdentityFrom, contract_ok, identity_of, eventIDColumn, eventIDColumnName, checkSerialColumn, checkPartitioningColumn.
  rewrite reject_bind, bind_Ok. setoid_rewrite configuredColumns_ok. setoid_rewrite bind_Ok. setoid_rewrite bind_Ok.
  rewrite negb_false_iff. split.
  - intros (He & cs & (-> & Hall) & ([] & Hs & [] & Hp & [= <-])).
    destruct (tf_Columns facts !! SrcSerialColumn src) as [sc|]; [|done].
    destruct (tf_Columns facts !! SrcPartitioningColumn src) as [pc|]; [|done].
    destruct (Integer (cf_Type sc)) eqn:Hi; [|done]. destruct (NotNull sc) eqn:Hn; [|done]. cbn in Hs.
    apply reject_if_Ok, negb_false_iff in Hs, Hp. split; [|done]. naive_solver.
  - intros ((He & Hall & (sc & -> & Hi & Hn) & Hu & (pc & -> & Hp)) & ->). split; [done|].
    eexists. split; [done|]. rewrite Hi, Hn, Hu, Hp. cbn. by exists tt; split; [|exists tt].
Qed.

(** Every broken rule is reported as the table's contract error. *)
Lemma configuredColumns_err (src : Source) (facts : TableFacts) (e : Error) :
  configuredColumns src facts = Err e -> exists reason, e = ContractError (SrcTable src) reason.
Proof.
  assert (forall names m cs, configuredColumns_loop src facts names m cs = Err e -> exists reason, e = ContractError (SrcTable src) reason) as Hloop.
  { induction names as [|n names IH]; intros m cs; cbn; [done|]. destruct (tf_Columns facts !! n) as [c|]; [|apply IH].
    destruct (Supported (cf_Type c)); cbn; [apply IH|]. intros [= <-]. by eexists. }
  unfold configuredColumns. rewrite bind_Err. intros [H|([m cs] & _ & H)]; [by eapply Hloop|].
  unfold reject_if in H. case_match; cbn in H; [|done]. injection H as <-. by eexists.
Qed.

Lemma identity_from_err (src : Source) (facts : TableFacts) (partitions : Z) (e : Error) :
  IdentityFrom src facts partitions = Err e -> exists reason, e = ContractError (SrcTable src) reason.
Proof.
  unfold IdentityFrom, checkSerialColumn, checkPartitioningColumn, reject_if. intros H.
  destruct (negb (tf_Exists facts)); cbn in H; [injection H as <-; by eexists|].
  destruct (configuredColumns src facts) as [cs|e'] eqn:Hc; cbn in H; [|injection H as <-; by eapply configuredColumns_err].
  repeat (case_match; cbn in H; simplify_eq); by eexists.
Qed.

(** ** Lemmas: names *)
Lemma array_text_print (l : list string) :
  l <> [] -> array_text l = print (CArr "" (map (fun s => Elem "" (CStr (quote_body s)) "") l)) /\
  wf 0 (CArr "" (map (fun s => Elem "" (CStr (quote_body s)) "") l)) = true.
Proof.
  intros Hne. split.
  - unfold array_text. cbn [print]. rewrite str_app_nil_l, map_map. do 3 f_equal. apply map_ext. intros s.
    cbn [e_pre e_val e_post]. by rewrite str_app_nil_r.
  - cbn [wf]. rewrite !andb_true_iff. split_and!; [done|done|by destruct l|].
    apply forallb_forall. intros e (s & <- & _)%in_map_iff. cbn [e_pre e_val e_post wf]. by rewrite quote_wf.
Qed.

Lemma array_text_inj (l k : list string) :
  l <> [] -> k <> [] -> Forall (fun s => ValidUTF8 s = true) l -> Forall (fun s => ValidUTF8 s = true) k ->
  array_text l = array_text k -> l = k.
Proof.
  intros Hl Hk Vl Vk Heq. destruct (array_text_print l Hl) as [Pl Wl], (array_text_print k Hk) as [Pk Wk].
  pose proof (parse_print _ Wl) as Hp. rewrite <- Pl, Heq, Pk, (parse_print _ Wk) in Hp. injection Hp as Hp.
  clear -Hp Vl Vk. revert k Vk Hp. induction Vl as [|s l Hs Vl IH]; intros k Vk; destruct Vk as [|t k Ht Vk]; [done..|].
  cbn [map]. intros [= H1 H2]. rewrite (IH k Vk H2). f_equal. symmetry. by apply quote_body_inj.
Qed.

Lemma str_app_split (a b c d : string) : String.length b = String.length d -> a +:+ b = c +:+ d -> a = c /\ b = d.
Proof.
  intros Hl. revert c. induction a as [|x a IH]; intros [|y c] H; cbn in H; [done|..].
  - apply (f_equal String.length) in H. cbn in H. rewrite str_length_app in H. lia.
  - apply (f_equal String.length) in H. cbn in H. rewrite str_length_app in H. lia.
  - injection H as -> H. by destruct (IH c H) as [-> ->].
Qed.

Definition digest14 (s : string) : list Z := take 14 (Sum256 s).

Lemma digest14_shape (s : string) : bytes_ok (digest14 s) /\ String.length (EncodeToString (digest14 s)) = 28%nat.
Proof.
  destruct (Sum256_shape s) as [H1 H2]. unfold digest14. split; [by apply Forall_take|].
  rewrite hex_length, length_take, H2. done.
Qed.

Lemma name_prefix_inj (n e n' e' : string) (src src' : Source) (g g' : Generation) :
  name_prefix n e src g = name_prefix n' e' src' g' ->
  g = g' /\ digest14 (array_text [n; e; ID src; GenString g]) = digest14 (array_text [n'; e'; ID src'; GenString g']).
Proof.
  unfold name_prefix. fold (digest14 (array_text [n; e; ID src; GenString g])).
  fold (digest14 (array_text [n'; e'; ID src'; GenString g'])).
  destruct (digest14_shape (array_text [n; e; ID src; GenString g])) as [B1 L1].
  destruct (digest14_shape (array_text [n'; e'; ID src'; GenString g'])) as [B2 L2].
  rewrite <- !str_app_assoc. intros H. apply str_app_split in H as [H Hd]; [|congruence].
  split; [|by apply hex_inj]. apply str_app_split in H as [H _]; [|done].
  change ("postie_g" +:+ GenString g = "postie_g" +:+ GenString g') in H. cbn in H. injection H as H. by apply Itoa_inj.
Qed.

Lemma slot_length (n e : string) (src : Source) (g : Generation) : 1 <= g < 2 ^ 63 ->
  (String.length (Slot (NamesFor n e src g)) <= 61)%nat.
Proof.
  intros Hg. unfold NamesFor, name_prefix. cbn [Slot].
  destruct (digest14_shape (array_text [n; e; ID src; GenString g])) as [_ L]. unfold digest14 in L.
  rewrite !str_length_app, L. cbn [String.length].
  destruct (FormatUint_spec g) as (_ & _ & _ & Hlen); [lia|]. specialize (Hlen 19 ltac:(lia) ltac:(lia)).
  unfold GenString, Itoa. rewrite (proj2 (Z.ltb_ge g 0)) by lia. lia.
Qed.

(** ** Traces: every call with its answer *)
Inductive event : Type :=
| EvTable (source : string) (answer : result Error TableFacts)
| EvSlot (source slot : string) (answer : result Error SlotStatus)
| EvEnsureTopic (names : Names) (partitions replication : Z) (answer : result Error (list Z))
| EvTopic (topic : string) (answer : result Error TopicFacts)
| EvEnsureConnector (source : Source) (ident : Identity) (names : Names) (mode : PublicationMode) (answer : result Error unit)
| EvStatus (connector : string) (answer : result Error Status)
| EvGet (scope : Scope) (source : string) (answer : result Error (option Registration))
| EvRegister (scope : Scope) (r : Registration) (answer : result Error unit)
| EvBlock (scope : Scope) (source reason : string) (answer : result Error unit)
| EvWait (over : bool).

Record Traced (W : Type) : Type := mkTraced { inner : W; events : list event }.
Arguments mkTraced {W}. Arguments inner {W}. Arguments events {W}.

Definition traced {W A : Type} (ev : A -> event) (f : Act W A) : Act (Traced W) A :=
  fun t => let '(a, w) := f (inner t) in (a, mkTraced w (events t ++ [ev a])).

Lemma traced_eq {W A : Type} (ev : A -> event) (f : Act W A) (w : W) (evs : list event) :
  traced ev f (mkTraced w evs) = let '(a, w') := f w in (a, mkTraced w' (evs ++ [ev a])).
Proof. done. Qed.

#[export] Instance traced_infra {W : Type} `{Infra W} : Infra (Traced W) := {
  InspectTable s := traced (EvTable s) (InspectTable s);
  SlotHealth s n := traced (EvSlot s n) (SlotHealth s n);
  EnsureTopic n p r := traced (EvEnsureTopic n p r) (EnsureTopic n p r);
  TopicOf n := traced (EvTopic n) (TopicOf n);
  EnsureConnector s i n m := traced (EvEnsureConnector s i n m) (EnsureConnector s i n m);
  ConnectorStatus n := traced (EvStatus n) (ConnectorStatus n);
  GetStream sc s := traced (EvGet sc s) (GetStream sc s);
  RegisterStream sc r := traced (EvRegister sc r) (RegisterStream sc r);
  BlockSource sc s r := traced (EvBlock sc s r) (BlockSource sc s r);
  PollWait := traced EvWait PollWait }.

(** *** Replication *)
Lemma replication_loop_ok (topic : string) (ps : list Z) (m : gmap Z Z) (r : Z) (u : unit) :
  replication_loop topic ps m r = Ok u <-> forall p, p ∈ ps -> default 0 (m !! p) = r.
Proof.
  induction ps as [|p ps IH]; cbn [replication_loop].
  - destruct u. split; [by intros _ p ?%not_elem_of_nil|done].
  - setoid_rewrite elem_of_cons. destruct (Z.eqb_spec (default 0 (m !! p)) r) as [He|He]; cbn [negb].
    + rewrite IH. naive_solver.
    + split; [done|]. intros Hall. exfalso. apply He, Hall. by left.
Qed.

Lemma replication_ok (topic : string) (facts : TopicFacts) (r : Z) (u : unit) :
  validateReplication topic facts r = Ok u <-> map_Forall (fun _ c => c = r) (Replicas facts).
Proof.
  unfold validateReplication. rewrite replication_loop_ok. unfold map_Forall. setoid_rewrite merge_sort_Permutation.
  split.
  - intros H p c Hp. specialize (H p). rewrite Hp in H. apply H, list_elem_of_fmap. exists (p, c). split; [done|].
    by apply elem_of_map_to_list.
  - intros H p ((p' & c) & -> & Hp)%list_elem_of_fmap. apply elem_of_map_to_list in Hp. cbn. rewrite Hp. by apply (H p').
Qed.

(** *** What inspection may conclude *)
Section Inspection.
Variables (s : Service) (source : Source) (registered : Registration).
Let names := (captureNames s source).1.

Definition topic_intact (d : TopicFacts) : Prop :=
  to_Exists d = true /\ map_Forall (fun _ c => c = sv_Replication s) (Replicas d) /\
  to_ID d = TopicID registered /\ to_Partitions d = Partitions (RegIdentity registered).

Definition slot_intact (sl : SlotStatus) : Prop :=
  sl_Exists sl = true /\ WALStatus sl <> "lost" /\ WALStatus sl <> "unreserved".

Definition connector_running (st : Status) : Prop :=
  Failed st = false /\ st_Connector st = "RUNNING" /\ Tasks st <> [] /\ Forall (fun t => t = "RUNNING") (Tasks st).

(** An answer that shows the established stream is gone or replaced. *)
Definition broken (e : event) : Prop :=
  match e with
  | EvTable _ (Ok facts) => IdentityFrom source facts (sv_Partitions s) <> Ok (RegIdentity registered)
  | EvTable _ (Err e) => isContract e = true
  | EvTopic _ (Ok d) => to_Exists d = false \/
      (map_Forall (fun _ c => c = sv_Replication s) (Replicas d) /\
       (to_ID d <> TopicID registered \/ to_Partitions d <> Partitions (RegIdentity registered)))
  | EvSlot _ _ (Ok sl) => ~ slot_intact sl
  | EvStatus _ (Err e) => is_connector_missing e = true
  | _ => False
  end.

(** An answer that proves nothing about the established stream. *)
Definition inconclusive (e : event) : Prop :=
  match e with
  | EvTable _ (Err e) => isContract e = false
  | EvTopic _ (Err _) => True
  | EvTopic _ (Ok d) => to_Exists d = true /\ ~ map_Forall (fun _ c => c = sv_Replication s) (Replicas d)
  | EvSlot _ _ (Err _) => True
  | EvStatus _ (Err e) => is_connector_missing e = false
  | EvStatus _ (Ok st) => ~ connector_running st
  | _ => False
  end.

(** A finding read as what its answer shows; [intact] is the case of none. *)
Definition finding_means (f : finding) (e : event) (intact : Prop) : Prop :=
  match f with
  | None => intact
  | Some (healthBlocked, _) => broken e
  | Some (healthUnavailable, _) => inconclusive e
  | Some (healthRunning, _) => False
  end.

Lemma identity_means (answer : result Error TableFacts) :
  finding_means (identityFinding s source registered answer) (EvTable (ID source) answer)
    (exists facts, answer = Ok facts /\ IdentityFrom source facts (sv_Partitions s) = Ok (RegIdentity registered)).
Proof.
  destruct answer as [facts|e]; cbn.
  - destruct (IdentityFrom source facts (sv_Partitions s)) as [ident|e] eqn:Hi.
    + case_bool_decide as Hd; cbn; [subst; eauto|]. rewrite Hi. congruence.
    + unfold tableFailure. destruct (identity_from_err _ _ _ _ Hi) as [reason ->]. cbn. by rewrite Hi.
  - unfold tableFailure. by destruct (isContract e) eqn:He.
Qed.

Lemma topic_means (answer : result Error TopicFacts) :
  finding_means (topicFinding s names registered answer) (EvTopic (Topic names) answer)
    (exists d, answer = Ok d /\ topic_intact d).
Proof.
  destruct answer as [d|e]; cbn; [|done]. destruct (to_Exists d) eqn:He; cbn; [|by left].
  destruct (validateReplication (Topic names) d (sv_Replication s)) as [u|e] eqn:Hr.
  - apply (proj1 (replication_ok _ _ _ _)) in Hr.
    destruct (decide (to_ID d = TopicID registered)) as [Hid|Hid];
      [rewrite bool_decide_eq_true_2 by done|rewrite bool_decide_eq_false_2 by done]; cbn;
      [|right; split; [done|by left]].
    destruct (Z.eqb_spec (to_Partitions d) (Partitions (RegIdentity registered))) as [Hp|Hp]; cbn; [by eexists|].
    right. split; [done|by right].
  - cbn. split; [done|]. intros Hall. by rewrite (proj2 (replication_ok (Topic names) d _ tt) Hall) in Hr.
Qed.

Lemma historyLost_iff (sl : SlotStatus) :
  negb (sl_Exists sl) || historyLost sl = false <-> slot_intact sl.
Proof.
  unfold historyLost, slot_intact, WALLost, WALUnreserved. rewrite !orb_false_iff, negb_false_iff, !str_eqb_false. tauto.
Qed.

Lemma slot_means (answer : result Error SlotStatus) :
  finding_means (slotFinding answer) (EvSlot (ID source) (Slot names) answer) (exists sl, answer = Ok sl /\ slot_intact sl).
Proof.
  destruct answer as [sl|e]; cbn; [|done]. destruct (negb (sl_Exists sl) || historyLost sl) eqn:H; cbn.
  - rewrite <- historyLost_iff. congruence.
  - apply historyLost_iff in H. eauto.
Qed.

Lemma tasksRunning_iff (l : list ConnectorState) : tasksRunning l = true <-> Forall (fun t => t = "RUNNING") l.
Proof.
  unfold tasksRunning, StateRunning. rewrite negb_true_iff. induction l as [|t l IH]; [done|].
  cbn [existsb]. rewrite orb_false_iff, negb_false_iff, str_eqb_true, Forall_cons, IH. done.
Qed.

Lemma connector_means (answer : result Error Status) :
  finding_means (connectorFinding answer) (EvStatus (Connector names) answer) (exists st, answer = Ok st /\ connector_running st).
Proof.
  destruct answer as [st|e]; cbn; [|by destruct (is_connector_missing e) eqn:He].
  assert (connector_running st <->
    Failed st || negb (str_eqb (st_Connector st) StateRunning) || bool_decide (Tasks st = []) = false /\ tasksRunning (Tasks st) = true) as H.
  { unfold connector_running, StateRunning. rewrite !orb_false_iff, negb_false_iff, str_eqb_true, (bool_decide_eq_false (Tasks st = [])), tasksRunning_iff. tauto. }
  destruct (_ || _) eqn:Ho; cbn; [intros Hc; apply H in Hc as [? _]; done|].
  destruct (tasksRunning (Tasks st)) eqn:Ht; cbn; [eexists; split; [done|]; by apply H|]. intros [_ ?]%H. done.
Qed.
End Inspection.

(** ** Properties: the contract and the names *)
(** A table is accepted exactly when it exists, every configured column exists
    with a supported type, the serial column is a NOT NULL integer with its
    own unique index and the partitioning column is NOT NULL; the identity is
    then determined, its columns in configuration order, and every refusal is
    a contract error of that table. *)
Theorem identity_from_iff (src : Source) (facts : TableFacts) (partitions : Z) :
  (forall ident, IdentityFrom src facts partitions = Ok ident <->
    contract_ok src facts /\ ident = identity_of src facts partitions) /\
  (forall e, IdentityFrom src facts partitions = Err e -> exists reason, e = ContractError (SrcTable src) reason).
Proof. split; [apply identity_from_ok|]. intros e. apply identity_from_err. Qed.

(** Two streams share a resource prefix — or, for tables, a topic — only if
    they are the same namespace, environment, source and generation, unless
    the first fourteen bytes of two different texts' SHA-256 collide; and slot
    names keep within PostgreSQL's 63 bytes up to the largest generation. *)
Theorem names_unambiguous (n e n' e' : string) (src src' : Source) (g g' : Generation) :
  Forall (fun s => ValidUTF8 s = true) [n; e; ID src; n'; e'; ID src'] ->
  TopicPrefix (NamesFor n e src g) = TopicPrefix (NamesFor n' e' src' g') ->
  g = g' /\
  ((n = n' /\ e = e' /\ ID src = ID src') \/
   exists t t', t <> t' /\ take 14 (Sum256 t) = take 14 (Sum256 t')) /\
  (1 <= g < 2 ^ 63 -> (String.length (Slot (NamesFor n e src g)) <= 63)%nat).
Proof.
  intros Hv H. cbn [NamesFor TopicPrefix] in H. apply name_prefix_inj in H as [<- Hd]. split; [done|].
  assert (ValidUTF8 (GenString g) = true) as Hg.
  { unfold GenString, Itoa. assert (forall c s, is_digit c = true -> valid_utf8_go (String c s) 0 = valid_utf8_go s 0) as Hc.
    { intros c s Hc. cbn. apply is_digit_spec in Hc. unfold digit_val in Hc. rewrite (proj2 (Z.ltb_lt _ _)) by lia.
      rewrite (proj2 (Z.eqb_neq _ _)) by (unfold rune_error; lia). done. }
    assert (forall s, all_digits s = true -> valid_utf8_go s 0 = true) as Hall.
    { induction s as [|c s IH]; [done|]. intros Hs. unfold all_digits in Hs. cbn [str_forallb] in Hs.
      apply andb_true_iff in Hs as [H1 H2]. rewrite Hc by done. by apply IH. }
    assert (forall m, 0 <= m -> ValidUTF8 (FormatUint m) = true) as Hm by (intros m Hm; by apply Hall, FormatUint_spec).
    destruct (Z.ltb_spec g 0); [|by apply Hm]. apply (Hm (- g)). lia. }
  split; [|intros Hr; pose proof (slot_length n e src g Hr); lia].
  destruct (decide (array_text [n; e; ID src; GenString g] = array_text [n'; e'; ID src'; GenString g])) as [Heq|Hne].
  - left. apply array_text_inj in Heq; [|done|done| |].
    + injection Heq as -> -> Hi. done.
    + clear -Hv Hg. decompose_Forall_hyps. repeat (apply Forall_cons_2; [done|]). by apply Forall_nil_2.
    + clear -Hv Hg. decompose_Forall_hyps. repeat (apply Forall_cons_2; [done|]). by apply Forall_nil_2.
  - right. by exists (array_text [n; e; ID src; GenString g]), (array_text [n'; e'; ID src'; GenString g]).
Qed.

Lemma names_unambiguous_witness :
  let src := mkSource "orders" "" "orders" [] "" "" in
  (1:Z) = 1 /\
  (("acme" = "acme" /\ "prod" = "prod" /\ ID src = ID src) \/
   exists t t', t <> t' /\ take 14 (Sum256 t) = take 14 (Sum256 t')) /\
  (1 <= 1 < 2 ^ 63 -> (String.length (Slot (NamesFor "acme" "prod" src 1%Z)) <= 63)%nat).
Proof.
  set (src := mkSource "orders" "" "orders" [] "" ""). cbn zeta.
  apply (names_unambiguous "acme" "prod" "acme" "prod" src src 1%Z 1%Z);
    [repeat (apply Forall_cons_2; [vm_compute; reflexivity|]); apply Forall_nil_2|reflexivity].
Defined.

Section InspectionProperties.
Context {W : Type} `{Infra W}.

(** C19. Inspection reports "running" only when the table still gives the
    registered identity, the names are the registered ones, the topic, slot
    and connector were all asked and all are intact; "blocked" only on names
    that changed or an answer that shows the established stream gone or
    replaced — never on a call that failed to answer; and "unavailable" only
    on an answer that shows neither. *)
Theorem inspect_sound (s : Service) (source : Source) (registered : Registration) (w : W) (evs : list event) :
  let names := (captureNames s source).1 in
  let '((h, reason), t) := InspectSource (W := Traced W) s source registered (mkTraced w evs) in
  exists new, events t = evs ++ new /\
  match h with
  | healthRunning =>
      reason = "" /\ RegNames registered = names /\
      exists facts d sl st,
        new = [EvTable (ID source) (Ok facts); EvTopic (Topic names) (Ok d);
               EvSlot (ID source) (Slot names) (Ok sl); EvStatus (Connector names) (Ok st)] /\
        IdentityFrom source facts (sv_Partitions s) = Ok (RegIdentity registered) /\
        topic_intact s registered d /\ slot_intact sl /\ connector_running st
  | healthBlocked => RegNames registered <> names \/ exists e, last new = Some e /\ broken s source registered e
  | healthUnavailable => exists e, last new = Some e /\ inconclusive s e
  end.
Proof.
  cbn zeta. set (names := (captureNames s source).1).
  unfold InspectSource. fold names. cbn [first_finding].
  unfold inspectIdentity, inspectTopic, inspectSlot, inspectConnector, mbind, mret, act_bind, act_ret.
  cbn -[identityFinding topicFinding slotFinding connectorFinding captureNames].
  rewrite traced_eq. destruct (InspectTable (ID source) w) as [a1 w1].
  pose proof (identity_means s source registered a1) as M1.
  destruct (identityFinding s source registered a1) as [[h r]|].
  { eexists. split; [done|]. destruct h; [done| |]; [right|]; eexists; (split; [done|exact M1]). }
  destruct M1 as (facts & -> & Hident).
  unfold inspectNames. case_bool_decide as Hn; cbn -[topicFinding slotFinding connectorFinding captureNames];
    [|eexists; split; [done|]; by left].
  rewrite traced_eq. destruct (TopicOf (Topic names) w1) as [a2 w2].
  pose proof (topic_means s source registered a2) as M2. fold names in M2.
  destruct (topicFinding s names registered a2) as [[h r]|].
  { eexists. split; [cbn; by rewrite <- app_assoc|]. destruct h; [done| |]; [right|]; eexists; (split; [done|exact M2]). }
  destruct M2 as (d & -> & Hd). cbn -[slotFinding connectorFinding captureNames].
  rewrite traced_eq. destruct (SlotHealth (ID source) (Slot names) w2) as [a3 w3].
  pose proof (slot_means s source registered a3) as M3. fold names in M3.
  destruct (slotFinding a3) as [[h r]|].
  { eexists. split; [cbn; by rewrite <- !app_assoc|]. destruct h; [done| |]; [right|]; eexists; (split; [done|exact M3]). }
  destruct M3 as (sl & -> & Hsl). cbn -[connectorFinding captureNames].
  rewrite traced_eq. destruct (ConnectorStatus (Connector names) w3) as [a4 w4].
  pose proof (connector_means s source registered a4) as M4. fold names in M4.
  destruct (connectorFinding a4) as [[h r]|].
  { eexists. split; [cbn; by rewrite <- !app_assoc|]. destruct h; [done| |]; [right|]; eexists; (split; [done|exact M4]). }
  destruct M4 as (st & -> & Hst). eexists. split; [cbn; by rewrite <- !app_assoc|].
  split; [done|]. split; [done|]. exists facts, d, sl, st. done.
Qed.

(** A blocked source comes with a reason. *)
Definition explained (f : finding) : Prop := match f with Some (healthBlocked, reason) => reason <> "" | _ => True end.

Lemma findings_explained (s : Service) (source : Source) (registered : Registration) (names : Names) :
  (forall a, explained (identityFinding s source registered a)) /\ explained (inspectNames registered names) /\
  (forall a, explained (topicFinding s names registered a)) /\ (forall a, explained (slotFinding a)) /\
  (forall a, explained (connectorFinding a)).
Proof.
  unfold identityFinding, tableFailure, inspectNames, topicFinding, slotFinding, connectorFinding.
  split_and!; intros; repeat case_match; done.
Qed.

Lemma inspect_reason (s : Service) (source : Source) (registered : Registration) (w : W) :
  (InspectSource s source registered w).1.1 = healthBlocked -> (InspectSource s source registered w).1.2 <> "".
Proof.
  set (names := (captureNames s source).1). destruct (findings_explained s source registered names) as (H1 & H2 & H3 & H4 & H5).
  assert (forall (checks : list (Act W finding)) v, Forall (fun c => forall w, explained (c w).1) checks -> explained (first_finding checks v).1) as Hall.
  { induction checks as [|c checks IH]; intros v Hc; [done|]. apply Forall_cons in Hc as [Hc Hcs]. cbn [first_finding].
    unfold mbind, act_bind. specialize (Hc v). destruct (c v) as [[f|] v']; [done|by apply IH]. }
  unfold InspectSource. fold names. set (checks := [inspectIdentity s source registered; _; _; _; _]).
  assert (explained (first_finding checks w).1) as He.
  { apply Hall. unfold checks, inspectIdentity, inspectTopic, inspectSlot, inspectConnector, mbind, act_bind.
    repeat apply Forall_cons_2; try apply Forall_nil_2; intros v; try apply H2;
      match goal with |- context [let '(_, _) := ?x in _] => destruct x end; cbn; auto. }
  unfold mbind, act_bind, mret, act_ret. destruct (first_finding checks w) as [[[h r]|] w']; [|done]. cbn in He |- *. intros ->. by apply He.
Qed.
End InspectionProperties.

(** ** Monitoring and provisioning agree

    A world that answers every question the same way each time. *)
Record Snapshot : Type := mkSnapshot {
  sn_table : string -> result Error TableFacts;
  sn_slot : string -> string -> result Error SlotStatus;
  sn_topic : string -> result Error TopicFacts;
  sn_status : string -> result Error Status;
  sn_stream : result Error (option Registration) }.

#[export] Instance snapshot_infra : Infra Snapshot := {
  InspectTable s w := (sn_table w s, w);
  SlotHealth s n w := (sn_slot w s n, w);
  EnsureTopic _ _ _ w := (Err (Plain Canceled), w);
  TopicOf n w := (sn_topic w n, w);
  EnsureConnector _ _ _ _ w := (Err (Plain Canceled), w);
  ConnectorStatus n w := (sn_status w n, w);
  GetStream _ _ w := (sn_stream w, w);
  RegisterStream _ _ w := (Err (Plain Canceled), w);
  BlockSource _ _ _ w := (Ok tt, w);
  PollWait w := (true, w) }.

(** The finding and the verdict on one answer, side by side. *)
Definition agree (f : finding) (v : result Error unit) : Prop :=
  match f, v with
  | None, Ok _ => True
  | Some (healthBlocked, _), Err e => isContract e = true
  | Some (healthUnavailable, _), Err e => isContract e = false
  | Some (healthUnavailable, _), Ok _ => True
  | _, _ => False
  end.

Lemma metadata_not_contract (e : Error) (x : bool * Error) : as_metadata e = Some x -> isContract e = false.
Proof. induction e; cbn; try done; auto. Qed.

Lemma replication_err (topic : string) (d : TopicFacts) (r : Z) (e : Error) :
  validateReplication topic d r = Err e -> isContract e = false.
Proof.
  unfold validateReplication. generalize (merge_sort Z.le (map fst (map_to_list (Replicas d)))) as ps.
  induction ps as [|p ps IH]; cbn; [done|]. case_match; [|done]. by intros [= <-].
Qed.

Lemma topic_agree (s : Service) (source : Source) (ident : Identity) (names : Names) (registered : Registration)
  (answer : result Error TopicFacts) : RegIdentity registered = ident ->
  agree (topicFinding s names registered answer) (topicVerdict s source ident names registered answer) /\
  (forall r, topicFinding s names registered answer = Some (healthUnavailable, r) ->
   exists e, topicVerdict s source ident names registered answer = Err e).
Proof.
  intros <-. unfold topicFinding, topicVerdict. destruct answer as [d|e].
  - destruct (to_Exists d); cbn; [|done].
    destruct (validateReplication (Topic names) d (sv_Replication s)) as [u|e] eqn:Hr; cbn.
    + destruct (bool_decide (to_ID d = TopicID registered)); cbn; [|done]. by destruct (_ =? _); cbn.
    + split; [by eapply replication_err|]. eauto.
  - cbn. destruct (as_metadata e) as [[[] c]|] eqn:Hm; cbn; split; eauto. by eapply metadata_not_contract.
Qed.

Lemma slot_agree (source : Source) (answer : result Error SlotStatus) :
  agree (slotFinding answer) (slotVerdict source answer) /\
  (forall r, slotFinding answer = Some (healthUnavailable, r) -> exists e, slotVerdict source answer = Err e).
Proof.
  unfold slotFinding, slotVerdict. destruct answer as [sl|e]; cbn; [|eauto].
  destruct (sl_Exists sl); cbn; [|done]. by destruct (historyLost sl); cbn.
Qed.

Lemma connector_agree (source : Source) (answer : result Error Status) :
  agree (connectorFinding answer) (connectorVerdict source answer).
Proof.
  unfold connectorFinding, connectorVerdict, reject_if. destruct answer as [st|e]; cbn.
  - destruct (Failed st); cbn; [done|]. repeat case_match; try done; simplify_eq.
  - by destruct (is_connector_missing e).
Qed.

(** On the same answers from a table that still meets the contract, inspection
    reports "blocked" exactly when provisioning's verification returns a
    contract error, so both block a source for the same reasons; and a source
    inspection finds running passes verification. *)
Theorem inspect_verify_agree (s : Service) (source : Source) (registered : Registration) (w : Snapshot)
  (facts : TableFacts) (ident : Identity) :
  sn_table w (ID source) = Ok facts -> IdentityFrom source facts (sv_Partitions s) = Ok ident ->
  let h := (InspectSource s source registered w).1.1 in
  let v := (validateRegisteredStream s source ident (captureNames s source).1 registered w).1 in
  (h = healthBlocked <-> exists e, v = Err e /\ isContract e = true) /\
  (h = healthRunning -> v = Ok tt).
Proof.
  intros Ht Hi. set (names := (captureNames s source).1).
  unfold InspectSource, validateRegisteredStream. fold names. cbn [first_finding].
  unfold inspectIdentity, inspectTopic, inspectSlot, inspectConnector, validateTopic, validateSlot, validateConnector,
    act_try, stop_if, pure, reject_if, mbind, mret, act_bind, act_ret, InspectTable, TopicOf, SlotHealth, ConnectorStatus,
    snapshot_infra.
  rewrite Ht. unfold identityFinding. rewrite Hi.
  destruct (decide (RegIdentity registered = ident)) as [<-|Hne]; cycle 1.
  { rewrite bool_decide_eq_false_2 by congruence. rewrite bool_decide_eq_false_2 by done. cbn.
    split; [|done]. split; [intros _; by eexists|done]. }
  rewrite !bool_decide_eq_true_2 by done. cbn [negb]. unfold inspectNames.
  destruct (bool_decide (RegNames registered = names)); cbn -[topicFinding slotFinding connectorFinding topicVerdict slotVerdict connectorVerdict];
    [|split; [|done]; split; [intros _; by eexists|done]].
  destruct (topic_agree s source (RegIdentity registered) names registered (sn_topic w (Topic names)) eq_refl) as [A1 U1].
  destruct (topicFinding s names registered _) as [[[] r]|], (topicVerdict s source _ names registered _) as [[]|e];
    cbn in A1; try done; try (destruct (U1 r eq_refl) as [? ?]; done); cbn -[slotFinding connectorFinding slotVerdict connectorVerdict];
    try (split; [|done]; split; [intros _; by eexists|done]);
    try (split; [|done]; split; [done|intros (? & [= <-] & ?); congruence]).
  destruct (slot_agree source (sn_slot w (ID source) (Slot names))) as [A2 U2].
  destruct (slotFinding _) as [[[] r]|], (slotVerdict source _) as [[]|e];
    cbn in A2; try done; try (destruct (U2 r eq_refl) as [? ?]; done); cbn -[connectorFinding connectorVerdict];
    try (split; [|done]; split; [intros _; by eexists|done]);
    try (split; [|done]; split; [done|intros (? & [= <-] & ?); congruence]).
  pose proof (connector_agree source (sn_status w (Connector names))) as A3.
  destruct (connectorFinding _) as [[[] r]|], (connectorVerdict source _) as [[]|e]; cbn in A3; try done; cbn;
    (split; [split; [first [done | intros _; by eexists]|intros (? & [= <-] & ?); congruence]|done]).
Qed.

(** ** Provisioning, step by step *)
Section ProvisionSteps.
Context {W : Type} `{Infra W}.

Definition is_poll (e : event) : Prop :=
  match e with EvStatus _ _ | EvSlot _ _ _ | EvWait _ => True | _ => False end.

(** Two answers that do not show a capture ready. *)
Definition not_ready (a : result Error Status) (b : result Error SlotStatus) : Prop :=
  forall st sl, a = Ok st -> b = Ok sl -> captureReady st sl = false.

(** Waiting for a capture: rounds of two questions and a wait, until a round
    shows it ready ([true]) or a wait reports the time over ([false]). *)
Inductive waiting (source : string) (names : Names) : list event -> bool -> Prop :=
| wt_ready st sl : captureReady st sl = true ->
    waiting source names [EvStatus (Connector names) (Ok st); EvSlot source (Slot names) (Ok sl)] true
| wt_over a b : not_ready a b ->
    waiting source names [EvStatus (Connector names) a; EvSlot source (Slot names) b; EvWait true] false
| wt_again a b l r : not_ready a b -> waiting source names l r ->
    waiting source names (EvStatus (Connector names) a :: EvSlot source (Slot names) b :: EvWait false :: l) r.

Lemma waiting_polls (source : string) (names : Names) (l : list event) (r : bool) : waiting source names l r -> Forall is_poll l.
Proof. induction 1; by repeat constructor. Qed.

Lemma waiting_ready (source : string) (names : Names) (l : list event) : waiting source names l true ->
  exists mid st sl, l = mid ++ [EvStatus (Connector names) (Ok st); EvSlot source (Slot names) (Ok sl)] /\
    captureReady st sl = true /\ Forall is_poll mid.
Proof.
  remember true as r eqn:Hr. induction 1 as [st sl Hc|a b _|a b l r _ _ IH]; [by exists [], st, sl|done|].
  destruct (IH Hr) as (mid & st & sl & -> & Hc & Hmid).
  exists (EvStatus (Connector names) a :: EvSlot source (Slot names) b :: EvWait false :: mid), st, sl.
  split; [done|]. split; [done|]. by repeat constructor.
Qed.

Definition not_ready_in_time : Error := Plain (Errorf "capture did not become ready before provisioning timed out" []).

(** Waiting is that, and succeeds exactly when a round shows it ready. *)
Lemma awaitCapture_traced (fuel : nat) (source : string) (names : Names) (w : W) (evs : list event) (r : result Error unit)
  (t : Traced W) :
  awaitCapture (W := Traced W) fuel source names (mkTraced w evs) = Some (r, t) ->
  exists new, events t = evs ++ new /\
    match r with Ok _ => waiting source names new true | Err e => waiting source names new false /\ e = not_ready_in_time end.
Proof.
  revert w evs. induction fuel as [|fuel IH]; intros w evs.
  all: cbn [awaitCapture ConnectorStatus SlotHealth PollWait traced_infra]; rewrite traced_eq;
    destruct (ConnectorStatus (Connector names) w) as [a1 w1]; rewrite traced_eq;
    destruct (SlotHealth source (Slot names) w1) as [a2 w2];
    destruct (match a1, a2 with Ok st, Ok sl => captureReady st sl | _, _ => false end) eqn:Hready;
    [intros [= <- <-]; destruct a1 as [st|]; [|done]; destruct a2 as [sl|]; [|done];
     eexists; cbn [events]; split; [by rewrite <- app_assoc|by constructor]|];
    (assert (not_ready a1 a2) as Hnot by (by intros st sl -> ->));
    rewrite traced_eq; destruct (PollWait w2) as [over w3]; destruct over;
    [intros [= <- <-]; eexists; cbn [events]; split; [by rewrite <- !app_assoc|]; split; [by constructor|done]|].
  - done.
  - intros (new & He & Hr)%IH. eexists. rewrite He. split; [by rewrite <- !app_assoc|]. cbn [app].
    destruct r; [by constructor|]. destruct Hr. split; [by constructor|done].
Qed.

(** What the answers show of a registered stream. *)
Inductive outcome : Type := Intact | Violated | Unknown.

Definition healthy (s : Service) (registered : Registration) (e : event) : Prop :=
  match e with
  | EvTopic _ (Ok d) => topic_intact s registered d
  | EvSlot _ _ (Ok sl) => slot_intact sl
  | EvStatus _ (Ok st) => Failed st = false
  | _ => False
  end.

(** An answer shows one of the three. *)
Definition shows (s : Service) (source : Source) (registered : Registration) (e : event) (o : outcome) : Prop :=
  match o with
  | Intact => healthy s registered e
  | Violated => broken s source registered e
  | Unknown => ~ healthy s registered e /\ ~ broken s source registered e
  end.

(** The questions of a verification and what they show: a changed identity or
    changed names violate the contract before anything is asked; then topic,
    slot and connector, the next only when the one before is intact. *)
Inductive verification (s : Service) (source : Source) (ident : Identity) (registered : Registration) : list event -> outcome -> Prop :=
| vf_changed : RegIdentity registered <> ident \/ RegNames registered <> (captureNames s source).1 ->
    verification s source ident registered [] Violated
| vf_topic topic o :
    let names := (captureNames s source).1 in
    let asked := EvTopic (Topic names) topic in
    RegIdentity registered = ident -> RegNames registered = names -> o <> Intact ->
    shows s source registered asked o -> verification s source ident registered [asked] o
| vf_slot topic slot o :
    let names := (captureNames s source).1 in
    let before := EvTopic (Topic names) topic in
    let asked := EvSlot (ID source) (Slot names) slot in
    RegIdentity registered = ident -> RegNames registered = names -> o <> Intact ->
    healthy s registered before -> shows s source registered asked o -> verification s source ident registered [before; asked] o
| vf_connector topic slot status o :
    let names := (captureNames s source).1 in
    let before := [EvTopic (Topic names) topic; EvSlot (ID source) (Slot names) slot] in
    let asked := EvStatus (Connector names) status in
    RegIdentity registered = ident -> RegNames registered = names ->
    Forall (healthy s registered) before -> shows s source registered asked o ->
    verification s source ident registered (before ++ [asked]) o.

Lemma shows_unique (s : Service) (source : Source) (registered : Registration) (e : event) (o o' : outcome) :
  shows s source registered e o -> shows s source registered e o' -> o = o'.
Proof.
  assert (healthy s registered e -> broken s source registered e -> False) as Hx.
  { destruct e as [| ? ? [sl|]| |? [d|]| |? [st|]| | | |]; cbn; try done; try congruence.
    intros (He & _ & Hid & Hp) [H1|[_ [H1|H1]]]; congruence. }
  destruct o, o'; cbn; try done; tauto.
Qed.

(** The same answers never show two things. *)
Lemma verification_unique (s : Service) (source : Source) (ident : Identity) (registered : Registration) (l : list event) (o o' : outcome) :
  verification s source ident registered l o -> verification s source ident registered l o' -> o = o'.
Proof.
  destruct 1 as [|? o1 ? ? _ _ _ H1|? ? o1 ? ? ? _ _ _ _ H1|? ? ? o1 ? ? ? _ _ _ H1]; inversion 1; subst; try done;
    (eapply shows_unique; [exact H1|assumption]).
Qed.

(** What an error of the verification stands for. *)
Definition outcome_of (v : result Error unit) : outcome :=
  match v with Ok _ => Intact | Err e => if isContract e then Violated else Unknown end.

(** A contract violation is one of the source's table. *)
Definition of_table (source : Source) (v : result Error unit) : Prop :=
  forall e, v = Err e -> isContract e = true -> exists reason, e = contractFor (SrcTable source) reason [].

Lemma topicVerdict_shows (s : Service) (source : Source) (registered : Registration) (answer : result Error TopicFacts) :
  let names := (captureNames s source).1 in
  let v := topicVerdict s source (RegIdentity registered) names registered answer in
  shows s source registered (EvTopic (Topic names) answer) (outcome_of v) /\ of_table source v.
Proof.
  cbn zeta. unfold topicVerdict, of_table, reject_if. destruct answer as [d|e].
  - destruct (to_Exists d) eqn:He; cbn; [|split; [by left|intros e [= <-] _; by eexists]].
    destruct (validateReplication _ d (sv_Replication s)) as [u|e] eqn:Hr; cbn.
    + apply (proj1 (replication_ok _ _ _ _)) in Hr. case_bool_decide as Hid; cbn.
      * destruct (Z.eqb_spec (to_Partitions d) (Partitions (RegIdentity registered))) as [Hp|Hp]; cbn; [done|].
        split; [|intros e [= <-] _; by eexists]. right. split; [done|by right].
      * split; [|intros e [= <-] _; by eexists]. right. split; [done|by left].
    + rewrite (replication_err _ _ _ _ Hr). cbn. assert (~ map_Forall (fun _ c => c = sv_Replication s) (Replicas d)) as Hn.
      { intros Hall. by rewrite (proj2 (replication_ok (Topic (captureNames s source).1) d _ tt) Hall) in Hr. }
      split; [|intros e' [= <-]; by rewrite (replication_err _ _ _ _ Hr)]. unfold topic_intact. rewrite He. naive_solver.
  - destruct (as_metadata e) as [[[] c]|] eqn:Hm; cbn; [|by split; [split; intros []|intros e' [= <-]]..].
    rewrite (metadata_not_contract _ _ Hm). split; [split; intros []|]. intros e' [= <-]. by rewrite (metadata_not_contract _ _ Hm).
Qed.

Lemma slotVerdict_shows (s : Service) (source : Source) (registered : Registration) (answer : result Error SlotStatus) :
  let names := (captureNames s source).1 in
  shows s source registered (EvSlot (ID source) (Slot names) answer) (outcome_of (slotVerdict source answer)) /\
  of_table source (slotVerdict source answer).
Proof.
  cbn zeta. unfold slotVerdict, of_table, reject_if. destruct answer as [sl|e]; [|by split; [split; intros []|intros e' [= <-]]].
  pose proof (historyLost_iff sl) as Hi. destruct (sl_Exists sl); cbn in *; [|split; [by intros H'%Hi|intros e [= <-] _; by eexists]].
  destruct (historyLost sl); cbn in *; [split; [by intros H'%Hi|intros e [= <-] _; by eexists]|]. split; [by apply Hi|done].
Qed.

Lemma connectorVerdict_shows (s : Service) (source : Source) (registered : Registration) (answer : result Error Status) :
  let names := (captureNames s source).1 in
  shows s source registered (EvStatus (Connector names) answer) (outcome_of (connectorVerdict source answer)) /\
  of_table source (connectorVerdict source answer).
Proof.
  cbn zeta. unfold connectorVerdict, of_table, reject_if. destruct answer as [st|e]; cbn.
  - destruct (Failed st) eqn:Hf; cbn; [|done]. split; [split; [congruence|by intros []]|by intros e [= <-]].
  - destruct (is_connector_missing e) eqn:Hm; cbn; [split; [done|intros e' [= <-] _; by eexists]|].
    split; [split; [by intros []|congruence]|by intros e' [= <-]].
Qed.

Lemma validate_traced (s : Service) (source : Source) (ident : Identity) (registered : Registration) (w : W) (evs : list event)
  (v : result Error unit) (t : Traced W) :
  validateRegisteredStream (W := Traced W) s source ident (captureNames s source).1 registered (mkTraced w evs) = (v, t) ->
  exists new, events t = evs ++ new /\ verification s source ident registered new (outcome_of v) /\ of_table source v.
Proof.
  set (names := (captureNames s source).1).
  unfold validateRegisteredStream, validateTopic, validateSlot, validateConnector, act_try, stop_if, pure, reject_if,
    mbind, mret, act_bind, act_ret. cbn [TopicOf SlotHealth ConnectorStatus traced_infra].
  destruct (decide (RegIdentity registered = ident)) as [<-|Hne]; cycle 1.
  { rewrite bool_decide_eq_false_2 by done. cbn. intros [= <- <-]. exists []. rewrite app_nil_r. split; [done|].
    split; [by constructor; left|]. intros e [= <-] _. by eexists. }
  rewrite bool_decide_eq_true_2 by done. cbn [negb].
  destruct (decide (RegNames registered = names)) as [Hnames|Hne]; cycle 1.
  { rewrite bool_decide_eq_false_2 by done. cbn. intros [= <- <-]. exists []. rewrite app_nil_r. split; [done|].
    split; [by constructor; right|]. intros e [= <-] _. by eexists. }
  rewrite bool_decide_eq_true_2 by done. cbn [negb].
  assert (forall e, outcome_of (Err e) <> Intact) as Hbad by (intros e; cbn; by destruct (isContract e)).
  rewrite traced_eq. destruct (TopicOf (Topic names) w) as [a1 w1].
  destruct (topicVerdict_shows s source registered a1) as [M1 T1]. fold names in M1, T1. cbn zeta in M1, T1.
  destruct (topicVerdict s source (RegIdentity registered) names registered a1) as [u1|e1]; cycle 1.
  { intros [= <- <-]. eexists. split; [done|]. split; [by apply vf_topic|done]. }
  rewrite traced_eq. destruct (SlotHealth (ID source) (Slot names) w1) as [a2 w2].
  destruct (slotVerdict_shows s source registered a2) as [M2 T2]. fold names in M2. cbn zeta in M2.
  destruct (slotVerdict source a2) as [u2|e2]; cycle 1.
  { intros [= <- <-]. eexists. cbn [events]. split; [by rewrite <- app_assoc|]. split; [by apply vf_slot|done]. }
  rewrite traced_eq. destruct (ConnectorStatus (Connector names) w2) as [a3 w3].
  destruct (connectorVerdict_shows s source registered a3) as [M3 T3]. fold names in M3. cbn zeta in M3.
  intros [= <- <-]. eexists. cbn [events]. split; [by rewrite <- !app_assoc|]. split; [|done].
  apply vf_connector; try done. by repeat constructor.
Qed.

(** The errors of a confirmation. *)
Definition blocked_error (registered : Registration) : Error := Plain (Errorf "control: source is blocked: %s" [Blocked registered]).
Definition retry_error (cause : Error) : Error := Wrap "capture health could not be verified; retry provisioning: %w" [] cause.
Definition block_error (reason : string) (answer : result Error unit) : Error :=
  match answer with
  | Ok _ => Plain (Errorf "control: source blocked: %s" [reason])
  | Err e => Wrap "%v; block source: %w" [reason] e
  end.

(** What [confirmEstablished] does with a registered stream: nothing when it
    is blocked; else it verifies it, and blocks it when, and only when, the
    contract is violated. *)
Inductive confirmation (s : Service) (source : Source) (ident : Identity) (registered : Registration) :
  list event -> result Error Registration -> Prop :=
| cf_blocked : Blocked registered <> "" -> confirmation s source ident registered [] (Err (blocked_error registered))
| cf_intact l : Blocked registered = "" -> verification s source ident registered l Intact ->
    confirmation s source ident registered l (Ok registered)
| cf_unknown l cause : Blocked registered = "" -> verification s source ident registered l Unknown ->
    confirmation s source ident registered l (Err (retry_error cause))
| cf_violated l text answer : Blocked registered = "" -> verification s source ident registered l Violated ->
    let reason := ErrorText (contractFor (SrcTable source) text []) in
    confirmation s source ident registered (l ++ [EvBlock (sv_Scope s) (ID source) reason answer]) (Err (block_error reason answer)).

Lemma confirm_traced (s : Service) (source : Source) (ident : Identity) (registered : Registration) (w : W) (evs : list event)
  (r : result Error Registration) (t : Traced W) :
  confirmEstablished (W := Traced W) s source ident (captureNames s source).1 registered (mkTraced w evs) = (r, t) ->
  exists new, events t = evs ++ new /\ confirmation s source ident registered new r.
Proof.
  unfold confirmEstablished, throw, give, mbind, act_bind. destruct (str_eqb (Blocked registered) "") eqn:Hb; cbn [negb]; cycle 1.
  { apply (proj1 (str_eqb_false _ _)) in Hb. intros [= <- <-]. exists []. rewrite app_nil_r. split; [done|by constructor]. }
  apply (proj1 (str_eqb_true _ _)) in Hb.
  destruct (validateRegisteredStream _ _ _ _ _ _) as [v t1] eqn:Hv. apply validate_traced in Hv as (new & He & Hver & Htab).
  destruct v as [u|e]; [intros [= <- <-]; exists new; split; [done|by constructor]|]. cbn [outcome_of] in Hver.
  destruct (isContract e) eqn:Hc; cbn [negb]; [|intros [= <- <-]; exists new; split; [done|by constructor]].
  destruct (Htab e eq_refl Hc) as [reason ->]. cbn [BlockSource traced_infra]. destruct t1 as [w1 evs1]. cbn [events] in He. subst evs1.
  rewrite traced_eq. set (text := ErrorText _). destruct (BlockSource (sv_Scope s) (ID source) text w1) as [b w2].
  intros Hr. exists (new ++ [EvBlock (sv_Scope s) (ID source) text b]). rewrite app_assoc.
  assert (events t = (evs ++ new) ++ [EvBlock (sv_Scope s) (ID source) text b] /\ r = Err (block_error text b)) as [-> ->]
    by (destruct b; injection Hr as <- <-; done).
  split; [done|]. by apply cf_violated.
Qed.
End ProvisionSteps.

(** What every call keeps, provisioning keeps. *)
Section Keeps.
Context {W : Type} `{Infra W}.
Variable P : W -> Prop.
Hypothesis keep_table : forall s, triple P (InspectTable s) (fun _ => P).
Hypothesis keep_slot : forall s n, triple P (SlotHealth s n) (fun _ => P).
Hypothesis keep_ensure_topic : forall n p r, triple P (EnsureTopic n p r) (fun _ => P).
Hypothesis keep_topic : forall n, triple P (TopicOf n) (fun _ => P).
Hypothesis keep_connector : forall s i n m, triple P (EnsureConnector s i n m) (fun _ => P).
Hypothesis keep_status : forall n, triple P (ConnectorStatus n) (fun _ => P).
Hypothesis keep_get : forall sc s, triple P (GetStream sc s) (fun _ => P).
Hypothesis keep_register : forall sc r, triple P (RegisterStream sc r) (fun _ => P).
Hypothesis keep_block : forall sc s r, triple P (BlockSource sc s r) (fun _ => P).
Hypothesis keep_wait : triple P PollWait (fun _ => P).

Lemma kept_value {A : Type} (a : A) : triple P (fun w => (a, w)) (fun _ => P).
Proof. by intros w. Qed.

Ltac kept := repeat first [ apply kept_value | done | match goal with
  | |- triple _ (act_try _ _) _ => apply kept_try; [|intros ?]
  | |- triple _ (mbind _ _) _ => apply kept_bind; [|intros ?]
  end | case_match ].

Lemma confirm_kept (s : Service) (source : Source) (ident : Identity) (names : Names) (registered : Registration) :
  triple P (confirmEstablished s source ident names registered) (fun _ => P).
Proof. unfold confirmEstablished, validateRegisteredStream, validateTopic, validateSlot, validateConnector, stop_if, throw, give, pure. kept. Qed.

Lemma await_kept (fuel : nat) (source : string) (names : Names) (w w' : W) (r : result Error unit) :
  P w -> awaitCapture fuel source names w = Some (r, w') -> P w'.
Proof.
  revert w. induction fuel as [|fuel IH]; intros w Hw; cbn [awaitCapture];
    destruct (ConnectorStatus _ w) as [st w1] eqn:H1; apply (triple_run _ _ _ _ _ _ (keep_status _) Hw) in H1;
    destruct (SlotHealth _ _ w1) as [sl w2] eqn:H2; apply (triple_run _ _ _ _ _ _ (keep_slot _ _) H1) in H2;
    (destruct (match st with Ok _ => _ | Err _ => _ end); [by intros [= <- <-]|]);
    destruct (PollWait w2) as [over w3] eqn:H3; apply (triple_run _ _ _ _ _ _ keep_wait H2) in H3;
    destruct over; try (by intros [= <- <-]); try done; by apply IH.
Qed.

Lemma provision_kept (fuel : nat) (s : Service) (source : Source) (w w' : W) (r : result Error Registration) :
  P w -> ProvisionSource fuel s source w = Some (r, w') -> P w'.
Proof.
  intros Hw. unfold ProvisionSource. destruct (InspectTable _ w) as [facts w1] eqn:H1. apply (triple_run _ _ _ _ _ _ (keep_table _) Hw) in H1.
  destruct facts as [facts|]; [|by intros [= <- <-]]. destruct (IdentityFrom _ _ _) as [ident|]; [|by intros [= <- <-]].
  destruct (captureNames s source) as [names publication]. destruct (GetStream _ _ w1) as [found w2] eqn:H2.
  apply (triple_run _ _ _ _ _ _ (keep_get _ _) H1) in H2. destruct found as [[registered|]|]; [| |by intros [= <- <-]].
  - intros [= Hr]. by apply (triple_run _ _ _ _ _ _ (confirm_kept s source ident names registered) H2) in Hr.
  - unfold establish. destruct (EnsureTopic _ _ _ w2) as [r1 w3] eqn:H3. apply (triple_run _ _ _ _ _ _ (keep_ensure_topic _ _ _) H2) in H3.
    destruct r1; [|by intros [= <- <-]]. destruct (EnsureConnector _ _ _ _ w3) as [r2 w4] eqn:H4.
    apply (triple_run _ _ _ _ _ _ (keep_connector _ _ _ _) H3) in H4. destruct r2; [|by intros [= <- <-]].
    intros ([r3 w5] & H5 & Hr)%bind_Some. apply (await_kept _ _ _ _ _ _ H4) in H5. destruct r3; [|by injection Hr as <- <-].
    destruct (RegisterStream _ _ w5) as [r4 w6] eqn:H6. apply (triple_run _ _ _ _ _ _ (keep_register _ _) H5) in H6.
    by destruct r4; injection Hr as <- <-.
Qed.
End Keeps.

(** ** What provisioning may do, as a relation on its calls and its result *)
Definition is_register (e : event) : Prop := match e with EvRegister _ _ _ => True | _ => False end.

(** Establishing an unknown stream: topic, connector, waiting, registration,
    each only after the one before succeeded; the registration directly after
    the answers that show the capture ready. *)
Inductive establishment (s : Service) (source : Source) (ident : Identity) : list event -> result Error Registration -> Prop :=
| es_no_topic e : let names := (captureNames s source).1 in
    establishment s source ident [EvEnsureTopic names (sv_Partitions s) (sv_Replication s) (Err e)] (Err e)
| es_no_connector id e : let names := (captureNames s source).1 in
    establishment s source ident
      [EvEnsureTopic names (sv_Partitions s) (sv_Replication s) (Ok id);
       EvEnsureConnector source ident names (captureNames s source).2 (Err e)] (Err e)
| es_not_ready id l : let names := (captureNames s source).1 in
    waiting (ID source) names l false ->
    establishment s source ident
      (EvEnsureTopic names (sv_Partitions s) (sv_Replication s) (Ok id) ::
       EvEnsureConnector source ident names (captureNames s source).2 (Ok tt) :: l) (Err not_ready_in_time)
| es_written id l answer r :
    let names := (captureNames s source).1 in
    let reg := mkRegistration (ID source) ident names id "" in
    waiting (ID source) names l true ->
    r = match answer with Ok _ => Ok reg | Err e => Err e end ->
    establishment s source ident
      (EvEnsureTopic names (sv_Partitions s) (sv_Replication s) (Ok id) ::
       EvEnsureConnector source ident names (captureNames s source).2 (Ok tt) :: l ++ [EvRegister (sv_Scope s) reg answer]) r.

Inductive provisioning (s : Service) (source : Source) : list event -> result Error Registration -> Prop :=
| pv_unreadable e : provisioning s source [EvTable (ID source) (Err e)] (Err e)
| pv_refused facts e : IdentityFrom source facts (sv_Partitions s) = Err e ->
    provisioning s source [EvTable (ID source) (Ok facts)] (Err e)
| pv_no_store facts ident e : IdentityFrom source facts (sv_Partitions s) = Ok ident ->
    provisioning s source [EvTable (ID source) (Ok facts); EvGet (sv_Scope s) (ID source) (Err e)] (Err e)
| pv_registered facts ident reg l r : IdentityFrom source facts (sv_Partitions s) = Ok ident ->
    confirmation s source ident reg l r ->
    provisioning s source (EvTable (ID source) (Ok facts) :: EvGet (sv_Scope s) (ID source) (Ok (Some reg)) :: l) r
| pv_new facts ident l r : IdentityFrom source facts (sv_Partitions s) = Ok ident ->
    establishment s source ident l r ->
    provisioning s source (EvTable (ID source) (Ok facts) :: EvGet (sv_Scope s) (ID source) (Ok None) :: l) r.

Section ProvisionRefinement.
Context {W : Type} `{Infra W}.

Lemma establish_traced (fuel : nat) (s : Service) (source : Source) (ident : Identity) (w : W) (evs : list event)
  (r : result Error Registration) (t : Traced W) :
  Partitions ident = sv_Partitions s ->
  establish (W := Traced W) fuel s source ident (captureNames s source).1 (captureNames s source).2 (mkTraced w evs) = Some (r, t) ->
  exists new, events t = evs ++ new /\ establishment s source ident new r.
Proof.
  intros Hp. unfold establish. rewrite Hp. set (names := (captureNames s source).1). cbn [EnsureTopic EnsureConnector RegisterStream traced_infra].
  rewrite traced_eq. destruct (EnsureTopic names (sv_Partitions s) (sv_Replication s) w) as [a1 w1].
  destruct a1 as [id|e]; [|intros [= <- <-]; eexists; split; [done|]; apply es_no_topic].
  rewrite traced_eq. destruct (EnsureConnector source ident names (captureNames s source).2 w1) as [a2 w2].
  destruct a2 as [[]|e]; [|intros [= <- <-]; eexists; split; [cbn; by rewrite <- app_assoc|]; apply es_no_connector].
  destruct (awaitCapture _ _ _ _) as [[r3 t3]|] eqn:Hw; [|done]. cbn [mbind option_bind].
  apply awaitCapture_traced in Hw as (new & He & Hwait). destruct t3 as [w3 evs3]. cbn [events] in He. subst evs3.
  destruct r3 as [u|e]; cycle 1.
  { destruct Hwait as [Hwait ->]. intros [= <- <-]. eexists. cbn [events]. split; [by rewrite <- !app_assoc|]. by apply es_not_ready. }
  rewrite traced_eq. destruct (RegisterStream _ _ w3) as [a4 w4]. intros Hr.
  assert (events t = (((evs ++ [EvEnsureTopic names (sv_Partitions s) (sv_Replication s) (Ok id)]) ++
    [EvEnsureConnector source ident names (captureNames s source).2 (Ok tt)]) ++ new) ++
    [EvRegister (sv_Scope s) (mkRegistration (ID source) ident names id "") a4] /\
    r = match a4 with Ok _ => Ok (mkRegistration (ID source) ident names id "") | Err e => Err e end) as [-> ->].
  { destruct a4; injection Hr as <- <-; done. }
  eexists. rewrite <- !app_assoc. split; [done|]. exact (es_written s source ident id new a4 _ Hwait eq_refl).
Qed.

Lemma provisioning_traced (fuel : nat) (s : Service) (source : Source) (w : W) (evs : list event)
  (r : result Error Registration) (t : Traced W) :
  ProvisionSource (W := Traced W) fuel s source (mkTraced w evs) = Some (r, t) ->
  exists new, events t = evs ++ new /\ provisioning s source new r.
Proof.
  unfold ProvisionSource. cbn [InspectTable GetStream traced_infra]. rewrite traced_eq.
  destruct (InspectTable (ID source) w) as [a1 w1].
  destruct a1 as [facts|e1]; [|intros [= <- <-]; eexists; split; [done|]; by constructor].
  destruct (IdentityFrom source facts (sv_Partitions s)) as [ident|e2] eqn:Hident;
    [|intros [= <- <-]; eexists; split; [done|]; by constructor].
  rewrite (surjective_pairing (captureNames s source)), traced_eq.
  destruct (GetStream (sv_Scope s) (ID source) w1) as [[[reg|]|e3] w2].
  - intros [= Hc]. apply confirm_traced in Hc as (new & He & Hc). eexists. split; [by rewrite He, <- !app_assoc|]. by eapply pv_registered.
  - intros (new & He & Hp)%establish_traced; [|by apply identity_from_ok in Hident as [_ ->]].
    eexists. split; [by rewrite He, <- !app_assoc|]. by eapply pv_new.
  - intros [= <- <-]. eexists. cbn [events]. split; [by rewrite <- app_assoc|]. by eapply pv_no_store.
Qed.

(** C18. Whatever the world answers, provisioning's calls and its result are
    those of its specification, and the answers to a verification never show
    two things at once.  A table it cannot read or that breaks the contract
    and a store it cannot read change nothing.  A registered stream is
    verified: returned when everything is intact, left alone with an error to
    retry when an answer shows nothing, and blocked in the store, with the
    violation as the reason, when and only when its identity or names changed
    or the last answer shows it gone or replaced.  An unknown one is
    registered last, for the identity the table gave and the UUID its topic
    got, directly after the answers that showed the capture running with its
    WAL intact. *)
Theorem provision_refines (fuel : nat) (s : Service) (source : Source) (w : W) (evs : list event)
  (r : result Error Registration) (t : Traced W) :
  ProvisionSource (W := Traced W) fuel s source (mkTraced w evs) = Some (r, t) ->
  (exists new, events t = evs ++ new /\ provisioning s source new r) /\
  (forall ident registered l o o', verification s source ident registered l o -> verification s source ident registered l o' -> o = o').
Proof. intros Hp. split; [by eapply provisioning_traced|]. intros ident registered l o o'. apply verification_unique. Qed.

(** What a provisioned source's registration and calls are. *)
Lemma provisioned (s : Service) (source : Source) (l : list event) (reg : Registration) :
  provisioning s source l (Ok reg) ->
  let names := (captureNames s source).1 in
  RegNames reg = names /\ Blocked reg = "" /\
  (exists facts, EvTable (ID source) (Ok facts) ∈ l /\ IdentityFrom source facts (sv_Partitions s) = Ok (RegIdentity reg)) /\
  ((RegSourceID reg = ID source /\ exists pre st sl, l = pre ++ [EvStatus (Connector names) (Ok st); EvSlot (ID source) (Slot names) (Ok sl);
      EvRegister (sv_Scope s) reg (Ok tt)] /\ captureReady st sl = true /\ Forall (fun e => ~ is_register e) pre) \/
   (EvGet (sv_Scope s) (ID source) (Ok (Some reg)) ∈ l /\
    exists d sl st, EvTopic (Topic names) (Ok d) ∈ l /\ topic_intact s reg d /\
      EvSlot (ID source) (Slot names) (Ok sl) ∈ l /\ slot_intact sl /\
      EvStatus (Connector names) (Ok st) ∈ l /\ Failed st = false)).
Proof.
  intros Hp. cbn zeta. inversion Hp as [| | |facts ident reg' l' r Hi Hc Hl Hr|facts ident l' r Hi He Hl Hr]; subst.
  - inversion Hc as [|l0 Hb Hv Hl Hr| |]; subst. inversion Hv as [| | |topic slot status o names before asked Hid Hn Hh Hs Hl Ho]; subst; try done.
    destruct topic as [d|]; [|by apply Forall_cons in Hh as [[] _]]. apply Forall_cons in Hh as [Hd Hh].
    destruct slot as [sl|]; [|by apply Forall_cons in Hh as [[] _]]. apply Forall_cons in Hh as [Hsl _].
    destruct status as [st|]; [|done]. split; [done|]. split; [done|].
    split; [exists facts; split; [set_solver|done]|]. right. split; [set_solver|].
    exists d, sl, st. unfold asked. subst names. split_and!; try done; cbn; set_solver.
  - inversion He as [| | |id l0 answer r names reg' Hw Hr Hl Hr']; subst. destruct answer as [[]|]; [|done]. injection Hr as ->.
    split; [done|]. split; [done|]. split; [exists facts; split; [set_solver|done]|]. left. split; [done|].
    apply waiting_ready in Hw as (mid & st & sl & -> & Hc & Hmid). eexists ([_; _; _; _] ++ mid), st, sl.
    split; [by rewrite <- !app_assoc|]. split; [done|].
    apply Forall_app. split; [by repeat constructor; intros ?|]. eapply Forall_impl; [exact Hmid|]. by intros [] Hx Hy.
Qed.

(** A provisioned source's registration was read from the store or written to it. *)
Lemma provisioned_row (s : Service) (source : Source) (l : list event) (reg : Registration) :
  provisioning s source l (Ok reg) ->
  RegNames reg = (captureNames s source).1 /\ Blocked reg = "" /\
  (exists facts, IdentityFrom source facts (sv_Partitions s) = Ok (RegIdentity reg)) /\
  ((EvRegister (sv_Scope s) reg (Ok tt) ∈ l /\ RegSourceID reg = ID source) \/ EvGet (sv_Scope s) (ID source) (Ok (Some reg)) ∈ l).
Proof.
  intros (Hn & Hb & (facts & _ & Hi) & Hrow)%provisioned. split_and!; [done|done|by exists facts|].
  destruct Hrow as [(Hid & pre & st & sl & -> & _)|[Hget _]]; [left; split; [set_solver|done]|by right].
Qed.

(** C8. What success means: a registration is returned only if the capture was
    seen ready directly before it was written, or it was on record, not
    blocked, and its identity, names, topic, slot and connector verified. *)
Theorem provision_success (fuel : nat) (s : Service) (source : Source) (w : W) (reg : Registration) (t : Traced W) :
  ProvisionSource (W := Traced W) fuel s source (mkTraced w []) = Some (Ok reg, t) ->
  let names := (captureNames s source).1 in
  RegNames reg = names /\ Blocked reg = "" /\
  (exists facts, EvTable (ID source) (Ok facts) ∈ events t /\
     IdentityFrom source facts (sv_Partitions s) = Ok (RegIdentity reg)) /\
  ((exists pre st sl, events t = pre ++ [EvStatus (Connector names) (Ok st); EvSlot (ID source) (Slot names) (Ok sl);
        EvRegister (sv_Scope s) reg (Ok tt)] /\ captureReady st sl = true /\ Forall (fun e => ~ is_register e) pre) \/
   (EvGet (sv_Scope s) (ID source) (Ok (Some reg)) ∈ events t /\
    exists d sl st, EvTopic (Topic names) (Ok d) ∈ events t /\ topic_intact s reg d /\
      EvSlot (ID source) (Slot names) (Ok sl) ∈ events t /\ slot_intact sl /\
      EvStatus (Connector names) (Ok st) ∈ events t /\ Failed st = false)).
Proof.
  intros (new & He & Hp)%provisioning_traced. cbn [app] in He. subst new. cbn zeta.
  destruct (provisioned _ _ _ _ Hp) as (H1 & H2 & H3 & H4). split_and!; [done|done|done|]. destruct H4 as [[_ H4]|H4]; [by left|by right].
Qed.

(** Provisioning returns: with a wait that reports the context done after at
    most [left_ w] polls, fuel for as many polls gives a result, whatever the
    other calls answer. *)
Theorem provision_terminates (left_ : W -> nat) (fuel : nat) (s : Service) (source : Source) (w : W) :
  (forall w w', PollWait w = (false, w') -> (left_ w' < left_ w)%nat) ->
  (forall w, (left_ (InspectTable (ID source) w).2 <= left_ w)%nat) ->
  (forall w, (left_ (GetStream (sv_Scope s) (ID source) w).2 <= left_ w)%nat) ->
  (forall n p k w, (left_ (EnsureTopic n p k w).2 <= left_ w)%nat) ->
  (forall i n m w, (left_ (EnsureConnector source i n m w).2 <= left_ w)%nat) ->
  (forall n w, (left_ (ConnectorStatus n w).2 <= left_ w)%nat) ->
  (forall n w, (left_ (SlotHealth (ID source) n w).2 <= left_ w)%nat) ->
  (left_ w <= fuel)%nat -> is_Some (ProvisionSource fuel s source w).
Proof.
  intros Hwait Htable Hget Htopic Hconn Hstatus Hslot Hf.
  assert (Hawait : forall f n w, (left_ w <= f)%nat -> is_Some (awaitCapture f (ID source) n w)).
  { induction f as [|f IH]; intros n w0 Hw0; cbn [awaitCapture].
    all: pose proof (Hstatus (Connector n) w0) as H1; destruct (ConnectorStatus (Connector n) w0) as [a1 w1]; cbn in H1;
      pose proof (Hslot (Slot n) w1) as H2; destruct (SlotHealth (ID source) (Slot n) w1) as [a2 w2]; cbn in H2;
      destruct (match a1, a2 with Ok st, Ok sl => captureReady st sl | _, _ => false end); [by eexists|];
      destruct (PollWait w2) as [[] w3] eqn:Hp; [by eexists|]; pose proof (Hwait _ _ Hp); first [lia | apply IH; lia]. }
  unfold ProvisionSource. pose proof (Htable w) as H1. destruct (InspectTable (ID source) w) as [[facts|e] w1]; [|by eexists].
  destruct (IdentityFrom source facts (sv_Partitions s)) as [ident|]; [|by eexists].
  destruct (captureNames s source) as [names mode]. pose proof (Hget w1) as H2. cbn in H1.
  destruct (GetStream (sv_Scope s) (ID source) w1) as [[[reg|]|e] w2]; [by eexists| |by eexists]. cbn in H2.
  unfold establish. pose proof (Htopic names (Partitions ident) (sv_Replication s) w2) as H3.
  destruct (EnsureTopic _ _ _ w2) as [[id|e] w3]; [|by eexists]. cbn in H3.
  pose proof (Hconn ident names mode w3) as H4. destruct (EnsureConnector _ _ _ _ w3) as [[u|e] w4]; [|by eexists]. cbn in H4.
  destruct (Hawait fuel names w4) as [[r3 w5] ->]; [lia|]. cbn. destruct r3; [|by eexists].
  destruct (RegisterStream _ _ w5) as [[]]; by eexists.
Qed.
End ProvisionRefinement.

(** ** Witnesses: a table that meets the contract, and a capture that works *)
Module Sim.
Definition source : Source := mkSource "orders" "Orders" "orders" ["id"; "customer"] "id" "customer".
Definition facts : TableFacts :=
  mkTableFacts true {[ "id" := mkColumnFacts "int8" true; "customer" := mkColumnFacts "text" true ]} true.
Definition service : Service := mkService (mkScope "acme" "production" 1) 2 1 ∅.
Definition id : list Z := replicate 16 7.
Definition names : Names := (captureNames service source).1.
Definition registered : Registration := mkRegistration "orders" (identity_of source facts 2) names id "".

Definition snapshot (slot : SlotStatus) : Snapshot :=
  mkSnapshot (fun _ => Ok facts) (fun _ _ => Ok slot)
    (fun _ => Ok (mkTopicFacts true id 2 {[ 0 := 1; 1 := 1 ]}))
    (fun _ => Ok (mkStatus "RUNNING" ["RUNNING"] false "")) (Ok None).

Inductive Live : Type := live (s : Snapshot).
#[export] Instance live_infra : Infra Live := {
  InspectTable s '(live w) := (sn_table w s, live w);
  SlotHealth s n '(live w) := (sn_slot w s n, live w);
  EnsureTopic _ _ _ w := (Ok id, w);
  TopicOf n '(live w) := (sn_topic w n, live w);
  EnsureConnector _ _ _ _ w := (Ok tt, w);
  ConnectorStatus n '(live w) := (sn_status w n, live w);
  GetStream _ _ '(live w) := (sn_stream w, live w);
  RegisterStream _ _ w := (Ok tt, w);
  BlockSource _ _ _ w := (Ok tt, w);
  PollWait w := (true, w) }.

Definition good : Live := live (snapshot (mkSlotStatus true "reserved")).
Definition lost : Live :=
  let w := snapshot (mkSlotStatus true "lost") in live (mkSnapshot (sn_table w) (sn_slot w) (sn_topic w) (sn_status w) (Ok (Some registered))).
End Sim.
#[export] Existing Instance Sim.live_infra.

(** A slot that lost its history: both block. *)
Lemma inspect_verify_agree_witness :
  let w := Sim.snapshot (mkSlotStatus true "lost") in
  let h := (InspectSource Sim.service Sim.source Sim.registered w).1.1 in
  let v := (validateRegisteredStream Sim.service Sim.source (identity_of Sim.source Sim.facts 2)
              (captureNames Sim.service Sim.source).1 Sim.registered w).1 in
  (h = healthBlocked <-> exists e, v = Err e /\ isContract e = true) /\ (h = healthRunning -> v = Ok tt).
Proof.
  cbn zeta. apply (inspect_verify_agree Sim.service Sim.source Sim.registered
    (Sim.snapshot (mkSlotStatus true "lost")) Sim.facts (identity_of Sim.source Sim.facts 2)); vm_compute; reflexivity.
Defined.

(** A registered stream whose slot lost its history is blocked. *)
Lemma provision_refines_witness : exists a r t,
  ProvisionSource (W := Traced Sim.Live) 0 Sim.service Sim.source (mkTraced Sim.lost []) = Some (r, t) /\
  last (events t) = Some (EvBlock (sv_Scope Sim.service) "orders" "capture: table public.orders: established slot has lost WAL history" a) /\
  exists new, events t = [] ++ new /\ provisioning Sim.service Sim.source new r.
Proof.
  eexists _, _, _. split; [vm_compute; reflexivity|]. split; [vm_compute; reflexivity|].
  apply (provision_refines 0 Sim.service Sim.source Sim.lost []). vm_compute. reflexivity.
Defined.

Lemma provision_success_witness : exists t,
  ProvisionSource (W := Traced Sim.Live) 0 Sim.service Sim.source (mkTraced Sim.good []) = Some (Ok Sim.registered, t) /\
  RegNames Sim.registered = (captureNames Sim.service Sim.source).1.
Proof.
  eexists. split; [vm_compute; reflexivity|].
  eapply (provision_success 0 Sim.service Sim.source Sim.good Sim.registered). vm_compute. reflexivity.
Defined.

Lemma provision_terminates_witness : is_Some (ProvisionSource 0 Sim.service Sim.source Sim.good).
Proof.
  apply (provision_terminates (fun _ => 0%nat)); intros; try apply Nat.le_refl. discriminate.
Defined.
