(* ===== verification/Admin.v ===== *)
(** * Admin: the Kafka administration adapter

    Models [internal/adapters/kafka/admin.go]: creating or checking a topic and
    reading its facts, over the answers of the [kadm] client.  What
    [errors.Is] finds in a client error is the client's to say. *)

From S2P Require Import Prelude Strconv Stream JsonCodec GoFmt Act Provision.
From stdpp Require Import sorting.
Local Open Scope Z_scope.

(** ** Client answers *)
Record PartitionDetail : Type := mkPartitionDetail { pd_Err : option error; pd_Replicas : list Z }.

Record TopicDetail : Type := mkTopicDetail {
  td_Topic : string; td_ID : list Z; td_Err : option error; td_Partitions : gmap Z PartitionDetail }.

(** A topic's configuration: an error of its own, or its entries, whose values
    may be null. *)
Definition Configs : Type := result error (list (string * option string)).

Class KafkaAdmin (W : Type) : Type := {
  IsUnknownTopic : error -> bool;       (* errors.Is kerr.UnknownTopicOrPartition *)
  IsTopicExists : error -> bool;        (* errors.Is kerr.TopicAlreadyExists *)
  ListTopics : string -> Act W (result error (gmap string TopicDetail));
  CreateTopic : Z -> Z -> gmap string (option string) -> string -> Act W (result error (option error * list Z));
  DescribeTopicConfigs : string -> Act W (result error Configs);
  CreateWait : Act W (option error) }.  (* ctx's error, or 500 ms *)

Definition topicConfigs (replication : Z) : gmap string (option string) :=
  let configs : gmap string (option string) :=
    {[ "cleanup.policy" := Some "delete"; "retention.ms" := Some "-1"; "retention.bytes" := Some "-1" ]} in
  if 3 <=? replication then <[ "min.insync.replicas" := Some "2" ]> configs else configs.

(** [Partitions.Sorted]. *)
Definition sorted_partitions (d : TopicDetail) : list Z := merge_sort Z.le (map fst (map_to_list (td_Partitions d))).

(** The first partition with an error. *)
Fixpoint partition_error (partitions : list Z) (m : gmap Z PartitionDetail) : option (Z * error) :=
  match partitions with
  | [] => None
  | p :: partitions =>
      match m !! p ≫= pd_Err with Some e => Some (p, e) | None => partition_error partitions m end
  end.

Fixpoint replica_error (topic : string) (partitions : list Z) (m : gmap Z PartitionDetail) (replication : Z) : result Error unit :=
  match partitions with
  | [] => Ok tt
  | p :: partitions =>
      let count := Z.of_nat (length (default [] (pd_Replicas <$> m !! p))) in
      if negb (count =? replication) then
        Err (Plain (Errorf "capture: topic %q partition %d has %d replicas, want %d" [topic; Itoa p; Itoa count; Itoa replication]))
      else replica_error topic partitions m replication
  end.

Definition ValidateTopicReplication (detail : TopicDetail) (replication : Z) : result Error unit :=
  match td_Err detail with
  | Some e => Err (Wrap "capture: inspect topic %q: %w" [td_Topic detail] (Plain e))
  | None =>
      match partition_error (sorted_partitions detail) (td_Partitions detail) with
      | Some (p, e) => Err (Wrap "capture: inspect topic %q partition %d: %w" [td_Topic detail; Itoa p] (Plain e))
      | None => replica_error (td_Topic detail) (sorted_partitions detail) (td_Partitions detail) replication
      end
  end.

(** [current]: later entries win, a null value is the empty string. *)
Definition current_configs (entries : list (string * option string)) : gmap string string :=
  foldl (fun m '(k, v) => <[ k := default "" v ]> m) ∅ entries.

(** The wanted entries in some order, as Go's map gives them. *)
Fixpoint check_configs (topic : string) (want : list (string * option string)) (current : gmap string string) : result Error unit :=
  match want with
  | [] => Ok tt
  | (key, value) :: want =>
      let now := default "" (current !! key) in
      match value with
      | Some v =>
          if negb (str_eqb now v) then Err (Plain (Errorf "capture: topic %q config %q is %q, want %q" [topic; key; now; v]))
          else check_configs topic want current
      | None => check_configs topic want current
      end
  end.

Section Programs.
Context {W : Type} `{KafkaAdmin W}.

Definition verifyTopicConfigs (topic : string) (want : gmap string (option string)) : Act W (result Error unit) :=
  answer ← DescribeTopicConfigs topic;
  mret match answer with
  | Err e | Ok (Err e) => Err (Wrap "capture: describe topic %q configs: %w" [topic] (Plain e))
  | Ok (Ok entries) => check_configs topic (map_to_list want) (current_configs entries)
  end.

(** The id, whether the topic was found, and the error. *)
Definition zero_id : list Z := replicate 16 0.

Definition existingTopic (topic : string) (partitions replication : Z) (want : gmap string (option string)) :
  Act W (list Z * bool * option Error) :=
  listed ← ListTopics topic;
  match listed with
  | Err e => mret (zero_id, false, Some (Wrap "capture: list topic %q: %w" [topic] (Plain e)))
  | Ok listed =>
      match listed !! topic with
      | None => mret (zero_id, false, None)
      | Some detail =>
          match td_Err detail with
          | Some _ => mret (zero_id, false, None)
          | None =>
              let count := Z.of_nat (size (td_Partitions detail)) in
              if negb (count =? partitions) then
                mret (zero_id, true, Some (Plain (Errorf "capture: topic %q already exists with %d partitions, want %d" [topic; Itoa count; Itoa partitions])))
              else
                match ValidateTopicReplication detail replication with
                | Err e => mret (zero_id, true, Some e)
                | Ok _ =>
                    r ← verifyTopicConfigs topic want;
                    mret match r with Err e => (zero_id, true, Some e) | Ok _ => (td_ID detail, true, None) end
                end
          end
      end
  end.

(** Looking again for a topic someone else created; [None] out of fuel. *)
Fixpoint await_topic (fuel : nat) (topic : string) (partitions replication : Z) (want : gmap string (option string)) (w : W) :
  option (result Error (list Z) * W) :=
  let '((id, found, err), w) := existingTopic topic partitions replication want w in
  match err, found with
  | Some e, _ => Some (Err e, w)
  | None, true => Some (Ok id, w)
  | None, false =>
      let '(over, w) := CreateWait w in
      match over, fuel with
      | Some e, _ => Some (Err (Wrap "capture: topic %q exists but never appeared in metadata: %w" [topic] (Plain e)), w)
      | None, O => None
      | None, S fuel => await_topic fuel topic partitions replication want w
      end
  end.

Definition AdminEnsureTopic (fuel : nat) (n : Names) (partitions replication : Z) (w : W) : option (result Error (list Z) * W) :=
  let want := topicConfigs replication in
  let '((id, found, err), w) := existingTopic (Topic n) partitions replication want w in
  match err, found with
  | Some e, _ => Some (Err e, w)
  | None, true => Some (Ok id, w)
  | None, false =>
      let '(created, w) := CreateTopic partitions replication want (Topic n) w in
      let failure := match created with Err e => Some e | Ok (e, _) => e end in
      match failure with
      | None => Some (Ok (match created with Ok (_, id) => id | Err _ => zero_id end), w)
      | Some e =>
          if negb (IsTopicExists e) then Some (Err (Wrap "capture: create topic %q: %w" [Topic n] (Plain e)), w)
          else await_topic fuel (Topic n) partitions replication want w
      end
  end.

Definition missing : TopicFacts := mkTopicFacts false zero_id 0 ∅.

(** What [Topic] makes of the listing. *)
Definition facts_of (name : string) (listed : gmap string TopicDetail) : result Error TopicFacts :=
  match listed !! name with
  | None => Ok missing
  | Some detail =>
      match td_Err detail with
      | Some e =>
          if IsUnknownTopic e then Ok missing
          else Err (TopicMetadataError false (Wrap "capture: inspect topic %q: %w" [name] (Plain e)))
      | None =>
          match partition_error (sorted_partitions detail) (td_Partitions detail) with
          | Some (p, e) => Err (TopicMetadataError true (Wrap "capture: inspect topic %q partition %d: %w" [name; Itoa p] (Plain e)))
          | None => Ok (mkTopicFacts true (td_ID detail) (Z.of_nat (size (td_Partitions detail)))
                          ((fun d => Z.of_nat (length (pd_Replicas d))) <$> td_Partitions detail))
          end
      end
  end.

Definition AdminTopic (name : string) : Act W (result Error TopicFacts) :=
  listed ← ListTopics name;
  mret match listed with
  | Err e => Err (Wrap "capture: list topic %q: %w" [name] (Plain e))
  | Ok listed => facts_of name listed
  end.
End Programs.

(** ** Lemmas *)
Lemma in_sorted (d : TopicDetail) (p : Z) : p ∈ sorted_partitions d <-> is_Some (td_Partitions d !! p).
Proof.
  unfold sorted_partitions. rewrite (merge_sort_Permutation Z.le), list_elem_of_In, in_map_iff. split.
  - intros ((q & x) & <- & Hin). apply list_elem_of_In, elem_of_map_to_list in Hin. by exists x.
  - intros [x Hx]. exists (p, x). split; [done|]. by apply list_elem_of_In, elem_of_map_to_list.
Qed.

Lemma partition_error_none (l : list Z) (m : gmap Z PartitionDetail) :
  partition_error l m = None <-> forall p d, p ∈ l -> m !! p = Some d -> pd_Err d = None.
Proof.
  induction l as [|p l IH]; cbn [partition_error]; [split; [|done]; by intros _ p d ?%elem_of_nil|].
  destruct (m !! p) as [d|] eqn:Hp; cbn [mbind option_bind].
  - destruct (pd_Err d) as [e|] eqn:He.
    + split; [done|]. intros Hall. specialize (Hall p d ltac:(by left) Hp). congruence.
    + rewrite IH. split; [|intros Hall q d' Hq; apply Hall; by right].
      intros Hall q d' [->|Hq]%elem_of_cons Hd'; [congruence|by apply (Hall q)].
  - rewrite IH. split; [|intros Hall q d' Hq; apply Hall; by right].
    intros Hall q d' [->|Hq]%elem_of_cons Hd'; [congruence|by apply (Hall q)].
Qed.

Lemma replica_error_ok (topic : string) (l : list Z) (m : gmap Z PartitionDetail) (replication : Z) (u : unit) :
  replica_error topic l m replication = Ok u <->
  forall p, p ∈ l -> Z.of_nat (length (default [] (pd_Replicas <$> m !! p))) = replication.
Proof.
  destruct u. induction l as [|p l IH]; cbn [replica_error]; [split; [|done]; by intros _ p ?%elem_of_nil|].
  destruct (Z.eqb_spec (Z.of_nat (length (default [] (pd_Replicas <$> m !! p)))) replication) as [Heq|Hne]; cbn [negb].
  - rewrite IH. split; [|intros Hall q Hq; apply Hall; by right]. intros Hall q [->|Hq]%elem_of_cons; auto.
  - split; [done|]. intros Hall. by destruct (Hne (Hall p ltac:(by left))).
Qed.

(** A listed topic as postie requires it. *)
Definition healthy (detail : TopicDetail) (replication : Z) : Prop :=
  td_Err detail = None /\
  forall p d, td_Partitions detail !! p = Some d -> pd_Err d = None /\ Z.of_nat (length (pd_Replicas d)) = replication.

Lemma validate_ok (detail : TopicDetail) (replication : Z) (u : unit) :
  ValidateTopicReplication detail replication = Ok u <-> healthy detail replication.
Proof.
  unfold ValidateTopicReplication, healthy. destruct (td_Err detail); [naive_solver|].
  pose proof (partition_error_none (sorted_partitions detail) (td_Partitions detail)) as Hn.
  destruct (partition_error _ _) as [[p e]|].
  - split; [done|]. intros [_ Hall]. exfalso. assert (Some (p, e) = None) as [=]. apply Hn. intros q d _ Hd. by apply (Hall q).
  - rewrite replica_error_ok. split.
    + intros Hall. split; [done|]. intros p d Hd. assert (p ∈ sorted_partitions detail) as Hp by (apply in_sorted; eauto).
      split; [by apply (proj1 Hn eq_refl p)|]. specialize (Hall p Hp). by rewrite Hd in Hall.
    + intros [_ Hall] p [d Hd]%in_sorted. rewrite Hd. by apply (Hall p).
Qed.

Lemma check_configs_ok (topic : string) (want : list (string * option string)) (current : gmap string string) (u : unit) :
  check_configs topic want current = Ok u <-> forall k v, (k, Some v) ∈ want -> default "" (current !! k) = v.
Proof.
  destruct u. induction want as [|[k [v|]] want IH]; cbn [check_configs].
  - split; [|done]. by intros _ k v ?%elem_of_nil.
  - destruct (str_eqb _ v) eqn:Heq; cbn [negb].
    + apply str_eqb_true in Heq. rewrite IH. split; [|intros Hall k' v' Hin; apply Hall; by right].
      intros Hall k' v' [[= -> ->]|Hin]%elem_of_cons; auto.
    + split; [done|]. intros Hall. specialize (Hall k v ltac:(by left)). by apply (proj1 (str_eqb_false _ _)) in Heq.
  - rewrite IH. split; [|intros Hall k' v' Hin; apply Hall; by right]. intros Hall k' v' [[=]|Hin]%elem_of_cons; auto.
Qed.

Lemma sorted_keys_fmap {A B : Type} (f : A -> B) (m : gmap Z A) :
  merge_sort Z.le (map fst (map_to_list (f <$> m))) = merge_sort Z.le (map fst (map_to_list m)).
Proof.
  apply (StronglySorted_unique Z.le); [apply (StronglySorted_merge_sort Z.le)..|].
  rewrite !(merge_sort_Permutation Z.le), map_to_list_fmap, map_map. apply reflexive_eq, map_ext. by intros [].
Qed.

Lemma replica_loop_agree (topic : string) (l : list Z) (m : gmap Z PartitionDetail) (replication : Z) :
  replica_error topic l m replication =
  replication_loop topic l ((fun d => Z.of_nat (length (pd_Replicas d))) <$> m) replication.
Proof.
  induction l as [|p l IH]; [done|]. cbn [replica_error replication_loop]. rewrite lookup_fmap.
  destruct (m !! p); cbn; by rewrite IH.
Qed.

(** The configuration entries the topic must have, as it has them. *)
Definition configured (want : gmap string (option string)) (entries : list (string * option string)) : Prop :=
  forall k v, want !! k = Some (Some v) -> default "" (current_configs entries !! k) = v.

Section Properties.
Context {W : Type} `{KafkaAdmin W}.

Lemma existing_found (topic : string) (partitions replication : Z) (want : gmap string (option string)) (id : list Z) (w w' : W) :
  existingTopic topic partitions replication want w = ((id, true, None), w') <->
  exists listed w1 detail entries,
    ListTopics topic w = (Ok listed, w1) /\ listed !! topic = Some detail /\ td_ID detail = id /\
    Z.of_nat (size (td_Partitions detail)) = partitions /\ healthy detail replication /\
    DescribeTopicConfigs topic w1 = (Ok (Ok entries), w') /\ configured want entries.
Proof.
  unfold existingTopic, verifyTopicConfigs, mbind, act_bind, mret, act_ret. destruct (ListTopics topic w) as [[listed|e] w1] eqn:Hl;
    [|split; [done|by (intros (? & ? & ? & ? & ? & ? & _ & _ & _ & ? & _); simplify_eq)]].
  destruct (listed !! topic) as [detail|] eqn:Hd; [|split; [done|by (intros (? & ? & ? & ? & ? & ? & _ & _ & _ & ? & _); simplify_eq)]].
  destruct (td_Err detail) as [e|] eqn:He.
  { split; [done|]. intros (l & w2 & d & es & [= <- <-] & Hd' & _ & _ & [Hn _] & _). congruence. }
  destruct (Z.eqb_spec (Z.of_nat (size (td_Partitions detail))) partitions) as [Hp|Hp]; cbn [negb].
  2: { split; [done|]. intros (l & w2 & d & es & [= <- <-] & Hd' & _ & Hp' & _). congruence. }
  pose proof (validate_ok detail replication) as Hv. destruct (ValidateTopicReplication detail replication) as [u|e].
  2: { split; [done|]. intros (l & w2 & d & es & [= <- <-] & Hd' & _ & _ & Hh & _). rewrite Hd in Hd'. injection Hd' as <-.
       by apply (Hv tt) in Hh. }
  assert (healthy detail replication) as Hh by by apply (Hv u).
  destruct (DescribeTopicConfigs topic w1) as [[[entries|e]|e] w2] eqn:Hdc; [|split; [done|by (intros (? & ? & ? & ? & ? & ? & _ & _ & _ & ? & _); simplify_eq; congruence)]..].
  pose proof (check_configs_ok topic (map_to_list want) (current_configs entries)) as Hc.
  assert (configured want entries <-> forall k v, (k, Some v) ∈ map_to_list want -> default "" (current_configs entries !! k) = v) as Hcw.
  { unfold configured. by setoid_rewrite elem_of_map_to_list. }
  destruct (check_configs _ _ _) as [[]|e].
  - split; [intros [= <- <-]|by (intros (? & ? & ? & ? & ? & ? & <- & _ & _ & ? & _); simplify_eq; congruence)]. exists listed, w1, detail, entries. split_and!; try done; [apply Hh..|]. by apply Hcw, (Hc tt).
  - split; [done|]. intros (l & w3 & d & es & [= <- <-] & Hd' & _ & _ & _ & Hdc' & Hcf). rewrite Hdc in Hdc'. injection Hdc' as <- <-.
    pose proof (proj2 (Hc tt) (proj1 Hcw Hcf)). congruence.
Qed.

(** C16. A topic that postie reports as ensured was either created by this call with
    the wanted partitions, replication and configuration, or was listed, in the
    same call, with exactly the wanted number of partitions, no error, exactly
    the wanted replicas on every partition, and every wanted configuration
    entry; the id is that topic's. *)
Theorem ensure_topic_sound (fuel : nat) (n : Names) (partitions replication : Z) (w w' : W) (id : list Z) :
  AdminEnsureTopic fuel n partitions replication w = Some (Ok id, w') ->
  (exists w1 listed w2 detail entries,
     ListTopics (Topic n) w1 = (Ok listed, w2) /\ listed !! Topic n = Some detail /\ td_ID detail = id /\
     Z.of_nat (size (td_Partitions detail)) = partitions /\ healthy detail replication /\
     DescribeTopicConfigs (Topic n) w2 = (Ok (Ok entries), w') /\ configured (topicConfigs replication) entries) \/
  (exists w1, CreateTopic partitions replication (topicConfigs replication) (Topic n) w1 = (Ok (None, id), w')).
Proof.
  unfold AdminEnsureTopic. set (want := topicConfigs replication).
  assert (forall fuel w, await_topic fuel (Topic n) partitions replication want w = Some (Ok id, w') ->
    exists w1, existingTopic (Topic n) partitions replication want w1 = ((id, true, None), w')) as Hawait.
  { clear. intros fuel. induction fuel as [|fuel IH]; intros w; cbn [await_topic];
      destruct (existingTopic _ _ _ _ w) as [[[i found] err] w1] eqn:He;
      (destruct err as [e|]; [done|]); (destruct found; [intros [= <- <-]; by exists w|]);
      destruct (CreateWait w1) as [[e|] w2]; try done. apply IH. }
  destruct (existingTopic _ _ _ _ w) as [[[i found] err] w1] eqn:He. destruct err as [e|]; [done|].
  assert (forall w1, existingTopic (Topic n) partitions replication want w1 = ((id, true, None), w') -> exists w1 listed w2 detail entries,
     ListTopics (Topic n) w1 = (Ok listed, w2) /\ listed !! Topic n = Some detail /\ td_ID detail = id /\
     Z.of_nat (size (td_Partitions detail)) = partitions /\ healthy detail replication /\
     DescribeTopicConfigs (Topic n) w2 = (Ok (Ok entries), w') /\ configured want entries) as Hf.
  { intros w0 (listed & w2 & detail & entries & Hx)%existing_found. by exists w0, listed, w2, detail, entries. }
  destruct found; [intros [= <- <-]; left; by eapply Hf|].
  destruct (CreateTopic _ _ _ _ w1) as [[[[e|] i']|e] w2] eqn:Hc; [|intros [= <- <-]; right; by exists w1|];
    (destruct (negb (IsTopicExists e)); [done|]); intros [w3 Hw3]%Hawait; left; by eapply Hf.
Qed.

(** Two checks of one listing agree, to the text of the error: validating the
    replication of the listed topic directly, and reading its facts to validate
    those, as inspection does. *)
Theorem replication_checks_agree (name : string) (listed : gmap string TopicDetail) (detail : TopicDetail) (replication : Z) :
  listed !! name = Some detail -> td_Topic detail = name -> td_Err detail = None ->
  match facts_of (W := W) name listed with
  | Ok facts => to_Exists facts = true /\ ValidateTopicReplication detail replication = validateReplication name facts replication
  | Err e => exists cause, as_metadata e = Some (true, cause) /\ ValidateTopicReplication detail replication = Err cause
  end.
Proof.
  intros Hl Hn He. unfold facts_of, ValidateTopicReplication. rewrite Hl, He, Hn.
  destruct (partition_error _ _) as [[p e]|]; [by eexists|]. split; [done|].
  unfold validateReplication. cbn [Replicas]. by rewrite sorted_keys_fmap, replica_loop_agree.
Qed.

(** [EnsureTopic] returns: with a context that ends after at most [left_] waits,
    fuel for as many gives a result, whatever Kafka answers. *)
Theorem ensure_topic_returns (left_ : W -> nat) (fuel : nat) (n : Names) (partitions replication : Z) (w : W) :
  (forall w w', CreateWait w = (None, w') -> (left_ w' < left_ w)%nat) ->
  (forall t w, (left_ (ListTopics t w).2 <= left_ w)%nat) ->
  (forall t w, (left_ (DescribeTopicConfigs t w).2 <= left_ w)%nat) ->
  (forall p r c t w, (left_ (CreateTopic p r c t w).2 <= left_ w)%nat) ->
  (left_ w <= fuel)%nat -> is_Some (AdminEnsureTopic fuel n partitions replication w).
Proof.
  intros Hwait Hlist Hdesc Hcreate Hf.
  assert (Hseen : forall want w, (left_ (existingTopic (Topic n) partitions replication want w).2 <= left_ w)%nat).
  { intros want w1. unfold existingTopic, verifyTopicConfigs, mbind, act_bind, mret, act_ret. specialize (Hlist (Topic n) w1).
    destruct (ListTopics (Topic n) w1) as [[listed|e] w2]; [|done]. cbn in Hlist.
    destruct (listed !! Topic n) as [d|]; [|done]. destruct (td_Err d); [done|]. destruct (negb _); [done|].
    destruct (ValidateTopicReplication d replication); [|done]. specialize (Hdesc (Topic n) w2).
    destruct (DescribeTopicConfigs (Topic n) w2) as [a' w3]. cbn in *. lia. }
  assert (Hawait : forall want f w, (left_ w <= f)%nat -> is_Some (await_topic f (Topic n) partitions replication want w)).
  { intros want. induction f as [|f IH]; intros w1 Hw1; cbn [await_topic]; pose proof (Hseen want w1);
      destruct (existingTopic _ _ _ want w1) as [[[i []] [e|]] w2]; try (by eexists);
      destruct (CreateWait w2) as [[e|] w3] eqn:Hc; try (by eexists); apply Hwait in Hc; cbn in *; [lia|apply IH; lia]. }
  unfold AdminEnsureTopic. cbv zeta. pose proof (Hseen (topicConfigs replication) w).
  destruct (existingTopic _ _ _ _ w) as [[[i []] [e|]] w1]; try (by eexists).
  pose proof (Hcreate partitions replication (topicConfigs replication) (Topic n) w1).
  destruct (CreateTopic _ _ _ _ w1) as [[[[e|] i2]|e] w2]; try (by eexists); (destruct (negb _); [by eexists|]); apply Hawait; cbn in *; lia.
Qed.
End Properties.

(** ** Witnesses *)
Module Sim.
#[export] Instance sim_admin : KafkaAdmin (option TopicDetail) := {
  IsUnknownTopic _ := false;
  IsTopicExists _ := false;
  ListTopics topic w := (Ok (match w with Some d => {[ topic := d ]} | None => ∅ end), w);
  CreateTopic _ _ _ _ w := (Ok (None, replicate 16 7), w);
  DescribeTopicConfigs _ w := (Ok (Ok [("retention.ms", Some "-1"); ("cleanup.policy", Some "delete"); ("retention.bytes", Some "-1")]), w);
  CreateWait w := (Some DeadlineExceeded, w) }.
Definition names : Names := mkNames "p" "p.public.orders" "c" "s" "b".
Definition detail : TopicDetail := mkTopicDetail "p.public.orders" (replicate 16 5) None {[ 0 := mkPartitionDetail None [1]; 1 := mkPartitionDetail None [2] ]}.
End Sim.
#[export] Existing Instance Sim.sim_admin.

Lemma ensure_topic_sound_witness : exists w1 listed w2 entries,
  ListTopics "p.public.orders" w1 = (Ok listed, w2) /\ listed !! "p.public.orders" = Some Sim.detail /\
  DescribeTopicConfigs "p.public.orders" w2 = (Ok (Ok entries), Some Sim.detail) /\ configured (topicConfigs 1) entries.
Proof.
  destruct (ensure_topic_sound 0 Sim.names 2 1 (Some Sim.detail) (Some Sim.detail) (replicate 16 5))
    as [(w1 & listed & w2 & d & entries & H1 & H2 & _ & _ & _ & H3 & H4)|[w1 Hc]]; [vm_compute; reflexivity| |cbn in Hc; congruence].
  exists w1, listed, w2, entries. cbn [Topic Sim.names] in *. split_and!; try done. cbn in H1, H3.
  injection H1 as <- <-. injection H3 as _ ->. vm_compute. reflexivity.
Defined.

Lemma replication_checks_agree_witness : exists facts,
  facts_of (W := option TopicDetail) "p.public.orders" {[ "p.public.orders" := Sim.detail ]} = Ok facts /\
  ValidateTopicReplication Sim.detail 1 = validateReplication "p.public.orders" facts 1.
Proof.
  pose proof (replication_checks_agree (W := option TopicDetail) "p.public.orders" {[ "p.public.orders" := Sim.detail ]} Sim.detail 1
    (lookup_singleton_eq _ _) eq_refl eq_refl) as Ha.
  destruct (facts_of _ _) as [facts|e] eqn:Hf; [|vm_compute in Hf; discriminate]. exists facts. split; [reflexivity|apply Ha].
Defined.

Lemma ensure_topic_returns_witness : is_Some (AdminEnsureTopic 0 Sim.names 2 1 (Some Sim.detail)).
Proof.
  apply (ensure_topic_returns (W := option TopicDetail) (fun _ => 0%nat) 0 Sim.names 2 1 (Some Sim.detail)); try lia; try done.
Defined.
