(* ===== verification/Connector.v ===== *)
(** * Connector: the Kafka Connect client

    Models [internal/adapters/debezium/connector.go]: the connector
    configuration and the two REST calls.  The HTTP transport is a function
    from a request to what [client.Do] returns. *)

From S2P Require Import Prelude Strconv Stream Json JsonCodec JsonString GoFmt Delivery HttpDelivery Provision.
Local Open Scope Z_scope.

(** ** Texts *)

(** [strings.Join]. *)
Fixpoint join (sep : string) (l : list string) : string :=
  match l with [] => "" | [s] => s | s :: l => s +:+ sep +:+ join sep l end.

(** [strings.ReplaceAll] of the quote by two. *)
Fixpoint double_quotes (s : string) : string :=
  match s with
  | EmptyString => ""
  | String c r => if Ascii.eqb c dquote then String c (String c (double_quotes r)) else String c (double_quotes r)
  end.

Definition quoteIdent (name : string) : string := String dquote (double_quotes name +:+ String dquote "").

(** [regexp.QuoteMeta]. *)
Definition is_meta (c : ascii) : bool := 
  bool_decide (c ∈ ["\"; "."; "+"; "*"; "?"; "("; ")"; "|"; "["; "]"; "{"; "}"; "^"; "$"]%char).
Fixpoint QuoteMeta (s : string) : string :=
  match s with
  | EmptyString => ""
  | String c r => if is_meta c then String "\" (String c (QuoteMeta r)) else String c (QuoteMeta r)
  end.

Definition connectorURL (connectURL connector resource : string) : string :=
  TrimRight connectURL "/" +:+ "/connectors/" +:+ connector +:+ "/" +:+ resource.

(** ** Configuration *)
Record Connection : Type := mkConnection {
  Host : string; Port : Z; cn_Username : string; cn_Password : string; Database : string }.

Definition publicationText (p : PublicationMode) : string :=
  match p with PublicationManaged => "filtered" | PublicationExternal => "disabled" end.

Definition snapshotSelect (src : Source) (id : Identity) : string :=
  "SELECT " +:+ join ", " (map (fun c => quoteIdent (Name c)) (Columns id)) +:+ " FROM public." +:+ quoteIdent (SrcTable src) +:+
  " ORDER BY " +:+ quoteIdent (SrcSerialColumn src) +:+ " ASC".

Definition includeList (src : Source) (id : Identity) : string :=
  join "," (map (fun c => QuoteMeta ("public." +:+ SrcTable src +:+ "." +:+ Name c)) (Columns id)).

Definition ConnectorConfig (src : Source) (connection : Connection) (id : Identity) (n : Names) (publication : PublicationMode) :
  gmap string string :=
  list_to_map [
    ("connector.class", "io.debezium.connector.postgresql.PostgresConnector");
    ("plugin.name", "pgoutput");
    ("database.hostname", Host connection);
    ("database.port", Itoa (Port connection));
    ("database.user", cn_Username connection);
    ("database.password", cn_Password connection);
    ("database.dbname", Database connection);
    ("topic.prefix", TopicPrefix n);
    ("table.include.list", "public." +:+ SrcTable src);
    ("column.include.list", includeList src id);
    ("message.key.columns", "public." +:+ SrcTable src +:+ ":" +:+ SrcPartitioningColumn src);
    ("slot.name", Slot n);
    ("publication.name", Publication n);
    ("publication.autocreate.mode", publicationText publication);
    ("snapshot.mode", "initial");
    ("snapshot.select.statement.overrides", "public." +:+ SrcTable src);
    ("snapshot.select.statement.overrides.public." +:+ SrcTable src, snapshotSelect src id);
    ("skipped.operations", "none");
    ("tombstones.on.delete", "false");
    ("binary.handling.mode", "base64");
    ("decimal.handling.mode", "string");
    ("time.precision.mode", "adaptive_time_microseconds");
    ("heartbeat.interval.ms", "10000");
    ("topic.creation.default.replication.factor", "-1");
    ("topic.creation.default.partitions", "1");
    ("key.converter", "org.apache.kafka.connect.json.JsonConverter");
    ("key.converter.schemas.enable", "false");
    ("value.converter", "org.apache.kafka.connect.json.JsonConverter");
    ("value.converter.schemas.enable", "false");
    ("producer.override.acks", "all") ].

(** ** Requests *)
Record ConnectRequest : Type := mkConnectRequest { cr_method : string; cr_url : string; cr_body : string }.

Definition maxErrorBody : nat := N.to_nat 65536.

(** [errorBody]: what the limited reader gave, its error dropped. *)
Definition errorBody (r : Response) : string := str_take maxErrorBody (body_bytes r).

Section Calls.
Variable valid_url : string -> bool.
Variable do_ : ConnectRequest -> result error Response.

Definition EnsureConnectorConfig (connectURL : string) (n : Names) (cfg : gmap string string) : result Error unit :=
  let url := connectorURL connectURL (Connector n) "config" in
  if negb (valid_url url) then
    Err (Wrap "capture: build connector request for %q: %w" [Connector n] (Plain (Errorf "parse %q: invalid URL" [url])))
  else
    match do_ (mkConnectRequest "PUT" url (MarshalStringMap cfg)) with
    | Err e => Err (Wrap "capture: put connector config for %q: %w" [Connector n] (Plain e))
    | Ok resp =>
        if (StatusCode resp =? 200) || (StatusCode resp =? 201) then Ok tt
        else Err (Plain (Errorf "capture: connect returned %d for connector %q: %s" [Itoa (StatusCode resp); Connector n; errorBody resp]))
    end.

(** The client's method: the source's own connection settings, zero for a
    source it has none for. *)
Definition ClientEnsureConnector (connectURL : string) (connections : gmap string Connection) (src : Source) (id : Identity) (n : Names)
  (publication : PublicationMode) : result Error unit :=
  let connection := default (mkConnection "" 0 "" "" "") (connections !! ID src) in
  EnsureConnectorConfig connectURL n (ConnectorConfig src connection id n publication).

(** ** Status *)
Definition StateFailed : ConnectorState := "FAILED".

(** A connector or task of the response, and the response. *)
Record stateTrace : Type := mkStateTrace { st_State : string; st_TraceText : string }.
Definition zero_state : stateTrace := mkStateTrace "" "".
(** The tasks as a Go slice: its memory, and how much of it is in use. *)
Record connectStatus : Type := mkConnectStatus { cs_Connector : stateTrace; cs_memory : list stateTrace; cs_len : nat }.
Definition cs_Tasks (s : connectStatus) : list stateTrace := take (cs_len s) (cs_memory s).

(** Decoding into a string variable, and into the two-field struct, where later
    members overwrite earlier ones and null changes nothing. *)
Definition decode_into_string (old : string) (c : cst) : option string :=
  match c with CNull => Some old | CStr b => unquote b | _ => None end.

Definition decode_state_field (acc : option stateTrace) (m : member cst) : option stateTrace :=
  s ← acc;
  let key := default "" (unquote (m_key m)) in
  if field_matches "state" key then v ← decode_into_string (st_State s) (m_val m); Some (mkStateTrace v (st_TraceText s))
  else if field_matches "trace" key then v ← decode_into_string (st_TraceText s) (m_val m); Some (mkStateTrace (st_State s) v)
  else Some s.

Definition decode_state (old : stateTrace) (c : cst) : option stateTrace :=
  match c with CNull => Some old | CObj _ ms => foldl decode_state_field (Some old) ms | _ => None end.

(** An array overwrites the slice's memory element by element. *)
Fixpoint decode_tasks (i : nat) (memory : list stateTrace) (es : list (elem cst)) : option (list stateTrace) :=
  match es with
  | [] => Some memory
  | e :: es =>
      s ← decode_state (default zero_state (memory !! i)) (e_val e);
      decode_tasks (S i) (if decide (i < length memory)%nat then <[i := s]> memory else memory ++ [s]) es
  end.

Definition decode_status_field (acc : option connectStatus) (m : member cst) : option connectStatus :=
  s ← acc;
  let key := default "" (unquote (m_key m)) in
  if field_matches "connector" key then
    v ← decode_state (cs_Connector s) (m_val m); Some (mkConnectStatus v (cs_memory s) (cs_len s))
  else if field_matches "tasks" key then
    match m_val m with
    | CNull | CArr _ [] => Some (mkConnectStatus (cs_Connector s) [] 0)
    | CArr _ es => v ← decode_tasks 0 (cs_memory s) es; Some (mkConnectStatus (cs_Connector s) v (length es))
    | _ => None
    end
  else Some s.

(** [json.NewDecoder(body).Decode]: the first value; what follows it is not
    read.  A read error matters unless an object was complete before it. *)
Definition decode_status (r : Response) : option connectStatus :=
  let '(_, text) := str_span is_ws (body_bytes r) in
  match parse_value (S (2 * String.length text)) 0 text with
  | Some (CObj _ ms, _) => foldl decode_status_field (Some (mkConnectStatus zero_state [] 0)) ms
  | Some (CNull, rest) =>
      if bool_decide (rest = "") && bool_decide (is_Some (body_error r)) then None else Some (mkConnectStatus zero_state [] 0)
  | _ => None
  end.

Fixpoint tasks_loop (tasks : list stateTrace) (failed : bool) (trace : string) : bool * string :=
  match tasks with
  | [] => (failed, trace)
  | task :: tasks =>
      if str_eqb (st_State task) StateFailed then tasks_loop tasks true (if str_eqb trace "" then st_TraceText task else trace)
      else tasks_loop tasks failed trace
  end.

Definition statusFrom (raw : connectStatus) : Provision.Status :=
  let '(failed, trace) := tasks_loop (cs_Tasks raw) (str_eqb (st_State (cs_Connector raw)) StateFailed) (st_TraceText (cs_Connector raw)) in
  Provision.mkStatus (st_State (cs_Connector raw)) (map st_State (cs_Tasks raw)) failed trace.

Definition ConnectorStatusOf (connectURL name : string) : result Error Provision.Status :=
  let url := connectorURL connectURL name "status" in
  if negb (valid_url url) then
    Err (Wrap "capture: build status request for %q: %w" [name] (Plain (Errorf "parse %q: invalid URL" [url])))
  else
    match do_ (mkConnectRequest "GET" url "") with
    | Err e => Err (Wrap "capture: get connector status for %q: %w" [name] (Plain e))
    | Ok resp =>
        if StatusCode resp =? 404 then Err ErrConnectorMissing
        else if negb (StatusCode resp =? 200) then
          Err (Plain (Errorf "capture: connect returned %d for connector %q status: %s" [Itoa (StatusCode resp); name; errorBody resp]))
        else match decode_status resp with
        | None => Err (Wrap "capture: decode connector status for %q: %w" [name] (Plain (Errorf "json" [])))
        | Some raw => Ok (statusFrom raw)
        end
    end.
End Calls.

(** ** Reading the texts back

    A quoted identifier ends at the first quote that is not doubled. *)
Fixpoint read_quoted (s : string) : option (string * string) :=
  match s with
  | EmptyString => None
  | String c r =>
      if Ascii.eqb c dquote then
        match r with
        | String d r' =>
            if Ascii.eqb d dquote then '(n, rest) ← read_quoted r'; Some (String c n, rest) else Some ("", r)
        | EmptyString => Some ("", "")
        end
      else '(n, rest) ← read_quoted r; Some (String c n, rest)
  end.

Definition read_ident (s : string) : option (string * string) :=
  match s with String c r => if Ascii.eqb c dquote then read_quoted r else None | EmptyString => None end.

Fixpoint read_idents (fuel : nat) (s : string) : option (list string * string) :=
  match fuel with
  | O => None
  | S fuel =>
      '(n, rest) ← read_ident s;
      match strip_prefix ", " rest with
      | Some rest => '(ns, rest) ← read_idents fuel rest; Some (n :: ns, rest)
      | None => Some ([n], rest)
      end
  end.

(** The snapshot statement: its columns, its table and the column it orders by. *)
Definition read_select (s : string) : option (list string * string * string) :=
  s ← strip_prefix "SELECT " s;
  '(columns, s) ← read_idents (String.length s) s;
  s ← strip_prefix " FROM public." s;
  '(table, s) ← read_ident s;
  s ← strip_prefix " ORDER BY " s;
  '(serial, s) ← read_ident s;
  if str_eqb s " ASC" then Some (columns, table, serial) else None.

Lemma read_ident_quoted (n rest : string) : str_stops (Ascii.eqb dquote) rest = true ->
  read_ident (quoteIdent n +:+ rest) = Some (n, rest).
Proof.
  intros Hr. unfold quoteIdent. cbn [String.append read_ident]. rewrite Ascii.eqb_refl, str_app_assoc.
  change (String dquote "" +:+ rest) with (String dquote rest). induction n as [|c n IH].
  - cbn [double_quotes read_quoted]. rewrite str_app_nil_l. cbn [read_quoted]. rewrite Ascii.eqb_refl. destruct rest as [|d rest]; [done|].
    unfold str_stops in Hr. apply negb_true_iff, Ascii.eqb_neq in Hr. destruct (Ascii.eqb_spec d dquote) as [->|Hd]; done.
  - cbn [double_quotes]. destruct (Ascii.eqb_spec c dquote) as [->|Hc]; cbn [String.append read_quoted].
    + rewrite !Ascii.eqb_refl. by rewrite IH.
    + rewrite (proj2 (Ascii.eqb_neq c dquote) Hc). by rewrite IH.
Qed.

Lemma read_idents_join (ns : list string) (rest : string) (fuel : nat) :
  ns <> [] -> (length ns <= fuel)%nat -> str_stops (Ascii.eqb dquote) rest = true -> strip_prefix ", " rest = None ->
  read_idents fuel (join ", " (map quoteIdent ns) +:+ rest) = Some (ns, rest).
Proof.
  intros Hne. revert fuel. induction ns as [|n [|n' ns] IH]; intros fuel Hf Hr Hs; [done| |].
  - destruct fuel as [|fuel]; [cbn in Hf; lia|]. cbn [map join read_idents]. rewrite read_ident_quoted by done. cbn [mbind option_bind]. by rewrite Hs.
  - destruct fuel as [|fuel]; [cbn in Hf; lia|].
    change (join ", " (map quoteIdent (n :: n' :: ns))) with (quoteIdent n +:+ ", " +:+ join ", " (map quoteIdent (n' :: ns))).
    rewrite !str_app_assoc. cbn [read_idents]. rewrite read_ident_quoted by done. cbn [mbind option_bind].
    rewrite strip_prefix_app, IH; [done|done|cbn in *; lia|done|done].
Qed.

Lemma join_length (ns : list string) : (length ns <= String.length (join ", " (map quoteIdent ns)))%nat.
Proof.
  induction ns as [|n [|n' ns] IH]; [done|cbn; rewrite str_length_app; cbn; lia|].
  change (join ", " (map quoteIdent (n :: n' :: ns))) with (quoteIdent n +:+ ", " +:+ join ", " (map quoteIdent (n' :: ns))).
  rewrite !str_length_app. cbn in *. lia.
Qed.

(** C32. The snapshot statement says what it was built from, for any names at all:
    reading it back gives exactly the identity's columns in order, the table
    and the serial column, so no name can escape its quotes. *)
Theorem select_reads_back (src : Source) (id : Identity) :
  Columns id <> [] ->
  read_select (snapshotSelect src id) = Some (map Name (Columns id), SrcTable src, SrcSerialColumn src).
Proof.
  intros Hne. unfold read_select, snapshotSelect. rewrite strip_prefix_app. cbn [mbind option_bind].
  rewrite <- (map_map Name quoteIdent). rewrite read_idents_join; [| |rewrite str_length_app; pose proof (join_length (map Name (Columns id))); lia|done|done].
  2: { by intros Hn%map_eq_nil. }
  cbn [mbind option_bind]. rewrite strip_prefix_app. cbn [mbind option_bind]. rewrite read_ident_quoted by done. cbn [mbind option_bind].
  rewrite strip_prefix_app. cbn [mbind option_bind]. rewrite read_ident_quoted by done. cbn [mbind option_bind].
  by rewrite (proj2 (str_eqb_true " ASC" " ASC")).
Qed.

(** A pattern without special characters, as the text it matches. *)
Fixpoint literal (p : string) : option string :=
  match p with
  | EmptyString => Some ""
  | String c r =>
      if Ascii.eqb c "\" then match r with String d r => String d <$> literal r | EmptyString => None end
      else if is_meta c then None else String c <$> literal r
  end.

Lemma QuoteMeta_literal (s : string) : literal (QuoteMeta s) = Some s.
Proof.
  induction s as [|c s IH]; [done|]. cbn [QuoteMeta]. destruct (is_meta c) eqn:Hm.
  - cbn [literal]. rewrite Ascii.eqb_refl. by rewrite IH.
  - cbn [literal]. rewrite Hm, IH. destruct (Ascii.eqb_spec c "\") as [->|Hc]; [|done]. by vm_compute in Hm.
Qed.

(** A column whose name contains a comma is not what the list names: it reads
    as two other columns. *)
Example include_list_ambiguous :
  let src := mkSource "orders" "" "orders" [] "" "" in
  let identity cs := mkIdentity "orders" "" "" "" 1 (map (fun n => mkColumn n "text") cs) in
  includeList src (identity ["a,public.orders.b"]) = includeList src (identity ["a"; "b"]).
Proof. vm_compute. reflexivity. Qed.

(** ** The calls *)
Lemma tasks_loop_spec (tasks : list stateTrace) (failed : bool) (trace : string) :
  let failing := List.filter (fun t => str_eqb (st_State t) StateFailed) tasks in
  tasks_loop tasks failed trace =
  (failed || negb (bool_decide (failing = [])),
   foldl (fun trace t => if str_eqb trace "" then st_TraceText t else trace) trace failing).
Proof.
  revert failed trace. induction tasks as [|t tasks IH]; intros failed trace; cbn; [by rewrite orb_false_r|].
  destruct (str_eqb (st_State t) StateFailed); rewrite IH; cbn; by rewrite ?orb_true_r.
Qed.

(** A connector's configuration is applied exactly when Connect answers 200 or
    201 to a PUT of the connector's config whose body reads back as that
    configuration, credentials and all; and what an error says does not depend
    on the configuration: two configurations that Connect answers alike give
    the same result. *)
Theorem connector_applied (valid_url : string -> bool) (do_ : ConnectRequest -> result error Response) (connectURL : string) (n : Names)
  (cfg : gmap string string) :
  map_Forall (fun k v => ValidUTF8 k = true /\ ValidUTF8 v = true) cfg ->
  let url := connectorURL connectURL (Connector n) "config" in
  (EnsureConnectorConfig valid_url do_ connectURL n cfg = Ok tt <->
   valid_url url = true /\ exists body resp, UnmarshalStringMap body = Some cfg /\ body = MarshalStringMap cfg /\
     do_ (mkConnectRequest "PUT" url body) = Ok resp /\ (StatusCode resp = 200 \/ StatusCode resp = 201)) /\
  (forall cfg', do_ (mkConnectRequest "PUT" url (MarshalStringMap cfg')) = do_ (mkConnectRequest "PUT" url (MarshalStringMap cfg)) ->
   EnsureConnectorConfig valid_url do_ connectURL n cfg' = EnsureConnectorConfig valid_url do_ connectURL n cfg).
Proof.
  intros Hcfg url. unfold EnsureConnectorConfig. fold url. split; [|by intros cfg' ->].
  destruct (valid_url url); cbn [negb]; [|split; [done|by intros [? _]]].
  destruct (do_ _) as [resp|e] eqn:Hdo.
  - destruct ((StatusCode resp =? 200) || (StatusCode resp =? 201)) eqn:Hst; bools.
    + split; [intros _|done]. split; [done|]. eexists _, resp. split; [by apply string_map_roundtrip|]. split; [done|]. split; [done|lia].
    + split; [done|]. intros (_ & body & resp' & _ & -> & Hdo' & Hs). rewrite Hdo in Hdo'. injection Hdo' as <-. lia.
  - split; [done|]. intros (_ & body & resp' & _ & -> & Hdo' & _). congruence.
Qed.

(** What a status means: it comes from a 200 answer; it is failed exactly when
    the connector or one of its tasks reported FAILED; a missing connector is
    exactly a 404; and no other error counts as missing. *)
Theorem connector_status_means (valid_url : string -> bool) (do_ : ConnectRequest -> result error Response) (connectURL name : string) :
  let url := connectorURL connectURL name "status" in
  let answer := do_ (mkConnectRequest "GET" url "") in
  match ConnectorStatusOf valid_url do_ connectURL name with
  | Ok st => exists resp raw, valid_url url = true /\ answer = Ok resp /\ StatusCode resp = 200 /\ decode_status resp = Some raw /\
      st_Connector st = st_State (cs_Connector raw) /\ Tasks st = map st_State (cs_Tasks raw) /\
      (Failed st = true <-> st_Connector st = StateFailed \/ StateFailed ∈ Tasks st)
  | Err e => is_connector_missing e = true <-> valid_url url = true /\ exists resp, answer = Ok resp /\ StatusCode resp = 404
  end.
Proof.
  intros url answer. unfold ConnectorStatusOf. fold url. fold answer. destruct (valid_url url); cbn [negb]; [|cbn; split; [done|by intros [? _]]].
  destruct answer as [resp|e] eqn:Ha; [|cbn; split; [done|naive_solver]].
  destruct (Z.eqb_spec (StatusCode resp) 404) as [H4|H4]; [cbn; split; [eauto|done]|].
  destruct (Z.eqb_spec (StatusCode resp) 200) as [H2|H2]; cbn [negb]; [|cbn; split; [done|naive_solver]].
  destruct (decode_status resp) as [raw|] eqn:Hraw; [|cbn; split; [done|naive_solver]].
  exists resp, raw. unfold statusFrom. rewrite tasks_loop_spec. cbn [st_Connector Tasks Failed]. split_and!; try done.
  rewrite orb_true_iff, str_eqb_true, negb_true_iff, (bool_decide_eq_false (List.filter _ _ = [])).
  assert (List.filter (fun t => str_eqb (st_State t) StateFailed) (cs_Tasks raw) <> [] <-> StateFailed ∈ map st_State (cs_Tasks raw)) as ->; [|done].
  induction (cs_Tasks raw) as [|t l IH]; cbn; [split; [done|by intros ?%elem_of_nil]|]. rewrite elem_of_cons.
  destruct (str_eqb (st_State t) StateFailed) eqn:Ht; [apply str_eqb_true in Ht; split; [by left|done]|].
  rewrite IH. apply (proj1 (str_eqb_false _ _)) in Ht. split; [by right|by intros [?|?]].
Qed.

(** ** Witnesses *)
Definition ex_source : Source := mkSource "orders" "" "orders" [] "id" "customer".
Definition ex_identity : Identity := mkIdentity "orders" "id" "customer" "" 1 [mkColumn "id" "int8"; mkColumn (String dquote "; DROP") "text"].

Lemma select_reads_back_witness :
  read_select (snapshotSelect ex_source ex_identity) = Some (["id"; String dquote "; DROP"], "orders", "id").
Proof. apply (select_reads_back ex_source ex_identity). discriminate. Defined.

Definition ex_config : gmap string string :=
  ConnectorConfig ex_source (mkConnection "db" 5432 "u" "p\w" "shop") ex_identity (mkNames "p" "t" "c" "s" "b") PublicationManaged.

Lemma connector_applied_witness :
  EnsureConnectorConfig (fun _ => true) (fun _ => Ok (mkResponse 201 "" None)) "http://connect:8083/" (mkNames "p" "t" "c" "s" "b") ex_config = Ok tt /\
  UnmarshalStringMap (MarshalStringMap ex_config) = Some ex_config.
Proof.
  assert (map_Forall (fun k v => ValidUTF8 k = true /\ ValidUTF8 v = true) ex_config) as Hv.
  { assert (forallb (fun '(k, v) => ValidUTF8 k && ValidUTF8 v) (map_to_list ex_config) = true) as Hall by (vm_compute; reflexivity).
    revert Hall. generalize ex_config as m. intros m Hall k v Hkv. rewrite forallb_forall in Hall. specialize (Hall (k, v)).
    apply andb_true_iff, Hall. by apply list_elem_of_In, elem_of_map_to_list. }
  split; [|exact (string_map_roundtrip _ Hv)].
  refine (proj2 (proj1 (connector_applied (fun _ => true) (fun _ => Ok (mkResponse 201 "" None)) "http://connect:8083/" (mkNames "p" "t" "c" "s" "b") ex_config Hv)) _).
  split; [reflexivity|]. exists (MarshalStringMap ex_config), (mkResponse 201 "" None).
  split; [exact (string_map_roundtrip _ Hv)|]. split; [reflexivity|]. split; [reflexivity|]. by right.
Defined.
