(* ===== verification/Catalog.v ===== *)
(** * Catalog: inspecting a source PostgreSQL database

    Models [internal/adapters/sourcepg/sourcepg.go]: the three queries of
    [InspectTable] and the one of [SlotHealth] over the system catalogs as
    tables of rows, and the connection string.  Each query reads the catalogs
    as they are at that moment, or fails. *)

From S2P Require Import Prelude Strconv Json GoFmt Stream Act Provision Connector.
Local Open Scope Z_scope.

(** ** The system catalogs *)
Record PgNamespace : Type := mkNamespace { ns_oid : Z; nspname : string }.
Record PgClass : Type := mkClass { cl_oid : Z; relname : string; relnamespace : Z; relkind : string }.
Record PgAttribute : Type := mkAttribute {
  attrelid : Z; attname : string; atttypid : Z; attnotnull : bool; attnum : Z; attisdropped : bool }.
Record PgType : Type := mkType { ty_oid : Z; typname : string }.
Record PgIndex : Type := mkIndex {
  indrelid : Z; indkey : list Z; indisunique : bool; indisprimary : bool; indisvalid : bool; indpred : option string }.
Record PgSlot : Type := mkSlot { slot_name : string; wal_status : option string }.

Record Catalogs : Type := mkCatalogs {
  pg_namespace : list PgNamespace; pg_class : list PgClass; pg_attribute : list PgAttribute;
  pg_type : list PgType; pg_index : list PgIndex; pg_replication_slots : list PgSlot }.

(** ** The queries *)
Definition where_ (b : bool) : list unit := if b then [tt] else [].

(** The relations named so in the public schema. *)
Definition public_named (c : Catalogs) (table : string) : list PgClass :=
  cl ← pg_class c; n ← pg_namespace c;
  _ ← where_ ((ns_oid n =? relnamespace cl) && str_eqb (nspname n) "public" && str_eqb (relname cl) table);
  mret cl.

Definition table_exists (c : Catalogs) (table : string) : bool :=
  existsb (fun cl => str_mem (relkind cl) ["r"; "p"]) (public_named c table).

Definition table_columns (c : Catalogs) (table : string) : list (string * string * bool) :=
  a ← pg_attribute c; t ← pg_type c; cl ← public_named c table;
  _ ← where_ ((ty_oid t =? atttypid a) && (cl_oid cl =? attrelid a) && (0 <? attnum a) && negb (attisdropped a));
  mret (attname a, typname t, attnotnull a).

Definition serial_index (c : Catalogs) (table column : string) : bool :=
  negb (bool_decide ((
    i ← pg_index c; cl ← public_named c table; a ← pg_attribute c;
    _ ← where_ ((cl_oid cl =? indrelid i) && (attrelid a =? cl_oid cl) && bool_decide (attnum a ∈ indkey i) &&
                str_eqb (attname a) column && (indisunique i || indisprimary i) && (length (indkey i) =? 1)%nat);
    mret tt) = [])).

Definition slot_rows (c : Catalogs) (slot : string) : list (option string) :=
  s ← pg_replication_slots c; _ ← where_ (str_eqb (slot_name s) slot); mret (wal_status s).

(** ** The client *)

(** A query's turn at the database. *)
Class Server (W : Type) : Type := { Query : Act W (result error Catalogs) }.

(** [err] is why the pool could not be built. *)
Record Client : Type := mkClient { cl_Source : Source; cl_err : option error }.

(** [Open]; [pool] is what the driver made of the connection string. *)
Definition Open (source : Source) (pool : result (bool * error) unit) : Client :=
  mkClient source match pool with
  | Ok _ => None
  | Err (true, e) => Some (Wrapf "capture: configure pool for %s: %w" [ID source] e)
  | Err (false, e) => Some (Wrapf "capture: open pool for %s: %w" [ID source] e)
  end.

Section Client.
Context {W : Type} `{Server W}.

Definition ask {A : Type} (format : string) (arg : string) (q : Catalogs -> A) : Act W (result error A) :=
  r ← Query; mret (match r with Ok c => Ok (q c) | Err e => Err (Wrapf format [arg] e) end).

Definition column_facts (rows : list (string * string * bool)) : gmap string ColumnFacts :=
  foldl (fun m '(name, typname, notNull) => <[ name := mkColumnFacts typname notNull ]> m) ∅ rows.

Definition InspectTable (cl : Client) : Act W (result error TableFacts) :=
  let table := SrcTable (cl_Source cl) in
  let serial := SrcSerialColumn (cl_Source cl) in
  match cl_err cl with
  | Some e => throw e
  | None =>
      tableExists <~ ask "capture: check table public.%s exists: %w" table (fun c => table_exists c table);
      if negb tableExists then give (mkTableFacts false ∅ false)
      else
        rows <~ ask "capture: read columns of public.%s: %w" table (fun c => table_columns c table);
        serialUniqueIndex <~ ask "capture: check unique index on serialColumn %q: %w" serial (fun c => serial_index c table serial);
        give (mkTableFacts true (column_facts rows) serialUniqueIndex)
  end.

Definition SlotHealth (cl : Client) (slot : string) : Act W (result error SlotStatus) :=
  match cl_err cl with
  | Some e => throw e
  | None =>
      rows <~ ask "capture: query pg_replication_slots for %q: %w" slot (fun c => slot_rows c slot);
      give (match rows with
            | [] => mkSlotStatus false ""
            | walStatus :: _ => mkSlotStatus true (default "" walStatus)
            end)
  end.
End Client.

(** ** The connection string *)

(** [url.shouldEscape] for the parts of a URL written here. *)
Inductive encoding : Type := encodeUserPassword | encodeHost | encodePath.

Definition is_alnum (c : ascii) : bool :=
  let n := byte_val c in ((97 <=? n) && (n <=? 122)) || ((65 <=? n) && (n <=? 90)) || ((48 <=? n) && (n <=? 57)).

Definition in_chars (c : ascii) (s : string) : bool := negb (str_forallb (fun d => negb (Ascii.eqb c d)) s).

Definition shouldEscape (mode : encoding) (c : ascii) : bool :=
  if is_alnum c || in_chars c "-_.~" then false
  else match mode with
  | encodeHost => negb (in_chars c "!$&'()*+,;=:[]<>" || Ascii.eqb c dquote)
  | encodePath => negb (in_chars c "$&+,/:;=@")
  | encodeUserPassword => negb (in_chars c "$&+,;=")
  end.

Definition upper_hex (n : Z) : ascii := default "0"%char (String.get (Z.to_nat n) "0123456789ABCDEF").

(** [url.escape]. *)
Fixpoint escape (s : string) (mode : encoding) : string :=
  match s with
  | EmptyString => ""
  | String c s =>
      if shouldEscape mode c then String "%" (String (upper_hex (byte_val c / 16)) (String (upper_hex (byte_val c mod 16)) (escape s mode)))
      else String c (escape s mode)
  end.

(** [connString]: [url.URL.String] of a URL with a user, a host and a path. *)
Definition connString (c : Connection) : string :=
  "postgres://" +:+ escape (Connector.cn_Username c) encodeUserPassword +:+ String ":" (escape (Connector.cn_Password c) encodeUserPassword +:+
    String "@" (escape (Host c +:+ String ":" (Itoa (Port c))) encodeHost +:+ escape (String "/" (Database c)) encodePath)).

(** ** Reading a connection string *)
Definition hex_value (c : ascii) : Z :=
  let n := byte_val c in if n <? 58 then n - 48 else n - 55.

Fixpoint unescape (s : string) : string :=
  match s with
  | String "%" (String a (String b s)) => String (byte_of (16 * hex_value a + hex_value b)) (unescape s)
  | String c s => String c (unescape s)
  | EmptyString => ""
  end.

Definition until (d : ascii) (s : string) : string * string := str_span (fun c => negb (Ascii.eqb c d)) s.

(** The user, the password, host and port, and the database of a URL. *)
Definition read_connection (s : string) : option (string * string * string * string) :=
  s ← strip_prefix "postgres://" s;
  let '(authority, path) := until "/" s in
  let '(userinfo, host) := until "@" authority in
  let '(user, password) := until ":" userinfo in
  host ← strip_prefix "@" host;
  password ← strip_prefix ":" password;
  database ← strip_prefix "/" path;
  Some (unescape user, unescape password, unescape host, unescape database).

(** ** Lemmas *)
(** A check of every digit value by computation. *)
Lemma all_nibbles (P : Z -> bool) : forallb (fun k => P (Z.of_nat k)) (seq 0 16) = true -> forall d, 0 <= d < 16 -> P d = true.
Proof.
  rewrite forallb_forall. intros Hall d Hd. specialize (Hall (Z.to_nat d)). rewrite in_seq, Z2Nat.id in Hall by lia. apply Hall. lia.
Qed.

Lemma hex_round (d : Z) : 0 <= d < 16 -> hex_value (upper_hex d) = d.
Proof. intros Hd. apply Z.eqb_eq. by apply (all_nibbles (fun d => hex_value (upper_hex d) =? d)). Qed.

Lemma percent_escaped (mode : encoding) : shouldEscape mode "%" = true.
Proof. by destruct mode. Qed.

Lemma unescape_escape (s : string) (mode : encoding) : unescape (escape s mode) = s.
Proof.
  induction s as [|c s IH]; [done|]. cbn [escape]. destruct (shouldEscape mode c) eqn:Hc.
  - cbn [unescape]. pose proof (byte_val_range c). rewrite !hex_round, IH by zdiv. f_equal.
    rewrite <- (byte_of_val c) at 3. f_equal. zdiv.
  - assert (c <> "%"%char) by (intros ->; by rewrite percent_escaped in Hc).
    cbn [unescape]. destruct c as [[] [] [] [] [] [] [] []]; try (by rewrite IH); done.
Qed.

(** No delimiter survives where it could end a part early. *)
Lemma escape_free (d : ascii) (mode : encoding) (s : string) :
  shouldEscape mode d = true -> d <> "%"%char -> is_alnum d = false -> str_forallb (fun c => negb (Ascii.eqb c d)) (escape s mode) = true.
Proof.
  intros Hd Hp Hn.
  assert (forall n, 0 <= n < 16 -> negb (Ascii.eqb (upper_hex n) d) = true) as Hhex.
  { intros n Hr. apply negb_true_iff, Ascii.eqb_neq. intros <-. by rewrite (all_nibbles (fun n => is_alnum (upper_hex n))) in Hn. }
  induction s as [|c s IH]; [done|]. cbn [escape]. pose proof (byte_val_range c).
  destruct (shouldEscape mode c) eqn:Hc; cbn [str_forallb].
  - rewrite !Hhex by zdiv. rewrite IH. rewrite (proj2 (Ascii.eqb_neq "%" d)); [done|]. by intros <-.
  - rewrite IH, andb_true_r. apply negb_true_iff, Ascii.eqb_neq. intros ->. by rewrite Hd in Hc.
Qed.

Lemma until_app (d : ascii) (a b : string) :
  str_forallb (fun c => negb (Ascii.eqb c d)) a = true -> until d (a +:+ String d b) = (a, String d b).
Proof. intros Ha. unfold until. apply str_span_app; [done|]. cbn. by rewrite Ascii.eqb_refl. Qed.

(** A member of a query's answer. *)
Lemma elem_of_query {A B : Type} (b : B) (l : list A) (f : A -> list B) : b ∈ l ≫= f <-> exists a, a ∈ l /\ b ∈ f a.
Proof. rewrite list_elem_of_bind. naive_solver. Qed.

Lemma elem_of_where {B : Type} (b : B) (cond : bool) (l : list B) : b ∈ (_ ← where_ cond; l) <-> cond = true /\ b ∈ l.
Proof. rewrite elem_of_query. unfold where_. destruct cond; set_solver. Qed.

Lemma elem_of_public (c : Catalogs) (table : string) (cl : PgClass) :
  cl ∈ public_named c table <->
  cl ∈ pg_class c /\ relname cl = table /\ exists n, n ∈ pg_namespace c /\ ns_oid n = relnamespace cl /\ nspname n = "public".
Proof.
  unfold public_named. rewrite elem_of_query. setoid_rewrite elem_of_query. setoid_rewrite elem_of_where.
  setoid_rewrite andb_true_iff. setoid_rewrite andb_true_iff. setoid_rewrite Z.eqb_eq. setoid_rewrite str_eqb_true. setoid_rewrite list_elem_of_ret.
  naive_solver.
Qed.

#[local] Opaque public_named.

(** The live column of a relation: what [table_columns] lists. *)
Definition column_of (c : Catalogs) (table name typname_ : string) (notnull : bool) : Prop :=
  exists cl a t, cl ∈ public_named c table /\ a ∈ pg_attribute c /\ t ∈ pg_type c /\ attrelid a = cl_oid cl /\ atttypid a = ty_oid t /\
    0 < attnum a /\ attisdropped a = false /\ attname a = name /\ typname t = typname_ /\ attnotnull a = notnull.

Lemma elem_of_columns (c : Catalogs) (table name ty : string) (notnull : bool) :
  (name, ty, notnull) ∈ table_columns c table <-> column_of c table name ty notnull.
Proof.
  unfold table_columns, column_of. rewrite elem_of_query. setoid_rewrite elem_of_query. setoid_rewrite elem_of_query. setoid_rewrite elem_of_where.
  repeat setoid_rewrite andb_true_iff. setoid_rewrite Z.eqb_eq. setoid_rewrite Z.ltb_lt. setoid_rewrite negb_true_iff. setoid_rewrite list_elem_of_ret.
  split.
  - intros (a & Ha & t & Ht & cl & Hcl & (((H1 & H2) & H3) & H4) & [= -> -> ->]). exists cl, a, t. split_and!; done.
  - intros (cl & a & t & Hcl & Ha & Ht & H1 & H2 & H3 & H4 & <- & <- & <-). exists a. split; [done|]. exists t. split; [done|]. exists cl. split; [done|]. done.
Qed.

(** An index that [serial_index] counts: over this column alone. *)
Definition unique_index (c : Catalogs) (table column : string) : Prop :=
  exists cl i a, cl ∈ public_named c table /\ i ∈ pg_index c /\ a ∈ pg_attribute c /\ indrelid i = cl_oid cl /\ attrelid a = cl_oid cl /\
    attname a = column /\ indkey i = [attnum a] /\ (indisunique i = true \/ indisprimary i = true).

Lemma serial_index_iff (c : Catalogs) (table column : string) : serial_index c table column = true <-> unique_index c table column.
Proof.
  unfold serial_index. rewrite negb_true_iff, bool_decide_eq_false.
  assert (forall l : list unit, l <> [] <-> tt ∈ l) as Htt by (intros [|[] l]; split; set_solver). rewrite Htt. clear Htt.
  rewrite elem_of_query. setoid_rewrite elem_of_query. setoid_rewrite elem_of_query. setoid_rewrite elem_of_where.
  repeat setoid_rewrite andb_true_iff. setoid_rewrite orb_true_iff. setoid_rewrite Z.eqb_eq. setoid_rewrite Nat.eqb_eq. setoid_rewrite str_eqb_true.
  setoid_rewrite bool_decide_eq_true. setoid_rewrite list_elem_of_ret. unfold unique_index. split.
  - intros (i & Hi & cl & Hcl & a & Ha & (((((H1 & H2) & H3) & H4) & H5) & H6) & _). exists cl, i, a. split_and!; try done.
    destruct (indkey i) as [|k [|? ?]]; try done. apply list_elem_of_singleton in H3 as ->. done.
  - intros (cl & i & a & Hcl & Hi & Ha & H1 & H2 & H3 & H4 & H5). exists i. split; [done|]. exists cl. split; [done|]. exists a. split; [done|].
    rewrite H4. split; [|done]. split_and!; try done. by left.
Qed.
#[local] Transparent public_named.

(** Keys the system catalogs hold unique. *)
Record well_keyed (c : Catalogs) : Prop := mkWellKeyed {
  key_class : forall a b, a ∈ pg_class c -> b ∈ pg_class c -> relname a = relname b -> relnamespace a = relnamespace b -> a = b;
  key_attribute : forall a b, a ∈ pg_attribute c -> b ∈ pg_attribute c -> attrelid a = attrelid b -> attname a = attname b -> a = b;
  key_type : forall a b, a ∈ pg_type c -> b ∈ pg_type c -> ty_oid a = ty_oid b -> a = b;
  key_namespace : forall a b, a ∈ pg_namespace c -> b ∈ pg_namespace c -> nspname a = nspname b -> a = b }.

Lemma public_unique (c : Catalogs) (table : string) (a b : PgClass) :
  well_keyed c -> a ∈ public_named c table -> b ∈ public_named c table -> a = b.
Proof.
  intros Hk (Ha & Hna & n & Hn & Hna' & Hp)%elem_of_public (Hb & Hnb & n' & Hn' & Hnb' & Hp')%elem_of_public.
  assert (n = n') as <- by (apply (key_namespace c Hk); congruence). apply (key_class c Hk); congruence.
Qed.

Lemma column_unique (c : Catalogs) (table name : string) (x y : string * bool) :
  well_keyed c -> (name, x.1, x.2) ∈ table_columns c table -> (name, y.1, y.2) ∈ table_columns c table -> x = y.
Proof.
  intros Hk (cl & a & t & Hcl & Ha & Ht & Hr & Hty & _ & _ & Hn & Hx1 & Hx2)%elem_of_columns
    (cl' & a' & t' & Hcl' & Ha' & Ht' & Hr' & Hty' & _ & _ & Hn' & Hy1 & Hy2)%elem_of_columns.
  assert (cl = cl') as <- by (by eapply public_unique). assert (a = a') as <- by (apply (key_attribute c Hk); congruence).
  assert (t = t') as <- by (apply (key_type c Hk); congruence). destruct x, y; cbn in *. congruence.
Qed.

Lemma column_facts_lookup (rows : list (string * string * bool)) (name : string) (f : ColumnFacts) :
  (forall x y : string * bool, (name, x.1, x.2) ∈ rows -> (name, y.1, y.2) ∈ rows -> x = y) ->
  column_facts rows !! name = Some f <-> (name, cf_Type f, NotNull f) ∈ rows.
Proof.
  unfold column_facts. induction rows as [|[[n ty] nn] rows IH] using rev_ind; intros Hu.
  - cbn. rewrite lookup_empty. split; [done|by intros ?%elem_of_nil].
  - rewrite foldl_app. cbn [foldl]. rewrite elem_of_app, list_elem_of_singleton. destruct (decide (n = name)) as [->|Hne].
    + rewrite lookup_insert_eq. split.
      * intros [= <-]. by right.
      * intros Hin. assert ((name, cf_Type f, NotNull f) ∈ rows ++ [(name, ty, nn)]) as Hin' by (apply elem_of_app; rewrite list_elem_of_singleton; tauto).
        pose proof (Hu (cf_Type f, NotNull f) (ty, nn) Hin' ltac:(apply elem_of_app; right; by left)) as [= <- <-]. by destruct f.
    + rewrite lookup_insert_ne by done. rewrite IH; [naive_solver|]. intros x y Hx Hy. apply Hu; apply elem_of_app; by left.
Qed.

(** ** Properties *)

(** C35. On a database that does not change meanwhile, [InspectTable] reports the
    table exactly when a table or partitioned table of that name is in the
    public schema, exactly its live columns with their types and NOT NULL, and
    whether a unique or primary-key index is on the serial column alone. *)
Theorem table_facts_exact {W : Type} `{Server W} (cl : Client) (c : Catalogs) (w : W) :
  cl_err cl = None -> (forall w : W, Query w = (Ok c, w)) -> well_keyed c ->
  let table := SrcTable (cl_Source cl) in
  let present := exists r, r ∈ public_named c table /\ (relkind r = "r" \/ relkind r = "p") in
  exists facts, InspectTable cl w = (Ok facts, w) /\
    (tf_Exists facts = true <-> present) /\
    (forall name f, tf_Columns facts !! name = Some f <-> present /\ column_of c table name (cf_Type f) (NotNull f)) /\
    (SerialUniqueIndex facts = true <-> present /\ unique_index c table (SrcSerialColumn (cl_Source cl))).
Proof.
  intros Herr Hq Hk table present.
  assert (table_exists c table = true <-> present) as Hp.
  { unfold table_exists, present. rewrite existsb_exists. setoid_rewrite <- list_elem_of_In. setoid_rewrite str_mem_true.
    split; intros (r & Hr & Hkind); exists r; (split; [done|]); set_solver. }
  unfold InspectTable, ask, act_try, give, mbind, act_bind, mret, act_ret. rewrite Herr, Hq. fold table.
  destruct (table_exists c table); cbn [negb].
  - rewrite !Hq. eexists. split; [reflexivity|]. cbn. split; [done|]. split.
    + intros name f. rewrite column_facts_lookup, elem_of_columns by (intros x y; by apply column_unique). tauto.
    + rewrite serial_index_iff. tauto.
  - eexists. split; [reflexivity|]. cbn. setoid_rewrite lookup_empty. naive_solver.
Qed.

(** The connection string names the host, port and database it was made from,
    and logs in with the given user and password, whatever bytes they hold:
    no credential can change where the connection goes. *)
Theorem connection_reads_back (c : Connection) :
  read_connection (connString c) = Some (Connector.cn_Username c, Connector.cn_Password c, Host c +:+ String ":" (Itoa (Port c)), Database c).
Proof.
  unfold read_connection, connString. rewrite strip_prefix_app. cbn [mbind option_bind].
  set (user := escape (Connector.cn_Username c) _). set (password := escape (Connector.cn_Password c) _). set (host := escape (Host c +:+ _) _).
  assert (forall d s, shouldEscape encodeUserPassword d = true -> d <> "%"%char -> is_alnum d = false ->
    str_forallb (fun x => negb (Ascii.eqb x d)) (escape s encodeUserPassword) = true) as Huser by (intros; by apply escape_free).
  assert (str_forallb (fun x => negb (Ascii.eqb x "/")) host = true) as Hhost by (by apply escape_free).
  change (escape (String "/" (Database c)) encodePath) with (String "/" (escape (Database c) encodePath)).
  assert (user +:+ String ":" (password +:+ String "@" (host +:+ String "/" (escape (Database c) encodePath))) =
    (user +:+ String ":" (password +:+ String "@" host)) +:+ String "/" (escape (Database c) encodePath)) as ->.
  { rewrite !str_app_assoc. cbn [String.append]. by rewrite !str_app_assoc. }
  rewrite until_app.
  2:{ rewrite str_forallb_app. cbn [str_forallb]. rewrite str_forallb_app. cbn [str_forallb].
      unfold user, password. by rewrite !Huser, Hhost. }
  assert (user +:+ String ":" (password +:+ String "@" host) = (user +:+ String ":" password) +:+ String "@" host) as ->
    by (rewrite !str_app_assoc; reflexivity).
  rewrite until_app by (rewrite str_forallb_app; cbn [str_forallb]; unfold user, password; by rewrite !Huser).
  rewrite until_app by (by apply Huser). cbn [strip_prefix]. rewrite !Ascii.eqb_refl. cbn [mbind option_bind].
  unfold user, password, host. by rewrite !unescape_escape.
Qed.

(** Whether an index is partial or was left invalid does not matter to the
    inspection. *)
Definition drop_predicates (c : Catalogs) : Catalogs :=
  mkCatalogs (pg_namespace c) (pg_class c) (pg_attribute c) (pg_type c)
    (map (fun i => mkIndex (indrelid i) (indkey i) (indisunique i) (indisprimary i) true None) (pg_index c)) (pg_replication_slots c).

Lemma predicates_ignored (c : Catalogs) (table column : string) : serial_index c table column = serial_index (drop_predicates c) table column.
Proof.
  apply eq_true_iff_eq. rewrite !serial_index_iff. unfold unique_index. split.
  - intros (cl & i & a & Hcl & Hi & Ha & H). exists cl, (mkIndex (indrelid i) (indkey i) (indisunique i) (indisprimary i) true None), a.
    split; [done|]. split; [apply list_elem_of_fmap; by exists i|]. done.
  - intros (cl & i & a & Hcl & (i' & -> & Hi)%list_elem_of_fmap & Ha & H). exists cl, i', a. done.
Qed.

(** ** Witnesses *)
Definition ex_catalogs (predicate : option string) : Catalogs :=
  mkCatalogs [mkNamespace 11 "pg_catalog"; mkNamespace 22 "public"] [mkClass 100 "orders" 22 "r"; mkClass 101 "orders" 11 "r"]
    [mkAttribute 100 "ctid" 27 true (-1) false; mkAttribute 100 "id" 20 true 1 false; mkAttribute 100 "old" 25 false 2 true;
     mkAttribute 100 "customer" 25 true 3 false]
    [mkType 20 "int8"; mkType 25 "text"; mkType 27 "tid"]
    [mkIndex 100 [1] true false true predicate] [mkSlot "s" (Some "lost"); mkSlot "t" None].

Definition ex_client : Client := mkClient Provision.Sim.source None.
#[local] Instance steady : Server Catalogs := { Query c := (Ok c, c) }.

(** A row's serial value is unique only among the rows the predicate selects,
    and the table is accepted. *)
Example partial_index_accepted :
  InspectTable ex_client (ex_catalogs (Some "(state = 'open')")) = (Ok Provision.Sim.facts, ex_catalogs (Some "(state = 'open')")) /\
  is_ok (IdentityFrom Provision.Sim.source Provision.Sim.facts 2) = true.
Proof. split; vm_compute; reflexivity. Qed.

Example slots : (SlotHealth ex_client "s" (ex_catalogs None)).1 = Ok (mkSlotStatus true "lost") /\
  (SlotHealth ex_client "t" (ex_catalogs None)).1 = Ok (mkSlotStatus true "") /\
  (SlotHealth ex_client "u" (ex_catalogs None)).1 = Ok (mkSlotStatus false "").
Proof. vm_compute. done. Qed.

Lemma ex_well_keyed : well_keyed (ex_catalogs None).
Proof. split; intros a b Ha Hb; repeat (apply elem_of_cons in Ha as [->|Ha]); repeat (apply elem_of_cons in Hb as [->|Hb]); try done; by apply elem_of_nil in Ha || apply elem_of_nil in Hb. Qed.

(** The steady server holds one catalog. *)
#[local] Instance fixed : Server unit := { Query w := (Ok (ex_catalogs None), w) }.

Lemma table_facts_exact_witness :
  exists facts, InspectTable (W := unit) ex_client tt = (Ok facts, tt) /\ tf_Exists facts = true /\
    tf_Columns facts !! "old" = None /\ tf_Columns facts !! "ctid" = None.
Proof.
  destruct (table_facts_exact (W := unit) (H := fixed) ex_client (ex_catalogs None) tt eq_refl (fun w => eq_refl) ex_well_keyed) as (facts & Hf & He & Hc & _).
  exists facts. split; [exact Hf|]. split; [apply He; exists (mkClass 100 "orders" 22 "r"); split; [by left|by left]|].
  injection Hf as <-. split; vm_compute; reflexivity.
Defined.
