(* ===== verification/App.v ===== *)
(** * App: wiring configuration, provisioning, decoding and delivery

    Models the pure parts of [internal/app/app.go] and [bootstrap.go]: how a
    validated configuration becomes the source, the filter and the delivery
    worker the other components run with.  Here the components' contracts
    meet: what configuration and provisioning accept, decoding can (or cannot)
    process. *)

From S2P Require Import Prelude Strconv GoFmt Stream Json JsonCodec JsonString Protocol Payload Activity Delivery Debezium Config Act Provision.
Local Open Scope Z_scope.

(** ** Wiring *)
Definition sourceOf (input : ConfigSource) : Source :=
  mkSource (cs_ID input) (cs_Description input) (cs_Table input) (cs_Columns input) (cs_SerialColumn input)
    (cs_PartitioningColumn input).

Definition filterFor (input : option ConfigFilter) : option Filter :=
  match input with None => None | Some f => Some (mkFilter (cf_Column f) (cf_Values f)) end.

(** Later entries win, as in a loop of map assignments. *)
Definition destinationsByID (destinations : list ConfigDestination) : gmap string ConfigDestination :=
  foldl (fun m d => <[ cd_ID d := d ]> m) ∅ destinations.

Definition sourcesByID (sources : list ConfigSource) : gmap string Source :=
  foldl (fun m s => <[ cs_ID s := sourceOf s ]> m) ∅ sources.

Definition zeroSource : Source := mkSource "" "" "" [] "" "".

Definition orderedSources (inputs : list ConfigSource) (byID : gmap string Source) : list Source :=
  map (fun s => default zeroSource (byID !! cs_ID s)) inputs.

Definition controlDestinations (destinations : list ConfigDestination) : list (string * list string) :=
  map (fun d => (cd_ID d, cd_Sources d)) destinations.

Definition destinationIDs (destinations : list ConfigDestination) : list string := map cd_ID destinations.

(** [engine.Sources[id].Publication], the zero value for an id it misses. *)
Definition publications (engine : Engine) (sources : list ConfigSource) : gmap string string :=
  foldl (fun m s => <[ cs_ID s := default "" ((list_to_map (en_Publications engine) : gmap string string) !! cs_ID s) ]> m)
    ∅ sources.

(** [wiring.worker]; the HTTP client and the log are the worker's world. *)
Definition worker (scope : Scope) (input : ConfigDestination) (source : Source) (registration : Registration) : Worker :=
  mkWorker (Delivery.mkDestination (cd_ID input) (cd_Description input) (filterFor (cd_Filter input)))
    (fun raw => Decode source (RegIdentity registration) (ScopeGeneration scope) (Some raw))
    scope (cd_ID input) (ID source) true true.

(** ** Lemmas *)
Lemma insert_loop {A B : Type} (key : A -> string) (f : A -> B) (l : list A) (m : gmap string B) (x : A) :
  NoDup (map key l) -> x ∈ l -> foldl (fun m a => <[ key a := f a ]> m) m l !! key x = Some (f x).
Proof.
  revert m. induction l as [|a l IH]; intros m Hd Hin; [by apply elem_of_nil in Hin|].
  cbn [map foldl] in *. apply NoDup_cons in Hd as [Ha Hd]. apply elem_of_cons in Hin as [->|Hin]; [|by apply IH].
  clear IH. assert (forall m : gmap string B, m !! key a = Some (f a) ->
    foldl (fun m a => <[ key a := f a ]> m) m l !! key a = Some (f a)) as Hkeep; [|apply Hkeep, lookup_insert_eq].
  clear Hd. induction l as [|b l IHl]; intros m' Hm; [done|]. cbn [map foldl] in *. rewrite not_elem_of_cons in Ha.
  apply IHl; [tauto|]. rewrite lookup_insert_ne; [done|]. naive_solver.
Qed.

Lemma sources_found (c : Application) (s : ConfigSource) :
  ApplicationValidate c = Ok tt -> s ∈ app_Sources c -> sourcesByID (app_Sources c) !! cs_ID s = Some (sourceOf s).
Proof.
  unfold ApplicationValidate. intros (ids & (_ & _ & Hnd & _)%validateSources_ok & _)%bind_Ok Hin. by apply (insert_loop cs_ID sourceOf).
Qed.

(** A worker that blocks a source for a record it cannot decode gives a reason. *)
Lemma refusal_reason (source : Source) (identity : Identity) (generation : Generation) (raw : RawRecord) (e : error) :
  Decode source identity generation (Some raw) = Err e -> error_text e <> "".
Proof.
  intros [[(f & args & -> & _)|(f & field & names & -> & _)]| ->]%decode_error_blind; done.
Qed.

(** ** Properties *)
(** In an accepted application every configured source and destination is found
    again under its own id, and the sources keep their order. *)
Theorem wiring_complete (c : Application) :
  ApplicationValidate c = Ok tt ->
  orderedSources (app_Sources c) (sourcesByID (app_Sources c)) = map sourceOf (app_Sources c) /\
  (forall d, d ∈ app_Destinations c -> destinationsByID (app_Destinations c) !! cd_ID d = Some d /\
    (forall id, id ∈ cd_Sources d -> exists s, s ∈ app_Sources c /\ sourcesByID (app_Sources c) !! id = Some (sourceOf s) /\ cs_ID s = id)).
Proof.
  intros H. assert (forall s, s ∈ app_Sources c -> sourcesByID (app_Sources c) !! cs_ID s = Some (sourceOf s)) as Hs
    by (intros s; by apply sources_found).
  unfold ApplicationValidate in H. apply bind_Ok in H as (ids & (Hne & Hok & Hnd & ->)%validateSources_ok & Hd).
  apply destinations_ok in Hd as (Hdok & Hdnd & _).
  split.
  - unfold orderedSources. apply map_ext_in. intros s Hin%list_elem_of_In. by rewrite Hs.
  - intros d Hin. split; [by apply (insert_loop cd_ID id)|]. intros i Hi.
    rewrite Forall_forall in Hdok. destruct (Hdok d Hin) as (_ & _ & _ & _ & _ & _ & Hsrc & _).
    specialize (Hsrc i Hi). rewrite list_elem_of_In, <- in_rev, in_map_iff in Hsrc. destruct Hsrc as (s & <- & Hin'%list_elem_of_In).
    exists s. auto.
Qed.

(** The identity of an accepted source is one decoding accepts exactly when
    the columns are named and distinct. *)
Lemma established_identity (c : ConfigSource) (facts : TableFacts) (partitions : Z) (g : Generation) (ident : Identity) :
  source_ok c -> 1 <= partitions -> 1 <= g -> IdentityFrom (sourceOf c) facts partitions = Ok ident ->
  identity_ok (sourceOf c) ident g <-> NoDup (cs_Columns c) /\ "" ∉ cs_Columns c.
Proof.
  intros (_ & _ & _ & _ & _ & _ & _ & Htable & Hs & Hp & Hsin & Hpin) Hparts Hg (Hc & ->)%identity_from_ok.
  destruct Hc as (_ & Hcols & (sc & Hsc & Hsi & _) & _ & _). unfold identity_ok, identity_of. cbn. rewrite map_map. cbn. rewrite map_id. split.
  - intros (_ & _ & _ & _ & _ & _ & _ & _ & _ & _ & Hnd & Hall & _). split; [done|]. intros Hin.
    rewrite List.Forall_map, Forall_forall in Hall. by destruct (Hall "" Hin).
  - intros [Hnd Hne]. split_and!; try done.
    + intros Hnil. rewrite Hnil in Hsin. by apply elem_of_nil in Hsin.
    + rewrite List.Forall_map, Forall_forall. intros n Hn. unfold column_of. cbn.
      destruct (Hcols n Hn) as (cf & Hcf & Hsup). cbn in Hcf. rewrite Hcf. cbn. split; [by intros ->|]. split; [done|].
      intros ->. cbn in Hsc. congruence.
    + destruct (str_mem "event_id" (cs_Columns c)) eqn:He; [|done]. intros _. by apply str_mem_true in He.
Qed.

(** C28. Whether a source that configuration accepts and provisioning
    establishes, for one generation and at least one partition, can ever be
    delivered: some record of it decodes exactly when its columns are distinct
    and not empty, its table and columns have names JSON can carry, and its
    event_id column, if it has one, is of a type written as a JSON string.
    Neither the configuration nor the capture contract checks the first or the
    last: a source with a repeated column or an integer event_id is
    provisioned, and then every one of its records is refused. *)
Theorem captured_iff (c : ConfigSource) (facts : TableFacts) (partitions : Z) (g : Generation) (ident : Identity) :
  source_ok c -> 1 <= partitions -> 1 <= g ->
  IdentityFrom (sourceOf c) facts partitions = Ok ident ->
  (exists raw rec, Decode (sourceOf c) ident g (Some raw) = Ok rec) <->
  (NoDup (cs_Columns c) /\ "" ∉ cs_Columns c) /\
  ValidUTF8 (cs_Table c) = true /\ Forall (fun n => ValidUTF8 n = true) (cs_Columns c) /\
  ("event_id" ∈ cs_Columns c -> exists column, tf_Columns facts !! "event_id" = Some column /\ textual (cf_Type column) = true).
Proof.
  intros Hok Hparts Hg Hi. rewrite decodable_iff, (established_identity c facts partitions g ident) by done.
  apply identity_from_ok in Hi as [(_ & Hcols & _) ->]. cbn in Hcols. unfold identity_of. cbn. split.
  - intros ([Hnd Hne] & Ht & Hu & Hev). split_and!; [done..|]. intros Hin. destruct (Hcols _ Hin) as (cf & Hcf & _). exists cf. split; [done|].
    rewrite (proj2 (str_mem_true _ _) Hin) in Hev. specialize (Hev (column_of facts "event_id")). unfold column_of in Hev.
    rewrite Hcf in Hev. apply Hev; [|done]. apply list_elem_of_fmap. exists "event_id". split; [|done]. unfold column_of. by rewrite Hcf.
  - intros ([Hnd Hne] & Ht & Hu & Hev). split_and!; [done..|]. intros x Hx He.
    apply list_elem_of_fmap in Hx as (n & -> & Hn). unfold column_of in *. cbn in *. subst n.
    destruct (str_mem "event_id" (cs_Columns c)) eqn:Hm; [|done]. destruct (Hev Hn) as (cf & -> & Hx). done.
Qed.

(** ** Witnesses *)
Definition ex_config : ConfigSource :=
  mkConfigSource "orders" "Orders" "postgres" "db" 5432 "u" "p" "shop" "orders" ["id"; "customer"; "id"] "id" "customer".
Definition ex_destination : ConfigDestination :=
  mkConfigDestination "billing" "Billing" "http-push" "https://b" "u" "p" ["orders"] None.

Lemma ex_config_ok : source_ok ex_config.
Proof. unfold source_ok. cbn. repeat split; try discriminate; try lia; set_solver. Qed.

Lemma wiring_complete_witness :
  let c := mkApplication [ex_config] [ex_destination] in
  ApplicationValidate c = Ok tt /\
  orderedSources (app_Sources c) (sourcesByID (app_Sources c)) = map sourceOf (app_Sources c).
Proof.
  split; [vm_compute; reflexivity|].
  apply (wiring_complete (mkApplication [ex_config] [ex_destination])). vm_compute. reflexivity.
Defined.

(** A source with distinct columns has records that decode; the repeated
    column and the numeric event_id pass both checks and have none. *)
Module Captured.
Definition distinct : ConfigSource :=
  mkConfigSource "orders" "Orders" "postgres" "db" 5432 "u" "p" "shop" "orders" ["id"; "customer"] "id" "customer".
Definition numbered : ConfigSource :=
  mkConfigSource "orders" "Orders" "postgres" "db" 5432 "u" "p" "shop" "orders" ["id"; "customer"; "event_id"] "id" "customer".
Definition facts : TableFacts :=
  mkTableFacts true {[ "id" := mkColumnFacts "int8" true; "customer" := mkColumnFacts "text" true; "event_id" := mkColumnFacts "int8" true ]} true.
Definition established (c : ConfigSource) : Identity := identity_of (sourceOf c) facts 3.
End Captured.

Lemma captured_iff_witness :
  Forall (fun c => is_ok (ApplicationValidate (mkApplication [c] [])) = true) [Captured.distinct; ex_config; Captured.numbered] /\
  (exists raw rec, Decode (sourceOf Captured.distinct) (Captured.established Captured.distinct) 1 (Some raw) = Ok rec) /\
  (forall c raw rec, c ∈ [ex_config; Captured.numbered] -> Decode (sourceOf c) (Captured.established c) 1 (Some raw) <> Ok rec).
Proof.
  split; [repeat constructor; vm_compute; reflexivity|].
  assert (forall c, c ∈ [Captured.distinct; ex_config; Captured.numbered] -> source_ok c /\ IdentityFrom (sourceOf c) Captured.facts 3 = Ok (Captured.established c)) as Hall.
  { intros c. rewrite !elem_of_cons. intros Hc. destruct_or! Hc; try (by apply not_elem_of_nil in Hc); subst c;
      (split; [unfold source_ok; cbn; repeat split; try discriminate; try lia; set_solver|vm_compute; reflexivity]). }
  split.
  - destruct (Hall Captured.distinct) as [Hok Hi]; [by left|].
    apply (captured_iff Captured.distinct Captured.facts 3 1 (Captured.established Captured.distinct) Hok ltac:(lia) ltac:(lia) Hi).
    split; [split; [|set_solver]; cbn; apply NoDup_cons; split; [set_solver|apply NoDup_singleton]|].
    split; [vm_compute; reflexivity|]. split; [by repeat constructor|]. cbn. set_solver.
  - intros c raw rec Hc Hd. destruct (Hall c) as [Hok Hi]; [set_solver|].
    destruct (proj1 (captured_iff c Captured.facts 3 1 (Captured.established c) Hok ltac:(lia) ltac:(lia) Hi)) as ((Hnd & _) & _ & _ & Hev); [by exists raw, rec|].
    rewrite !elem_of_cons in Hc. destruct_or! Hc; [| |by apply not_elem_of_nil in Hc]; subst c.
    + apply NoDup_cons in Hnd as [Hn _]. apply Hn. right. by left.
    + destruct Hev as (cf & Hcf & Ht); [cbn; set_solver|]. vm_compute in Hcf. injection Hcf as <-. discriminate Ht.
Defined.
