(* ===== verification/Wiring.v ===== *)
(** * Wiring: delivery workers inside a consumer

    Models [wiring.consumer] and [wiring.worker] of [internal/app/app.go]: the
    topics of a destination, the delivery worker of each, and the process
    function a consumer gets from them.  A worker's calls run on the consumer's
    machine: its context is the partition worker's, its commit the guarded one,
    and every other call goes to the world, with its answer in the trace.  So
    the properties of [Delivery] and [Consumer] meet in one trace. *)

From S2P Require Import Prelude Strconv JsonCodec GoFmt GoTime Stream Activity Protocol Delivery Debezium Config Act Provision App Consumer.
Local Open Scope Z_scope.

(** The calls of a delivery worker that leave the consumer. *)
Class Outside (W : Type) : Type := {
  OutSleep : Z -> Act W bool;      (* whether the timer is taken when it fired and the context ended *)
  OutJitter : Z -> Act W Z;
  OutSend : string -> Record_ -> string -> Act W (result error Outcome);
  OutHasSkip : Scope -> string -> Record_ -> Act W (result error bool);
  OutSaveSkip : Scope -> string -> Record_ -> Act W (result error unit) }.

Section Wired.
Context {W : Type} `{Kafka W} `{Outside W}.
Abbreviation M := (Machine W).

Definition outside {A : Type} (h : nat) (ev : A -> Delivery.event) (f : Act W A) : Act M A :=
  a ← (call (TWorker h) f : Act M A); _ ← note (EvOutside h (ev a)); ret a.

(** The world of a delivery worker in partition worker [h]. *)
Definition worker_world (destination : string) (h : nat) (commit : CommitFunc) : World M := {|
  Delivery.ctx_Err m := if ctx_done h (cn m) then Some Canceled else None;
  Delivery.ctxSleep d :=
    fired ← (call (TWorker h) (OutSleep d) : Act M bool);
    over ← (reading (ctx_done h) : Act M bool);
    let e := if (over : bool) && negb fired then Some Canceled else None in
    _ ← note (EvOutside h (CallSleep d e)); ret e;
  Delivery.Jitter n := call (TWorker h) (OutJitter n);
  Delivery.Send r b := outside h (CallSend r b) (OutSend destination r b);
  Delivery.HasSkip s d r := outside h (CallHasSkip s d r) (OutHasSkip s d r);
  Delivery.SaveSkip s d r := outside h (CallSaveSkip s d r) (OutSaveSkip s d r);
  Delivery.Commit raw := r ← (commit raw : Act M (result error unit)); _ ← note (EvOutside h (CallCommit raw r)); ret r;
  Delivery.Allowed s := call (TWorker h) (DispatchAllowed s);
  Delivery.Block s reason m := ((_ ← note (EvOutside h (CallBlock s reason)); call (TWorker h) (DispatchBlock s (error_text reason))) m).2;
  Delivery.LogAdd e m := (note (EvOutside h (CallLog e)) m).2 |}.

(** The process function of [wiring.consumer].  A record of a topic without a
    worker would crash on the nil worker; a run whose fuel ends inside a record
    is cut there: both stop the model at that record. *)
Definition wired (fuel : nat) (workers : gmap string Worker) (h : nat) (raw : RawRecord) (commit : CommitFunc) :
  Act M (option (result error unit)) := fun m =>
  match workers !! RawTopic raw with
  | None => (None, m)
  | Some wk =>
      match WorkerProcess (H := worker_world (wk_Destination wk) h commit) fuel wk raw m with
      | Some (r, m) => (Some r, m)
      | None => (None, m)
      end
  end.
End Wired.

(** ** [wiring.consumer] *)
Definition zeroDestination : ConfigDestination := mkConfigDestination "" "" "" "" "" "" [] None.

Definition consumer_topics (sources : gmap string Source) (registered : gmap string Registration) (ids : list string) : gmap string Source :=
  foldl (fun m id => <[ Topic (RegNames (default zeroRegistration (registered !! id))) := default zeroSource (sources !! id) ]> m) ∅ ids.

Definition consumer_workers (scope : Scope) (input : ConfigDestination) (sources : gmap string Source)
  (registered : gmap string Registration) (ids : list string) : gmap string Worker :=
  foldl (fun m id =>
    let registration := default zeroRegistration (registered !! id) in
    <[ Topic (RegNames registration) := worker scope input (default zeroSource (sources !! id)) registration ]> m) ∅ ids.

(** The consumer and its process function; [client] as for [NewConsumer]. *)
Definition consumer {W : Type} `{Kafka W} `{Outside W} (fuel : nat) (scope : Scope) (sources : gmap string Source)
  (destinations : gmap string ConfigDestination) (destination : string * list string) (registered : gmap string Registration)
  (client : string -> list string -> result error unit) : result error (Consumer * (nat -> RawRecord -> CommitFunc -> Act (Machine W) (option (result error unit)))) :=
  let input := default zeroDestination (destinations !! destination.1) in
  let topics := consumer_topics sources registered destination.2 in
  let workers := consumer_workers scope input sources registered destination.2 in
  c ← NewConsumer scope destination.1 topics client;
  Ok (c, wired fuel workers).

(** ** What a commit has to be preceded by *)
Section Settled.
Variables (workers : gmap string Worker) (h : nat).

(** What the process function called and was answered, and the records it was
    given. *)
Definition outs (t : list event) : list Delivery.event :=
  omap (fun e => match e with EvOutside k o => if decide (k = h) then Some o else None | _ => None end) t.

Definition given (t : list event) : list RawRecord :=
  omap (fun e => match e with EvProcess k r => if decide (k = h) then Some r else None | _ => None end) t.

(** Nothing is owed for a record any more: its worker decoded it, and it is
    filtered out, or its skip was on record, or the destination answered it,
    and a skip it asked for has been saved. *)
Definition settled (t : list event) (raw : RawRecord) : Prop :=
  exists wk record, workers !! RawTopic raw = Some wk /\ wk_Decode wk raw = Ok record /\
    (MatchesFilter (DestFilter (wk_destination wk)) (Payload record) = false \/
     CallHasSkip (wk_Scope wk) (wk_Destination wk) record (Ok true) ∈ outs t \/
     exists body o, MarshalEnvelope (envelopeFor record (wk_destination wk)) = Some body /\
       CallSend record body (Ok o) ∈ outs t /\ (o = Skipped -> CallSaveSkip (wk_Scope wk) (wk_Destination wk) record (Ok tt) ∈ outs t)).

(** Every commit of a record's offset is that of the record being processed,
    and it and every record before it are settled. *)
Definition sound (t : list event) : Prop :=
  forall pre k o ep post, t = pre ++ EvCommit h k o ep :: post -> 0 <= o ->
    exists raws raw, given pre = raws ++ [raw] /\ k = (RawTopic raw, RawPartition raw) /\ o = RawOffset raw /\
      Forall (settled pre) (raws ++ [raw]).

Lemma outs_snoc (t : list event) (e : event) :
  outs (t ++ [e]) = outs t ++ match e with EvOutside k o => if decide (k = h) then [o] else [] | _ => [] end.
Proof. unfold outs. rewrite omap_app. cbn. destruct e; cbn; try case_decide; by rewrite ?app_nil_r. Qed.

Lemma given_snoc (t : list event) (e : event) :
  given (t ++ [e]) = given t ++ match e with EvProcess k r => if decide (k = h) then [r] else [] | _ => [] end.
Proof. unfold given. rewrite omap_app. cbn. destruct e; cbn; try case_decide; by rewrite ?app_nil_r. Qed.

Lemma settled_snoc (t : list event) (e : event) (raw : RawRecord) : settled t raw -> settled (t ++ [e]) raw.
Proof.
  intros (wk & record & Hw & Hd & Hj). exists wk, record. rewrite outs_snoc. split; [done|]. split; [done|].
  destruct Hj as [?|[?|(b & o & ? & ? & Ho)]]; [by left|right; left; apply elem_of_app; by left|right; right].
  exists b, o. split; [done|]. split; [apply elem_of_app; by left|]. intros Hs. apply elem_of_app. left. auto.
Qed.

Lemma all_settled_snoc (t : list event) (e : event) (raws : list RawRecord) : Forall (settled t) raws -> Forall (settled (t ++ [e])) raws.
Proof. intros Hall. eapply Forall_impl; [exact Hall|]. intros r. apply settled_snoc. Qed.

Lemma sound_snoc (t : list event) (e : event) :
  (forall k o ep, e = EvCommit h k o ep -> 0 <= o -> exists raws raw, given t = raws ++ [raw] /\
     k = (RawTopic raw, RawPartition raw) /\ o = RawOffset raw /\ Forall (settled t) (raws ++ [raw])) ->
  sound t -> sound (t ++ [e]).
Proof.
  intros He Hs pre k o ep post Heq Ho. apply snoc_split in Heq as [(post' & -> & ->)|(-> & _ & ->)]; [by eapply Hs|by eapply He].
Qed.

(** An event that is neither a record handed on, a call's answer nor a commit
    of this worker. *)
Definition quiet (e : event) : bool :=
  match e with EvProcess k _ | EvOutside k _ | EvCommit k _ _ _ => negb (bool_decide (k = h)) | _ => true end.

Lemma quiet_outs (t : list event) (e : event) : quiet e = true -> outs (t ++ [e]) = outs t.
Proof. intros He. rewrite outs_snoc. destruct e; rewrite ?app_nil_r; try done. cbn in He. case_decide; [by rewrite bool_decide_eq_true_2 in He|]. apply app_nil_r. Qed.

Lemma quiet_given (t : list event) (e : event) : quiet e = true -> given (t ++ [e]) = given t.
Proof. intros He. rewrite given_snoc. destruct e; rewrite ?app_nil_r; try done. cbn in He. case_decide; [by rewrite bool_decide_eq_true_2 in He|]. apply app_nil_r. Qed.

Lemma quiet_sound (t : list event) (e : event) : quiet e = true -> sound t -> sound (t ++ [e]).
Proof. intros He. apply sound_snoc. intros k o ep ->. cbn in He. by rewrite bool_decide_eq_true_2 in He. Qed.

(** Between records; while one is processed; and at a phase of its delivery. *)
Definition between (t : list event) : Prop := sound t /\ Forall (settled t) (given t).

Definition holding (raw : RawRecord) (t : list event) : Prop :=
  sound t /\ exists raws, given t = raws ++ [raw] /\ Forall (settled t) raws.

Definition delivering (raw : RawRecord) (wk : Worker) (record : Record_) (p : Delivery.phase) (t : list event) : Prop :=
  holding raw t /\ exists pre l, outs t = pre ++ l /\
    run_phases (wk_Scope wk) record (wk_Destination wk) (envelope_body wk record) raw (unsent_phase wk record) (first_phase wk raw record) l = Some p.

Lemma between_quiet (t : list event) (e : event) : quiet e = true -> between t -> between (t ++ [e]).
Proof. intros He [Hs Hall]. split; [by apply quiet_sound|]. rewrite quiet_given by done. by apply all_settled_snoc. Qed.

Lemma holding_quiet (raw : RawRecord) (t : list event) (e : event) : quiet e = true -> holding raw t -> holding raw (t ++ [e]).
Proof.
  intros He (Hs & raws & Hg & Hall). split; [by apply quiet_sound|]. exists raws. rewrite quiet_given by done.
  split; [done|]. by apply all_settled_snoc.
Qed.

Lemma delivering_quiet (raw : RawRecord) (wk : Worker) (record : Record_) (p : Delivery.phase) (t : list event) (e : event) :
  quiet e = true -> delivering raw wk record p t -> delivering raw wk record p (t ++ [e]).
Proof. intros He (Hh & pre & l & Ho & Hp). split; [by apply holding_quiet|]. exists pre, l. by rewrite quiet_outs. Qed.

(** An answered call moves the phase. *)
Lemma delivering_out (raw : RawRecord) (wk : Worker) (record : Record_) (p q : Delivery.phase) (t : list event) (o : Delivery.event) :
  step (wk_Scope wk) record (wk_Destination wk) (envelope_body wk record) raw (unsent_phase wk record) p o = Some q ->
  delivering raw wk record p t -> delivering raw wk record q (t ++ [EvOutside h o]).
Proof.
  intros Hq ((Hs & raws & Hg & Hall) & pre & l & Ho & Hp). split; [split|].
  - by apply sound_snoc.
  - exists raws. rewrite given_snoc, app_nil_r. split; [done|]. by apply all_settled_snoc.
  - exists pre, (l ++ [o]). rewrite outs_snoc, decide_True, Ho, app_assoc by done. split; [done|].
    rewrite (run_phases_app _ _ _ _ _ _ _ _ _ _ Hp). cbn. by rewrite Hq.
Qed.

Lemma unsent_cases' (wk : Worker) (record : Record_) : unsent_phase wk record = Sending \/ unsent_phase wk record = Committing.
Proof. unfold unsent_phase. destruct (filtered wk record); auto. Qed.

(** From [Committing] on the record is settled. *)
Lemma delivering_settled (raw : RawRecord) (wk : Worker) (record : Record_) (p : Delivery.phase) (t : list event) :
  workers !! RawTopic raw = Some wk -> wk_Decode wk raw = Ok record -> p = Committing \/ p = Done ->
  delivering raw wk record p t -> settled t raw.
Proof.
  intros Hw Hd Hp (_ & pre & l & Ho & Hrun). exists wk, record. split; [done|]. split; [done|]. rewrite Ho.
  apply run_inv in Hrun; [|apply unsent_cases'|unfold first_phase; destruct (Historical raw); auto].
  assert (justified (wk_Scope wk) record (wk_Destination wk) (envelope_body wk record) (unsent_phase wk record) l) as Hj by (destruct Hp as [-> | ->]; apply Hrun).
  destruct Hj as [Hf|[Hs|(b & o & Hb & Hs & Ho')]]; [left|right; left|right; right].
  - unfold unsent_phase, filtered in Hf. by destruct (MatchesFilter _ _).
  - apply elem_of_app. by right.
  - exists b, o. split; [done|]. split; [apply elem_of_app; by right|]. intros Heq. apply elem_of_app. right. auto.
Qed.
End Settled.

(** ** The partition worker's goroutine *)
Section EndToEnd.
Context {W : Type} `{Kafka W} `{Outside W}.
Abbreviation M := (Machine W).
Variables (workers : gmap string Worker) (h : nat) (key : partitionKey) (srcs : gmap string Source).
Abbreviation On T := (on (W := W) h key srcs (fun _ t => T t)).
Abbreviation quiet_closed T := (forall t e, quiet h e = true -> T t -> T (t ++ [e])).

Lemma quiet_call {A : Type} (T : list event -> Prop) (f : Act W A) : quiet_closed T -> triple (On T) (call (TWorker h) f) (fun _ => On T).
Proof. intros HT. apply on_call. intros x w w' t _ Ht. by apply HT. Qed.

Lemma quiet_section (T : list event -> Prop) (x : section) : quiet_closed T -> own h x = true -> triple (On T) (section_ x) (fun _ => On T).
Proof. intros HT Hx. apply on_section; [done|]. intros w t _ Ht. by apply HT. Qed.

Lemma quiet_note (T : list event -> Prop) (e : event) : quiet_closed T -> quiet h e = true -> triple (On T) (note e) (fun _ => On T).
Proof. intros HT He. apply on_note. intros w t Ht. by apply HT. Qed.

Lemma out_note (T U : list event -> Prop) (o : Delivery.event) : (forall t, T t -> U (t ++ [EvOutside h o])) ->
  triple (On T) (note (EvOutside h o)) (fun _ => On U).
Proof. intros HT. apply on_note. intros w t. apply HT. Qed.

Lemma quiet_reading {A : Type} (T : list event -> Prop) (f : Consumer -> A) : triple (On T) (reading f) (fun _ => On T).
Proof. by intros m. Qed.

(** A commit keeps what its own event keeps. *)
Lemma quiet_commit (T : list event -> Prop) (k : partitionKey) (o ep : Z) :
  quiet_closed T -> (forall t, T t -> T (t ++ [EvCommit h k o ep])) -> triple (On T) (Consumer.commit h k o ep) (fun _ => On T).
Proof.
  intros HT Hc. unfold Consumer.commit, ask_allowed, commit_records.
  assert (forall x, own h x = true -> triple (On T) (section_ x) (fun _ => On T)) as Hsec by (intros; by apply quiet_section).
  eapply triple_bind; [apply Hsec; cbn; by apply bool_decide_eq_true|]. intros [].
  eapply triple_bind; [apply quiet_reading|]. intros mine. eapply triple_bind; [apply quiet_reading|]. intros src.
  apply (triple_bind _ _ (fun _ => On T)).
  { destruct mine; [|by intros m]. eapply triple_bind; [by apply quiet_call|]. intros a.
    eapply triple_bind; [by apply quiet_note|]. by intros [] m. }
  intros allowed. apply (triple_bind _ _ (fun _ => On T)).
  { destruct allowed; [|by intros m]. eapply triple_bind; [apply (on_note h key srcs); intros w t; apply Hc|]. intros [].
    eapply triple_bind; [by apply quiet_call|]. intros r. eapply triple_bind; [by apply quiet_note|]. by intros [] m. }
  intros r. eapply triple_bind; [apply Hsec; cbn; by apply bool_decide_eq_true|]. by intros [] m.
Qed.

(** *** One record *)
Section Record_.
Variables (raw : RawRecord) (wk : Worker) (record : Record_).
Hypothesis Hworker : workers !! RawTopic raw = Some wk.
Hypothesis Hdecode : wk_Decode wk raw = Ok record.
Let commit_raw : CommitFunc (W := W) := fun position =>
  Consumer.commit h (RawTopic position, RawPartition position) (RawOffset position) (LeaderEpoch position).
Let I (p : Delivery.phase) : M -> Prop := On (delivering workers h raw wk record p).

Lemma phase_quiet (p : Delivery.phase) : quiet_closed (delivering workers h raw wk record p).
Proof. intros t e. apply delivering_quiet. Qed.

(** One call: a run on the machine that ends with its answer's event. *)
Lemma phase_call {A : Type} (ev : A -> Delivery.event) (f : Act W A) (p : Delivery.phase) (next : A -> Delivery.phase) :
  (forall a, step (wk_Scope wk) record (wk_Destination wk) (envelope_body wk record) raw (unsent_phase wk record) p (ev a) = Some (next a)) ->
  triple (I p) (outside h ev f) (fun a => I (next a)).
Proof.
  intros Hs. unfold outside. eapply triple_bind; [apply quiet_call, phase_quiet|]. intros a.
  eapply triple_bind; [apply out_note; intros t; eapply delivering_out, Hs|]. by intros [] m.
Qed.

Lemma phase_sound (t : list event) (k : partitionKey) (o ep : Z) :
  k = (RawTopic raw, RawPartition raw) -> o = RawOffset raw ->
  delivering workers h raw wk record Committing t -> delivering workers h raw wk record Committing (t ++ [EvCommit h k o ep]).
Proof.
  intros Hk Ho Hd. pose proof (delivering_settled _ _ _ _ _ _ _ Hworker Hdecode (or_introl eq_refl) Hd) as Hset.
  destruct Hd as ((Hs & raws & Hg & Hall) & pre & l & Hl & Hrun). split; [split|].
  - apply sound_snoc; [|done]. intros k' o' ep' [= <- <- <-] _. exists raws, raw. split_and!; try done.
    apply Forall_app. split; [done|]. by constructor.
  - exists raws. rewrite given_snoc, app_nil_r. split; [done|]. by apply all_settled_snoc.
  - exists pre, l. by rewrite outs_snoc, app_nil_r.
Qed.

(** The machine simulates the delivery of the record. *)
Lemma machine_simulates :
  simulates (H := worker_world (wk_Destination wk) h commit_raw) (wk_Scope wk) record (wk_Destination wk) (envelope_body wk record) raw (unsent_phase wk record) I.
Proof.
  split; cbn.
  - intros p e m He Hm. apply (out_note (delivering workers h raw wk record p)); [|exact Hm]. intros t. apply delivering_out. destruct p; cbn -[entry_ok]; by rewrite He.
  - intros p d m e m' Hp. apply triple_run with (Q := fun _ => I p). eapply triple_bind; [apply quiet_call, phase_quiet|]. intros fired.
    eapply triple_bind; [apply quiet_reading|]. intros over. eapply triple_bind; [apply out_note; intros t; eapply delivering_out|by intros [] n].
    by destruct p.
  - intros p n m j m'. apply triple_run with (Q := fun _ => I p), quiet_call, phase_quiet.
  - intros m a m'. apply triple_run with (Q := fun a => I (after Asking _ a)), phase_call. intros b. cbn. rewrite bool_decide_eq_true_2 by done. by destruct b as [[]|].
  - intros b m a m' Hb. apply triple_run with (Q := fun a => I (after Sending _ a)), phase_call. intros o. cbn. rewrite !bool_decide_eq_true_2 by done. by destruct o as [[]|].
  - intros m a m'. apply triple_run with (Q := fun a => I (after Auditing _ a)), phase_call. intros b. cbn. rewrite bool_decide_eq_true_2 by done. by destruct b.
  - intros m a m'. apply triple_run with (Q := fun a => I (after Committing _ a)).
    apply (triple_bind _ _ (fun _ => I Committing)); [apply quiet_commit; [apply phase_quiet|]; intros t; by apply phase_sound|].
    intros r. apply (triple_bind _ _ (fun _ => I (after Committing (fun _ => Done) r))); [|by intros [] n].
    apply out_note. intros t. apply delivering_out. cbn. rewrite bool_decide_eq_true_2 by done. by destruct r.
Qed.
End Record_.

(** *** Whatever happens to a record *)
Variable dfuel : nat.
Abbreviation process := (wired dfuel workers).

Lemma between_sound (m : M) : On (between workers h) m -> On (sound workers h) m.
Proof. intros (w & ? & ? & ? & Hs & _). exists w. auto. Qed.
Lemma holding_sound (raw : RawRecord) (m : M) : On (holding workers h raw) m -> On (sound workers h) m.
Proof. intros (w & ? & ? & ? & Hs & _). exists w. auto. Qed.

Lemma holding_out (raw : RawRecord) (t : list event) (o : Delivery.event) :
  holding workers h raw t -> holding workers h raw (t ++ [EvOutside h o]).
Proof.
  intros (Hs & raws & Hg & Hall). split; [by apply sound_snoc|]. exists raws. rewrite given_snoc, app_nil_r.
  split; [done|]. by apply all_settled_snoc.
Qed.

(** What is left after a record: all is settled, or the worker stops. *)
Definition finished (r : option (result error unit)) : M -> Prop :=
  match r with Some (Ok _) => On (between workers h) | _ => On (sound workers h) end.

Lemma worker_settles (raw : RawRecord) (wk : Worker) (m m' : M) (r : result error unit) :
  workers !! RawTopic raw = Some wk -> On (holding workers h raw) m ->
  WorkerProcess (H := worker_world (wk_Destination wk) h (fun position =>
    Consumer.commit h (RawTopic position, RawPartition position) (RawOffset position) (LeaderEpoch position))) dfuel wk raw m = Some (r, m') ->
  finished (Some r) m'.
Proof.
  intros Hw Hm. unfold WorkerProcess. set (world := worker_world _ _ _). destruct (allowed wk m) as [ok m1] eqn:Ha.
  assert (On (holding workers h raw) m1) as H1.
  { unfold allowed in Ha. destruct (wk_Gate wk); [|by injection Ha as _ <-].
    pose proof (quiet_call (holding workers h raw) (DispatchAllowed (wk_SourceID wk)) (holding_quiet workers h raw) m Hm) as Hc.
    cbn in Ha. by rewrite Ha in Hc. }
  destruct ok; cbn [negb]; [|intros [= <- <-]; by apply (holding_sound raw)].
  destruct (wk_Decode wk raw) as [record|e] eqn:Hd.
  - intros Hr. apply (completeRecord_follows dfuel wk raw record _ (machine_simulates raw wk record Hw Hd)) in Hr as (p & Hp & Hdone).
    + destruct r as [[]|e]; cbn; [|destruct Hp as (w & ? & ? & ? & [[Hs _] _]); by exists w].
      assert (p = Done) as -> by (by apply Hdone). destruct Hp as (w & ? & ? & ? & Hp). exists w. split_and!; try done.
      pose proof (delivering_settled _ _ _ _ _ _ _ Hw Hd (or_intror eq_refl) Hp) as Hset.
      destruct Hp as [[Hs (raws & Hg & Hall)] _]. split; [done|]. rewrite Hg. apply Forall_app. split; [done|]. by constructor.
    + destruct H1 as (w & ? & ? & ? & Hh). exists w. split_and!; try done. split; [done|]. exists (outs h (trace m1)), [].
      by rewrite app_nil_r.
  - intros [= <- <-]. cbn [finished]. apply (holding_sound raw). unfold block. destruct (wk_Gate wk); [|done]. cbn.
    assert (triple (On (holding workers h raw)) (_ ← note (EvOutside h (CallBlock (wk_SourceID wk) e));
      call (TWorker h) (DispatchBlock (wk_SourceID wk) (error_text e))) (fun _ => On (holding workers h raw))) as Ht; [|by apply (Ht m1)].
    eapply triple_bind; [apply out_note; intros t; apply holding_out|]. intros []. apply quiet_call, holding_quiet.
Qed.

Lemma record_settles (r : KRecord) : triple (On (between workers h)) (process_record process h r) finished.
Proof.
  unfold process_record. eapply triple_bind; [apply quiet_reading|]. intros horizon. set (raw := mkRawRecord _ _ _ _ _ _ _).
  eapply triple_bind; [apply (on_note h key srcs _ (fun _ t => holding workers h raw t))|].
  { intros w t [Hs Hall]. split; [by apply sound_snoc|]. exists (given h t). rewrite given_snoc, decide_True by done.
    split; [done|]. by apply all_settled_snoc. }
  intros []. apply (triple_bind _ _ finished).
  - intros m Hm. unfold wired. destruct (workers !! RawTopic raw) as [wk|] eqn:Hw; [|by apply (holding_sound raw)].
    destruct (WorkerProcess _ _ _ _) as [[res m']|] eqn:Hp; [by eapply worker_settles|by apply (holding_sound raw)].
  - intros [res|]; [|by intros m]. apply (triple_bind _ _ (fun _ => finished (Some res))); [|by intros [] m].
    destruct res; cbn [finished]; apply quiet_note; try done; intros t x; [apply between_quiet|apply quiet_sound].
Qed.

Lemma batch_settles (rs : list KRecord) : triple (On (between workers h)) (process_batch process h rs) finished.
Proof.
  induction rs as [|r rs IH]; cbn [process_batch]; [by intros m|].
  eapply triple_bind; [apply record_settles|]. intros [[[]|e]|]; [apply IH|by intros m|by intros m].
Qed.

Lemma select_between : triple (On (between workers h)) (select h) (fun _ => On (between workers h)).
Proof.
  pose proof (between_quiet workers h) as Hq. unfold select. eapply triple_bind; [by apply quiet_call|]. intros [].
  eapply triple_bind; [by apply quiet_call|]. intros first. eapply triple_bind; [apply quiet_reading|]. intros over.
  eapply triple_bind; [apply quiet_reading|]. intros [|records queue]; [by intros m|]. destruct (over && first); [by intros m|].
  eapply triple_bind; [apply quiet_section; [done|cbn; by apply bool_decide_eq_true]|]. by intros [] m.
Qed.

(** [fail] and [resume] keep what quiet events keep. *)
Lemma quiet_fail (T : list event -> Prop) : quiet_closed T -> triple (On T) (fail h) (fun _ => On T).
Proof. intros HT. unfold fail. eapply triple_bind; [apply quiet_reading|]. intros []; [by intros m|by apply quiet_section]. Qed.

Lemma quiet_resume (T : list event -> Prop) : quiet_closed T -> triple (On T) (resume h) (fun _ => On T).
Proof.
  intros HT. unfold resume. eapply triple_bind; [apply quiet_reading|]. intros k.
  eapply triple_bind; [apply quiet_reading|]. intros []; [by apply quiet_call|by intros m].
Qed.

Lemma loop_settles (fuel : nat) : triple (On (between workers h)) (loop process fuel h) (fun _ => On (sound workers h)).
Proof.
  induction fuel as [|fuel IH]; cbn [loop]; [intros m; apply between_sound|].
  eapply triple_bind; [apply select_between|]. intros [|records|]; [intros m; apply between_sound| |apply IH].
  eapply triple_bind; [apply batch_settles|]. intros [[[]|e]|]; [| |by intros m].
  - eapply triple_bind; [apply quiet_resume, between_quiet|]. intros []. apply IH.
  - eapply triple_bind; [apply quiet_fail, quiet_sound|]. by intros [] m.
Qed.

Lemma run_settles (fuel : nat) : triple (On (between workers h)) (run process fuel h) (fun _ => On (sound workers h)).
Proof.
  pose proof (between_quiet workers h) as Hq. unfold run, initialize.
  apply (triple_bind _ _ (fun _ => On (between workers h))).
  { assert (forall A (f : Act W A), triple (On (between workers h)) (call (TWorker h) f) (fun _ => On (between workers h))) as Hc
      by (intros; by apply quiet_call).
    apply kept_retry, kept_attempt; try done.
    - intros k. apply quiet_commit; [done|]. intros t [Hs Hall]. split; [apply sound_snoc; [|done]; intros ? ? ? [= <- <- <-]; lia|].
      rewrite given_snoc, app_nil_r. by apply all_settled_snoc.
    - intros x Hx _ _. by apply quiet_section.
    - intros e He Hp Hx Hout. apply quiet_note; [done|]. destruct (quiet h e) eqn:Hqe; [done|]. destruct e; cbn in Hqe; try done;
        apply negb_false_iff, bool_decide_eq_true in Hqe as ->; [by edestruct He|by edestruct Hp|by edestruct Hout]. }
  intros [[[]|e]|]; [| |intros m; apply between_sound].
  - eapply triple_bind; [apply quiet_section; [done|cbn; by apply bool_decide_eq_true]|]. intros [].
    eapply triple_bind; [by apply quiet_note|]. intros []. eapply triple_bind; [by apply quiet_call|]. intros [].
    eapply triple_bind; [apply loop_settles|]. intros []; [|by intros m].
    eapply triple_bind; [apply quiet_section; [apply quiet_sound|cbn; by apply bool_decide_eq_true]|]. by intros [] m.
  - eapply triple_bind; [by apply quiet_fail|]. intros [].
    eapply triple_bind; [apply quiet_section; [done|cbn; by apply bool_decide_eq_true]|]. intros [] m. apply between_sound.
Qed.
End EndToEnd.

(** What the calls of the wired process function keep, it keeps. *)
Section Kept.
Context {W : Type} `{Kafka W} `{Outside W}.
Abbreviation M := (Machine W).
Variables (h : nat) (P : M -> Prop) (commit : CommitFunc (W := W)).
Abbreviation kept f := (triple P f (fun _ => P)).
Hypothesis P_call : forall A (f : Act W A), worker_call A f -> kept (call (TWorker h) f).
Hypothesis P_sleep : forall d, kept (call (TWorker h) (OutSleep d)).
Hypothesis P_jitter : forall n, kept (call (TWorker h) (OutJitter n)).
Hypothesis P_note : forall o, match o with CallHasSkip _ _ _ _ | CallSaveSkip _ _ _ _ | CallSend _ _ _ => False | _ => True end ->
  kept (note (EvOutside h o)).
Hypothesis P_hasskip : forall s d r, kept (outside h (CallHasSkip s d r) (OutHasSkip s d r)).
Hypothesis P_saveskip : forall s d r, kept (outside h (CallSaveSkip s d r) (OutSaveSkip s d r)).
Hypothesis P_commit : forall position, kept (commit position).

Lemma kept_simulates (wk : Worker) (raw : RawRecord) (record : Record_) :
  (forall r b, kept (outside h (CallSend r b) (OutSend (wk_Destination wk) r b))) ->
  simulates (H := worker_world (wk_Destination wk) h commit) (wk_Scope wk) record (wk_Destination wk) (envelope_body wk record) raw
    (unsent_phase wk record) (fun _ => P).
Proof.
  intros Hsend. assert (forall A (f : Act M A) n a n', kept f -> P n -> f n = (a, n') -> P n') as Hrun
    by (intros A f n a n'; apply triple_run with (Q := fun _ => P)).
  split; cbn.
  - intros p e n _. by apply P_note.
  - intros p d n e n' _. apply Hrun. apply kept_bind; [apply P_sleep|]. intros fired.
    apply kept_bind; [by intros k|]. intros over. apply kept_bind; [by apply P_note|by intros [] k].
  - intros p n k j k'. apply Hrun, P_jitter.
  - intros n a n'. apply Hrun, P_hasskip.
  - intros b n a n' _. apply Hrun, Hsend.
  - intros n a n'. apply Hrun, P_saveskip.
  - intros n a n'. apply Hrun. apply kept_bind; [apply P_commit|]. intros r. apply kept_bind; [by apply P_note|by intros [] k].
Qed.

Lemma wired_kept (fuel : nat) (workers : gmap string Worker) (raw : RawRecord) :
  (forall t wk r b, workers !! t = Some wk -> kept (outside h (CallSend r b) (OutSend (wk_Destination wk) r b))) ->
  kept (wired fuel workers h raw commit).
Proof.
  intros Hsend m Hm. unfold wired. destruct (workers !! RawTopic raw) as [wk|] eqn:Hwk; [|done].
  set (world := worker_world (wk_Destination wk) h commit). unfold WorkerProcess. destruct (allowed wk m) as [ok m1] eqn:Ha.
  assert (P m1) as H1.
  { unfold allowed in Ha. destruct (wk_Gate wk); [|by injection Ha as _ <-]. cbn in Ha.
    eapply (triple_run P _ (fun _ => P)), Ha; [by apply P_call|done]. }
  destruct ok; cbn [negb]; [|done]. destruct (wk_Decode wk raw) as [record|e].
  - destruct (completeRecord _ _ _ _) as [[r m']|] eqn:Hc; [|done].
    by apply (completeRecord_follows _ _ _ _ _ (kept_simulates wk raw record (fun r b => Hsend _ wk r b Hwk))) in Hc as (p & Hp & _).
  - cbn. unfold block. destruct (wk_Gate wk); [|done].
    exact (triple_bind P (note _) (fun _ => P) (fun _ => call _ _) (fun _ => P) (P_note (CallBlock _ _) Logic.I) (fun _ => P_call _ _ (wc_block _ _)) m1 H1).
Qed.
End Kept.

(** The wired process function works through calls and its commit alone, so
    what [Consumer] shows of every such function holds for it. *)
Lemma wired_confined {W : Type} `{Kafka W} `{Outside W} (fuel : nat) (workers : gmap string Worker) : confined (wired (W := W) fuel workers).
Proof.
  intros P h raw commit Hcall Hnote Hcommit.
  assert (forall A (ev : A -> Delivery.event) (f : Act W A), triple P (outside h ev f) (fun _ => P)) as Hout.
  { intros A ev f. unfold outside. apply kept_bind; [apply Hcall|]. intros a. apply kept_bind; [apply Hnote|by intros [] n]. }
  apply wired_kept; auto.
Qed.

Lemma handed_given (h : nat) (t : list event) : handed h t = map record_of (given h t).
Proof.
  induction t as [|e t IH] using rev_ind; [done|]. rewrite handed_snoc, given_snoc, map_app, IH. f_equal.
  destruct e; try done. by case_decide.
Qed.

Lemma handed_prefix (h : nat) (t u : list event) : handed h t `prefix_of` handed h (t ++ u).
Proof. unfold handed. rewrite omap_app. by eexists. Qed.

(** What a commit of the worker's goroutine comes after. *)
Lemma run_committed {W : Type} `{Kafka W} `{Outside W} (fuel dfuel : nat) (workers : gmap string Worker) (h : nat)
  (m : Machine W) (w : partitionWorker) (pre post : list event) (k : partitionKey) (offset epoch : Z) :
  cn_pool (cn m) !! h = Some w -> pw_batches w = [] -> trace m = [] -> 0 <= offset ->
  let t := trace (run (wired dfuel workers) fuel h m).2 in
  t = pre ++ EvCommit h k offset epoch :: post ->
  exists raws raw, given h pre = raws ++ [raw] /\ k = (RawTopic raw, RawPartition raw) /\ offset = RawOffset raw /\
    Forall (settled workers h pre) (raws ++ [raw]) /\ map record_of (raws ++ [raw]) `prefix_of` routed h t.
Proof.
  intros Hw Hb Ht Ho t Heq.
  destruct (run_settles workers h (pw_key w) (cn_sources (cn m)) dfuel fuel m) as (w1 & _ & _ & _ & Hs).
  { exists w. split_and!; try done. rewrite Ht. split; [intros [|] ? ? ? ? [=]|constructor]. }
  destruct (Hs _ _ _ _ _ Heq Ho) as (raws & raw & Hg & Hk & Hoff & Hall). exists raws, raw. split_and!; try done.
  destruct (fifo_run h (pw_key w) (cn_sources (cn m)) (wired dfuel workers) (wired_confined dfuel workers) fuel m) as (rest & w2 & _ & _ & _ & Hf & _).
  { exists w. split_and!; try done. unfold fifo. rewrite Ht, Hb. split; [done|cbn; lia]. }
  fold t in Hf. rewrite Hf. transitivity (handed h t); [|by eexists].
  rewrite <- Hg, <- handed_given, Heq. apply handed_prefix.
Qed.

(** ** Properties *)

(** C2. No record is lost between Kafka and the destination: whenever a partition
    worker offers an offset for commit, that is the offset of the record it is
    processing, and this record and every record routed to it before are
    settled: filtered out, on record as skipped, or answered by the
    destination, with a skip it asked for saved.  This holds whatever Kafka,
    the destination, the stores and the other goroutines do meanwhile. *)
Theorem nothing_lost {W : Type} `{Kafka W} `{Outside W} (fuel dfuel : nat) (workers : gmap string Worker) (h : nat)
  (m : Machine W) (w : partitionWorker) (pre post : list event) (k : partitionKey) (offset epoch : Z) :
  cn_pool (cn m) !! h = Some w -> pw_batches w = [] -> trace m = [] -> 0 <= offset ->
  trace (run (wired dfuel workers) fuel h m).2 = pre ++ EvCommit h k offset epoch :: post ->
  exists raws raw, k = (RawTopic raw, RawPartition raw) /\ offset = RawOffset raw /\
    Forall (settled workers h pre) (raws ++ [raw]) /\
    map record_of (raws ++ [raw]) `prefix_of` routed h (trace (run (wired dfuel workers) fuel h m).2).
Proof.
  intros Hw Hb Ht Ho Heq. destruct (run_committed fuel dfuel workers h m w pre post k offset epoch Hw Hb Ht Ho Heq) as (raws & raw & _ & Hall).
  by exists raws, raw.
Qed.

(** The consumer of a destination has, for each of its sources, the source and
    its worker under the source's topic, when the topics differ; the worker
    decodes with the identity the source was registered with. *)
Theorem consumer_wired {W : Type} `{Kafka W} `{Outside W} (fuel : nat) (scope : Scope) (sources : gmap string Source)
  (destinations : gmap string ConfigDestination) (input : ConfigDestination) (ids : list string)
  (registered : gmap string Registration) (client : string -> list string -> result error unit) c process :
  NoDup (map (fun id => Topic (RegNames (default zeroRegistration (registered !! id)))) ids) ->
  destinations !! cd_ID input = Some input ->
  consumer (W := W) fuel scope sources destinations (cd_ID input, ids) registered client = Ok (c, process) ->
  exists workers, process = wired fuel workers /\
    forall id source registration, id ∈ ids -> sources !! id = Some source -> registered !! id = Some registration ->
      let topic := Topic (RegNames registration) in
      source_of topic c = source /\
      exists wk, workers !! topic = Some wk /\ wk_SourceID wk = ID source /\ wk_Destination wk = cd_ID input /\
        DestFilter (wk_destination wk) = filterFor (cd_Filter input) /\
        forall raw, wk_Decode wk raw = Decode source (RegIdentity registration) (ScopeGeneration scope) (Some raw).
Proof.
  intros Hnd Hin. unfold consumer, NewConsumer. cbn [fst snd]. rewrite Hin. cbn [default].
  intros (c' & Hc & [= <- <-])%bind_Ok. apply bind_Ok in Hc as ([] & _ & [= <-]).
  exists (consumer_workers scope input sources registered ids). split; [reflexivity|]. intros id source registration Hid Hs Hr. set (topic := Topic (RegNames registration)).
  pose proof (insert_loop (fun id => Topic (RegNames (default zeroRegistration (registered !! id))))
    (fun id => default zeroSource (sources !! id)) ids ∅ id Hnd Hid) as H1.
  pose proof (insert_loop (fun id => Topic (RegNames (default zeroRegistration (registered !! id))))
    (fun id => worker scope input (default zeroSource (sources !! id)) (default zeroRegistration (registered !! id))) ids ∅ id Hnd Hid) as H2.
  cbn beta in H1, H2. rewrite Hr in H1, H2. rewrite Hs in H1, H2. cbn [default from_option] in H1, H2. unfold Datatypes.id in H1, H2. fold topic in H1, H2. split.
  - unfold source_of, consumer_topics. cbn [cn_sources]. etransitivity; [apply (f_equal (default _)), H1|done].
  - exists (worker scope input source registration). split; [exact H2|]. done.
Qed.

(** ** Witnesses *)
Module WiredSim.
Import Consumer.Sim.
(** The destination fails once, then asks to skip; the skip is saved at the
    second try. *)
#[export] Instance sim_outside : Outside Script := {
  OutSleep _ w := (true, w);
  OutJitter n w := (n - 1, w);
  OutSend _ _ _ w := (Ok Skipped, w);
  OutHasSkip _ _ _ w := (Ok false, w);
  OutSaveSkip _ _ _ w := (Ok tt, w) }.

Definition workers : gmap string Worker := {[ "orders" := Delivery.sim_worker (Ok Delivery.sim_record) ]}.
Definition machine : Machine Script :=
  mkMachine consumer (mkScript (replicate 8 [] ++ [[XRoute 0 [record; mkKRecord "orders" 0 4 1 "k" "v"]]]) ([], [])) [].
Definition final : Machine Script := (run (wired 5 workers) 30 0 machine).2.

(** The committed offsets, and the events up to the last commit. *)
Definition offsets_committed : list Z := omap (fun e => match e with EvCommit _ _ o _ => Some o | _ => None end) (trace final).

Fixpoint upto_commit (o : Z) (t : list Consumer.event) : list Consumer.event * list Consumer.event :=
  match t with
  | [] => ([], [])
  | EvCommit h k o' ep :: t' => if Z.eqb o o' then ([], t') else let '(a, b) := upto_commit o t' in (EvCommit h k o' ep :: a, b)
  | e :: t' => let '(a, b) := upto_commit o t' in (e :: a, b)
  end.
End WiredSim.
#[export] Existing Instance WiredSim.sim_outside.

Lemma nothing_lost_witness :
  WiredSim.offsets_committed = [-1; 3; 4] /\
  exists raws raw, 4 = RawOffset raw /\
    Forall (settled WiredSim.workers 0 (WiredSim.upto_commit 4 (trace WiredSim.final)).1) (raws ++ [raw]).
Proof.
  split; [vm_compute; reflexivity|].
  destruct (nothing_lost 30 5 WiredSim.workers 0 WiredSim.machine (mkPartitionWorker Consumer.Sim.key false [] 0 false true false false)
    (WiredSim.upto_commit 4 (trace WiredSim.final)).1 (WiredSim.upto_commit 4 (trace WiredSim.final)).2 ("orders", 0) 4 1) as (raws & raw & _ & Ho & Hall & _);
    [reflexivity|reflexivity|reflexivity|lia|vm_compute; reflexivity|].
  exists raws, raw. split; [exact Ho|exact Hall].
Defined.

Lemma consumer_wired_witness :
  let registration := mkRegistration "orders" (mkIdentity "orders" "id" "customer" "" 1 []) (mkNames "p" "p.public.orders" "c" "s" "b") [] "" in
  let source := mkSource "orders" "" "orders" ["id"] "id" "customer" in
  let input := mkConfigDestination "billing" "" "" "" "" "" ["orders"] None in
  exists c process, consumer (W := Consumer.Sim.Script) 5 (mkScope "acme" "prod" 1) {[ "orders" := source ]} {[ "billing" := input ]}
      ("billing", ["orders"]) {[ "orders" := registration ]} (fun _ _ => Ok tt) = Ok (c, process) /\
    source_of "p.public.orders" c = source.
Proof.
  intros registration source input. eexists _, _. split; [reflexivity|].
  edestruct (consumer_wired (W := Consumer.Sim.Script) 5 (mkScope "acme" "prod" 1) {[ "orders" := source ]} {[ "billing" := input ]} input ["orders"]
    {[ "orders" := registration ]} (fun _ _ => Ok tt)) as (workers & _ & Hall);
    [apply NoDup_singleton|reflexivity|reflexivity|].
  exact (proj1 (Hall "orders" source registration ltac:(by left) eq_refl eq_refl)).
Defined.
