(* ===== verification/Ending.v ===== *)
(** * Ending: a consumer comes to an end

    The goroutines of [internal/adapters/kafka/consumer.go] with the delivery
    workers of [internal/app/app.go] inside: once its context is over, a
    partition worker returns, wherever it is — checking offsets, waiting for a
    batch, in a retry of the delivery worker — so a revocation and the closing
    of the consumer, which wait for it, return too.  Time is what the calls
    take; what the rest of the group and the runtime do is stated as a rely
    condition on the states the machine can be in. *)

From S2P Require Import Prelude Strconv JsonCodec GoFmt Stream Delivery Act Consumer Wiring.
Local Open Scope Z_scope.

(** The calls of a partition worker and of the delivery worker in it. *)
Inductive outer_call {W : Type} `{Kafka W} `{Outside W} : forall A : Type, Act W A -> Prop :=
| oc_worker A (f : Act W A) : worker_call A f -> outer_call A f
| oc_sleep d : outer_call _ (OutSleep d)
| oc_jitter n : outer_call _ (OutJitter n)
| oc_send d r b : outer_call _ (OutSend d r b)
| oc_has s d r : outer_call _ (OutHasSkip s d r)
| oc_save s d r : outer_call _ (OutSaveSkip s d r).
#[export] Hint Constructors outer_call : core.

(** What worker [h] relies on: nothing turns the clock back, and being blocked
    advances it by a [tick]; its context is over by the deadline; a sleep that is not cut
    short by the context lasts its delay and ends by the deadline; batches are
    of topics with a worker and, as [route] has it, never empty; and workers
    stay in the pool. *)
Record group_rely {W : Type} `{Kafka W} `{Outside W} `{Timeline (Machine W)} (tick : Z) (h : nat) (workers : gmap string Worker) : Prop := {
  rl_pos : 0 < tick;
  rl_note e m : later m (note e m).2;
  rl_call A (f : Act W A) m : outer_call A f -> later m (call (TWorker h) f m).2;
  rl_section x m : own h x = true -> later m (section_ x m).2;
  rl_still e m : clock (note e m).2 = clock m;
  rl_wait m : timely m -> clock m + tick <= clock (call (TWorker h) Wait m).2;
  rl_over m : timely m -> deadline < clock m -> ctx_done h (cn m) = true;
  rl_sleep d m fired m' : timely m -> 0 <= d -> call (TWorker h) (OutSleep d) m = (fired, m') ->
    fired = true \/ ctx_done h (cn m') = false -> clock m + d <= clock m' <= deadline;
  rl_queue m : timely m -> Forall (fun rs => rs <> [] /\ Forall (fun r => is_Some (workers !! kr_Topic r)) rs) (queue_of h (cn m));
  rl_pool m : timely m -> is_Some (cn_pool (cn m) !! h) }.

(** ** The partition worker *)
Section Worker.
Context {W : Type} `{Kafka W} `{Outside W} {line : Timeline (Machine W)}.
Abbreviation M := (Machine W).
Variables (tick : Z) (h : nat) (workers : gmap string Worker) (dfuel : nat).
Hypothesis rely : group_rely tick h workers.

(** At or after time [t]. *)
Definition from (t : Z) (m : M) : Prop := timely m /\ t <= clock m.
Definition onward {A : Type} (f : Act M A) : Prop := forall t, triple (from t) f (fun _ => from t).

Lemma from_later (t : Z) (m m' : M) : later m m' -> from t m -> from t m'.
Proof. intros Hl [Hm Ht]. destruct (Hl Hm). split; [done|lia]. Qed.

Lemma onward_later {A : Type} (f : Act M A) (m : M) : onward f -> later m (f m).2.
Proof. intros Hf Hm. by apply (Hf (clock m) m). Qed.

Lemma onward_bind {A B : Type} (f : Act M A) (k : A -> Act M B) : onward f -> (forall a, onward (k a)) -> onward (f ≫= k).
Proof. intros Hf Hk t. eapply triple_bind; [apply Hf|]. intros a. apply Hk. Qed.

Lemma onward_ret {A : Type} (a : A) : onward (ret a).
Proof. by intros t m. Qed.
Lemma onward_reading {A : Type} (f : Consumer -> A) : onward (reading f).
Proof. by intros t m. Qed.
Lemma onward_note (e : event) : onward (note e).
Proof. intros t m. by apply from_later, rely. Qed.
Lemma onward_call {A : Type} (f : Act W A) : outer_call A f -> onward (call (TWorker h) f).
Proof. intros Hf t m. by apply from_later, rely. Qed.
Lemma onward_section (x : section) : own h x = true -> onward (section_ x).
Proof. intros Hx t m. by apply from_later, rely. Qed.

Lemma onward_outside {A : Type} (ev : A -> Delivery.event) (f : Act W A) : outer_call A f -> onward (outside h ev f).
Proof. intros Hf. apply onward_bind; [by apply onward_call|]. intros a. apply onward_bind; [apply onward_note|]. intros []. apply onward_ret. Qed.

Lemma own_worker (x : section) : owner x = Some (TWorker h) -> own h x = true.
Proof. intros Hx. unfold own. destruct x; try done; by apply bool_decide_eq_true. Qed.

Lemma onward_commit (k : partitionKey) (offset epoch : Z) : onward (Consumer.commit h k offset epoch).
Proof.
  unfold Consumer.commit, ask_allowed, commit_records.
  apply onward_bind; [by apply onward_section, own_worker|]. intros []. apply onward_bind; [apply onward_reading|]. intros mine.
  apply onward_bind; [apply onward_reading|]. intros source. apply onward_bind.
  { destruct mine; [|apply onward_ret]. apply onward_bind; [apply onward_call; auto|]. intros a.
    apply onward_bind; [apply onward_note|]. intros []. apply onward_ret. }
  intros allowed. apply onward_bind.
  { destruct allowed; [|apply onward_ret]. apply onward_bind; [apply onward_note|]. intros [].
    apply onward_bind; [apply onward_call; auto|]. intros r. apply onward_bind; [apply onward_note|]. intros []. apply onward_ret. }
  intros r. apply onward_bind; [by apply onward_section, own_worker|]. intros []. apply onward_ret.
Qed.

Lemma onward_attempt : onward (attempt h).
Proof.
  intros t. apply kept_attempt.
  - intros A f Hf. by apply onward_call, oc_worker.
  - intros k. apply onward_commit.
  - intros x Hx _ _. by apply onward_section.
  - intros e _ _ _ _. apply onward_note.
Qed.

(** The delivery worker's world has the clock of the machine. *)
Lemma world_timed (destination : string) (commit : CommitFunc) : (forall raw, onward (commit raw)) ->
  TimedWorld M (H := worker_world destination h commit).
Proof.
  intros Hc. assert (forall A (f : Act M A) m a m', onward f -> f m = (a, m') -> later m m') as Hrun.
  { intros A f m a m' Hf Hr. pose proof (onward_later f m Hf) as Hl. by rewrite Hr in Hl. }
  assert (forall d, onward (Delivery.ctxSleep (World := worker_world destination h commit) d)) as Hsleep.
  { intros d. apply onward_bind; [apply onward_call; auto|]. intros fired. apply onward_bind; [apply onward_reading|]. intros over.
    apply onward_bind; [apply onward_note|]. intros []. apply onward_ret. }
  split; cbn.
  - intros m Hm. destruct (ctx_done h (cn m)) eqn:Ho; [done|]. intros _. apply Z.le_ngt. intros Hlt.
    by rewrite (rl_over _ _ _ rely) in Ho.
  - intros d m m' Hm Hd. unfold mbind, act_bind, reading, ret. destruct (call (TWorker h) (OutSleep d) m) as [fired m1] eqn:Hs.
    pose proof (rl_sleep _ _ _ rely d m fired m1 Hm Hd Hs) as Hbound.
    pose proof (rl_call _ _ _ rely _ (OutSleep d) m ltac:(auto) Hm) as [Hm1 _]. rewrite Hs in Hm1. cbn in Hm1.
    pose proof (rl_still _ _ _ rely (EvOutside h (CallSleep d None)) m1) as Hn. cbn in Hn.
    destruct (ctx_done h (cn m1)), fired; cbn [andb negb]; try done; intros [= <-]; rewrite Hn; apply Hbound; auto.
  - intros d m m' e _. apply Hrun, Hsleep.
  - intros n m m' j _. apply Hrun, onward_call. auto.
  - intros r b m m' a. apply Hrun, onward_outside. auto.
  - intros s d r m m' a. apply Hrun, onward_outside. auto.
  - intros s d r m m' a. apply Hrun, onward_outside. auto.
  - intros raw m m' a. apply Hrun, onward_bind; [apply Hc|]. intros r. apply onward_bind; [apply onward_note|]. intros []. apply onward_ret.
  - intros s m m' a. apply Hrun, onward_call. auto.
  - intros s e m. apply (onward_later (_ ← note (EvOutside h (CallBlock s e)); call (TWorker h) (DispatchBlock s (error_text e)))).
    apply onward_bind; [apply onward_note|]. intros []. apply onward_call. auto.
  - intros e m. apply (onward_later (note (EvOutside h (CallLog e)))), onward_note.
Qed.

(** *** Records *)
Abbreviation process := (wired dfuel workers).
Definition known (r : KRecord) : Prop := is_Some (workers !! kr_Topic r).

(** [n] ticks are enough to get past the deadline. *)
Definition room (n : nat) (m : M) : Prop := deadline < clock m + Z.of_nat n * tick.

Lemma room_0 (m : M) : room 0 m -> deadline < clock m.
Proof. unfold room. lia. Qed.

Lemma room_S (n : nat) (m m' : M) : clock m + tick <= clock m' -> room (S n) m -> room n m'.
Proof. unfold room. lia. Qed.

Lemma room_from (n : nat) (t : Z) (m m' : M) : clock m <= t -> from t m' -> room n m -> room n m'.
Proof. unfold room. intros Ht [_ Hc]. lia. Qed.

Lemma budget_from (t : Z) (m m' : M) : clock m <= t -> from t m' -> budget dfuel (clock m) deadline -> budget dfuel (clock m') deadline.
Proof. unfold budget. intros Ht [_ Hc]. lia. Qed.

(** A record is done with; and past the deadline, in vain. *)
Lemma record_returns (r : KRecord) (m : M) :
  known r -> timely m -> budget dfuel (clock m) deadline ->
  exists a m', process_record process h r m = (Some a, m') /\ from (clock m) m' /\ (deadline < clock m -> exists e, a = Err e).
Proof.
  intros [wk Hwk] Hm Hb. unfold process_record, mbind, act_bind, reading, ret.
  set (raw := mkRawRecord _ _ _ _ _ _ _). set (commit := fun position : RawRecord => _).
  assert (forall position, onward (commit position)) as Hc
    by (intros position; exact (onward_commit (RawTopic position, RawPartition position) (RawOffset position) (LeaderEpoch position))).
  pose proof (world_timed (wk_Destination wk) commit Hc) as Hworld.
  pose proof (onward_note (EvProcess h raw) (clock m) m (conj Hm (Z.le_refl _))) as [Hm1 Hc1]. destruct (note (EvProcess h raw) m) as [u m1].
  cbn [snd] in Hm1, Hc1. unfold wired. change (RawTopic raw) with (kr_Topic r). rewrite Hwk.
  destruct (process_returns (laws := Hworld) dfuel wk raw m1 Hm1) as (a & m2 & Hr & Hl); [unfold budget in *; lia|].
  rewrite Hr. cbv iota. pose proof (onward_note (EvProcessed h (is_ok a)) (clock m1) m2 (from_later (clock m1) m1 m2 Hl (conj Hm1 (Z.le_refl _)))) as [Hm3 Hc3].
  destruct (note (EvProcessed h (is_ok a)) m2) as [u' m3]. cbn [snd] in Hm3, Hc3. exists a, m3. split; [done|]. split; [split; [done|lia]|].
  intros Hlate. eapply (process_late (laws := Hworld)); [exact Hm1| |exact Hr]. lia.
Qed.

Lemma batch_returns (rs : list KRecord) (m : M) :
  Forall known rs -> timely m -> budget dfuel (clock m) deadline ->
  exists a m', process_batch process h rs m = (Some a, m') /\ from (clock m) m' /\ (rs <> [] -> deadline < clock m -> exists e, a = Err e).
Proof.
  intros Hrs. revert m. induction Hrs as [|r rs Hr _ IH]; intros m Hm Hb; [by eexists _, _|].
  cbn [process_batch]. unfold mbind, act_bind. destruct (record_returns r m Hr Hm Hb) as (a & m1 & -> & Hf & Hlate).
  destruct a as [[]|e]; [|eexists _, _; split; [done|]; split; [done|by eexists]].
  destruct (IH m1) as (b & m2 & -> & Hf2 & _); [apply Hf|by eapply budget_from|]. exists b, m2. split; [done|].
  destruct Hf as [? ?], Hf2 as [? ?]. split; [split; [done|lia]|]. intros _ Hl. destruct (Hlate Hl) as [e [=]].
Qed.

(** *** The goroutine *)

(** Time that passes while blocked. *)
Lemma wait_advances (n : nat) (m m' : M) (u : unit) : timely m -> call (TWorker h) Wait m = (u, m') -> room (S n) m ->
  timely m' /\ clock m <= clock m' /\ room n m'.
Proof.
  intros Hm Hw Hr. pose proof (rl_pos _ _ _ rely) as Hpos. pose proof (rl_wait _ _ _ rely m Hm) as Hlt. pose proof (rl_call _ _ _ rely _ Wait m ltac:(auto) Hm) as [Hm' _].
  rewrite Hw in Hlt, Hm'. cbn in Hlt, Hm'. unfold room in *. split_and!; [done|lia|lia].
Qed.

(** A retry ends. *)
Lemma retry_returns (fn : Act M (result error unit)) (n : nat) (m : M) :
  onward fn -> timely m -> room n m -> exists a m', retry (S n) h fn m = (Some a, m') /\ from (clock m) m'.
Proof.
  intros Hfn. revert m. induction n as [|n IH]; intros m Hm Hr; cbn [retry]; unfold mbind, act_bind, reading, ret;
    (destruct (ctx_done h (cn m)) eqn:Hover; [by eexists _, _|]).
  - rewrite (rl_over _ _ _ rely m) in Hover; [done|done|]. unfold room in Hr. lia.
  - pose proof (Hfn (clock m) m (conj Hm (Z.le_refl _))) as Hf1. destruct (fn m) as [[[]|e] m1]; cbn in Hf1; [by eexists _, _|].
    destruct (call (TWorker h) Wait m1) as [u m2] eqn:Hw. destruct Hf1 as [Hm1 Hc1].
    assert (room (S n) m1) as Hr1 by (unfold room in *; lia).
    destruct (wait_advances n m1 m2 u Hm1 Hw Hr1) as (Hm2 & Hc2 & Hr2).
    destruct (IH m2 Hm2 Hr2) as (a & m3 & Ha & Hf3). exists a, m3. split; [exact Ha|]. destruct Hf3. split; [done|lia].
Qed.

(** What a select brings; past the deadline it brings something. *)
Lemma select_returns (m m' : M) (s : selected) : timely m -> select h m = (s, m') ->
  timely m' /\ clock m + tick <= clock m' /\
  match s with SBatch rs => rs <> [] /\ Forall known rs | SDone => True | SNothing => clock m <= deadline end.
Proof.
  intros Hm. pose proof (rl_pos _ _ _ rely) as Hpos. unfold select. unfold mbind, act_bind, reading, ret.
  pose proof (rl_wait _ _ _ rely m Hm) as Hlt. pose proof (rl_call _ _ _ rely _ Wait m ltac:(auto) Hm) as [Hm1 _].
  destruct (call (TWorker h) Wait m) as [u m1]. cbn in Hlt, Hm1.
  pose proof (rl_call _ _ _ rely _ Choose m1 ltac:(auto) Hm1) as [Hm2 Hc2]. destruct (call (TWorker h) Choose m1) as [first m2]. cbn in Hm2, Hc2.
  pose proof (rl_queue _ _ _ rely m2 Hm2) as Hq. pose proof (rl_over _ _ _ rely m2 Hm2) as Hover.
  destruct (queue_of h (cn m2)) as [|rs q].
  - intros [= <- <-]. split; [done|]. split; [lia|]. destruct (ctx_done h (cn m2)); [done|]. apply Z.le_ngt. intros Hl.
    discriminate Hover. lia.
  - apply Forall_cons in Hq as [Hrs _]. destruct (ctx_done h (cn m2) && first); [intros [= <- <-]; split; [done|]; split; [lia|done]|].
    pose proof (rl_section _ _ _ rely (XTake h) m2 ltac:(by apply own_worker) Hm2) as [Hm3 Hc3].
    destruct (section_ (XTake h) m2) as [u' m3]. cbn in Hm3, Hc3. intros [= <- <-]. split; [done|]. split; [lia|done].
Qed.

Lemma onward_fail : onward (fail h).
Proof. apply onward_bind; [apply onward_reading|]. intros []; [apply onward_ret|by apply onward_section]. Qed.

Lemma onward_resume : onward (resume h).
Proof.
  apply onward_bind; [apply onward_reading|]. intros k. apply onward_bind; [apply onward_reading|]. intros []; [apply onward_call; auto|apply onward_ret].
Qed.

(** One turn of the loop: the worker returns, or time is left and has passed. *)
Lemma loop_turn (n : nat) (m : M) : timely m -> budget dfuel (clock m) deadline ->
  (exists m', loop process (S n) h m = (true, m') /\ from (clock m) m') \/
  (clock m <= deadline /\ exists m', loop process (S n) h m = loop process n h m' /\ timely m' /\ clock m + tick <= clock m').
Proof.
  intros Hm Hb. pose proof (rl_pos _ _ _ rely) as Hpos. cbn [loop]. unfold mbind, act_bind. destruct (select h m) as [s m1] eqn:Hs.
  destruct (select_returns m m1 s Hm Hs) as (Hm1 & Hc1 & Hsel). destruct s as [|rs|].
  - left. exists m1. split; [done|]. split; [done|lia].
  - destruct Hsel as [Hne Hrs]. destruct (batch_returns rs m1 Hrs Hm1) as (a & m2 & -> & Hf2 & Hlate); [unfold budget in *; lia|].
    destruct a as [[]|e].
    + right. split; [apply Z.le_ngt; intros Hl; destruct (Hlate Hne ltac:(lia)) as [e [=]]|].
      pose proof (onward_resume _ m2 Hf2) as [Hm3 Hc3]. destruct (resume h m2) as [u m3]. exists m3. split; [done|]. cbn in Hm3, Hc3. split; [done|lia].
    + left. pose proof (onward_fail _ m2 Hf2) as [Hm3 Hc3]. destruct (fail h m2) as [u m3]. cbn in Hm3, Hc3.
      exists m3. split; [done|]. split; [done|lia].
  - right. split; [done|]. by exists m1.
Qed.

Lemma loop_returns (n : nat) (m : M) : timely m -> room n m -> budget dfuel (clock m) deadline ->
  exists m', loop process (S n) h m = (true, m') /\ from (clock m) m'.
Proof.
  pose proof (rl_pos _ _ _ rely) as Hpos. revert m. induction n as [|n IH]; intros m Hm Hr Hb.
  - destruct (loop_turn 0 m Hm Hb) as [Hdone|[Hle _]]; [exact Hdone|]. unfold room in Hr. lia.
  - destruct (loop_turn (S n) m Hm Hb) as [Hdone|(Hle & m1 & -> & Hm1 & Hc1)]; [exact Hdone|].
    destruct (IH m1 Hm1) as (m2 & Hl & Hm2 & Hc2); [unfold room in *; lia|unfold budget in *; lia|].
    exists m2. split; [exact Hl|split; [done|lia]].
Qed.

(** The whole goroutine. *)
Lemma run_ends (n : nat) (m : M) : timely m -> room n m -> budget dfuel (clock m) deadline ->
  exists m', Consumer.run process (S n) h m = (true, m') /\ from (clock m) m' /\ done_of h (cn m') = true.
Proof.
  intros Hm Hr Hb.
  assert (forall t m1, from t m1 -> exists m', (_ ← section_ (XDone h); ret true) m1 = (true, m') /\ from t m' /\ done_of h (cn m') = true) as Hfinish.
  { intros t m1 Hf. exists (section_ (XDone h) m1).2. split; [done|]. split; [by apply (onward_section (XDone h)); [by apply own_worker|]|].
    destruct (rl_pool _ _ _ rely m1 (proj1 Hf)) as [w Hw]. cbn. unfold done_of. cbn. by rewrite lookup_alter_eq, Hw. }
  unfold Consumer.run. unfold mbind at 1, act_bind at 1. unfold initialize.
  destruct (retry_returns (attempt h) n m onward_attempt Hm Hr) as (a & m1 & -> & Hf1). destruct a as [[]|e].
  - unfold mbind at 1, act_bind at 1. pose proof (onward_section (XInit h) ltac:(by apply own_worker) _ m1 Hf1) as Hf2.
    destruct (section_ (XInit h) m1) as [[] m2]. unfold mbind at 1, act_bind at 1.
    pose proof (onward_note (EvReady h) _ m2 Hf2) as Hf3. destruct (note (EvReady h) m2) as [[] m3]. unfold mbind at 1, act_bind at 1.
    pose proof (onward_call DispatchSignal ltac:(auto) _ m3 Hf3) as Hf4. destruct (call (TWorker h) DispatchSignal m3) as [[] m4].
    unfold mbind at 1, act_bind at 1. cbn [snd] in Hf4.
    destruct (loop_returns n m4) as (m5 & -> & Hf5); [apply Hf4|by eapply room_from|by eapply budget_from|].
    apply Hfinish. destruct Hf4, Hf5. split; [done|lia].
  - unfold mbind at 1, act_bind at 1. pose proof (onward_fail _ m1 Hf1) as Hf2. destruct (fail h m1) as [[] m2]. by apply Hfinish.
Qed.
End Worker.

(** ** The goroutines that wait for workers *)
Section Waiting.
Context {W : Type} `{Kafka W} {line : Timeline (Machine W)}.
Abbreviation M := (Machine W).
Variables (tick : Z) (me : thread).

(** The waiting goroutine relies on the same of its own steps. *)
Record waiting_rely : Prop := {
  wr_pos : 0 < tick;
  wr_wait m : timely m -> timely (call me Wait m).2 /\ clock m + tick <= clock (call me Wait m).2;
  wr_disown h m : later m (section_ (XDisown h) m).2 }.
Hypothesis rely : waiting_rely.

(** Workers stay in the pool. *)
Definition present (h : nat) : M -> Prop := has h (fun _ => True).

Lemma present_lasting : lasting (fun _ => True).
Proof. done. Qed.

Abbreviation room := (room tick).

Lemma wait_returns (I : M -> Prop) (p : Consumer -> bool) (n : nat) (m : M) :
  triple I (call me Wait) (fun _ => I) ->
  (forall m', I m' -> timely m' -> deadline < clock m' -> p (cn m') = true) -> I m -> timely m -> room n m ->
  exists m', wait_until (S n) me p m = (true, m') /\ from (clock m) m' /\ I m'.
Proof.
  pose proof (wr_pos rely) as Hpos. intros Hkeep Hp. revert m. induction n as [|n IH]; intros m Hi Hm Hr; cbn [wait_until]; unfold mbind, act_bind, reading, ret;
    (destruct (p (cn m)) eqn:Hpm; [by exists m|]).
  - rewrite Hp in Hpm; [done|done|done|]. unfold room in Hr. lia.
  - destruct (wr_wait rely m Hm) as [Hm1 Hc1]. pose proof (Hkeep m Hi) as Hi1. destruct (call me Wait m) as [u m1]. cbn in Hm1, Hc1, Hi1.
    destruct (IH m1 Hi1 Hm1) as (m2 & Hw & [Hm2 Hc2] & Hi2); [unfold room in *; lia|].
    exists m2. split; [exact Hw|]. split; [split; [done|lia]|done].
Qed.

(** Worker [h] has left [commit] and returned. *)
Definition gone (h : nat) (c : Consumer) : Prop := locked_of h c = false /\ done_of h c = true.

Definition all_present (hs : list nat) (m : M) : Prop := forall h, h ∈ hs -> present h m.

Lemma all_present_wait (hs : list nat) : triple (all_present hs) (call me Wait) (fun _ => all_present hs).
Proof. intros m Hm h Hh. apply (has_call me h (fun _ => True) Wait present_lasting m), Hm, Hh. Qed.

Lemma disown_all_returns (n : nat) (hs : list nat) (m : M) :
  (forall h m', h ∈ hs -> present h m' -> timely m' -> deadline < clock m' -> gone h (cn m')) ->
  all_present hs m -> timely m -> room n m ->
  exists m', disown_all (S n) me hs m = (true, m') /\ from (clock m) m'.
Proof.
  revert m. induction hs as [|h hs IH]; intros m Hg Hp Hm Hr; [by exists m|].
  change (disown_all (S n) me (h :: hs) m) with
    ((free ← wait_until (S n) me (fun c => negb (locked_of h c));
      if (free : bool) then
        _ ← section_ (XDisown h);
        over ← wait_until (S n) me (done_of h);
        if (over : bool) then disown_all (S n) me hs else ret false
      else ret false) m).
  unfold mbind, act_bind. pose proof (all_present_wait (h :: hs)) as Hkeep. assert (h ∈ h :: hs) as Hin by by left.
  destruct (wait_returns (all_present (h :: hs)) (fun c => negb (locked_of h c)) n m Hkeep) as (m1 & -> & [Hm1 Hc1] & Hp1); [|done..|].
  { intros m' Hp' Hm' Hl. apply negb_true_iff. by apply (Hg h m'); [|apply Hp'|..]. }
  destruct (wr_disown rely h m1 Hm1) as [Hm2 Hc2].
  assert (all_present (h :: hs) (section_ (XDisown h) m1).2) as Hp2
    by (intros k Hk; apply (has_section k (fun _ => True) (XDisown h) present_lasting m1), Hp1, Hk).
  destruct (section_ (XDisown h) m1) as [u m2]. cbn in Hm2, Hc2, Hp2.
  destruct (wait_returns (all_present (h :: hs)) (done_of h) n m2 Hkeep) as (m3 & -> & [Hm3 Hc3] & Hp3); [|done|done|unfold room in *; lia|].
  { intros m' Hp' Hm' Hl. by apply (Hg h m'); [|apply Hp'|..]. }
  destruct (IH m3) as (m4 & -> & Hm4 & Hc4); [|by intros k Hk; apply Hp3; right|done|unfold room in *; lia|].
  { intros k m' Hk. apply Hg. by right. }
  exists m4. split; [done|]. split; [done|lia].
Qed.

Lemma stopWorkers_returns (parts : option (list partitionKey)) (n : nat) (m : M) :
  let hs := removed parts (cn m) in let m1 := (section_ (XStop parts) m).2 in
  (forall h m', h ∈ hs -> present h m' -> timely m' -> deadline < clock m' -> gone h (cn m')) ->
  all_present hs m -> timely m1 -> room n m1 ->
  exists m', stopWorkers (S n) me parts m = (true, m') /\ from (clock m1) m'.
Proof.
  intros hs m1 Hg Hp Hm1 Hr. apply disown_all_returns; try done. intros h Hh.
  apply (has_section h (fun _ => True) (XStop parts) present_lasting m), Hp, Hh.
Qed.
End Waiting.

(** ** The poll loop *)
Inductive run_call {W : Type} `{Kafka W} : forall A : Type, Act W A -> Prop :=
| rc_poll : run_call _ PollRecords
| rc_pause k : run_call _ (PauseFetch k)
| rc_allow : run_call _ AllowRebalance
| rc_close : run_call _ CloseClient
| rc_choose : run_call _ Choose
| rc_wait : run_call _ Wait
| rc_block s reason : run_call _ (DispatchBlock s reason)
| rc_meantime : run_call _ meantime.
#[export] Hint Constructors run_call : core.

(** Any section of [Run], [stopWorkers] included. *)
Definition run_section_of (x : section) : bool :=
  match x with XCancel | XStop _ | XDisown _ => true | _ => bool_decide (owner x = Some TRun) end.

(** What [Run] relies on: the clock; its context is over by the deadline, and
    the workers' goroutines have returned by then. *)
Record run_rely {W : Type} `{Kafka W} `{Timeline (Machine W)} (tick : Z) : Prop := {
  rr_pos : 0 < tick;
  rr_note e m : later m (note e m).2;
  rr_call A (f : Act W A) m : run_call A f -> later m (call TRun f m).2;
  rr_section x m : run_section_of x = true -> later m (section_ x m).2;
  rr_wait m : timely m -> clock m + tick <= clock (call TRun Wait m).2;
  rr_poll m : timely m -> clock m + tick <= clock (call TRun PollRecords m).2;
  rr_over m : timely m -> deadline < clock m -> cn_canceled (cn m) = true;
  rr_gone h m : timely m -> deadline < clock m -> present h m -> gone h (cn m);
  rr_pool k h m : timely m -> cn_workers (cn m) !! k = Some h -> present h m }.

Section Polling.
Context {W : Type} `{Kafka W} {line : Timeline (Machine W)}.
Abbreviation M := (Machine W).
Variable tick : Z.
Hypothesis rely : run_rely tick.
Abbreviation room := (room tick).

Lemma run_waits : waiting_rely tick TRun.
Proof.
  split; [apply rely| |intros h m; by apply rely]. intros m Hm. split; [by apply (rr_call tick rely _ Wait m)|by apply rely].
Qed.

Lemma onward_run_call {A : Type} (f : Act W A) : run_call A f -> onward (call TRun f).
Proof. intros Hf t m. by apply from_later, rely. Qed.
Lemma onward_run_section (x : section) : run_section_of x = true -> onward (section_ x).
Proof. intros Hx t m. by apply from_later, rely. Qed.
Lemma onward_run_note (e : event) : onward (note e).
Proof. intros t m. by apply from_later, rely. Qed.

(** Handing a batch over ends. *)
Lemma send_returns (n : nat) (h : nat) (rs : list KRecord) (m : M) : timely m -> room n m ->
  exists m', send (S n) h rs m = (true, m') /\ from (clock m) m'.
Proof.
  pose proof (rr_pos tick rely) as Hpos. revert m. induction n as [|n IH]; intros m Hm Hr; cbn [send]; unfold mbind, act_bind, reading, ret;
    pose proof (onward_run_call Choose ltac:(auto) (clock m) m (conj Hm (Z.le_refl _))) as [Hm1 Hc1];
    destruct (call TRun Choose m) as [first m1]; cbn in Hm1, Hc1;
    (destruct (queue_of h (cn m1));
      [destruct (ctx_done h (cn m1) && first); [by exists m1|]; exists (section_ (XRoute h rs) m1).2; split; [done|];
       apply (onward_run_section (XRoute h rs) ltac:(by apply bool_decide_eq_true) (clock m) m1); done|]);
    (destruct (ctx_done h (cn m1)) eqn:Ho; [by exists m1|]).
  - unfold ctx_done in Ho. rewrite (rr_over tick rely m1) in Ho; [done|done|]. unfold room in Hr. lia.
  - pose proof (rr_wait tick rely m1 Hm1) as Hc2. pose proof (rr_call tick rely _ Wait m1 ltac:(auto) Hm1) as [Hm2 _].
    destruct (call TRun Wait m1) as [u m2]. cbn in Hc2, Hm2.
    destruct (IH m2 Hm2) as (m3 & Hs & Hm3 & Hc3); [unfold room in *; lia|]. exists m3. split; [exact Hs|]. split; [done|lia].
Qed.

Lemma route_returns (n : nat) (parts : list (partitionKey * list KRecord)) (m : M) : timely m -> room n m ->
  exists m', route (S n) parts m = (true, m') /\ from (clock m) m'.
Proof.
  revert m. induction parts as [|[key rs] parts IH]; intros m Hm Hr; [by exists m|].
  cbn [route]. unfold mbind at 1, act_bind at 1. unfold reading. destruct rs as [|r rs]; [by apply IH|].
  destruct (match cn_workers (cn m) !! key with Some h => _ | None => _ end) as [h|]; [|by apply IH].
  unfold mbind, act_bind, ret. pose proof (onward_run_call (PauseFetch key) ltac:(auto) (clock m) m (conj Hm (Z.le_refl _))) as [Hm1 Hc1].
  destruct (call TRun (PauseFetch key) m) as [u m1]. cbn in Hm1, Hc1.
  destruct (send_returns n h (r :: rs) m1 Hm1) as (m2 & -> & Hm2 & Hc2); [unfold room in *; lia|].
  destruct (IH m2 Hm2) as (m3 & Hs & Hm3 & Hc3); [unfold room in *; lia|]. exists m3. split; [exact Hs|]. split; [done|lia].
Qed.

Lemma onward_failures (l : list Failure) : onward (failures l).
Proof.
  induction l as [|f l IH]; [apply onward_ret|]. cbn [failures]. apply onward_bind; [apply onward_reading|]. intros [|]; [apply onward_ret|].
  destruct (historyLost f).
  - apply onward_bind; [apply onward_reading|]. intros source. apply onward_bind.
    + apply onward_bind; [apply onward_run_note|]. intros []. apply onward_run_call. auto.
    + intros []. apply onward_bind; [by apply onward_run_section|]. intros []. apply onward_ret.
  - apply onward_bind; [apply onward_reading|]. intros d. apply onward_bind; [apply onward_run_note|]. intros [].
    apply onward_bind; [by apply onward_run_call|]. by intros [].
Qed.

Lemma poll_returns (n : nat) (m : M) : timely m -> room n m -> exists m', poll (S n) m = (true, m') /\ from (clock m) m'.
Proof.
  pose proof (rr_pos tick rely) as Hpos. revert m. induction n as [|n IH]; intros m Hm Hr.
  - exists m. cbn [poll]. unfold mbind, act_bind, reading. rewrite (rr_over tick rely m Hm); [done|]. unfold room in Hr. lia.
  - change (poll (S (S n)) m) with
      ((over ← (reading cn_canceled : Act M bool);
        if (over : bool) then ret true
        else
          '(errors, parts) ← call TRun PollRecords;
          _ ← note (EvPolled parts);
          stop ← (failures errors : Act M bool);
          if (stop : bool) then ret true
          else
            routed ← (route (S (S n)) parts : Act M bool);
            if (routed : bool) then _ ← call TRun AllowRebalance; poll (S n) else ret false) m).
    unfold mbind, act_bind, reading, ret. destruct (cn_canceled (cn m)); [by exists m|].
    pose proof (rr_poll tick rely m Hm) as Hc1. pose proof (rr_call tick rely _ PollRecords m ltac:(auto) Hm) as [Hm1 _].
    destruct (call TRun PollRecords m) as [[errors parts] m1]. cbn in Hc1, Hm1.
    pose proof (onward_run_note (EvPolled parts) (clock m1) m1 (conj Hm1 (Z.le_refl _))) as Hf2. destruct (note (EvPolled parts) m1) as [u m2]. cbn in Hf2.
    pose proof (onward_failures errors _ m2 Hf2) as [Hm3 Hc3]. destruct (failures errors m2) as [[] m3]; cbn in Hm3, Hc3; [exists m3; split; [done|split; [done|lia]]|].
    destruct (route_returns (S n) parts m3 Hm3) as (m4 & -> & Hf4); [unfold room in *; lia|].
    pose proof (onward_run_call AllowRebalance ltac:(auto) _ m4 Hf4) as [Hm5 Hc5]. destruct (call TRun AllowRebalance m4) as [u' m5]. cbn in Hm5, Hc5.
    destruct (IH m5 Hm5) as (m6 & Hp & Hm6 & Hc6); [unfold room in *; lia|]. exists m6. split; [exact Hp|]. split; [done|lia].
Qed.

Lemma removed_present (parts : option (list partitionKey)) (m : M) : timely m -> all_present (removed parts (cn m)) m.
Proof.
  intros Hm h Hh. unfold removed in Hh. apply list_elem_of_omap in Hh as ([k h'] & Hin & Hc). apply elem_of_map_to_list in Hin.
  destruct (chosen parts k); [|done]. injection Hc as <-. by eapply rr_pool.
Qed.

(** [Run], to its last deferred call. *)
Lemma Run_ends (n : nat) (m : M) : timely m -> room n m ->
  exists m', Consumer.Run (S n) m = (true, m') /\ from (clock m) m' /\ Finished (cn m') = true.
Proof.
  intros Hm Hr. unfold Consumer.Run. unfold mbind, act_bind, ret. destruct (poll_returns n m Hm Hr) as (m1 & -> & Hf1).
  pose proof (onward_run_call AllowRebalance ltac:(auto) _ m1 Hf1) as [Hm2 Hc2]. destruct (call TRun AllowRebalance m1) as [u m2]. cbn in Hm2, Hc2.
  destruct (rr_section tick rely (XStop None) m2 eq_refl Hm2) as [Hm3 Hc3].
  destruct (stopWorkers_returns tick TRun run_waits None n m2) as (m4 & -> & Hm4 & Hc4);
    [intros h m' _ Hp Hm' Hl; by eapply rr_gone|by apply removed_present|done|unfold room in *; lia|].
  pose proof (onward_run_call CloseClient ltac:(auto) (clock m4) m4 (conj Hm4 (Z.le_refl _))) as Hf5. destruct (call TRun CloseClient m4) as [u' m5]. cbn in Hf5.
  exists (section_ XClose m5).2. split; [done|]. split; [|done].
  destruct (onward_run_section XClose ltac:(by apply bool_decide_eq_true) _ m5 Hf5). split; [done|lia].
Qed.
End Polling.

(** [Stop] returns once [Run] has, and a revocation once its workers have. *)
Section Callers.
Context {W : Type} `{Kafka W} {line : Timeline (Machine W)}.
Abbreviation M := (Machine W).
Variable tick : Z.
Hypothesis rely : waiting_rely tick TGroup.

Lemma Stop_returns (n : nat) (m : M) :
  let m1 := (section_ XCancel m).2 in
  (forall m', timely m' -> deadline < clock m' -> Finished (cn m') = true) -> timely m1 -> room tick n m1 ->
  exists m', Consumer.Stop (S n) m = (true, m') /\ from (clock m1) m'.
Proof.
  intros m1 Hf Hm Hr. destruct (wait_returns tick TGroup rely (fun _ => True) cn_done n m1) as (m' & Hw & Hm' & _); [done|intros m' _; apply Hf|done..|].
  by exists m'.
Qed.

Lemma onRevoked_returns (parts : list partitionKey) (n : nat) (m : M) :
  let hs := removed (Some parts) (cn m) in let m1 := (section_ (XStop (Some parts)) m).2 in
  (forall h m', h ∈ hs -> present h m' -> timely m' -> deadline < clock m' -> gone h (cn m')) ->
  all_present hs m -> timely m1 -> room tick n m1 -> (onRevoked (S n) parts m).1 = true.
Proof.
  intros hs m1 Hg Hp Hm Hr. unfold onRevoked, mbind, act_bind.
  by destruct (stopWorkers_returns tick TGroup rely (Some parts) n m Hg Hp Hm Hr) as (m' & -> & _).
Qed.
End Callers.

(** ** Properties *)

(** C24. A partition worker of the wired consumer always returns once its context
    is over, wherever it is and whatever Kafka, the destination, the stores and
    the rest of the group answer and do: checking its offsets, between
    batches, inside a batch, in a retry or a backoff of the delivery worker,
    in a commit.  Fuel for the time until then is enough, and it says that it
    is done, which a revocation waits for. *)
Theorem worker_returns {W : Type} `{Kafka W} `{Outside W} `{Timeline (Machine W)} (h : nat) (workers : gmap string Worker)
  (tick : Z) (n dfuel : nat) (m : Machine W) :
  group_rely tick h workers -> timely m ->
  deadline < clock m + Z.of_nat n * tick -> deadline < clock m + Z.of_nat (S dfuel) * Second ->
  exists m', Consumer.run (wired dfuel workers) (S n) h m = (true, m') /\ later m m' /\ done_of h (cn m') = true.
Proof.
  intros Hrely Hm Hn Hb. destruct (run_ends tick h workers dfuel Hrely n m Hm Hn Hb) as (m1 & Hr & Hf & Hd). exists m1. split; [exact Hr|]. split; [by intros _|exact Hd].
Qed.

(** C33. The consumer comes to an end: once it is canceled and its workers have
    returned, as [worker_returns] says they do, [Run] leaves its loop from
    wherever it is — polling, reading failures, handing a batch to a worker
    whose channel is full — stops every worker, waits for each, closes the
    client and reports that it is finished. *)
Theorem consumer_returns {W : Type} `{Kafka W} `{Timeline (Machine W)} (tick : Z) (n : nat) (m : Machine W) :
  run_rely (W := W) tick -> timely m -> deadline < clock m + Z.of_nat n * tick ->
  exists m', Consumer.Run (S n) m = (true, m') /\ later m m' /\ Finished (cn m') = true.
Proof. intros Hrely Hm Hn. destruct (Run_ends tick Hrely n m Hm Hn) as (m1 & Hr & Hf & Hd). exists m1. split; [exact Hr|]. split; [by intros _|exact Hd]. Qed.

(** ** Witnesses: a clock, batches to come, and a destination that is down *)
Module EndSim.
Import Consumer.Sim.
Record Ticking : Type := mkTicking { tk_now : Z; tk_batches : list (list KRecord) }.
Definition limit : Z := 20 * Second.
Definition advance (d : Z) (w : Ticking) : Ticking := mkTicking (tk_now w + d) (tk_batches w).
Definition takes {A : Type} (a : A) : Act Ticking A := fun w => (a, advance Second w).

(** A second for a call; once the limit is past the consumer is canceled and
    worker 0 has returned. *)
#[export] Instance ticking_kafka : Kafka Ticking := {
  Others w := (match tk_batches w with b :: _ => [XRoute 0 b] | [] => [] end ++
    (if limit <? tk_now w then [XCancel; XUnlock 0; XDone 0] else []), mkTicking (tk_now w) (tail (tk_batches w)));
  FetchOffsets _ := takes (Ok ∅);
  ListStartOffsets _ := takes (Ok (offsets 0));
  ListEndOffsets _ := takes (Ok (offsets 5));
  CommitRecords _ _ _ := takes (Ok tt);
  PartitionStarted _ _ _ _ := takes (Ok false);
  MarkPartitionStarted _ _ _ _ := takes (Ok tt);
  DispatchAllowed _ := takes true;
  DispatchBlock _ _ := takes tt;
  DispatchSignal := takes tt;
  PollRecords := takes ([], [(key, [record])]);
  PauseFetch _ := takes tt;
  ResumeFetch _ := takes tt;
  AllowRebalance := takes tt;
  CloseClient := takes tt;
  Choose := takes false;
  Wait := takes tt }.

#[export] Instance ticking_outside : Outside Ticking := {
  OutSleep d w := if tk_now w + Z.max 0 d <=? limit then (true, advance (Z.max 0 d) w) else (false, advance (Z.max 0 (limit - tk_now w) + 1) w);
  OutJitter n := takes (n - 1);
  OutSend _ _ _ := takes (Err Delivery.down);
  OutHasSkip _ _ _ := takes (Ok false);
  OutSaveSkip _ _ _ := takes (Ok tt) }.

Definition good (rs : list KRecord) : Prop := rs <> [] /\ Forall (fun r => is_Some (WiredSim.workers !! kr_Topic r)) rs.

(** The states the worker can find the machine in. *)
Definition worker_line : Timeline (Machine Ticking) := {|
  clock m := tk_now (env m);
  deadline := limit;
  timely m := Forall good (tk_batches (env m)) /\ Forall good (queue_of 0 (cn m)) /\ is_Some (cn_pool (cn m) !! 0%nat) /\
    (limit < tk_now (env m) -> cn_canceled (cn m) = true) |}.

(** What the others do to the consumer while worker 0 makes a call. *)
Definition sound (c : Consumer) : Prop := Forall good (queue_of 0 c) /\ is_Some (cn_pool c !! 0%nat).

Lemma sound_upd (f : partitionWorker -> partitionWorker) (c : Consumer) :
  (forall w, Forall good (pw_batches w) -> Forall good (pw_batches (f w))) -> sound c -> sound (upd 0 f c).
Proof.
  intros Hf [Hq [w Hw]]. unfold sound, queue_of in *. rewrite pool_upd, decide_True by done. rewrite Hw in *. cbn in *.
  split; [by apply Hf|done].
Qed.

Lemma others_sound (w : Ticking) (c : Consumer) : Forall good (tk_batches w) -> sound c ->
  let c' := (run_others (TWorker 0) (Others w).1 c).1 in
  sound c' /\ (cn_canceled c = true \/ limit < tk_now w -> cn_canceled c' = true).
Proof.
  intros Hw Hc. cbn [Others ticking_kafka fst].
  assert (forall c t, sound c -> let c' := (foldl (fun '(c, t) x => if enabled (TWorker 0) x c then (run_section x c, t ++ [EvSection x]) else (c, t)) (c, t)
    (if limit <? tk_now w then [XCancel; XUnlock 0; XDone 0] else [])).1 in
    sound c' /\ (cn_canceled c = true \/ limit < tk_now w -> cn_canceled c' = true)) as Hlate.
  { intros d t Hd. destruct (Z.ltb_spec limit (tk_now w)); [|cbn; split; [done|intros [?|?]; [done|lia]]].
    split; [exact Hd|done]. }
  unfold run_others. rewrite foldl_app. destruct (tk_batches w) as [|b bs]; [by apply Hlate|]. cbn [foldl].
  destruct (enabled (TWorker 0) (XRoute 0 b) c); [|by apply Hlate].
  apply Forall_cons in Hw as [Hb _]. change (cn_canceled c) with (cn_canceled (run_section (XRoute 0 b) c)). apply Hlate.
  apply sound_upd; [|done]. intros v _. by constructor.
Qed.

Lemma ticking_call {A : Type} (f : Act Ticking A) (m : Machine Ticking) :
  tk_batches (f (env m)).2 = tk_batches (env m) -> tk_now (env m) <= tk_now (f (env m)).2 -> timely (Timeline := worker_line) m ->
  let m' := (call (TWorker 0) f m).2 in
  timely (Timeline := worker_line) m' /\ tk_now (env m') = tk_now (f (env m)).2.
Proof.
  intros Hb Hn (Hs & Hq & Hp & Hc). unfold call. destruct (f (env m)) as [a w]. cbn in Hb, Hn. rewrite <- Hb in Hs.
  pose proof (others_sound w (cn m) Hs (conj Hq Hp)) as [[Hq' Hp'] Hc']. cbn [Others ticking_kafka fst] in *.
  destruct (run_others (TWorker 0) _ (cn m)) as [c t]. cbn in *. split; [|done]. split; [|split; [done|split; [done|]]].
  - destruct (tk_batches w); [done|]. by apply Forall_cons in Hs as [_ Hs].
  - intros Hl. apply Hc'. by right.
Qed.

Lemma ticking_rely : group_rely (H1 := worker_line) Second 0 WiredSim.workers.
Proof.
  split; cbn [clock deadline worker_line].
  - done.
  - intros e m Hm. split; [exact Hm|]. cbn. lia.
  - intros A f m Hf Hm. cbn [clock worker_line].
    assert (tk_batches (f (env m)).2 = tk_batches (env m) /\ tk_now (env m) <= tk_now (f (env m)).2) as [Hb Hn].
    { destruct Hf as [A f Hf|d|n|d r b|s d r|s d r]; [destruct Hf|..]; try (cbn; split; [done|unfold Second; lia]).
      cbn. destruct (Z.leb_spec (tk_now (env m) + Z.max 0 d) limit); cbn; (split; [done|lia]). }
    destruct (ticking_call f m Hb Hn Hm) as [Ht Hc]. split; [done|lia].
  - intros x m Hx (Hb & Hq & Hp & Hc). split; [|cbn; lia]. split; [exact Hb|].
    enough (sound (run_section x (cn m)) /\ cn_canceled (run_section x (cn m)) = cn_canceled (cn m) \/ x = XCancel) as [[[Hq' Hp'] Heq]| ->].
    + split; [done|]. split; [done|]. cbn. by rewrite Heq.
    + done.
    + destruct x; try (right; reflexivity); left; apply bool_decide_eq_true in Hx; try discriminate Hx; injection Hx as ->;
        (split; [apply sound_upd; [|done]; try (intros v ?; done)|done]).
  - done.
  - intros m Hm. pose proof (ticking_call Wait m eq_refl) as Hcall. destruct Hcall as [_ ->]; [cbn; unfold Second; lia|done|]. cbn. unfold Second. lia.
  - intros m (_ & _ & _ & Hc) Hl. unfold ctx_done. by rewrite Hc.
  - intros d m fired m' Hm Hd Hs Hlive.
    assert (tk_batches (OutSleep d (env m)).2 = tk_batches (env m) /\ tk_now (env m) <= tk_now (OutSleep d (env m)).2) as [Hb Hn]
      by (cbn; destruct (_ <=? _); cbn; split; (done || lia)).
    pose proof (ticking_call (OutSleep d) m Hb Hn Hm) as [(_ & _ & _ & Hover) Hc]. rewrite Hs in Hc, Hover. cbn [snd] in Hc, Hover.
    assert (fired = (OutSleep d (env m)).1) as ->.
    { unfold call in Hs. destruct (OutSleep d (env m)) as [a w]. destruct (Others w), (run_others _ _ _). by injection Hs as ->. }
    rewrite Hc. rewrite Hc in Hover. clear Hs. cbn in *. destruct (Z.leb_spec (tk_now (env m) + Z.max 0 d) limit); cbn in *; [lia|].
    destruct Hlive as [?|Hlive]; [done|]. unfold ctx_done in Hlive. rewrite Hover in Hlive by lia. discriminate Hlive.
  - intros m (_ & Hq & _). exact Hq.
  - intros m (_ & _ & Hp & _). exact Hp.
Qed.
(** The states [Run] can find the machine in, with one worker. *)
Definition alone (c : Consumer) : Prop :=
  (forall k h, cn_workers c !! k = Some h -> is_Some (cn_pool c !! h)) /\ forall h, is_Some (cn_pool c !! h) -> h = 0%nat.
Definition ended (c : Consumer) : Prop := cn_canceled c = true /\ (is_Some (cn_pool c !! 0%nat) -> gone 0 c).

Definition run_line : Timeline (Machine Ticking) := {|
  clock m := tk_now (env m);
  deadline := limit;
  timely m := tk_batches (env m) = [] /\ alone (cn m) /\ (limit < tk_now (env m) -> ended (cn m)) |}.

(** [Run]'s sections keep the pool, and leave [locked] and [done] alone. *)
Lemma run_section_pool (x : section) (c : Consumer) (h : nat) : run_section_of x = true -> exists f,
  cn_pool (run_section x c) !! h = f <$> cn_pool c !! h /\ forall w, pw_locked (f w) = pw_locked w /\ pw_done (f w) = pw_done w.
Proof.
  assert (forall o : option partitionWorker, o = (fun w => w) <$> o) as Hsame by by intros [].
  intros Hx. destruct x as [|parts|k|parts| |k rs| |k|k|k|k z|k|k|k]; try discriminate Hx; cbn [run_section].
  - exists (fun w => w). split; [apply Hsame|done].
  - destruct (cancel_all_lookup (removed parts c) (cn_pool c) h) as ([] & Heq & _); cbn; rewrite Heq; [by exists pw_cancel|].
    exists (fun w => w). split; [apply Hsame|done].
  - rewrite pool_upd. case_decide; [by exists pw_disown|exists (fun w => w); split; [apply Hsame|done]].
  - rewrite pool_upd. case_decide; [by exists (pw_queue [rs])|exists (fun w => w); split; [apply Hsame|done]].
  - exists (fun w => w). split; [apply Hsame|done].
Qed.

Lemma run_section_alone (x : section) (c : Consumer) : run_section_of x = true -> alone c -> alone (run_section x c).
Proof.
  intros Hx [Hw Hp]. assert (forall h, is_Some (cn_pool (run_section x c) !! h) <-> is_Some (cn_pool c !! h)) as Hpool.
  { intros h. destruct (run_section_pool x c h Hx) as (f & -> & _). by rewrite fmap_is_Some. }
  split; [|intros h Hh; by apply Hp, Hpool]. intros k h Hk. apply Hpool, (Hw k).
  destruct x; try discriminate Hx; try exact Hk. cbn in Hk. by apply map_lookup_filter_Some in Hk as [Hk _].
Qed.

Lemma run_section_ended (x : section) (c : Consumer) : run_section_of x = true -> ended c -> ended (run_section x c).
Proof.
  intros Hx [Hc Hg]. split; [destruct x; try discriminate Hx; done|]. destruct (run_section_pool x c 0 Hx) as (f & Hf & Hsame).
  unfold gone, locked_of, done_of in *. rewrite Hf. intros Hp. destruct (cn_pool c !! 0%nat) as [w|]; [|by destruct Hp].
  cbn in *. destruct (Hsame w) as [-> ->]. apply Hg. by eexists.
Qed.
Lemma ticking_run {A : Type} (f : Act Ticking A) (m : Machine Ticking) :
  tk_batches (f (env m)).2 = tk_batches (env m) -> tk_now (env m) <= tk_now (f (env m)).2 -> timely (Timeline := run_line) m ->
  let m' := (call TRun f m).2 in timely (Timeline := run_line) m' /\ tk_now (env m') = tk_now (f (env m)).2.
Proof.
  intros Hb Hn (Hs & Ha & He). unfold call. destruct (f (env m)) as [a w]. cbn in Hb, Hn. rewrite Hs in Hb. cbn [Others ticking_kafka]. rewrite Hb.
  destruct (Z.ltb_spec limit (tk_now w)) as [Hl|Hl]; cbn [app tail].
  - change (run_others TRun [XCancel; XUnlock 0; XDone 0] (cn m)) with
      (run_section (XDone 0) (run_section (XUnlock 0) (run_section XCancel (cn m))), [EvSection XCancel; EvSection (XUnlock 0); EvSection (XDone 0)]).
    cbn. split; [|done]. split; [done|]. unfold alone, ended, gone, locked_of, done_of. cbn. destruct Ha as [Hw Hp].
    assert (forall h, is_Some (alter pw_finish 0%nat (alter (pw_lock false) 0%nat (cn_pool (cn m))) !! h) <-> is_Some (cn_pool (cn m) !! h)) as Hpool.
    { intros h. rewrite !lookup_alter. repeat case_decide; subst; by rewrite ?fmap_is_Some. }
    split; [split|].
    + intros k h Hk. by apply Hpool, (Hw k).
    + intros h Hh. by apply Hp, Hpool.
    + intros _. split; [done|]. rewrite !lookup_alter_eq. intros [w0 Hw0]. destruct (cn_pool (cn m) !! 0%nat); [done|discriminate Hw0].
  - cbn. split; [|done]. split; [done|]. split; [done|]. lia.
Qed.

Lemma ticking_run_rely : run_rely (H0 := run_line) Second.
Proof.
  split; cbn [clock deadline run_line].
  - done.
  - intros e m Hm. split; [exact Hm|]. cbn. lia.
  - intros A f m Hf Hm. cbn [clock run_line].
    assert (tk_batches (f (env m)).2 = tk_batches (env m) /\ tk_now (env m) <= tk_now (f (env m)).2) as [Hb Hn]
      by (destruct Hf; cbn; (split; [done|unfold Second; lia])).
    destruct (ticking_run f m Hb Hn Hm) as [Ht Hc]. split; [done|lia].
  - intros x m Hx (Hb & Ha & He). split; [|cbn; lia]. split; [done|]. split; [by apply run_section_alone|]. intros Hl. by apply run_section_ended, He.
  - intros m Hm. pose proof (ticking_run Wait m eq_refl) as Hcall. destruct Hcall as [_ ->]; [cbn; unfold Second; lia|done|]. cbn. lia.
  - intros m Hm. pose proof (ticking_run PollRecords m eq_refl) as Hcall. destruct Hcall as [_ ->]; [cbn; unfold Second; lia|done|]. cbn. lia.
  - intros m (_ & _ & He) Hl. by apply He.
  - intros h m (_ & [_ Hp] & He) Hl (w & Hw & _). assert (is_Some (cn_pool (cn m) !! h)) as Hs by by eexists. pose proof (Hp h Hs) as ->. by apply He.
  - intros k h m (_ & [Hw _] & _) Hk. destruct (Hw k h Hk) as [w Hw']. by exists w.
Qed.

Definition machine : Machine Ticking := mkMachine consumer (mkTicking 0 [[record]]) [].
Definition machine_alone : Machine Ticking := mkMachine consumer (mkTicking 0 []) [].
Definition worker_done : bool * Machine Ticking := Consumer.run (wired 20 WiredSim.workers) 22 0 machine.

(** What it tried to send, and how long it slept. *)
Definition sends : list bool := omap (fun e => match e with EvOutside _ (Delivery.CallSend _ _ a) => Some (is_ok a) | _ => None end) (trace worker_done.2).
End EndSim.
#[export] Existing Instance EndSim.ticking_kafka.
#[export] Existing Instance EndSim.ticking_outside.

(** A destination that is down keeps the worker in its retries until the
    consumer is canceled. *)
Lemma worker_returns_witness :
  EndSim.sends = [false; false; false] /\ fst EndSim.worker_done = true /\ done_of 0 (cn (snd EndSim.worker_done)) = true.
Proof.
  split; [vm_compute; reflexivity|].
  destruct (worker_returns (H1 := EndSim.worker_line) 0 WiredSim.workers Second 21 20 EndSim.machine EndSim.ticking_rely) as (m' & Hr & _ & Hd).
  - split; [repeat constructor; try discriminate; by eexists|]. split; [constructor|]. split; [by eexists|]. intros Hl. vm_compute in Hl. discriminate Hl.
  - vm_compute. reflexivity.
  - vm_compute. reflexivity.
  - unfold EndSim.worker_done. rewrite Hr. split; [reflexivity|exact Hd].
Defined.

(** The worker's channel is full for good: [Run] waits with a batch in its
    hands until the consumer is canceled, and then closes it. *)
Lemma consumer_returns_witness : exists m',
  Consumer.Run 22 EndSim.machine_alone = (true, m') /\ Finished (cn m') = true /\ EndSim.limit < EndSim.tk_now (env m').
Proof.
  destruct (consumer_returns (H0 := EndSim.run_line) Second 21 EndSim.machine_alone EndSim.ticking_run_rely) as (m' & Hr & _ & Hf).
  - split; [done|]. split; [split|intros Hl; vm_compute in Hl; discriminate Hl].
    + intros k h Hk. change (cn_workers (cn EndSim.machine_alone)) with ({[ Consumer.Sim.key := 0%nat ]} : gmap partitionKey nat) in Hk.
      apply lookup_singleton_Some in Hk as [_ <-]. by eexists.
    + intros h [w Hw]. change (cn_pool (cn EndSim.machine_alone)) with
        ({[ 0%nat := mkPartitionWorker Consumer.Sim.key false [] 0 false true false false ]} : gmap nat partitionWorker) in Hw.
      by apply lookup_singleton_Some in Hw as [<- _].
  - vm_compute. reflexivity.
  - exists m'. split; [exact Hr|]. split; [exact Hf|]. 
    change m' with (snd (true, m')). rewrite <- Hr. vm_compute. reflexivity.
Defined.
