(* ===== verification/ControlStore.v ===== *)
(** * ControlStore: the PostgreSQL control store

    Models [internal/adapters/controlpg]: every statement as a function on the
    tables of its schema, with the checks around it.  A call is one statement
    or one transaction, so it either happens as a whole or, when the database
    reports an error [db], not at all.  [jsonb] columns hold the typed values
    they encode; [now] is the database clock, in nanoseconds. *)

From S2P Require Import Prelude Strconv Stream JsonCodec Act.
From stdpp Require Import sorting relations.
Local Open Scope Z_scope.

(** ** Tables, by primary key *)
Record DesiredSubscription : Type := mkDesired { ds_ID : string; ds_Desired : string; ds_Revision : Z }.

Record Tables : Type := mkTables {
  tb_streams : gmap (Scope * string) Registration;
  tb_subscriptions : gmap (Scope * string) (string * Z);          (* desired, revision *)
  tb_leases : gmap (Scope * string) Z;                            (* worker -> expires_at *)
  tb_observed : gmap (Scope * string * string) (Z * string);      (* worker, destination -> revision, state *)
  tb_skips : gmap (Scope * string * string * Z * Z) (string * string);
                                       (* destination, topic, partition, offset -> source, event *)
  tb_started : gset (Scope * string * string * Z) }.              (* destination, topic, partition *)

Definition set_streams (t : Tables) m := mkTables m (tb_subscriptions t) (tb_leases t) (tb_observed t) (tb_skips t) (tb_started t).
Definition set_subscriptions (t : Tables) m := mkTables (tb_streams t) m (tb_leases t) (tb_observed t) (tb_skips t) (tb_started t).
Definition set_leases (t : Tables) m := mkTables (tb_streams t) (tb_subscriptions t) m (tb_observed t) (tb_skips t) (tb_started t).
Definition set_observed (t : Tables) m := mkTables (tb_streams t) (tb_subscriptions t) (tb_leases t) m (tb_skips t) (tb_started t).
Definition set_skips (t : Tables) m := mkTables (tb_streams t) (tb_subscriptions t) (tb_leases t) (tb_observed t) m (tb_started t).
Definition set_started (t : Tables) m := mkTables (tb_streams t) (tb_subscriptions t) (tb_leases t) (tb_observed t) (tb_skips t) m.

Definition Call (A : Type) : Type := Act Tables (result error A).

(** A statement or transaction: all of it, or the database's error, wrapped. *)
Definition exec {A : Type} (db : option error) (format : string) (args : list string) (f : Tables -> A * Tables) : Call A :=
  fun t => match db with
  | Some e => (Err (Wrapf format args e), t)
  | None => let '(a, t) := f t in (Ok a, t)
  end.

(** What the database makes of a call: done, failed, or done with the answer
    lost, which the program sees as a failure. *)
Inductive Outcome : Type := Fine | Failed (e : error) | Lost (e : error).

Definition under {A : Type} (o : Outcome) (f : option error -> Call A) : Call A := fun t =>
  match o with
  | Fine => f None t
  | Failed e => f (Some e) t
  | Lost e => ((f (Some e) t).1, (f None t).2)
  end.

Lemma under_state {A : Type} (o : Outcome) (f : option error -> Call A) (t : Tables) : exists db, (under o f t).2 = (f db t).2.
Proof. destruct o as [|e|e]; [by exists None|by exists (Some e)|by exists None]. Qed.

(** [ON CONFLICT DO NOTHING]. *)
Definition insert_new {K A : Type} `{Countable K} (k : K) (a : A) (m : gmap K A) : gmap K A :=
  match m !! k with Some _ => m | None => <[k := a]> m end.

Definition validScope (scope : Scope) : result error unit :=
  reject_if (str_eqb (Namespace scope) "" || str_eqb (Environment scope) "" || negb (Stream.Valid (ScopeGeneration scope)))
    (Errorf "control: invalid scope" []).

(** ** Leases *)
Definition RenewLease (db : option error) (now : Z) (scope : Scope) (workerID : string) (ttl : Z) : Call unit :=
  _ <~ pure (validScope scope);
  _ <~ stop_if (str_eqb workerID "" || (ttl <=? 0)) (Errorf "control: worker ID and positive lease TTL are required" []);
  exec db "control: renew lease: %w" [] (fun t => (tt, set_leases t (<[ (scope, workerID) := now + ttl ]> (tb_leases t)))).

Definition ReleaseLease (db : option error) (scope : Scope) (workerID : string) : Call unit :=
  _ <~ pure (validScope scope);
  _ <~ stop_if (str_eqb workerID "") (Errorf "control: worker ID is required" []);
  exec db "control: release lease: %w" [] (fun t =>
    let observed := filter (fun x => ~ (x.1.1 = (scope, workerID))) (tb_observed t) in
    (tt, set_leases (set_observed t observed) (delete (scope, workerID) (tb_leases t)))).

(** ** Partition markers and skips *)
Definition PartitionStarted (db : option error) (scope : Scope) (destination topic : string) (partition : Z) : Call bool :=
  _ <~ pure (validScope scope);
  exec db "control: partition marker: %w" [] (fun t => (bool_decide ((scope, destination, topic, partition) ∈ tb_started t), t)).

Definition MarkPartitionStarted (db : option error) (scope : Scope) (destination topic : string) (partition : Z) : Call unit :=
  _ <~ pure (validScope scope);
  _ <~ stop_if (str_eqb destination "" || str_eqb topic "" || (partition <? 0))
         (Errorf "control: destination, topic, and non-negative partition are required" []);
  exec db "control: mark partition: %w" [] (fun t => (tt, set_started t ({[ (scope, destination, topic, partition) ]} ∪ tb_started t))).

Definition skip_key (scope : Scope) (destination : string) (record : Record_) : Scope * string * string * Z * Z :=
  (scope, destination, RecTopic record, RecPartition record, RecOffset record).

Definition skip_guard (destination : string) (record : Record_) : Call unit :=
  stop_if (str_eqb destination "" || str_eqb (RecTopic record) "" || (RecPartition record <? 0) || (RecOffset record <? 0))
    (Errorf "control: destination, topic, non-negative partition, and offset are required" []).

Definition SaveSkip (db : option error) (scope : Scope) (destination : string) (record : Record_) : Call unit :=
  _ <~ pure (validScope scope);
  _ <~ skip_guard destination record;
  exec db "control: save skip: %w" [] (fun t =>
    (tt, set_skips t (insert_new (skip_key scope destination record) (ID (RecSource record), EventID record) (tb_skips t)))).

Definition HasSkip (db : option error) (scope : Scope) (destination : string) (record : Record_) : Call bool :=
  _ <~ pure (validScope scope);
  _ <~ skip_guard destination record;
  exec db "control: check skip: %w" [] (fun t => (bool_decide (is_Some (tb_skips t !! skip_key scope destination record)), t)).

(** ** Subscriptions *)

(** The transaction's inserts, in order; an empty id rolls it back. *)
Fixpoint ensure_loop (scope : Scope) (ids : list string) (m : gmap (Scope * string) (string * Z)) :
  result error (gmap (Scope * string) (string * Z)) :=
  match ids with
  | [] => Ok m
  | id :: ids =>
      _ ← reject_if (str_eqb id "") (Errorf "control: subscription ID is required" []);
      ensure_loop scope ids (insert_new (scope, id) ("running", 1) m)
  end.

Definition EnsureSubscriptions (db : option error) (scope : Scope) (ids : list string) : Call unit :=
  _ <~ pure (validScope scope);
  fun t => match db with
  | Some e => (Err (Wrapf "control: ensure subscriptions: %w" [] e), t)
  | None => match ensure_loop scope (merge_sort str_le ids) (tb_subscriptions t) with
            | Err e => (Err e, t)
            | Ok m => (Ok tt, set_subscriptions t m)
            end
  end.

(** Rows of the scope by destination; the database orders text its own way. *)
Definition Subscriptions (db : option error) (scope : Scope) : Call (list DesiredSubscription) :=
  _ <~ pure (validScope scope);
  exec db "control: list subscriptions: %w" [] (fun t =>
    (omap (fun '(k, (desired, revision)) => if decide (k.1 = scope) then Some (mkDesired k.2 desired revision) else None)
       (map_to_list (tb_subscriptions t)), t)).

Definition SetDesired (db : option error) (scope : Scope) (id state : string) : Call DesiredSubscription :=
  _ <~ pure (validScope scope);
  _ <~ stop_if (negb (str_eqb state "running") && negb (str_eqb state "paused"))
         (Errorf "control: invalid desired state %q" [state]);
  row <~ exec db "control: set subscription %q: %w" [id] (fun t =>
    match tb_subscriptions t !! (scope, id) with
    | None => (None, t)
    | Some (desired, revision) =>
        let revision := revision + (if str_eqb desired state then 0 else 1) in
        (Some (mkDesired id state revision), set_subscriptions t (<[ (scope, id) := (state, revision) ]> (tb_subscriptions t)))
    end);
  match row with
  | None => throw (Errorf "control: subscription %q is not registered" [id])
  | Some sub => give sub
  end.

Definition ObserveSubscription (db : option error) (scope : Scope) (workerID destination : string) (revision : Z) (state : string) : Call unit :=
  _ <~ pure (validScope scope);
  _ <~ stop_if (str_eqb workerID "" || str_eqb destination "" || (revision <=? 0) || str_eqb (TrimSpace state) "")
         (Errorf "control: worker ID, destination, positive revision, and state are required" []);
  exec db "control: observe subscription %q for worker %q: %w" [destination; workerID] (fun t =>
    let k := (scope, workerID, destination) in
    let update := match tb_observed t !! k with Some (old, _) => old <=? revision | None => true end in
    (tt, if update then set_observed t (<[ k := (revision, state) ]> (tb_observed t)) else t)).

(** A worker of the scope whose lease has not expired. *)
Definition live (t : Tables) (now : Z) (scope : Scope) (workerID : string) : bool :=
  match tb_leases t !! (scope, workerID) with Some expires => now <? expires | None => false end.

Definition workers (t : Tables) (now : Z) (scope : Scope) : list string :=
  omap (fun '(k, _) => if decide (k.1 = scope /\ live t now scope k.2 = true) then Some k.2 else None) (map_to_list (tb_leases t)).

Definition has_observed (t : Tables) (scope : Scope) (destination : string) (revision : Z) (state workerID : string) : bool :=
  match tb_observed t !! (scope, workerID, destination) with
  | None => false
  | Some (r, s) => negb ((r <? revision) || negb (str_eqb s state))
  end.

Definition SubscriptionObserved (db : option error) (now : Z) (scope : Scope) (destination : string) (revision : Z) (state : string) : Call bool :=
  _ <~ pure (validScope scope);
  _ <~ stop_if (str_eqb destination "" || (revision <=? 0) || str_eqb (TrimSpace state) "")
         (Errorf "control: destination, positive revision, and state are required" []);
  exec db "control: check subscription %q observation: %w" [destination] (fun t =>
    (negb (bool_decide (workers t now scope = [])) && forallb (has_observed t scope destination revision state) (workers t now scope), t)).

(** ** Streams *)
Definition GetStream (db : option error) (scope : Scope) (sourceID : string) : Call (option Registration) :=
  _ <~ pure (validScope scope);
  exec db "control: get stream %q: %w" [sourceID] (fun t => (tb_streams t !! (scope, sourceID), t)).

(** Insert if absent, then compare what is stored; a mismatch rolls back an
    insert that did not happen. *)
Definition RegisterStream (db : option error) (scope : Scope) (stream : Registration) : Call unit :=
  _ <~ pure (validScope scope);
  _ <~ stop_if (str_eqb (RegSourceID stream) "") (Errorf "control: stream source ID is required" []);
  fun t => match db with
  | Some e => (Err (Wrapf "control: register stream: %w" [] e), t)
  | None =>
      let k := (scope, RegSourceID stream) in
      let m := insert_new k stream (tb_streams t) in
      let old := default zeroRegistration (m !! k) in
      if negb (bool_decide (RegIdentity old = RegIdentity stream)) || negb (bool_decide (RegNames old = RegNames stream)) ||
         negb (bool_decide (TopicID old = TopicID stream))
      then (Err (Errorf "control: stream %q is already registered with different identity, names, or topic" [RegSourceID stream]), t)
      else (Ok tt, set_streams t m)
  end.

Definition with_blocked (r : Registration) (reason : string) : Registration :=
  mkRegistration (RegSourceID r) (RegIdentity r) (RegNames r) (TopicID r) reason.

Definition BlockSource (db : option error) (scope : Scope) (sourceID reason : string) : Call unit :=
  _ <~ pure (validScope scope);
  _ <~ stop_if (str_eqb (TrimSpace reason) "") (Errorf "control: block reason is required" []);
  found <~ exec db "control: block source %q: %w" [sourceID] (fun t =>
    match tb_streams t !! (scope, sourceID) with
    | None => (false, t)
    | Some r => (true, set_streams t (<[ (scope, sourceID) := with_blocked r reason ]> (tb_streams t)))
    end);
  if found then give tt else throw (Errorf "control: stream %q is not registered" [sourceID]).

(** ** Histories: any calls by any clients, in any order, with any database
    errors *)
Inductive step (t : Tables) : Tables -> Prop :=
| step_renew db now scope w ttl : step t (RenewLease db now scope w ttl t).2
| step_release db scope w : step t (ReleaseLease db scope w t).2
| step_mark db scope d topic p : step t (MarkPartitionStarted db scope d topic p t).2
| step_skip db scope d r : step t (SaveSkip db scope d r t).2
| step_ensure db scope ids : step t (EnsureSubscriptions db scope ids t).2
| step_desired db scope id state : step t (SetDesired db scope id state t).2
| step_observe db scope w d rev state : step t (ObserveSubscription db scope w d rev state t).2
| step_register db scope r : step t (RegisterStream db scope r t).2
| step_block db scope id reason : step t (BlockSource db scope id reason t).2.

(** What no later call takes back. *)
Record durable (t t' : Tables) : Prop := mkDurable {
  dur_streams : forall k r, tb_streams t !! k = Some r ->
    exists b, tb_streams t' !! k = Some (with_blocked r b) /\ (Blocked r <> "" -> b <> "");
  dur_subscriptions : forall k d v, tb_subscriptions t !! k = Some (d, v) ->
    exists d' v', tb_subscriptions t' !! k = Some (d', v') /\ v <= v' /\ (v = v' -> d = d');
  dur_skips : tb_skips t ⊆ tb_skips t';
  dur_started : tb_started t ⊆ tb_started t' }.

Lemma with_blocked_id (r : Registration) : with_blocked r (Blocked r) = r.
Proof. by destruct r. Qed.

#[export] Instance durable_preorder : PreOrder durable.
Proof.
  split.
  - intros t. split; [|eauto 10 with lia|done|done]. intros k r H. exists (Blocked r). by rewrite with_blocked_id.
  - intros t1 t2 t3 [A1 B1 C1 D1] [A2 B2 C2 D2]. split.
    + intros k r H. destruct (A1 k r H) as (b & H2 & Hb). destruct (A2 k _ H2) as (b' & H3 & Hb'). exists b'. auto.
    + intros k d v H. destruct (B1 k d v H) as (d2 & v2 & H2 & Hle & He). destruct (B2 k d2 v2 H2) as (d3 & v3 & H3 & Hle' & He').
      exists d3, v3. split; [done|]. split; [lia|]. intros ->. rewrite He by lia. apply He'. lia.
    + by etrans.
    + by etrans.
Qed.

(** The guards of a call, leaving the statement itself. *)
Ltac guards :=
  unfold skip_guard, stop_if; unfold act_try, pure, exec, throw, give, reject_if; cbn;
  repeat (match goal with
          | |- context [validScope ?s] => destruct (validScope s)
          | |- context [if ?b then Err _ else Ok _] => destruct b eqn:?
          | db : option error |- _ => destruct db
          end; cbn; try done).

Lemma durable_by (t : Tables) streams subscriptions leases observed skips started :
  (forall k r, tb_streams t !! k = Some r -> exists b, streams !! k = Some (with_blocked r b) /\ (Blocked r <> "" -> b <> "")) ->
  (forall k d v, tb_subscriptions t !! k = Some (d, v) ->
    exists d' v', subscriptions !! k = Some (d', v') /\ v <= v' /\ (v = v' -> d = d')) ->
  tb_skips t ⊆ skips -> tb_started t ⊆ started ->
  durable t (mkTables streams subscriptions leases observed skips started).
Proof. by split. Qed.

Lemma insert_new_keeps {K A : Type} `{Countable K} (k : K) (a : A) (m : gmap K A) : m ⊆ insert_new k a m.
Proof. unfold insert_new. destruct (m !! k) eqn:Hk; [done|]. by apply insert_subseteq. Qed.

Lemma ensure_keeps (scope : Scope) (ids : list string) (m m' : gmap (Scope * string) (string * Z)) :
  ensure_loop scope ids m = Ok m' -> m ⊆ m'.
Proof.
  revert m. induction ids as [|id ids IH]; intros m; cbn [ensure_loop]; [by intros [= ->]|].
  rewrite reject_bind. intros [_ H%IH]. etrans; [apply insert_new_keeps|exact H].
Qed.

Section Same.
Variable t : Tables.
Lemma same_streams k r : tb_streams t !! k = Some r -> exists b, tb_streams t !! k = Some (with_blocked r b) /\ (Blocked r <> "" -> b <> "").
Proof. apply (dur_streams t t (reflexivity t)). Qed.
Lemma same_subscriptions k d v : tb_subscriptions t !! k = Some (d, v) ->
  exists d' v', tb_subscriptions t !! k = Some (d', v') /\ v <= v' /\ (v = v' -> d = d').
Proof. apply (dur_subscriptions t t (reflexivity t)). Qed.
End Same.
#[local] Hint Resolve same_streams same_subscriptions : core.

Lemma durable_refl (t : Tables) : durable t t.
Proof. reflexivity. Qed.
#[local] Hint Resolve durable_refl : core.

Lemma blocked_reason (reason : string) : str_eqb (TrimSpace reason) "" = false -> reason <> "".
Proof. intros H ->. by vm_compute in H. Qed.

Lemma step_durable (t t' : Tables) : step t t' -> durable t t'.
Proof.
  intros []; unfold RenewLease, ReleaseLease, MarkPartitionStarted, SaveSkip, EnsureSubscriptions, SetDesired,
    ObserveSubscription, RegisterStream, BlockSource; guards; try by (apply durable_by; eauto).
  - apply durable_by; eauto. set_solver.
  - apply durable_by; eauto. apply insert_new_keeps.
  - destruct (ensure_loop _ _ _) as [m|] eqn:Hm; [|done]. apply ensure_keeps in Hm. apply durable_by; eauto.
    intros k d v H. exists d, v. split; [by eapply lookup_weaken|]. split; [lia|done].
  - destruct (tb_subscriptions t !! (scope, id)) as [[desired rev]|] eqn:Hrow; [|done]. apply durable_by; eauto.
    intros k d v H. destruct (decide (k = (scope, id))) as [->|Hne].
    + rewrite Hrow in H. injection H as -> ->. rewrite lookup_insert_eq. eexists _, _. split; [done|].
      destruct (str_eqb d state) eqn:He; [apply str_eqb_true in He as ->|]; split; [lia|done|lia|lia].
    + rewrite lookup_insert_ne by done. exists d, v. split; [done|]. split; [lia|done].
  - case_match; [|done]. apply durable_by; eauto.
  - destruct (_ || _) eqn:Hm; [done|]. apply durable_by; eauto.
    intros k r' H. exists (Blocked r'). rewrite with_blocked_id. split; [|done].
    eapply lookup_weaken; [exact H|]. apply insert_new_keeps.
  - assert (Hreason : reason <> "") by (apply blocked_reason; done).
    destruct (tb_streams t !! (scope, id)) as [r|] eqn:Hr; [|done]. apply durable_by; eauto.
    intros k r' H. destruct (decide (k = (scope, id))) as [->|Hne].
    + rewrite Hr in H. injection H as ->. rewrite lookup_insert_eq. by exists reason.
    + rewrite lookup_insert_ne by done. by apply same_streams.
Qed.

Lemma history_durable (t t' : Tables) : rtc step t t' -> durable t t'.
Proof. induction 1 as [|t1 t2 t3 H%step_durable _ IH]; [done|]. by etrans. Qed.

Lemma workers_in (t : Tables) (now : Z) (scope : Scope) (w : string) :
  w ∈ workers t now scope <-> live t now scope w = true.
Proof.
  unfold workers. rewrite list_elem_of_omap. split.
  - intros ([[sc w'] e] & _ & Hd). destruct (decide _) as [[H1 H2]|]; [|done]. cbn in *. injection Hd as <-. by subst.
  - intros Hl. unfold live in Hl. destruct (tb_leases t !! (scope, w)) as [e|] eqn:He; [|done].
    exists ((scope, w), e). split; [by apply elem_of_map_to_list|]. cbn. rewrite decide_True; [done|]. unfold live. by rewrite He.
Qed.

Lemma has_observed_iff (t : Tables) (scope : Scope) (d : string) (revision : Z) (state w : string) :
  has_observed t scope d revision state w = true <->
  exists r, tb_observed t !! (scope, w, d) = Some (r, state) /\ revision <= r.
Proof.
  unfold has_observed. destruct (tb_observed t !! (scope, w, d)) as [[r s]|]; [|naive_solver].
  rewrite negb_true_iff, orb_false_iff, negb_false_iff, str_eqb_true, Z.ltb_ge. naive_solver.
Qed.

(** ** Properties *)
(** C13. Whatever calls any clients make, in any order and with any database errors:
    a registered stream keeps its identity, names and topic for good, and once
    blocked stays blocked; a subscription is never dropped, its revision never
    falls and its desired state never changes without a new revision; recorded
    skips and partition markers are never lost. *)
Theorem store_durable (t t' : Tables) :
  rtc step t t' ->
  (forall scope id r, tb_streams t !! (scope, id) = Some r ->
    exists b, tb_streams t' !! (scope, id) = Some (with_blocked r b) /\ (Blocked r <> "" -> b <> "")) /\
  (forall scope id d v, tb_subscriptions t !! (scope, id) = Some (d, v) ->
    exists d' v', tb_subscriptions t' !! (scope, id) = Some (d', v') /\ v <= v' /\ (v = v' -> d = d')) /\
  tb_skips t ⊆ tb_skips t' /\ tb_started t ⊆ tb_started t'.
Proof. intros [A B C D]%history_durable. split_and!; [intros ? ?; apply A|intros ? ?; apply B|done|done]. Qed.

(** A skip is remembered: after it was saved, any later lookup the database
    answers — whatever happened in between, for any record of the same scope,
    destination and Kafka position — finds it. *)
Theorem skip_remembered (scope : Scope) (destination : string) (record record' : Record_) (db db' : option error)
  (t t' : Tables) (answer : bool) :
  (SaveSkip db scope destination record t).1 = Ok tt ->
  rtc step (SaveSkip db scope destination record t).2 t' ->
  RecTopic record' = RecTopic record -> RecPartition record' = RecPartition record -> RecOffset record' = RecOffset record ->
  (HasSkip db' scope destination record' t').1 = Ok answer -> answer = true.
Proof.
  intros Hs Hsteps Ht Hp Ho Hh. apply history_durable in Hsteps as [_ _ Hskips _].
  revert Hs Hskips Hh. unfold SaveSkip, HasSkip. guards. intros _ Hskips [= <-]. apply bool_decide_eq_true.
  replace (skip_key scope destination record') with (skip_key scope destination record) by (unfold skip_key; congruence).
  revert Hskips. unfold insert_new. destruct (tb_skips t !! skip_key scope destination record) eqn:Hk; intros Hskips.
  - eexists. by eapply lookup_weaken.
  - eexists. eapply lookup_weaken; [|exact Hskips]. apply lookup_insert_eq.
Qed.

(** A change request's protocol: setting a desired state stores exactly that
    state, advances the revision by one when it differs from the stored one
    and not at all otherwise, and touches no other row; ensuring
    subscriptions adds the missing ones as running at revision one and never
    touches an existing one. *)
Theorem desired_revision (scope : Scope) (id state : string) (db : option error) (t : Tables) (sub : DesiredSubscription) :
  (SetDesired db scope id state t).1 = Ok sub ->
  exists desired revision, tb_subscriptions t !! (scope, id) = Some (desired, revision) /\
    sub = mkDesired id state (if decide (desired = state) then revision else revision + 1) /\
    (state = "running" \/ state = "paused") /\
    (SetDesired db scope id state t).2 = set_subscriptions t (<[ (scope, id) := (state, ds_Revision sub) ]> (tb_subscriptions t)).
Proof.
  unfold SetDesired. guards. destruct (tb_subscriptions t !! (scope, id)) as [[desired revision]|]; [|done].
  intros [= <-]. exists desired, revision. split; [done|]. cbn.
  split; [f_equal; unfold str_eqb; destruct (decide (desired = state)); [rewrite bool_decide_eq_true_2 by done|rewrite bool_decide_eq_false_2 by done]; lia|].
  split; [|done]. match goal with H : _ && _ = false |- _ => revert H end.
  rewrite andb_false_iff, !negb_false_iff, !str_eqb_true. tauto.
Qed.

(** A change has converged exactly when the scope has a live worker and every
    live worker has reached the requested state at the requested revision or
    a later one. *)
Theorem observed_iff (db : option error) (now : Z) (scope : Scope) (destination : string) (revision : Z) (state : string)
  (t : Tables) (answer : bool) :
  (SubscriptionObserved db now scope destination revision state t).1 = Ok answer ->
  answer = true <->
  (exists w, live t now scope w = true) /\
  (forall w, live t now scope w = true ->
    exists r, tb_observed t !! (scope, w, destination) = Some (r, state) /\ revision <= r).
Proof.
  unfold SubscriptionObserved. guards. intros [= <-]. rewrite andb_true_iff, negb_true_iff, bool_decide_eq_false, forallb_forall.
  setoid_rewrite <- list_elem_of_In. setoid_rewrite workers_in. setoid_rewrite has_observed_iff. split.
  - intros [Hne Hall]. split; [|done]. destruct (workers t now scope) as [|w l] eqn:Hw; [done|].
    exists w. apply workers_in. rewrite Hw. by left.
  - intros [[w Hl] Hall]. split; [|done]. intros Hn. apply workers_in in Hl. rewrite Hn in Hl. by apply elem_of_nil in Hl.
Qed.

(** A released worker leaves nothing behind that could hold a change back or
    let it pass: it is not live at any time and none of its observations
    remain; other workers keep theirs. *)
Theorem released_gone (db : option error) (scope : Scope) (w : string) (t : Tables) :
  (ReleaseLease db scope w t).1 = Ok tt ->
  let t' := (ReleaseLease db scope w t).2 in
  (forall now, live t' now scope w = false) /\ (forall d, tb_observed t' !! (scope, w, d) = None) /\
  (forall scope' w', (scope', w') <> (scope, w) ->
    (forall now, live t' now scope' w' = live t now scope' w') /\
    (forall d, tb_observed t' !! (scope', w', d) = tb_observed t !! (scope', w', d))).
Proof.
  unfold ReleaseLease. guards. intros _. unfold live. cbn. split_and!.
  - intros now. by rewrite lookup_delete_eq.
  - intros d. apply map_lookup_filter_None. right. intros x Hx. cbn. by intros H.
  - intros scope' w' Hne. split.
    + intros now. by rewrite lookup_delete_ne by done.
    + intros d. apply option_eq. intros x. rewrite map_lookup_filter_Some. cbn. naive_solver.
Qed.

(** Registering is idempotent and never overwrites: it succeeds exactly on a
    stream that is new or stored with the same identity, names and topic, and
    leaves every existing row, its block included, as it was. *)
Theorem register_once (scope : Scope) (r : Registration) (t : Tables) :
  validScope scope = Ok tt -> RegSourceID r <> "" ->
  let '(answer, t') := RegisterStream None scope r t in
  tb_streams t ⊆ tb_streams t' /\
  (answer = Ok tt <->
    forall old, tb_streams t !! (scope, RegSourceID r) = Some old ->
      RegIdentity old = RegIdentity r /\ RegNames old = RegNames r /\ TopicID old = TopicID r) /\
  (answer = Ok tt -> tb_streams t !! (scope, RegSourceID r) = None ->
    tb_streams t' = <[ (scope, RegSourceID r) := r ]> (tb_streams t)) /\
  (is_ok answer = false -> t' = t).
Proof.
  intros Hsc Hid. unfold RegisterStream. unfold stop_if. unfold act_try, pure, reject_if. rewrite Hsc. cbn.
  rewrite (proj2 (str_eqb_false _ _) Hid). cbn. unfold insert_new.
  destruct (tb_streams t !! (scope, RegSourceID r)) as [old|] eqn:Hold; cbn.
  - rewrite Hold. cbn. destruct (decide (RegIdentity old = RegIdentity r /\ RegNames old = RegNames r /\ TopicID old = TopicID r)) as [Heq|Hne].
    + destruct Heq as (H1 & H2 & H3). rewrite !bool_decide_eq_true_2 by done. cbn.
      split_and!; [by destruct t|split; [by intros _ o [= <-]|done]|done|done].
    + destruct (_ || _) eqn:Hm; cbn.
      * split_and!; [done|split; [done|intros Hall; by destruct (Hne (Hall old eq_refl))]|done|done].
      * exfalso. apply Hne.
        rewrite !orb_false_iff, !negb_false_iff, !bool_decide_eq_true in Hm. tauto.
  - rewrite lookup_insert_eq. cbn. rewrite !bool_decide_eq_true_2 by done. cbn. split; [by apply insert_subseteq|]. naive_solver.
Qed.

(** ** Witnesses *)
Definition ex_scope : Scope := mkScope "acme" "production" 1.
Definition empty_tables : Tables := mkTables ∅ ∅ ∅ ∅ ∅ ∅.
Definition ex_record : Record_ := mkRecord (mkSource "orders" "" "orders" [] "" "") "{}" "t" 0 7 "e" "" "" 1 false.
Definition ex_registration : Registration := mkRegistration "orders" zeroIdentity zeroNames (replicate 16 1) "".
Definition ex_tables : Tables :=
  mkTables {[ (ex_scope, "orders") := ex_registration ]} {[ (ex_scope, "billing") := ("running", 1) ]}
    {[ (ex_scope, "w1") := 30 ]} {[ (ex_scope, "w1", "billing") := (1, "running") ]} ∅ ∅.

Lemma store_durable_witness :
  rtc step ex_tables (BlockSource None ex_scope "orders" "lost" ex_tables).2 /\
  exists b, tb_streams (BlockSource None ex_scope "orders" "lost" ex_tables).2 !! (ex_scope, "orders") = Some (with_blocked ex_registration b).
Proof.
  assert (H : rtc step ex_tables (BlockSource None ex_scope "orders" "lost" ex_tables).2) by apply rtc_once, step_block.
  split; [exact H|]. destruct (store_durable _ _ H) as [Hs _].
  destruct (Hs ex_scope "orders" ex_registration) as (b & Hb & _); [vm_compute; reflexivity|]. by exists b.
Defined.

Lemma skip_remembered_witness : exists answer, answer = true /\
  (HasSkip None ex_scope "billing" ex_record
     (ReleaseLease None ex_scope "w1" (SaveSkip None ex_scope "billing" ex_record ex_tables).2).2).1 = Ok answer.
Proof.
  exists true. split; [|vm_compute; reflexivity].
  apply (skip_remembered ex_scope "billing" ex_record ex_record None None ex_tables
    (ReleaseLease None ex_scope "w1" (SaveSkip None ex_scope "billing" ex_record ex_tables).2).2 true).
  - vm_compute. reflexivity.
  - apply rtc_once, step_release.
  - vm_compute. reflexivity.
  - vm_compute. reflexivity.
  - vm_compute. reflexivity.
  - vm_compute. reflexivity.
Defined.

Lemma desired_revision_witness : exists desired revision,
  tb_subscriptions ex_tables !! (ex_scope, "billing") = Some (desired, revision) /\
  mkDesired "billing" "paused" 2 = mkDesired "billing" "paused" (if decide (desired = "paused") then revision else revision + 1).
Proof.
  destruct (desired_revision ex_scope "billing" "paused" None ex_tables (mkDesired "billing" "paused" 2)) as (d & v & H1 & H2 & _);
    [vm_compute; reflexivity|]. by exists d, v.
Defined.

Lemma observed_iff_witness :
  true = true <-> (exists w, live ex_tables 29 ex_scope w = true) /\
  (forall w, live ex_tables 29 ex_scope w = true ->
    exists r, tb_observed ex_tables !! (ex_scope, w, "billing") = Some (r, "running") /\ 1 <= r).
Proof. apply (observed_iff None 29 ex_scope "billing" 1 "running" ex_tables true). vm_compute. reflexivity. Defined.

Lemma released_gone_witness : forall now, live (ReleaseLease None ex_scope "w1" ex_tables).2 now ex_scope "w1" = false.
Proof. apply (released_gone None ex_scope "w1" ex_tables). vm_compute. reflexivity. Defined.

Lemma register_once_witness :
  let '(answer, t') := RegisterStream None ex_scope ex_registration empty_tables in
  tb_streams empty_tables ⊆ tb_streams t' /\ (answer = Ok tt -> tb_streams empty_tables !! (ex_scope, "orders") = None ->
    tb_streams t' = <[ (ex_scope, "orders") := ex_registration ]> (tb_streams empty_tables)).
Proof.
  pose proof (register_once ex_scope ex_registration empty_tables eq_refl ltac:(discriminate)) as H.
  destruct (RegisterStream None ex_scope ex_registration empty_tables) as [answer t'].
  split; [apply H|]. apply H.
Defined.
