(* ===== verification/Pipeline.v ===== *)
(** * Pipeline: from Kafka to the destination and the control store

    The wired consumer of [Wiring] on the store of [ControlStore] and the HTTP
    client of [HttpDelivery]: an instance of the interfaces the consumer and
    its delivery workers call.  Markers and skips are statements on the tables,
    which other clients change between any two of them; a send is a request of
    the client behind the lease fence, and every request that was started is
    kept with its response.  What [Wiring] shows of the answers a worker was
    given is shown here of the tables and the requests themselves. *)

From S2P Require Import Prelude Strconv Json JsonCodec GoFmt GoTime Stream Activity Protocol Act.
From S2P Require Import ControlStore Delivery HttpDelivery Debezium Config Provision App Consumer Wiring.
From stdpp Require Import sorting relations.
Local Open Scope Z_scope.

(** ** The plant *)

(** A request that was started: under which deadline, and what came back. *)
Record Exchange : Type := mkExchange { x_request : Request; x_deadline : option Z; x_response : result error Response }.

Record Plant (W : Type) : Type := mkPlant { pl_tables : Tables; pl_exchanges : list Exchange; pl_rest : W }.
Arguments mkPlant {W}. Arguments pl_tables {W}. Arguments pl_exchanges {W}. Arguments pl_rest {W}.

(** Everything else: the store's other clients, the database, the lease gate of
    a source with its deadline, the deadline of a request's own context, the
    network, Kafka, and the other goroutines. *)
Class Site (W : Type) : Type := {
  StMoves : Tables -> Act W Tables;
  StMoves_steps : forall t w, rtc ControlStore.step t (StMoves t w).1;
  StOutcome : Act W ControlStore.Outcome;
  StGate : string -> Act W (bool * Z);
  StDeadline : Act W (option Z);
  StServe : Act W (Request -> option Z -> result error Response);
  StSections : Act W (list section);
  StFetchOffsets : string -> Act W (result error Offsets);
  StListStart : string -> Act W (result error Offsets);
  StListEnd : string -> Act W (result error Offsets);
  StCommit : partitionKey -> Z -> Z -> Act W (result error unit);
  StBlock : string -> string -> Act W unit;
  StSignal : Act W unit;
  StPoll : Act W (list Failure * list (partitionKey * list KRecord));
  StPause : partitionKey -> Act W unit;
  StResume : list partitionKey -> Act W unit;
  StRebalance : Act W unit;
  StClose : Act W unit;
  StChoose : Act W bool;
  StWait : Act W unit;
  StSleep : Z -> Act W bool;
  StJitter : Z -> Act W Z }.

(** [wiring.worker]'s HTTP destination. *)
Definition httpDestination (input : ConfigDestination) : HttpDestination :=
  mkHttpDestination (cd_ID input) (cd_Endpoint input) (cd_Username input) (cd_Password input).

(** One [Send] through the fenced transport: its answer, and the request it
    started, if any. *)
Definition send_fenced (valid_url : string -> bool) (gate : bool * Z) (parent : option Z) (serve : Request -> option Z -> result error Response)
  (d : HttpDestination) (r : Record_) (body : string) : result error Outcome * list Exchange :=
  let trip req := RoundTrip (Some gate) parent (serve req) in
  let do_ req := match (trip req).1 with Ok (response, _) => Ok response | Err e => Err (Wrapf "Post %q: %w" [Endpoint d] e) end in
  let req := request d r body in
  (ClientSend valid_url do_ d r body,
   if valid_url (Endpoint d) then
     omap (fun e => match e with Started ctx => Some (mkExchange req ctx (serve req ctx)) | CancelLease => None end) (trip req).2
   else []).

Section OnPlant.
Context {W : Type} `{Site W} (valid_url : string -> bool) (destinations : gmap string ConfigDestination).
Abbreviation S := (Plant W).

Definition site {A : Type} (f : Act W A) : Act S A := fun p =>
  let '(a, w) := f (pl_rest p) in (a, mkPlant (pl_tables p) (pl_exchanges p) w).

(** A statement, after what other clients did. *)
Definition stored {A : Type} (f : option error -> Call A) : Act S (result error A) := fun p =>
  let '(t, w) := StMoves (pl_tables p) (pl_rest p) in
  let '(o, w) := StOutcome w in
  let '(a, t) := under o f t in
  (a, mkPlant t (pl_exchanges p) w).

(** The client of a destination; a record names its source. *)
Definition send_record (destination : string) (r : Record_) (body : string) : Act S (result error Outcome) := fun p =>
  let '(gate, w) := StGate (ID (RecSource r)) (pl_rest p) in
  let '(parent, w) := StDeadline w in
  let '(serve, w) := StServe w in
  let d := httpDestination (default zeroDestination (destinations !! destination)) in
  let '(a, started) := send_fenced valid_url gate parent serve d r body in
  (a, mkPlant (pl_tables p) (pl_exchanges p ++ started) w).

#[export] Instance plant_kafka : Kafka S := {
  Others := site StSections;
  FetchOffsets g := site (StFetchOffsets g);
  ListStartOffsets t := site (StListStart t);
  ListEndOffsets t := site (StListEnd t);
  CommitRecords k o e := site (StCommit k o e);
  PartitionStarted sc d t p := stored (fun db => ControlStore.PartitionStarted db sc d t p);
  MarkPartitionStarted sc d t p := stored (fun db => ControlStore.MarkPartitionStarted db sc d t p);
  DispatchAllowed s := site (fun w => let '((allowed, _), w) := StGate s w in (allowed, w));
  DispatchBlock s reason := site (StBlock s reason);
  DispatchSignal := site StSignal;
  PollRecords := site StPoll;
  PauseFetch k := site (StPause k);
  ResumeFetch k := site (StResume k);
  AllowRebalance := site StRebalance;
  CloseClient := site StClose;
  Choose := site StChoose;
  Wait := site StWait }.

#[export] Instance plant_outside : Outside S := {
  OutSleep d := site (StSleep d);
  OutJitter n := site (StJitter n);
  OutSend := send_record;
  OutHasSkip s d r := stored (fun db => ControlStore.HasSkip db s d r);
  OutSaveSkip s d r := stored (fun db => ControlStore.SaveSkip db s d r) }.

(** ** What a plant keeps *)
Record grows (p p' : S) : Prop := mkGrows {
  gr_tables : rtc ControlStore.step (pl_tables p) (pl_tables p');
  gr_exchanges : pl_exchanges p `prefix_of` pl_exchanges p' }.

#[export] Instance grows_preorder : PreOrder grows.
Proof. split; [by intros p|]. intros p1 p2 p3 [] []. split; by etrans. Qed.

Definition growing {A : Type} (f : Act S A) : Prop := forall p, grows p (f p).2.

Lemma site_grows {A : Type} (f : Act W A) : growing (site f).
Proof. intros p. unfold site. by destruct (f (pl_rest p)). Qed.

(** A statement, of the tables it found. *)
Lemma statement_spec {A : Type} (f : option error -> Call A) (p : S) : exists t o w,
  rtc ControlStore.step (pl_tables p) t /\
  stored f p = ((under o f t).1, mkPlant (under o f t).2 (pl_exchanges p) w).
Proof.
  unfold stored. pose proof (StMoves_steps (pl_tables p) (pl_rest p)) as Hs. destruct (StMoves _ _) as [t w]. destruct (StOutcome w) as [o w1].
  exists t, o, w1. by destruct (under o f t) as [a t1].
Qed.

Lemma stored_grows {A : Type} (f : option error -> Call A) :
  (forall db t, rtc ControlStore.step t (f db t).2) -> growing (stored f).
Proof.
  intros Hf p. destruct (statement_spec f p) as (t & o & w & Hs & ->). split; cbn; [|done].
  etrans; [exact Hs|]. destruct (under_state o f t) as [db ->]. apply Hf.
Qed.

Lemma send_grows (d : string) (r : Record_) (body : string) : growing (send_record d r body).
Proof.
  intros p. unfold send_record. destruct (StGate _ _) as [gate w]. destruct (StDeadline w) as [parent w1]. destruct (StServe w1) as [serve w2].
  destruct (send_fenced _ _ _ _ _ _ _) as [a started]. split; cbn; [done|by eexists].
Qed.

Lemma lookup_steps (db : option error) (sc : Scope) (d : string) (r : Record_) (t : Tables) : (ControlStore.HasSkip db sc d r t).2 = t.
Proof. unfold ControlStore.HasSkip. guards. Qed.

Lemma started_steps (db : option error) (sc : Scope) (d topic : string) (n : Z) (t : Tables) : (ControlStore.PartitionStarted db sc d topic n t).2 = t.
Proof. unfold ControlStore.PartitionStarted. guards. Qed.

Lemma hasskip_grows (sc : Scope) (d : string) (r : Record_) : growing (OutHasSkip sc d r).
Proof. apply stored_grows. intros db t. by rewrite lookup_steps. Qed.

Lemma saveskip_grows (sc : Scope) (d : string) (r : Record_) : growing (OutSaveSkip sc d r).
Proof. apply stored_grows. intros db t. apply rtc_once, step_skip. Qed.

Lemma worker_call_grows (A : Type) (f : Act S A) : worker_call A f -> growing f.
Proof.
  intros []; cbn; try apply site_grows; apply stored_grows; intros db' t'; [by rewrite started_steps|apply rtc_once, step_mark].
Qed.
(** ** What an answer shows of the plant *)

(** A skip on record, and a request to a destination answered with [o]. *)
Definition on_record (sc : Scope) (d : string) (r : Record_) (p : S) : Prop := is_Some (tb_skips (pl_tables p) !! skip_key sc d r).

Definition exchanged (d : HttpDestination) (r : Record_) (body : string) (o : Outcome) (p : S) : Prop :=
  exists x response, x ∈ pl_exchanges p /\ x_request x = request d r body /\ x_response x = Ok response /\ final response o.

(** The destination whose worker made the calls. *)
Variable input : ConfigDestination.

Definition shown (e : Delivery.event) (p : S) : Prop :=
  match e with
  | CallHasSkip sc d r (Ok true) | CallSaveSkip sc d r (Ok _) => on_record sc d r p
  | CallSend r body (Ok o) => exchanged (httpDestination input) r body o p
  | _ => True
  end.

Lemma on_record_grows (sc : Scope) (d : string) (r : Record_) (p p' : S) : grows p p' -> on_record sc d r p -> on_record sc d r p'.
Proof.
  intros [Ht _] [x Hx]. exists x. eapply lookup_weaken; [exact Hx|]. by apply (dur_skips _ _ (history_durable _ _ Ht)).
Qed.

Lemma exchanged_grows (d : HttpDestination) (r : Record_) (body : string) (o : Outcome) (p p' : S) :
  grows p p' -> exchanged d r body o p -> exchanged d r body o p'.
Proof. intros [_ [l Hl]] (x & response & Hx & Hr). exists x, response. split; [|done]. rewrite Hl. apply elem_of_app. by left. Qed.

Lemma shown_grows (e : Delivery.event) (p p' : S) : grows p p' -> shown e p -> shown e p'.
Proof.
  intros Hp. destruct e as [sc d r [[]|]|r body [o|]|sc d r [[]|]| | | |]; cbn; try done; eauto using on_record_grows, exchanged_grows.
Qed.

(** [f]'s answer, told by [ev], is true of the plant it leaves. *)
Definition tells {A : Type} (ev : A -> Delivery.event) (f : Act S A) : Prop := growing f /\ forall p, shown (ev (f p).1) (f p).2.

Lemma hasskip_tells (sc : Scope) (d : string) (r : Record_) : tells (CallHasSkip sc d r) (OutHasSkip sc d r).
Proof.
  split; [apply hasskip_grows|]. intros p. cbn [OutHasSkip plant_outside]. destruct (statement_spec (fun db => ControlStore.HasSkip db sc d r) p) as (t & o & w & _ & ->).
  unfold shown, on_record. cbn [fst snd pl_tables]. destruct o as [|e|e]; cbn [under]; unfold ControlStore.HasSkip; guards.
  destruct (bool_decide _) eqn:Hb; [|done]. by apply bool_decide_eq_true in Hb.
Qed.

Lemma saveskip_tells (sc : Scope) (d : string) (r : Record_) : tells (CallSaveSkip sc d r) (OutSaveSkip sc d r).
Proof.
  split; [apply saveskip_grows|]. intros p. cbn [OutSaveSkip plant_outside]. destruct (statement_spec (fun db => ControlStore.SaveSkip db sc d r) p) as (t & o & w & _ & ->).
  unfold shown, on_record. cbn [fst snd pl_tables]. destruct o as [|e|e]; cbn [under]; unfold ControlStore.SaveSkip; guards.
  unfold insert_new. destruct (tb_skips t !! skip_key sc d r) eqn:Hk; [by rewrite Hk|]. by rewrite lookup_insert_eq.
Qed.

(** An answer of the client was that of a request it started. *)
Lemma fenced_exchange (gate : bool * Z) (parent : option Z) (serve : Request -> option Z -> result error Response)
  (d : HttpDestination) (r : Record_) (body : string) (o : Outcome) :
  let '(a, started) := send_fenced valid_url gate parent serve d r body in
  a = Ok o -> exists x response, x ∈ started /\ x_request x = request d r body /\ x_response x = Ok response /\ final response o /\
    gate.1 = true /\ exists t, x_deadline x = Some t /\ t <= gate.2.
Proof.
  cbn zeta. unfold send_fenced. intros (Hv & response & Hdo & Hf)%client_final. rewrite Hv. destruct gate as [[] lease]; [|done]. cbn -[WithDeadline final request] in Hdo |- *.
  destruct (serve (request d r body) (WithDeadline parent lease)) as [resp|] eqn:Hserve; [|done]. injection Hdo as ->.
  eexists _, response. split; [by left|]. cbn -[WithDeadline final]. split_and!; try done. eexists. split; [done|]. destruct parent; cbn; lia.
Qed.

Hypothesis Hinput : destinations !! cd_ID input = Some input.

Lemma send_tells (r : Record_) (body : string) : tells (CallSend r body) (OutSend (cd_ID input) r body).
Proof.
  split; [apply send_grows|]. intros p. cbn [OutSend plant_outside]. unfold send_record. rewrite Hinput. cbn [default from_option]. unfold id.
  destruct (StGate _ _) as [gate w]. destruct (StDeadline w) as [parent w1]. destruct (StServe w1) as [serve w2].
  pose proof (fenced_exchange gate parent serve (httpDestination input) r body) as Hx. destruct (send_fenced _ _ _ _ _ _ _) as [[o|e] started]; [|done].
  destruct (Hx o eq_refl) as (x & response & Hin & Hreq & Hresp & Hf & _). exists x, response. split_and!; try done. cbn. apply elem_of_app. by right.
Qed.

(** ** A worker on the plant *)
Section Worker.
Variables (h : nat) (workers : gmap string Worker).
Hypothesis Hworkers : forall t wk, workers !! t = Some wk -> wk_Destination wk = cd_ID input.
Variable first : S.
Abbreviation M := (Machine S).

(** The plant grew since [first], and every answer the worker was given is true
    of it. *)
Definition honest (m : M) : Prop := grows first (env m) /\ forall o, EvOutside h o ∈ trace m -> shown o (env m).
Abbreviation kept f := (triple honest f (fun _ => honest)).

Lemma honest_then {A : Type} (me : thread) (f : Act S A) (m : M) :
  honest m -> growing f -> honest (call me f m).2 /\ exists p, p = (f (env m)).2 /\ grows p (env (call me f m).2) /\ (call me f m).1 = (f (env m)).1.
Proof.
  intros Hm Hf. specialize (Hf (env m)). unfold call. destruct (f (env m)) as [a p]. cbn in Hf. change (Others p) with (site StSections p).
  pose proof (site_grows StSections p) as Hs. destruct (site StSections p) as [xs p']. cbn in Hs.
  destruct (others_events me xs (cn m)) as [ys Hys]. destruct (run_others me xs (cn m)) as [c t]. cbn in *. subst t. split.
  - split; [etrans; [apply Hm|]; by etrans|].
    intros o [Ho|Ho]%elem_of_app; [|by apply list_elem_of_fmap in Ho as (y & ? & _)]. cbn. eapply shown_grows; [|by apply Hm]. by etrans.
  - exists p. by split_and!.
Qed.

Lemma honest_call {A : Type} (me : thread) (f : Act S A) : growing f -> kept (call me f).
Proof. intros Hf m Hm. by apply honest_then. Qed.

Lemma honest_note (e : event) : (forall o, e <> EvOutside h o) -> kept (note e).
Proof. intros He m Hm. split; [apply Hm|]. intros o [Ho|Ho%list_elem_of_singleton]%elem_of_app; [by apply Hm|]. by destruct (He o). Qed.

Lemma honest_section (x : section) : kept (section_ x).
Proof. intros m Hm. split; [apply Hm|]. intros o [Ho|Ho%list_elem_of_singleton]%elem_of_app; [by apply Hm|done]. Qed.

Lemma honest_quiet (o : Delivery.event) :
  match o with CallHasSkip _ _ _ _ | CallSaveSkip _ _ _ _ | CallSend _ _ _ => False | _ => True end -> kept (note (EvOutside h o)).
Proof.
  intros Ho m Hm. split; [apply Hm|]. intros o' [Ho'|Ho'%list_elem_of_singleton]%elem_of_app; [by apply Hm|]. injection Ho' as ->. by destruct o.
Qed.

Lemma honest_out {A : Type} (ev : A -> Delivery.event) (f : Act S A) : tells ev f -> kept (outside h ev f).
Proof.
  intros [Hg Ht] m Hm. destruct (honest_then (TWorker h) f m Hm Hg) as (H1 & p & Hp & Hgr & Ha). unfold outside, mbind, act_bind.
  destruct (call (TWorker h) f m) as [a m1]. cbn in *. split; [apply H1|]. intros o [Ho|Ho%list_elem_of_singleton]%elem_of_app; [by apply H1|].
  injection Ho as ->. cbn. subst. eapply shown_grows; [exact Hgr|]. apply Ht.
Qed.

Ltac walk := repeat first [ done | by intros m | case_match | match goal with
  | |- triple _ (mbind _ _) _ => apply kept_bind; [|intros ?]
  | |- triple _ (section_ _) _ => apply honest_section
  | |- triple _ (note _) _ => by apply honest_note
  | |- triple _ (call _ _) _ => apply honest_call, site_grows
  end ].

Lemma honest_commit (k : partitionKey) (o ep : Z) : kept (Consumer.commit h k o ep).
Proof. unfold Consumer.commit, ask_allowed, commit_records. walk. Qed.

Lemma honest_run (dfuel fuel : nat) : kept (run (wired dfuel workers) fuel h).
Proof.
  assert (forall A (f : Act S A), worker_call A f -> kept (call (TWorker h) f)) as Hcall
    by (intros A f Hf; by apply honest_call, worker_call_grows).
  apply kept_run; auto using honest_commit, honest_section, honest_note.
  apply kept_loop; auto using honest_section, honest_note. intros raw. apply wired_kept; auto using honest_commit, honest_quiet.
  - intros d. apply honest_call, site_grows.
  - intros n. apply honest_call, site_grows.
  - intros s d r. apply honest_out, hasskip_tells.
  - intros s d r. apply honest_out, saveskip_tells.
  - intros t wk r b Hwk. rewrite (Hworkers t wk Hwk). apply honest_out, send_tells.
Qed.

(** What is settled in the trace is accounted for in the plant. *)
Definition account (wk : Worker) (record : Record_) (p : S) : Prop :=
  MatchesFilter (DestFilter (wk_destination wk)) (Payload record) = false \/
  on_record (wk_Scope wk) (wk_Destination wk) record p \/
  exists body, MarshalEnvelope (envelopeFor record (wk_destination wk)) = Some body /\
    exchanged (httpDestination input) record body Delivered p.

Lemma outs_elem (o : Delivery.event) (t : list event) : o ∈ outs h t -> EvOutside h o ∈ t.
Proof.
  unfold outs. intros (e & He & Ho)%list_elem_of_omap. destruct e; try done. case_decide; [|done]. by injection Ho as ->; subst.
Qed.

Lemma final_delivered (response : Response) (o : Outcome) : final response o -> o = Delivered \/ o = Skipped.
Proof. intros (_ & _ & _ & [[-> _]|[-> _]]); auto. Qed.

Lemma settled_account (m : M) (pre : list event) (raw : RawRecord) :
  (forall o, EvOutside h o ∈ trace m -> shown o (env m)) -> (forall e, e ∈ pre -> e ∈ trace m) -> settled workers h pre raw ->
  exists wk record, workers !! RawTopic raw = Some wk /\ wk_Decode wk raw = Ok record /\ account wk record (env m).
Proof.
  intros Hm Hpre (wk & record & Hwk & Hd & Hj). exists wk, record. split; [done|]. split; [done|].
  destruct Hj as [Hf|[Hs|(body & o & Hb & Hsend & Hsave)]]; [by left|right; left|].
  - apply (Hm (CallHasSkip (wk_Scope wk) (wk_Destination wk) record (Ok true))), Hpre, outs_elem, Hs.
  - pose proof (Hm _ (Hpre _ (outs_elem _ _ Hsend))) as (x & response & Hx). destruct (final_delivered response o) as [-> | ->]; [apply Hx| |].
    + right; right. exists body. split; [done|]. by exists x, response.
    + right; left. apply (Hm (CallSaveSkip (wk_Scope wk) (wk_Destination wk) record (Ok tt))), Hpre, outs_elem, Hsave. done.
Qed.

Lemma account_grows (wk : Worker) (record : Record_) (p p' : S) : grows p p' -> account wk record p -> account wk record p'.
Proof.
  intros Hp [?|[?|(body & ? & ?)]]; [by left|right; left; by eapply on_record_grows|right; right].
  exists body. split; [done|]. by eapply exchanged_grows.
Qed.
End Worker.
End OnPlant.

(** ** The consumer of a destination *)
Lemma consumer_worker (scope : Scope) (input : ConfigDestination) (sources : gmap string Source)
  (registered : gmap string Registration) (ids : list string) (t : string) (wk : Worker) :
  consumer_workers scope input sources registered ids !! t = Some wk ->
  exists id, id ∈ ids /\ let registration := default zeroRegistration (registered !! id) in
    t = Topic (RegNames registration) /\ wk = worker scope input (default zeroSource (sources !! id)) registration.
Proof.
  unfold consumer_workers. assert (forall m : gmap string Worker, foldl (fun m id =>
    let registration := default zeroRegistration (registered !! id) in
    <[ Topic (RegNames registration) := worker scope input (default zeroSource (sources !! id)) registration ]> m) m ids !! t = Some wk ->
    m !! t = Some wk \/ exists id, id ∈ ids /\ let registration := default zeroRegistration (registered !! id) in
      t = Topic (RegNames registration) /\ wk = worker scope input (default zeroSource (sources !! id)) registration) as Hgen.
  { induction ids as [|i ids IH]; intros m; [by left|]. cbn [foldl]. intros [Hm|(j & Hj & Hw)]%IH.
    - apply lookup_insert_Some in Hm as [[<- <-]|[_ Hm]]; [right|by left]. exists i. split; [by left|done].
    - right. exists j. split; [by right|done]. }
  intros [Hm|Hx]%Hgen; [|exact Hx]. by rewrite lookup_empty in Hm.
Qed.

(** Nothing is owed for a raw record: it is a record of one of the
    destination's sources, decoded with the identity the source is registered
    with, and the destination's filter excludes it, or its skip is in the
    store, or the destination's endpoint was sent its envelope, with the
    destination's credentials, and acknowledged it. *)
Definition accounted {W : Type} (scope : Scope) (input : ConfigDestination) (sources : gmap string Source)
  (registered : gmap string Registration) (ids : list string) (p : Plant W) (raw : RawRecord) : Prop :=
  exists id record, id ∈ ids /\
    let source := default zeroSource (sources !! id) in
    let registration := default zeroRegistration (registered !! id) in
    let destination := Delivery.mkDestination (cd_ID input) (cd_Description input) (filterFor (cd_Filter input)) in
    RawTopic raw = Topic (RegNames registration) /\
    Decode source (RegIdentity registration) (ScopeGeneration scope) (Some raw) = Ok record /\
    (MatchesFilter (filterFor (cd_Filter input)) (Payload record) = false \/
     on_record scope (cd_ID input) record p \/
     exists body, MarshalEnvelope (envelopeFor record destination) = Some body /\
       exchanged (httpDestination input) record body Delivered p).

(** What is behind a commit: in the wired consumer of a destination, on the
    control store and the HTTP client, whenever a partition worker offers an
    offset for commit, this record and every record routed to the worker before
    it are accounted for, from then on: in the tables and requests at the end of
    the run, and in every later state of them.  Other clients of the store may
    do anything in between, statements fail or lose their answers, the network
    answers what it likes and the lease gate opens and shuts at will. *)
Theorem committed_accounted {W : Type} `{Site W} (valid_url : string -> bool) (destinations : gmap string ConfigDestination)
  (input : ConfigDestination) (scope : Scope) (sources : gmap string Source) (registered : gmap string Registration) (ids : list string)
  (fuel dfuel h : nat) (m : Machine (Plant W)) (w : partitionWorker) (pre post : list event) (k : partitionKey) (offset epoch : Z)
  (later : Plant W) :
  destinations !! cd_ID input = Some input ->
  cn_pool (cn m) !! h = Some w -> pw_batches w = [] -> trace m = [] -> 0 <= offset ->
  let process := wired (H0 := plant_outside valid_url destinations) dfuel (consumer_workers scope input sources registered ids) in
  let m' := (run process fuel h m).2 in
  trace m' = pre ++ EvCommit h k offset epoch :: post -> grows (env m') later ->
  exists raws raw, k = (RawTopic raw, RawPartition raw) /\ offset = RawOffset raw /\
    map record_of (raws ++ [raw]) `prefix_of` routed h (trace m') /\
    Forall (accounted scope input sources registered ids later) (raws ++ [raw]).
Proof.
  intros Hinput Hw Hb Ht Ho process m' Heq Hlater. set (workers := consumer_workers scope input sources registered ids) in *.
  destruct (run_committed (H0 := plant_outside valid_url destinations) fuel dfuel workers h m w pre post k offset epoch Hw Hb Ht Ho Heq)
    as (raws & raw & _ & Hk & Hoff & Hall & Hpre). exists raws, raw. split_and!; try done.
  assert (forall t wk, workers !! t = Some wk -> wk_Destination wk = cd_ID input) as Hd
    by (intros t wk (id & _ & _ & ->)%consumer_worker; done).
  assert (honest input h (env m) m') as [_ Hm].
  { apply (honest_run valid_url destinations input Hinput h workers Hd (env m) dfuel fuel m). split; [done|]. intros o. by rewrite Ht, elem_of_nil. }
  eapply Forall_impl; [exact Hall|]. intros r Hset. cbn beta in Hset.
  eapply settled_account in Hset as (wk & record & Hwk & Hdec & Hacc); [|exact Hm|].
  - apply consumer_worker in Hwk as (id & Hid & Htopic & ->). exists id, record. split; [done|]. cbn zeta. split; [exact Htopic|].
    split; [exact Hdec|]. exact (account_grows input _ record (env m') later Hlater Hacc).
  - intros e He. rewrite Heq. apply elem_of_app. by left.
Qed.

(** ** A partition over the lives of its workers

    A partition is served by one worker after another, in any process of the
    group: each life of a worker is a run of its goroutine on the machine of its
    consumer, and its effects are part of the plant in the end.  [log] is what
    the partition retains, in order. *)
Record Life (W : Type) : Type := mkLife {
  lf_fuel : nat; lf_dfuel : nat; lf_handle : nat; lf_machine : Machine (Plant W);
  lf_before : list KRecord }.           (* the log before the position it fetches from *)
Arguments mkLife {W}. Arguments lf_fuel {W}. Arguments lf_dfuel {W}. Arguments lf_handle {W}. Arguments lf_machine {W}. Arguments lf_before {W}.

Section Lives.
Context {W : Type} `{Site W} (valid_url : string -> bool) (destinations : gmap string ConfigDestination)
  (input : ConfigDestination) (scope : Scope) (sources : gmap string Source) (registered : gmap string Registration) (ids : list string).
Variables (log : list KRecord) (last : Plant W).
Hypothesis Hinput : destinations !! cd_ID input = Some input.
Hypothesis Hlog : StronglySorted (fun a b => kr_Offset a < kr_Offset b) log.

Definition lf_final (l : Life W) : Machine (Plant W) :=
  (run (wired (H0 := plant_outside valid_url destinations) (lf_dfuel l) (consumer_workers scope input sources registered ids))
    (lf_fuel l) (lf_handle l) (lf_machine l)).2.

(** A life only adds to the plant. *)
Lemma life_grows (l : Life W) : trace (lf_machine l) = [] -> grows (env (lf_machine l)) (env (lf_final l)).
Proof.
  intros Ht. assert (forall t wk, consumer_workers scope input sources registered ids !! t = Some wk -> wk_Destination wk = cd_ID input) as Hd
    by (intros t wk (id & _ & _ & ->)%consumer_worker; done).
  apply (honest_run valid_url destinations input Hinput (lf_handle l) _ Hd (env (lf_machine l)) (lf_dfuel l) (lf_fuel l) (lf_machine l)).
  split; [done|]. intros o. by rewrite Ht, elem_of_nil.
Qed.

(** The life offered this offset for commit. *)
Definition offered (l : Life W) (offset : Z) : Prop :=
  exists k epoch, EvCommit (lf_handle l) k offset epoch ∈ trace (lf_final l).

(** A life begins with a new worker, which is handed the log in order from its
    position: the start of the log, or after an offset offered in a life
    before.  What Kafka answered a commit does not matter. *)
Inductive history : list (Life W) -> Prop :=
| no_life : history []
| one_more (l : Life W) (ls : list (Life W)) (w : partitionWorker) (rest : list KRecord) :
    history ls ->
    cn_pool (cn (lf_machine l)) !! lf_handle l = Some w -> pw_batches w = [] -> trace (lf_machine l) = [] ->
    log = lf_before l ++ rest -> routed (lf_handle l) (trace (lf_final l)) `prefix_of` rest ->
    lf_before l = [] \/ (exists e o, e ∈ ls /\ 0 <= o /\ offered e o /\ forall r, r ∈ lf_before l -> kr_Offset r <= o) ->
    grows (env (lf_final l)) last ->
    history (l :: ls).

Lemma sorted_upto (a b : list KRecord) (x r : KRecord) :
  StronglySorted (fun a b => kr_Offset a < kr_Offset b) (a ++ x :: b) -> r ∈ a ++ x :: b -> kr_Offset r <= kr_Offset x -> r ∈ a ++ [x].
Proof.
  intros Hs Hr Hle. rewrite elem_of_app, elem_of_cons in Hr. rewrite elem_of_app, list_elem_of_singleton. destruct Hr as [?|[?|Hr]]; [by left|by right|].
  apply StronglySorted_app in Hs as (_ & _ & Hs). apply StronglySorted_inv in Hs as [_ Hx]. rewrite Forall_forall in Hx.
  specialize (Hx r Hr). lia.
Qed.

(** C1. At least once: behind an offset that a worker offers for commit, every
    record of the partition up to it is accounted for, whichever worker of
    whichever process it was handed to, and stays so. *)
Theorem at_least_once (ls : list (Life W)) (l : Life W) (offset : Z) (r : KRecord) :
  history ls -> l ∈ ls -> 0 <= offset -> offered l offset -> r ∈ log -> kr_Offset r <= offset ->
  exists raw, record_of raw = r /\ accounted scope input sources registered ids last raw.
Proof.
  intros Hls. revert l offset. induction Hls as [|l' ls w rest Hls IH Hw Hb Ht Hsplit Hrouted Hbefore Hlast]; intros l offset Hl Ho Hoff Hr Hle;
    [by apply elem_of_nil in Hl|]. apply elem_of_cons in Hl as [->|Hl]; [|by apply (IH l offset)].
  destruct Hoff as (k & epoch & (pre & post & Heq)%list_elem_of_split).
  destruct (committed_accounted valid_url destinations input scope sources registered ids (lf_fuel l') (lf_dfuel l') (lf_handle l')
    (lf_machine l') w pre post k offset epoch last Hinput Hw Hb Ht Ho Heq Hlast) as (raws & raw & _ & Hoffset & Hpre & Hall).
  fold (lf_final l') in Hpre. assert (map record_of (raws ++ [raw]) `prefix_of` rest) as [tail Htail] by (by etrans).
  rewrite Hsplit in Hr. apply elem_of_app in Hr as [Hr|Hr].
  - destruct Hbefore as [Hnil|(e & o & He & Ho' & Hoff & Hup)]; [rewrite Hnil in Hr; by apply elem_of_nil in Hr|].
    apply (IH e o); auto. rewrite Hsplit. apply elem_of_app. by left.
  - rewrite map_app, <- app_assoc in Htail. cbn in Htail. rewrite Hsplit in Hlog. apply StronglySorted_app in Hlog as (_ & _ & Hrest).
    rewrite Htail in Hr, Hrest. pose proof (sorted_upto _ _ _ _ Hrest Hr) as Hin. cbn in Hin. rewrite <- Hoffset in Hin. specialize (Hin Hle).
    assert (r ∈ map record_of (raws ++ [raw])) as (x & -> & Hx)%list_elem_of_fmap by (by rewrite map_app).
    exists x. split; [done|]. rewrite Forall_forall in Hall. by apply Hall.
Qed.
End Lives.

(** ** Witnesses

    Kafka holds a partition of the example source, at offset 41 and 42; the
    endpoint delivers the first record and refuses the second for good, and the
    statement saving that skip fails once. *)
Module PlantSim.
Record Script : Type := mkScript { script : list (list section); outcomes : list ControlStore.Outcome; committed : option Z }.
Definition key : partitionKey := ("postie.orders", 2).
Definition offsets (at_ : Z) : Offsets := {[ key := (at_, None) ]}.
Definition answer (body : string) : result error Response := Ok (mkResponse 200 body None).
Definition respond (req : Request) (ctx : option Z) : result error Response :=
  if bool_decide (("X-Postie-Offset", "41") ∈ req_header req) then answer (ack_document [("success", CObj "" [])])
  else answer (ack_document [("error", error_object "keep_going" "c" "d")]).

#[export] Instance plant_site : Site Script := {
  StMoves t w := (t, w);
  StMoves_steps t w := rtc_refl _ t;
  StOutcome w := (default Fine (head (outcomes w)), mkScript (script w) (tail (outcomes w)) (committed w));
  StGate _ w := ((true, 100), w);
  StDeadline w := (Some 60, w);
  StServe w := (respond, w);
  StSections w := (default [] (head (script w)), mkScript (tail (script w)) (outcomes w) (committed w));
  StFetchOffsets _ w := (Ok (match committed w with Some o => offsets o | None => ∅ end), w);
  StListStart _ w := (Ok (offsets 0), w);
  StListEnd _ w := (Ok (offsets 42), w);
  StCommit _ o _ w := (Ok tt, mkScript (script w) (outcomes w) (Some (o + 1)));
  StBlock _ _ w := (tt, w);
  StSignal w := (tt, w);
  StPoll w := (([], []), w);
  StPause _ w := (tt, w);
  StResume _ w := (tt, w);
  StRebalance w := (tt, w);
  StClose w := (tt, w);
  StChoose w := (false, w);
  StWait w := (tt, w);
  StSleep _ w := (true, w);
  StJitter n w := (n - 1, w) }.

Definition scope : Scope := ControlStore.ex_scope.
Definition registration : Registration := mkRegistration "orders" ex_identity (mkNames "p" "postie.orders" "c" "s" "b") [] "".
Definition input : ConfigDestination := mkConfigDestination "billing" "" "http-push" "https://b" "u" "p" ["orders"] None.
Definition destinations : gmap string ConfigDestination := {[ "billing" := input ]}.
Definition sources : gmap string Source := {[ "orders" := ex_source ]}.
Definition registered : gmap string Registration := {[ "orders" := registration ]}.

Definition record (offset : Z) : KRecord := mkKRecord "postie.orders" 2 offset 1 (Key ex_raw) (Value ex_raw).
Definition worker0 : partitionWorker := mkPartitionWorker key false [] 0 false true false false.

(** A consumer newly assigned the partition, on a plant; Kafka hands it [batch]. *)
Definition machine (tables : Tables) (exchanges : list Exchange) (committed : option Z) (batch : list KRecord) : Machine (Plant Script) :=
  let world := mkPlant tables exchanges (mkScript (replicate 9 [] ++ [[XRoute 0 batch]]) [Fine; Fine; ControlStore.Failed Canceled] committed) in
  match NewConsumer scope "billing" (consumer_topics sources registered ["orders"]) (fun _ _ => Ok tt) with
  | Ok c => mkMachine (run_section (XAssign [key]) c) world []
  | Err _ => mkMachine (mkConsumer scope "" ∅ false false ∅ ∅ false) world []
  end.
Definition after : Life Script -> Machine (Plant Script) :=
  lf_final (fun _ => true) destinations input scope sources registered ["orders"].

(** Two lives: the second begins where the first left the tables. *)
Definition life1 : Life Script := mkLife 30 5 0 (machine empty_tables [] None [record 41]) [].
Definition machine2 : Machine (Plant Script) :=
  let p := env (after life1) in machine (pl_tables p) (pl_exchanges p) (committed (pl_rest p)) [record 42].
Definition life2 : Life Script := mkLife 30 5 0 machine2 [record 41].
Definition last : Plant Script := env (after life2).
Definition offers (o : Z) (e : event) : bool := match e with EvCommit h _ o' _ => Nat.eqb h 0 && Z.eqb o o' | _ => false end.
Definition offered_by : Life Script -> Z -> Prop := offered (fun _ => true) destinations input scope sources registered ["orders"].
End PlantSim.
#[export] Existing Instance PlantSim.plant_site.

Example plant_run : map x_deadline (pl_exchanges PlantSim.last) = [Some 60; Some 60] /\
  map fst (map_to_list (tb_skips (pl_tables PlantSim.last))) = [(PlantSim.scope, "billing", "postie.orders", 2, 42)].
Proof. vm_compute. done. Qed.

Lemma sim_offered (l : Life PlantSim.Script) (o : Z) :
  lf_handle l = 0%nat -> existsb (PlantSim.offers o) (trace (PlantSim.after l)) = true -> PlantSim.offered_by l o.
Proof.
  intros Hl (e & He & Ho)%existsb_exists. destruct e as [| | | | |h k o' ep| | | | | | | |]; try done. cbn in Ho.
  apply andb_prop in Ho as [->%Nat.eqb_eq ->%Z.eqb_eq]. exists k, ep. rewrite Hl. by apply list_elem_of_In.
Qed.

Lemma machine_plant (p : Plant PlantSim.Script) (batch : list KRecord) :
  grows p (env (PlantSim.machine (pl_tables p) (pl_exchanges p) (PlantSim.committed (pl_rest p)) batch)).
Proof. split; reflexivity. Qed.

Lemma sim_history : history (fun _ => true) PlantSim.destinations PlantSim.input PlantSim.scope PlantSim.sources PlantSim.registered ["orders"]
  [PlantSim.record 41; PlantSim.record 42] PlantSim.last [PlantSim.life2; PlantSim.life1].
Proof.
  assert (grows (env PlantSim.machine2) PlantSim.last) as Hlast by exact (life_grows (fun _ => true) PlantSim.destinations PlantSim.input PlantSim.scope PlantSim.sources PlantSim.registered ["orders"] eq_refl PlantSim.life2 eq_refl).
  assert (PlantSim.offered_by PlantSim.life1 41) as H1 by (apply sim_offered; vm_compute; reflexivity).
  apply (one_more _ _ _ _ _ _ _ _ _ PlantSim.life2 [PlantSim.life1] PlantSim.worker0 [PlantSim.record 42]);
    [|vm_compute; reflexivity|reflexivity|reflexivity|reflexivity|exists []; vm_compute; reflexivity| |reflexivity].
  - apply (one_more _ _ _ _ _ _ _ _ _ PlantSim.life1 [] PlantSim.worker0 [PlantSim.record 41; PlantSim.record 42]);
      [constructor|vm_compute; reflexivity|reflexivity|reflexivity|reflexivity|exists [PlantSim.record 42]; vm_compute; reflexivity|by left|].
    etransitivity; [|exact Hlast]. apply machine_plant.
  - right. exists PlantSim.life1, 41. split; [by left|]. split; [lia|]. split; [exact H1|].
    intros r [->|[]%elem_of_nil]%elem_of_cons. cbn. lia.
Qed.

Lemma at_least_once_witness : exists raw, record_of raw = PlantSim.record 41 /\
  accounted PlantSim.scope PlantSim.input PlantSim.sources PlantSim.registered ["orders"] PlantSim.last raw.
Proof.
  apply (at_least_once (fun _ => true) PlantSim.destinations PlantSim.input PlantSim.scope PlantSim.sources PlantSim.registered ["orders"]
    [PlantSim.record 41; PlantSim.record 42] PlantSim.last) with (ls := [PlantSim.life2; PlantSim.life1]) (l := PlantSim.life2) (offset := 42).
  - reflexivity.
  - repeat constructor; cbn; lia.
  - apply sim_history.
  - by left.
  - lia.
  - apply sim_offered; vm_compute; reflexivity.
  - by left.
  - cbn. lia.
Defined.
