(* ===== verification/Bootstrap.v ===== *)
(** * Bootstrap: opening the adapters and the provision command

    Models [internal/app/bootstrap.go]: [Bootstrap], its failures, and
    [Provision] with its output and exit code, over any world that can open
    the adapters.  The second half composes it with [ControlStore]: the store's
    tables are part of the world, other clients of the same store run calls at
    any time, and a successful command leaves every source registered and every
    subscription recorded. *)

From S2P Require Import Prelude Strconv GoFmt Stream Config Act Provision App ControlStore Connector.
From stdpp Require Import relations sorting.
Local Open Scope Z_scope.

(** ** Bootstrap *)
Inductive Dependency : Type := DependencyKafka | DependencyControl.

(** An error of [Bootstrap]: its own, or an [*InitializationError]. *)
Inductive StartError : Type :=
| Refused (e : error)
| InitializationError (d : Dependency) (e : error).

(** [err.Error()]. *)
Definition StartErrorText (e : StartError) : string :=
  match e with Refused e => error_text e | InitializationError _ e => error_text e end.

(** [startupError]. *)
Definition startupError (e : StartError) : error :=
  match e with
  | Refused e => e
  | InitializationError DependencyKafka _ => Errorf "Kafka client could not be created" []
  | InitializationError DependencyControl _ => Errorf "control store could not be opened" []
  end.

Class Startup (W : Type) : Type := {
  NewAdmin : list string -> Act W (result error unit);
  OpenStore : string -> Act W (result error unit);
  OpenPool : Source -> Connection -> Act W unit;       (* [sourcepg.Open] never fails *)
  CloseAdmin : Act W unit;
  CloseStore : Act W unit;
  ClosePools : list string -> Act W unit;              (* of these sources *)
  RecordSubscriptions : Scope -> list string -> Act W (result error unit) }.

Record Resources : Type := mkResources {
  rs_provision : Provision.Service;
  rs_sources : gmap string Source;
  rs_connections : gmap string Connection;
  rs_pools : list string;
  rs_scope : Scope }.

Definition connectionOf (input : ConfigSource) : Connection :=
  Connector.mkConnection (cs_Host input) (cs_Port input) (cs_Username input) (cs_Password input) (cs_Database input).

Definition connections (sources : list ConfigSource) : gmap string Connection :=
  foldl (fun m s => <[ cs_ID s := connectionOf s ]> m) ∅ sources.

(** What a process prints, line by line. *)
Record Term (W : Type) : Type := mkTerm { world : W; stdout : list string; stderr : list string }.
Arguments mkTerm {W}. Arguments world {W}. Arguments stdout {W}. Arguments stderr {W}.

Definition print_out {W : Type} (line : string) (m : Term W) : Term W := mkTerm (world m) (stdout m ++ [line]) (stderr m).
Definition print_err {W : Type} (line : string) (m : Term W) : Term W := mkTerm (world m) (stdout m) (stderr m ++ [line]).

Section Programs.
Context {W : Type} `{Infra W} `{Startup W}.

(** The loop over the sources: each opens its pool, in order. *)
Fixpoint openPools (sources : list ConfigSource) : Act W unit :=
  match sources with
  | [] => mret tt
  | input :: sources => _ ← OpenPool (sourceOf input) (connectionOf input); openPools sources
  end.

Definition Bootstrap (engine : Engine) (application : Application) (generation : Generation) : Act W (result StartError Resources) :=
  _ <~ stop_if (negb (Stream.Valid generation)) (Refused (Errorf "generation must be positive" []));
  admin ← NewAdmin (en_Brokers engine);
  match admin with
  | Err e => throw (InitializationError DependencyKafka e)
  | Ok _ =>
      store ← OpenStore (en_DatabaseURL engine);
      match store with
      | Err e => _ ← CloseAdmin; throw (InitializationError DependencyControl e)
      | Ok _ =>
          let scope := mkScope (en_Namespace engine) (en_Environment engine) generation in
          let sources := app_Sources application in
          _ ← openPools sources;
          give (mkResources
            (Provision.mkService scope (en_Partitions engine) (en_ReplicationFactor engine) (publications engine sources))
            (sourcesByID sources) (connections sources) (map cs_ID sources) scope)
      end
  end.

Definition Close (r : Resources) : Act W unit := _ ← CloseAdmin; _ ← CloseStore; ClosePools (rs_pools r).

(** A call on the world of a terminal. *)
Definition on_world {A : Type} (f : Act W A) : Act (Term W) A := fun m =>
  let '(a, w) := f (world m) in (a, mkTerm w (stdout m) (stderr m)).

Definition reportBootstrapFailure (sources : list ConfigSource) (e : StartError) (m : Term W) : Term W :=
  match e with
  | InitializationError DependencyKafka _ => print_err (StartErrorText e) m
  | _ => foldl (fun m s => print_err (Sprintf "%s: %v" [cs_ID s; StartErrorText e]) m) m sources
  end.

Definition provisioned_line (id : string) (generation : Generation) (n : Names) : string :=
  Sprintf "provisioned source=%s generation=%s topic=%s connector=%s slot=%s publication=%s"
    [id; GenString generation; Topic n; Connector n; Slot n; Publication n].

Definition failed_line (id : string) (e : Provision.Error) : string := Sprintf "%s: %v" [id; ErrorText e].

(** [fuel] bounds the polls of one source; [None] when it runs out. *)
Fixpoint provision_loop (fuel : nat) (r : Resources) (sources : list ConfigSource) (generation : Generation) (ok : bool)
  (m : Term W) : option (bool * Term W) :=
  match sources with
  | [] => Some (ok, m)
  | s :: sources =>
      '(registered, w) ← ProvisionSource fuel (rs_provision r) (default zeroSource (rs_sources r !! cs_ID s)) (world m);
      let m := mkTerm w (stdout m) (stderr m) in
      match registered with
      | Err e => provision_loop fuel r sources generation false (print_err (failed_line (cs_ID s) e) m)
      | Ok registered => provision_loop fuel r sources generation ok (print_out (provisioned_line (cs_ID s) generation (RegNames registered)) m)
      end
  end.

Definition provisionSources (fuel : nat) (r : Resources) (sources : list ConfigSource) (generation : Generation) (m : Term W) :
  option (bool * Term W) := provision_loop fuel r sources generation true m.

Definition ensureSubscriptions (r : Resources) (ids : list string) : Act (Term W) Z :=
  e ← on_world (RecordSubscriptions (rs_scope r) ids);
  match e with
  | Err e => fun m => (1, print_err (Sprintf "subscriptions: %v" [error_text e]) m)
  | Ok _ => mret 0
  end.

(** [Provision]: the exit code. *)
Definition Provision (fuel : nat) (engine : Engine) (application : Application) (generation : Generation) (m : Term W) :
  option (Z * Term W) :=
  let '(started, m) := on_world (Bootstrap engine application generation) m in
  match started with
  | Err e => Some (1, reportBootstrapFailure (app_Sources application) e m)
  | Ok r =>
      '(ok, m) ← provisionSources fuel r (app_Sources application) generation m;
      let '(code, m) := if (ok : bool) then ensureSubscriptions r (destinationIDs (app_Destinations application)) m else (1, m) in
      let '(_, m) := on_world (Close r) m in
      Some (code, m)
  end.
End Programs.

(** ** The loop over the sources *)

(** What one source's result prints where. *)
Definition out_lines (generation : Generation) (l : list (ConfigSource * result Provision.Error Registration)) : list string :=
  omap (fun '(s, r) => match r with Ok reg => Some (provisioned_line (cs_ID s) generation (RegNames reg)) | Err _ => None end) l.
Definition err_lines (l : list (ConfigSource * result Provision.Error Registration)) : list string :=
  omap (fun '(s, r) => match r with Err e => Some (failed_line (cs_ID s) e) | Ok _ => None end) l.

Section Loop.
Context {W : Type} `{Infra W}.

(** The runs of [ProvisionSource], one per source, in order. *)
Inductive runs (fuel : nat) (r : Resources) : list (ConfigSource * result Provision.Error Registration) -> W -> W -> Prop :=
| runs_nil w : runs fuel r [] w w
| runs_cons s a l w w1 w2 :
    ProvisionSource fuel (rs_provision r) (default zeroSource (rs_sources r !! cs_ID s)) w = Some (a, w1) ->
    runs fuel r l w1 w2 -> runs fuel r ((s, a) :: l) w w2.

Lemma loop_runs (fuel : nat) (r : Resources) (sources : list ConfigSource) (generation : Generation) (ok0 ok : bool) (m m' : Term W) :
  provision_loop fuel r sources generation ok0 m = Some (ok, m') ->
  exists l, map fst l = sources /\ runs fuel r l (world m) (world m') /\ ok = ok0 && forallb (fun x => is_ok x.2) l /\
    stdout m' = stdout m ++ out_lines generation l /\ stderr m' = stderr m ++ err_lines l.
Proof.
  revert ok0 m. induction sources as [|s sources IH]; intros ok0 m; cbn [provision_loop].
  - intros [= <- <-]. exists []. cbn. rewrite !app_nil_r, andb_true_r. split_and!; try done. constructor.
  - intros ([a w] & Hp & Hr)%bind_Some. destruct a as [reg|e]; apply IH in Hr as (l & Hl & Hruns & -> & Hout & Herr); cbn in *.
    + exists ((s, Ok reg) :: l). cbn. rewrite Hl, Hout, Herr, <- !app_assoc. split_and!; try done. by econstructor.
    + exists ((s, Err e) :: l). cbn. rewrite Hl, Hout, Herr, <- !app_assoc, andb_false_r. split_and!; try done. by econstructor.
Qed.
End Loop.

Lemma report_lines {W : Type} (sources : list ConfigSource) (e : StartError) (m : Term W) :
  let m' := reportBootstrapFailure sources e m in
  stdout m' = stdout m /\ stderr m' = stderr m ++
    match e with
    | InitializationError DependencyKafka _ => [StartErrorText e]
    | _ => map (fun s => Sprintf "%s: %v" [cs_ID s; StartErrorText e]) sources
    end.
Proof.
  assert (forall sources (m : Term W), let m' := foldl (fun m s => print_err (Sprintf "%s: %v" [cs_ID s; StartErrorText e]) m) m sources in
    stdout m' = stdout m /\ stderr m' = stderr m ++ map (fun s => Sprintf "%s: %v" [cs_ID s; StartErrorText e]) sources) as Hall.
  { induction sources0 as [|s l IH]; intros n; cbn [foldl map]; [by rewrite app_nil_r|]. destruct (IH (print_err (Sprintf "%s: %v" [cs_ID s; StartErrorText e]) n)) as [H1 H2].
    cbn zeta in *. rewrite H1, H2. cbn. by rewrite <- app_assoc. }
  destruct e as [e|[] e]; try apply Hall. done.
Qed.

(** The provision command tries every source, in order, whatever the earlier
    ones gave; each prints exactly one line, its resources to the output or its
    error to the error output; the exit code is 0 exactly when the adapters
    opened, every source was provisioned and the subscriptions were recorded,
    and 1 otherwise, with the reason printed. *)
Theorem provision_exit {W : Type} `{Infra W} `{Startup W} (fuel : nat) (engine : Engine) (application : Application)
  (generation : Generation) (m m' : Term W) (code : Z) :
  Provision fuel engine application generation m = Some (code, m') ->
  match Bootstrap engine application generation (world m) with
  | (Err e, _) =>
      code = 1 /\ stdout m' = stdout m /\ stderr m' = stderr m ++
        match e with
        | InitializationError DependencyKafka _ => [StartErrorText e]
        | _ => map (fun s => Sprintf "%s: %v" [cs_ID s; StartErrorText e]) (app_Sources application)
        end
  | (Ok r, w) =>
      exists l w1, map fst l = app_Sources application /\ runs fuel r l w w1 /\ stdout m' = stdout m ++ out_lines generation l /\
        if forallb (fun x => is_ok x.2) l then
          match (RecordSubscriptions (rs_scope r) (destinationIDs (app_Destinations application)) w1).1 with
          | Ok _ => code = 0 /\ stderr m' = stderr m
          | Err e => code = 1 /\ stderr m' = stderr m ++ [Sprintf "subscriptions: %v" [error_text e]]
          end
        else code = 1 /\ stderr m' = stderr m ++ err_lines l
  end.
Proof.
  unfold Provision, on_world. destruct (Bootstrap _ _ _ (world m)) as [[r|e] w].
  2:{ intros [= <- <-]. pose proof (report_lines (app_Sources application) e (mkTerm w (stdout m) (stderr m))) as [H1 H2]. cbn in *. by rewrite H1, H2. }
  intros ([ok m1] & Hl & Hr)%bind_Some. apply loop_runs in Hl as (l & Hl & Hruns & -> & Hout & Herr). cbn in *. exists l, (world m1).
  split; [done|]. split; [done|].
  assert (forallb (fun x => is_ok x.2) l = true -> err_lines l = []) as Hnone.
  { clear. induction l as [|[s [a|e]] l IH]; cbn; [done|apply IH|done]. }
  destruct (forallb _ l).
  - rewrite Hnone, app_nil_r in Herr by done. unfold ensureSubscriptions, on_world, mbind, act_bind in Hr.
    destruct (RecordSubscriptions _ _ (world m1)) as [[u|e] w1]; cbn in Hr |- *; destruct (Close r _) as [? w2];
      injection Hr as <- <-; cbn; rewrite Hout, Herr; done.
  - destruct (Close r (world m1)) as [? w2]. injection Hr as <- <-. cbn. by rewrite Hout, Herr.
Qed.

(** ** The command ends *)

(** Every poll takes a wait that the calls do not give back. *)
Record runs_out {W : Type} `{Infra W} (left_ : W -> nat) : Prop := {
  ro_wait w w' : PollWait w = (false, w') -> (left_ w' < left_ w)%nat;
  ro_waited w : (left_ (PollWait w).2 <= left_ w)%nat;
  ro_table s w : (left_ (InspectTable s w).2 <= left_ w)%nat;
  ro_slot s n w : (left_ (SlotHealth s n w).2 <= left_ w)%nat;
  ro_ensure n p r w : (left_ (EnsureTopic n p r w).2 <= left_ w)%nat;
  ro_topic n w : (left_ (TopicOf n w).2 <= left_ w)%nat;
  ro_connector s i n m w : (left_ (EnsureConnector s i n m w).2 <= left_ w)%nat;
  ro_status n w : (left_ (ConnectorStatus n w).2 <= left_ w)%nat;
  ro_get sc s w : (left_ (Provision.GetStream sc s w).2 <= left_ w)%nat;
  ro_register sc r w : (left_ (Provision.RegisterStream sc r w).2 <= left_ w)%nat;
  ro_block sc s r w : (left_ (Provision.BlockSource sc s r w).2 <= left_ w)%nat }.

Lemma source_spends {W : Type} `{Infra W} (left_ : W -> nat) (fuel : nat) (s : Provision.Service) (source : Source) (w w' : W)
  (r : result Provision.Error Registration) :
  runs_out left_ -> ProvisionSource fuel s source w = Some (r, w') -> (left_ w' <= left_ w)%nat.
Proof.
  intros Ho. assert (forall A (f : Act W A), (forall x, (left_ (f x).2 <= left_ x)%nat) ->
    triple (fun x => left_ x <= left_ w)%nat f (fun _ x => left_ x <= left_ w)%nat) as Hk.
  { intros A f Hf x Hx. specialize (Hf x). lia. }
  apply (provision_kept (fun x => left_ x <= left_ w)%nat); intros; try apply Hk; try apply Ho; done.
Qed.

(** C26. The provision command exits: when the adapters open on a world whose context
    ends after at most [left_] polls, fuel for as many gives an exit code,
    whatever the rest of the world answers. *)
Theorem provision_returns {W : Type} `{Infra W} `{Startup W} (left_ : W -> nat) (fuel : nat) (engine : Engine)
  (application : Application) (generation : Generation) (m : Term W) :
  runs_out left_ -> (left_ (Bootstrap engine application generation (world m)).2 <= fuel)%nat -> exists code m', Provision fuel engine application generation m = Some (code, m').
Proof.
  intros Ho Hf. assert (forall r sources ok m, (left_ (world m) <= fuel)%nat -> is_Some (provision_loop fuel r sources generation ok m)) as Hloop.
  { intros r. induction sources as [|s sources IH]; intros ok m1 Hm; cbn [provision_loop]; [by eexists|].
    destruct (provision_terminates left_ fuel (rs_provision r) (default zeroSource (rs_sources r !! cs_ID s)) (world m1)) as [[a w1] Hp];
      try (intros; eapply Ho; eassumption); try (intros; apply Ho); auto. pose proof (source_spends _ _ _ _ _ _ _ Ho Hp).
    rewrite Hp. cbn. destruct a; apply IH; cbn; lia. }
  unfold Provision, on_world. destruct (Bootstrap _ _ _ (world m)) as [[r|e] w]; [|by eexists _, _]. unfold provisionSources.
  destruct (Hloop r (app_Sources application) true (mkTerm w (stdout m) (stderr m)) Hf) as [[ok m2] ->]. cbn.
  destruct (if ok then _ else _) as [code m3]. destruct (Close r (world m3)) as [u w4]. by eexists _, _.
Qed.

(** ** On the control store *)

(** What the world outside the store answers, and whether the store's next
    statement fails; [Clients] is what other clients of the store did since. *)
Class External (W : Type) : Type := {
  ExtTable : string -> Act W (result Provision.Error TableFacts);
  ExtSlot : string -> string -> Act W (result Provision.Error SlotStatus);
  ExtEnsureTopic : Names -> Z -> Z -> Act W (result Provision.Error (list Z));
  ExtTopic : string -> Act W (result Provision.Error TopicFacts);
  ExtConnector : Source -> Identity -> Names -> PublicationMode -> Act W (result Provision.Error unit);
  ExtStatus : string -> Act W (result Provision.Error Status);
  ExtWait : Act W bool;
  ExtAdmin : list string -> Act W (result error unit);
  ExtStore : string -> Act W (result error unit);
  ExtPool : Source -> Connection -> Act W unit;
  ExtClose : Act W unit;
  DbError : Act W (option error);
  Clients : Tables -> Act W Tables;
  Clients_steps : forall t w, rtc step t (Clients t w).1 }.

Section OnStore.
Context {W : Type} `{External W}.
Abbreviation S := (Tables * W)%type.

Definition others : Act S unit := fun '(t, w) => let '(t, w) := Clients t w in (tt, (t, w)).

Definition ext {A : Type} (f : Act W A) : Act S A :=
  a ← ((fun '(t, w) => let '(a, w) := f w in (a, (t, w))) : Act S A); _ ← others; mret a.

(** A call to the store; its error as the other components see it. *)
Definition stored {A : Type} (f : option error -> Call A) : Act S (result error A) :=
  r ← ((fun '(t, w) => let '(db, w) := DbError w in let '(r, t) := f db t in (r, (t, w))) : Act S (result error A));
  _ ← others; mret r.

Definition plain {A : Type} (f : Act S (result error A)) : Act S (result Provision.Error A) :=
  r ← f; mret (match r with Ok a => Ok a | Err e => Err (Plain e) end).

#[export] Instance store_infra : Infra S := {
  InspectTable s := ext (ExtTable s);
  SlotHealth s n := ext (ExtSlot s n);
  EnsureTopic n p r := ext (ExtEnsureTopic n p r);
  TopicOf n := ext (ExtTopic n);
  EnsureConnector s i n m := ext (ExtConnector s i n m);
  ConnectorStatus n := ext (ExtStatus n);
  Provision.GetStream sc s := plain (stored (fun db => GetStream db sc s));
  Provision.RegisterStream sc r := plain (stored (fun db => RegisterStream db sc r));
  Provision.BlockSource sc s r := plain (stored (fun db => BlockSource db sc s r));
  PollWait := ext ExtWait }.

#[export] Instance store_startup : Startup (Provision.Traced S) := {
  NewAdmin b t := let '(a, w) := ext (ExtAdmin b) (inner t) in (a, mkTraced w (events t));
  OpenStore u t := let '(a, w) := ext (ExtStore u) (inner t) in (a, mkTraced w (events t));
  OpenPool s c t := let '(a, w) := ext (ExtPool s c) (inner t) in (a, mkTraced w (events t));
  CloseAdmin t := let '(a, w) := ext ExtClose (inner t) in (a, mkTraced w (events t));
  CloseStore t := let '(a, w) := ext ExtClose (inner t) in (a, mkTraced w (events t));
  ClosePools _ t := let '(a, w) := ext ExtClose (inner t) in (a, mkTraced w (events t));
  RecordSubscriptions sc ids t :=
    let '(a, w) := stored (fun db => EnsureSubscriptions db sc ids) (inner t) in (a, mkTraced w (events t)) }.
End OnStore.

(** ** What success leaves in the store *)

(** The stream's row, whatever its block. *)
Definition row (t : Tables) (scope : Scope) (id : string) (reg : Registration) : Prop :=
  exists r, tb_streams t !! (scope, id) = Some r /\ RegIdentity r = RegIdentity reg /\ RegNames r = RegNames reg /\ TopicID r = TopicID reg.

Lemma row_durable (t t' : Tables) (scope : Scope) (id : string) (reg : Registration) : durable t t' -> row t scope id reg -> row t' scope id reg.
Proof. intros Hd (r & Hr & H). apply (dur_streams _ _ Hd) in Hr as (b & Hr & _). by exists (with_blocked r b). Qed.

Lemma register_row (db : option error) (scope : Scope) (reg : Registration) (t t' : Tables) (u : unit) :
  RegisterStream db scope reg t = (Ok u, t') -> row t' scope (RegSourceID reg) reg.
Proof.
  unfold RegisterStream, act_try, pure, stop_if, reject_if. destruct (validScope scope); [|done]. cbn.
  destruct (str_eqb _ _); [done|]. cbn. destruct db; [done|]. destruct (_ || _ || _) eqn:Hm; [done|]. intros [= _ <-]. cbn.
  apply orb_false_iff in Hm as [[H1 H2]%orb_false_iff H3]. apply negb_false_iff, bool_decide_eq_true in H1, H2, H3.
  unfold row. cbn. unfold insert_new in *. destruct (tb_streams t !! (scope, RegSourceID reg)) as [r|] eqn:Hr.
  - rewrite Hr in *. by exists r.
  - exists reg. by rewrite lookup_insert_eq.
Qed.

Lemma get_row (db : option error) (scope : Scope) (id : string) (reg : Registration) (t t' : Tables) :
  GetStream db scope id t = (Ok (Some reg), t') -> row t' scope id reg.
Proof.
  unfold GetStream, act_try, pure, exec. destruct (validScope scope); [|done]. destruct db; [done|]. intros [= Hr <-]. by exists reg.
Qed.

Lemma ensure_rows (scope : Scope) (ids : list string) (m m' : gmap (Scope * string) (string * Z)) :
  ensure_loop scope ids m = Ok m' -> Forall (fun id => is_Some (m' !! (scope, id))) ids.
Proof.
  revert m. induction ids as [|id ids IH]; intros m; cbn [ensure_loop]; [by constructor|]. rewrite reject_bind. intros [_ He].
  constructor; [|by eapply IH]. apply ensure_keeps in He. unfold insert_new in He.
  destruct (m !! (scope, id)) as [x|] eqn:Hx; eexists; (eapply lookup_weaken; [|exact He]); [exact Hx|apply lookup_insert_eq].
Qed.

Lemma ensure_subscribed (db : option error) (scope : Scope) (ids : list string) (t t' : Tables) (u : unit) :
  EnsureSubscriptions db scope ids t = (Ok u, t') -> forall id, id ∈ ids -> is_Some (tb_subscriptions t' !! (scope, id)).
Proof.
  unfold EnsureSubscriptions, act_try, pure. destruct (validScope scope); [|done]. destruct db; [done|].
  destruct (ensure_loop _ _ _) as [m|] eqn:Hm; [|done]. intros [= _ <-] id Hid. apply ensure_rows in Hm. rewrite Forall_forall in Hm.
  apply Hm. by rewrite merge_sort_Permutation.
Qed.

Section Stored.
Context {W : Type} `{External W}.
Abbreviation S := (Tables * W)%type.

(** Calls never lose what the store holds, and leave what [Q] says of it. *)
Definition lasting {A : Type} (f : Act S A) (Q : A -> Tables -> Prop) : Prop :=
  forall x a x', f x = (a, x') -> durable x.1 x'.1 /\ Q a x'.1.

Lemma clients_durable (t : Tables) (w : W) : durable t (Clients t w).1.
Proof. apply history_durable, Clients_steps. Qed.

Lemma ext_lasting {A : Type} (f : Act W A) : lasting (ext f) (fun _ _ => True).
Proof.
  intros [t w] a x'. unfold ext, others, mret, act_ret, mbind, act_bind. destruct (f w) as [b w1]. pose proof (clients_durable t w1) as Hc.
  destruct (Clients t w1) as [t2 w2]. by intros [= <- <-].
Qed.

Lemma stored_lasting {A : Type} (f : option error -> Call A) (Q : result error A -> Tables -> Prop) :
  (forall db t a t', f db t = (a, t') -> durable t t' /\ Q a t') -> (forall a t t', durable t t' -> Q a t -> Q a t') ->
  lasting (stored f) Q.
Proof.
  intros Hf HQ [t w] a x'. unfold stored, others, mret, act_ret, mbind, act_bind. destruct (DbError w) as [db w1].
  destruct (f db t) as [b t1] eqn:Hb. apply Hf in Hb as [Hd Hb]. pose proof (clients_durable t1 w1) as Hc.
  destruct (Clients t1 w1) as [t2 w2]. intros [= <- <-]. cbn in *. split; [by etrans|by eapply HQ].
Qed.

Lemma plain_lasting {A : Type} (f : Act S (result error A)) (Q : A -> Tables -> Prop) :
  lasting f (fun a t => match a with Ok a => Q a t | Err _ => True end) -> lasting (plain f) (fun a t => match a with Ok a => Q a t | Err _ => True end).
Proof.
  intros Hf x a x'. unfold plain, mret, act_ret, mbind, act_bind. destruct (f x) as [b x1] eqn:Hb. apply Hf in Hb as [Hd Hb]. intros [= <- <-].
  by destruct b.
Qed.

(** Every answer in the log that named a stream's row is still true. *)
Definition answer_holds (t : Tables) (e : Provision.event) : Prop :=
  match e with
  | EvRegister scope reg (Ok _) => row t scope (RegSourceID reg) reg
  | EvGet scope id (Ok (Some reg)) => row t scope id reg
  | _ => True
  end.
Definition recorded (t0 : Tables) (x : Provision.Traced S) : Prop :=
  durable t0 (inner x).1 /\ Forall (answer_holds (inner x).1) (events x).

Lemma answers_durable (t t' : Tables) (l : list Provision.event) : durable t t' -> Forall (answer_holds t) l -> Forall (answer_holds t') l.
Proof.
  intros Hd Hl. eapply Forall_impl; [exact Hl|]. intros [| | | | | |? ? [[]|]|? ? []| |]; cbn; try done; by apply row_durable.
Qed.

Lemma traced_recorded {A : Type} (t0 : Tables) (ev : A -> Provision.event) (f : Act S A) :
  lasting f (fun a t => answer_holds t (ev a)) -> triple (recorded t0) (traced ev f) (fun _ => recorded t0).
Proof.
  intros Hf [x l] [H0 Hl]. unfold traced. cbn in *. destruct (f x) as [a x'] eqn:Ha. apply Hf in Ha as [Hd Ha]. split; cbn.
  - by etrans.
  - apply Forall_app. split; [by eapply answers_durable|by constructor].
Qed.

Lemma store_call {A : Type} (f : option error -> Call A) (Q : A -> Tables -> Prop) :
  (forall db t, durable t (f db t).2) -> (forall db t a t', f db t = (Ok a, t') -> Q a t') ->
  (forall a t t', durable t t' -> Q a t -> Q a t') ->
  lasting (plain (stored f)) (fun a t => match a with Ok a => Q a t | Err _ => True end).
Proof.
  intros Hd Hf HQ. apply plain_lasting, stored_lasting.
  - intros db t a t' Hr. pose proof (Hd db t) as Ht. rewrite Hr in Ht. split; [exact Ht|]. destruct a; [by eapply Hf|done].
  - intros [a|] t t'; [apply HQ|done].
Qed.

Lemma provision_recorded (fuel : nat) (s : Provision.Service) (source : Source) (t0 : Tables) (x x' : Provision.Traced S) r :
  recorded t0 x -> ProvisionSource (W := Provision.Traced S) fuel s source x = Some (r, x') -> recorded t0 x'.
Proof.
  apply provision_kept; intros; cbn; apply traced_recorded; try (intros x1 a x2 He; split; [by eapply ext_lasting|done]).
  - intros x1 a x2 He. apply (store_call _ (fun a t => match a with Some reg => row t sc s0 reg | None => True end)) in He as [Hd Ha].
    + split; [done|]. by destruct a as [[]|].
    + intros db t. unfold GetStream, act_try, pure, exec. destruct (validScope sc); [|done]. by destruct db.
    + intros db t [reg|] t' Hr; [by eapply get_row|done].
    + intros [reg|] t t'; [apply row_durable|done].
  - intros x1 a x2 He. apply (store_call _ (fun _ t => row t sc (RegSourceID r0) r0)) in He as [Hd Ha].
    + split; [done|]. by destruct a.
    + intros db t. apply step_durable, step_register.
    + intros db t [] t' Hr. by eapply register_row.
    + intros []. intros t t'. apply row_durable.
  - intros x1 a x2 He. apply (store_call _ (fun _ _ => True)) in He as [Hd Ha]; [by split| |done|done].
    intros db t. apply step_durable, step_block.
Qed.

(** What the store knows of a source that was provisioned. *)
Definition established (s : Provision.Service) (source : Source) (reg : Registration) (t : Tables) : Prop :=
  row t (sv_Scope s) (ID source) reg /\ RegNames reg = (captureNames s source).1 /\
  exists facts, IdentityFrom source facts (sv_Partitions s) = Ok (RegIdentity reg).

Lemma established_durable (s : Provision.Service) (source : Source) (reg : Registration) (t t' : Tables) :
  durable t t' -> established s source reg t -> established s source reg t'.
Proof. intros Hd (Hr & Hn). split; [by eapply row_durable|done]. Qed.

Lemma provisioned_established (fuel : nat) (s : Provision.Service) (source : Source) (t0 : Tables) (x x' : Provision.Traced S) reg :
  recorded t0 x -> ProvisionSource (W := Provision.Traced S) fuel s source x = Some (Ok reg, x') -> established s source reg (inner x').1.
Proof.
  intros Hx Hp. pose proof (provision_recorded _ _ _ _ _ _ _ Hx Hp) as [_ Hall]. destruct x as [x evs].
  apply provisioning_traced in Hp as (new & He & Hp). apply provisioned_row in Hp as (Hn & _ & Hf & Hrow).
  split; [|done]. rewrite He, Forall_app, !Forall_forall in Hall. destruct Hall as [_ Hall].
  destruct Hrow as [[Hin Hid]|Hin]; apply Hall in Hin; cbn in Hin; [by rewrite <- Hid|done].
Qed.

Lemma runs_established (fuel : nat) (r : Resources) (l : list (ConfigSource * result Provision.Error Registration))
  (t0 : Tables) (x x' : Provision.Traced S) :
  runs fuel r l x x' -> recorded t0 x ->
  recorded t0 x' /\ durable (inner x).1 (inner x').1 /\
  Forall (fun '(s, a) => match a with
    | Ok reg => established (rs_provision r) (default zeroSource (rs_sources r !! cs_ID s)) reg (inner x').1
    | Err _ => True end) l.
Proof.
  intros Hr. revert t0. induction Hr as [x|s a l x x1 x2 Hp _ IH]; intros t0 Hx; [split_and!; [done|done|constructor]|].
  pose proof (provision_recorded _ _ _ _ _ _ _ Hx Hp) as Hx1. destruct (IH t0 Hx1) as (H2 & Hd & Hall). split; [done|].
  assert (recorded (inner x).1 x) as Hx0 by (split; [done|apply Hx]).
  pose proof (provision_recorded _ _ _ _ _ _ _ Hx0 Hp) as [Hd1 _]. split; [by etrans|]. constructor; [|done].
  destruct a as [reg|]; [|done]. eapply established_durable; [exact Hd|]. by eapply provisioned_established.
Qed.

Lemma startup_recorded {A : Type} (t0 : Tables) (f : Act S A) (x x' : Provision.Traced S) (a : A) (Q : A -> Tables -> Prop) :
  lasting f Q -> recorded t0 x -> (let '(a, w) := f (inner x) in (a, mkTraced w (events x))) = (a, x') -> recorded t0 x' /\ Q a (inner x').1.
Proof.
  intros Hf [H0 Hl]. destruct (f (inner x)) as [b y] eqn:Hb. apply Hf in Hb as [Hd Hb]. intros [= <- <-]. split; [split; cbn|done].
  - by etrans.
  - by eapply answers_durable.
Qed.

Lemma pools_recorded (t0 : Tables) (sources : list ConfigSource) :
  triple (recorded t0) (openPools (W := Provision.Traced S) sources) (fun _ => recorded t0).
Proof.
  induction sources as [|s sources IH]; cbn [openPools]; [by intros x|]. apply kept_bind; [|done]. intros x Hx.
  destruct (OpenPool _ _ x) as [a x1] eqn:H1. by eapply startup_recorded in H1 as [H1 _]; [|apply ext_lasting|exact Hx].
Qed.

Lemma bootstrap_recorded (t0 : Tables) (engine : Engine) (application : Application) (g : Generation) (x x' : Provision.Traced S) (r : Resources) :
  recorded t0 x -> Bootstrap engine application g x = (Ok r, x') ->
  recorded t0 x' /\ rs_sources r = sourcesByID (app_Sources application) /\
  sv_Scope (rs_provision r) = rs_scope r /\ rs_scope r = mkScope (en_Namespace engine) (en_Environment engine) g /\
  sv_Partitions (rs_provision r) = en_Partitions engine.
Proof.
  intros Hx. unfold Bootstrap, act_try, stop_if, pure, throw, give, mbind, act_bind, reject_if. destruct (negb _); [done|].
  destruct (NewAdmin _ x) as [a x1] eqn:H1. eapply startup_recorded in H1 as [H1 _]; [|apply ext_lasting|exact Hx].
  destruct a; [|done]. destruct (OpenStore _ x1) as [b x2] eqn:H2. eapply startup_recorded in H2 as [H2 _]; [|apply ext_lasting|exact H1].
  destruct b; [|by destruct (CloseAdmin x2)]. destruct (openPools _ x2) as [u x3] eqn:H3.
  apply (triple_run _ _ _ _ _ _ (pools_recorded t0 _) H2) in H3. intros [= <- <-]. by split_and!.
Qed.

Lemma subscriptions_lasting (scope : Scope) (ids : list string) :
  lasting (stored (fun db => EnsureSubscriptions db scope ids)) (fun a t =>
    match a with Ok _ => forall id, id ∈ ids -> is_Some (tb_subscriptions t !! (scope, id)) | Err _ => True end).
Proof.
  apply stored_lasting.
  - intros db t a t' Hrun. pose proof (step_durable t _ (step_ensure t db scope ids)) as Hd.
    rewrite Hrun in Hd. split; [exact Hd|]. destruct a; [|done]. by eapply ensure_subscribed.
  - intros [u|] t t' Hd; [|done]. intros Hsub id Hid. destruct (Hsub id Hid) as [[d v] Hdv].
    apply (dur_subscriptions _ _ Hd) in Hdv as (d' & v' & Hdv & _). by eexists.
Qed.

Lemma close_recorded (t0 : Tables) (r : Resources) (x : Provision.Traced S) : recorded t0 x -> recorded t0 (Close r x).2.
Proof.
  intros Hx. unfold Close, mbind, act_bind. destruct (CloseAdmin x) as [[] x1] eqn:H1. eapply startup_recorded in H1 as [H1 _]; [|apply ext_lasting|exact Hx].
  destruct (CloseStore x1) as [[] x2] eqn:H2. eapply startup_recorded in H2 as [H2 _]; [|apply ext_lasting|exact H1].
  destruct (ClosePools _ x2) as [[] x3] eqn:H3. by eapply startup_recorded in H3 as [H3 _]; [|apply ext_lasting|exact H2].
Qed.
End Stored.

(** C7. A provision command that exits with 0 has, in the control store, every
    configured source registered under its own capture names with an identity
    its table gave, and every destination's subscription, and it lost nothing
    the store held; other clients may call the store at any time and only add
    to this. *)
Theorem provision_recorded_all {W : Type} `{External W} (fuel : nat) (engine : Engine) (application : Application)
  (generation : Generation) (m m' : Term (Provision.Traced (Tables * W))) :
  ApplicationValidate application = Ok tt -> events (world m) = [] ->
  Provision fuel engine application generation m = Some (0, m') ->
  let scope := mkScope (en_Namespace engine) (en_Environment engine) generation in
  let t := (inner (world m')).1 in
  durable (inner (world m)).1 t /\
  (forall s, s ∈ app_Sources application -> exists service reg,
     sv_Scope service = scope /\ sv_Partitions service = en_Partitions engine /\ established service (sourceOf s) reg t) /\
  (forall d, d ∈ app_Destinations application -> is_Some (tb_subscriptions t !! (scope, cd_ID d))).
Proof.
  intros Hv He. unfold Provision, on_world. destruct (Bootstrap _ _ _ (world m)) as [[r|e] x1] eqn:Hb; [|done].
  assert (recorded (inner (world m)).1 (world m)) as Hx by (split; [done|by rewrite He]).
  apply (bootstrap_recorded _ _ _ _ _ _ _ Hx) in Hb as (Hx1 & Hsrc & Hsc & Hscope & Hparts). clear Hx.
  intros ([ok m1] & Hl & Hr)%bind_Some. apply loop_runs in Hl as (l & Hl & Hruns & Hok & _ & _). cbn [world stdout stderr] in *.
  apply (runs_established _ _ _ _ _ _ Hruns) in Hx1 as ([Hd0 Ha] & _ & Hall). destruct ok; [|by destruct (Close r (world m1))].
  assert (recorded (inner (world m1)).1 (world m1)) as Hx2 by (by split).
  unfold ensureSubscriptions, on_world, mbind, act_bind in Hr.
  destruct (RecordSubscriptions _ _ (world m1)) as [e x3] eqn:Hsub.
  eapply (startup_recorded _ _ _ _ _ (fun a t => match a with Ok _ => forall id, id ∈ destinationIDs (app_Destinations application) ->
    is_Some (tb_subscriptions t !! (rs_scope r, id)) | Err _ => True end)) in Hsub as [Hx3 Hids]; [|apply subscriptions_lasting|exact Hx2].
  destruct e as [u|e]; cbn -[Sprintf Close] in Hr; [|by destruct (Close r x3)].
  assert (recorded (inner x3).1 x3) as Hx3' by (split; [done|apply Hx3]).
  pose proof (close_recorded _ r _ Hx3) as [Hd1 _]. pose proof (close_recorded _ r _ Hx3') as [Hd3 _].
  destruct (Close r x3) as [[] x4]. injection Hr as <-. cbn [world inner snd] in *. split; [by etrans|]. split.
  - intros s Hs. assert (exists a, (s, a) ∈ l) as [a Hin].
    { rewrite <- Hl in Hs. apply list_elem_of_fmap in Hs as ([s' a] & -> & Hin). by exists a. }
    rewrite Forall_forall in Hall. specialize (Hall _ Hin). cbn in Hall.
    assert (exists reg, a = Ok reg) as [reg ->].
    { symmetry in Hok. cbn in Hok. rewrite forallb_forall in Hok. specialize (Hok (s, a)). rewrite <- list_elem_of_In in Hok.
      specialize (Hok Hin). destruct a as [reg|]; [by exists reg|done]. }
    rewrite Hsrc, (sources_found application s Hv Hs) in Hall. exists (rs_provision r), reg. rewrite <- Hscope.
    split; [by rewrite Hsc|]. split; [done|]. exact (established_durable _ _ _ _ _ Hd1 Hall).
  - intros d Hin. rewrite <- Hscope. destruct (Hids (cd_ID d)) as [[st v] Hrow]; [by apply list_elem_of_fmap_2|].
    apply (dur_subscriptions _ _ Hd3) in Hrow as (st' & v' & Hrow & _). by eexists.
Qed.

(** ** Witnesses *)

(** A healthy source table and capture; the store's first statement after [n]
    others fails once. *)
Module StoreSim.
#[export] Instance sim_external : External nat := {
  ExtTable _ w := (Ok Provision.Sim.facts, w);
  ExtSlot _ _ w := (Ok (mkSlotStatus true "reserved"), w);
  ExtEnsureTopic _ _ _ w := (Ok Provision.Sim.id, w);
  ExtTopic _ w := (Ok (mkTopicFacts true Provision.Sim.id 2 {[ 0 := 1; 1 := 1 ]}), w);
  ExtConnector _ _ _ _ w := (Ok tt, w);
  ExtStatus _ w := (Ok (Provision.mkStatus "RUNNING" ["RUNNING"] false ""), w);
  ExtWait w := (true, w);
  ExtAdmin _ w := (Ok tt, w);
  ExtStore _ w := (Ok tt, w);
  ExtPool _ _ w := (tt, w);
  ExtClose w := (tt, w);
  DbError w := (match w with 1%nat => Some DeadlineExceeded | _ => None end, pred w);
  Clients t w := (t, w);
  Clients_steps t w := rtc_refl step t }.

Definition source : ConfigSource :=
  mkConfigSource "orders" "Orders" "postgres" "db" 5432 "u" "p" "shop" "orders" ["id"; "customer"] "id" "customer".
Definition application : Application :=
  mkApplication [source] [mkConfigDestination "billing" "Billing" "http-push" "https://b" "u" "p" ["orders"] None].
Definition engine : Engine := mkEngine 1 "acme" "production" "app.yaml" ["k"] 2 1 "http://connect" ":8080" "" "postgres://" 1 1 [].
Definition start (n : nat) : Term (Provision.Traced (Tables * nat)) := mkTerm (mkTraced (empty_tables, n) []) [] [].
Definition run (n : nat) := Provision 1 engine application 1 (start n).
Definition end_ (n : nat) : Term (Provision.Traced (Tables * nat)) := default (start n) (snd <$> run n).
End StoreSim.
#[export] Existing Instance StoreSim.sim_external.

Lemma provision_returns_witness : exists code m', Provision 0 StoreSim.engine StoreSim.application 1 (StoreSim.start 0) = Some (code, m').
Proof.
  apply (provision_returns (W := Provision.Traced (Tables * nat)) (fun _ => 0%nat)); [|done]. split; try done.
  intros [[t n] trace] w' Hw. discriminate Hw.
Defined.

(** Everything works; the lookup fails; the subscriptions fail. *)
Lemma provision_exit_witness :
  (length (stdout (StoreSim.end_ 0)) = 1 /\ stderr (StoreSim.end_ 0) = [])%nat /\
  stderr (StoreSim.end_ 1) = ["orders: control: get stream " +:+ Json.qstr "orders" +:+ ": context deadline exceeded"] /\
  match Bootstrap StoreSim.engine StoreSim.application 1 (world (StoreSim.start 3)) with
  | (Ok r, w) => exists l w1, map fst l = [StoreSim.source] /\ runs 1 r l w w1
  | _ => False
  end.
Proof.
  split; [vm_compute; done|]. split; [vm_compute; reflexivity|].
  assert (Provision 1 StoreSim.engine StoreSim.application 1 (StoreSim.start 3) = Some (1, StoreSim.end_ 3)) as Hrun by (vm_compute; reflexivity).
  apply provision_exit in Hrun as Hp.
  assert (is_ok (Bootstrap StoreSim.engine StoreSim.application 1 (world (StoreSim.start 3))).1 = true) as Hok by (vm_compute; reflexivity).
  revert Hp Hok. generalize (Bootstrap StoreSim.engine StoreSim.application 1 (world (StoreSim.start 3))) as b.
  intros [[r|e] w] Hp Hok; [|discriminate Hok].
  destruct Hp as (l & w1 & Hl & Hr & _). exists l, w1. split; [exact Hl|exact Hr].
Defined.

Lemma provision_recorded_all_witness :
  exists service reg, established service (sourceOf StoreSim.source) reg (inner (world (StoreSim.end_ 0))).1.
Proof.
  destruct (provision_recorded_all 1 StoreSim.engine StoreSim.application 1 (StoreSim.start 0) (StoreSim.end_ 0)) as (_ & Hs & _);
    [vm_compute; reflexivity|reflexivity|vm_compute; reflexivity|].
  destruct (Hs StoreSim.source) as (service & reg & _ & _ & H); [by left|]. exists service, reg. exact H.
Defined.
