(* ===== verification/Control.v ===== *)
(** * Control: the reconcile loop, the dispatch fence and change requests

    Models [internal/control]: state.go, service.go and reconcile.go.  The
    service's memory is [Svc]; each section under its lock is one update.  The
    store, the monitor, Kafka's health and the consumers are reached through
    an interface, [Env].  Other goroutines run all the time: during every call
    and before every section under the lock, the sections of [Block], of
    [Signal] and of the activity log that ran meanwhile are [Interference]'s.
    A consumer is a handle; [m_running] records which handles have been started
    and not yet stopped, and for which destination.  [m_seen] is the history of
    every state the service was ever in, inside a pass or between passes: what
    any goroutine may have seen. *)

From S2P Require Import Prelude Strconv GoTime Stream Activity JsonCodec Act ControlStore.
From stdpp Require Import sorting relations.
Local Open Scope Z_scope.

(** ** State *)
Definition StateRunning : string := "running".
Definition StatePaused : string := "paused".
Definition StateStarting : string := "starting".
Definition StatePausing : string := "pausing".
Definition StateBlocked : string := "blocked".

Definition sourceStarting : string := "starting".
Definition sourceRunning : string := "running".
Definition sourceBlocked : string := "blocked".
Definition sourceUnavailable : string := "unavailable".

Definition statusStarting : string := "starting".
Definition statusReady : string := "ready".
Definition statusDegraded : string := "degraded".

Record Subscription : Type := mkSubscription {
  sb_ID : string; sb_State : string; sb_DesiredState : string; sb_Error : string }.

Record SourceStatus : Type := mkSourceStatus { ss_ID : string; ss_State : string; ss_Error : string }.

(** The health flags of [Status]; its source list is built when it is read. *)
Record Status : Type := mkStatus { st_Status : string; st_Kafka : bool; st_Control : bool }.

Definition paused (d : DesiredSubscription) : bool := str_eqb (ds_Desired d) StatePaused.

Record Destination : Type := mkDestination { de_ID : string; de_Sources : list string }.

(** One destination's mutable state; a consumer is a handle. *)
Record subscription : Type := mkSub { su_view : Subscription; su_revision : Z; su_consumer : option nat }.

(** The activity log [New] is given, and what was added to it since, in order. *)
Record Journal : Type := mkJournal { jn_log : Activity.Log; jn_added : list Entry }.

Record Svc : Type := mkSvc {
  sources : list Source;
  destinations : list Destination;
  scope : Scope;
  workerID : string;
  wake : bool;                          (* a signal is pending *)
  status : Status;
  streams : gmap string Registration;
  sourceStates : gmap string SourceStatus;
  subscriptions : gmap string subscription;
  leaseUntil : Z;
  journal : Journal }.

Definition set_status (s : Svc) v := mkSvc (sources s) (destinations s) (scope s) (workerID s) (wake s) v (streams s) (sourceStates s) (subscriptions s) (leaseUntil s) (journal s).
Definition set_wake (s : Svc) v := mkSvc (sources s) (destinations s) (scope s) (workerID s) v (status s) (streams s) (sourceStates s) (subscriptions s) (leaseUntil s) (journal s).
Definition set_stream (s : Svc) v := mkSvc (sources s) (destinations s) (scope s) (workerID s) (wake s) (status s) v (sourceStates s) (subscriptions s) (leaseUntil s) (journal s).
Definition set_sources (s : Svc) v := mkSvc (sources s) (destinations s) (scope s) (workerID s) (wake s) (status s) (streams s) v (subscriptions s) (leaseUntil s) (journal s).
Definition set_subs (s : Svc) v := mkSvc (sources s) (destinations s) (scope s) (workerID s) (wake s) (status s) (streams s) (sourceStates s) v (leaseUntil s) (journal s).
Definition set_lease (s : Svc) v := mkSvc (sources s) (destinations s) (scope s) (workerID s) (wake s) (status s) (streams s) (sourceStates s) (subscriptions s) v (journal s).
Definition set_journal (s : Svc) v := mkSvc (sources s) (destinations s) (scope s) (workerID s) (wake s) (status s) (streams s) (sourceStates s) (subscriptions s) (leaseUntil s) v.

Definition log_entry (e : Entry) (s : Svc) : Svc := set_journal s (mkJournal (jn_log (journal s)) (jn_added (journal s) ++ [e])).

(** The log by now; [clock n] is what the [n]-th addition reads as the time. *)
Definition activity (clock : nat -> Time) (s : Svc) : Activity.Log :=
  Activity.add_all (jn_log (journal s)) (imap (fun n e => (clock n, e)) (jn_added (journal s))).

Definition zeroStatus : SourceStatus := mkSourceStatus "" "" "".

(** Map reads with Go's zero value. *)
Definition stream_of (s : Svc) (id : string) : Registration := default zeroRegistration (streams s !! id).
Definition state_of (s : Svc) (id : string) : SourceStatus := default zeroStatus (sourceStates s !! id).

(** ** Pure parts *)
Definition overallStatus (ss : gmap string SourceStatus) (subs : gmap string subscription) : string :=
  if existsb (fun '(_, s) => negb (str_eqb (ss_State s) sourceRunning)) (map_to_list ss) then statusDegraded
  else if existsb (fun '(_, s) => negb (str_eqb (sb_State (su_view s)) StateRunning) && negb (str_eqb (sb_State (su_view s)) StatePaused))
            (map_to_list subs) then statusDegraded
  else statusReady.

Definition restingState (desired : DesiredSubscription) (reason : string) : string * string :=
  if paused desired then (StatePaused, "") else (StateBlocked, reason).

Definition pendingState (requested : string) : string := if str_eqb requested StatePaused then StatePausing else StateStarting.

Fixpoint findDestination (ds : list Destination) (id : string) : Destination :=
  match ds with
  | [] => mkDestination "" []
  | d :: ds => if str_eqb (de_ID d) id then d else findDestination ds id
  end.

Fixpoint destinationReady (s : Svc) (ids : list string) : bool * string :=
  match ids with
  | [] => (true, "")
  | id :: ids =>
      if negb (str_eqb (ss_State (state_of s id)) sourceRunning) then (false, "source unavailable: " +:+ id)
      else destinationReady s ids
  end.

Definition entry (message source destination err : string) (generation : Z) : Entry :=
  mkEntry "" (mkTime 0 0) "" message source destination generation "" 0 0 "" "" "" 0 "" err.

(** ** Sections under the lock *)

(** [Block]'s first section: the in-memory latch. *)
Definition latch (source reason : string) (s : Svc) : Svc :=
  set_stream s (<[ source := with_blocked (stream_of s source) reason ]> (streams s)).

(** [sourceState], with the log entry it adds when something changed. *)
Definition sourceState (id state reason : string) (s : Svc) : Svc :=
  let old := state_of s id in
  let blocked := Blocked (stream_of s id) in
  let '(state, reason) := if negb (str_eqb blocked "") then (sourceBlocked, blocked) else (state, reason) in
  let s := set_sources s (<[ id := mkSourceStatus id state reason ]> (sourceStates s)) in
  if negb (str_eqb (ss_State old) state) || negb (str_eqb (ss_Error old) reason) then
    log_entry (entry ("source " +:+ state) id "" reason 0) s
  else s.

Definition cacheStream (registered : Registration) (s : Svc) : Registration * Svc :=
  let blocked := Blocked (stream_of s (RegSourceID registered)) in
  let registered := if negb (str_eqb blocked "") then with_blocked registered blocked else registered in
  (registered, set_stream s (<[ RegSourceID registered := registered ]> (streams s))).

Definition upd_sub (id : string) (f : subscription -> subscription) (s : Svc) : Svc := set_subs s (alter f id (subscriptions s)).

Definition with_view (f : Subscription -> Subscription) (u : subscription) : subscription :=
  mkSub (f (su_view u)) (su_revision u) (su_consumer u).
Definition with_state (state err : string) (v : Subscription) : Subscription := mkSubscription (sb_ID v) state (sb_DesiredState v) err.
Definition only_state (state : string) (v : Subscription) : Subscription := mkSubscription (sb_ID v) state (sb_DesiredState v) (sb_Error v).
Definition with_desired (d : string) (v : Subscription) : Subscription := mkSubscription (sb_ID v) (sb_State v) d (sb_Error v).
Definition with_consumer (c : option nat) (u : subscription) : subscription := mkSub (su_view u) (su_revision u) c.
Definition with_revision (r : Z) (u : subscription) : subscription := mkSub (su_view u) r (su_consumer u).

(** The sections of other goroutines: the three of [Block], the last of which
    is [Signal]'s, and an addition to the activity log by a consumer. *)
Inductive section : Type :=
| SLatch (source reason : string)
| SShow (source reason : string)
| SSignal
| SLog (e : Entry).

Definition run_section (x : section) (s : Svc) : Svc :=
  match x with
  | SLatch source reason => latch source reason s
  | SShow source reason => sourceState source sourceBlocked reason s
  | SSignal => set_wake s true
  | SLog e => log_entry e s
  end.

(** ** The outside world *)
Class Env (W : Type) : Type := {
  Now : W -> Z;
  ended : W -> option error;            (* the error of the context given to Start *)
  Interference : W -> list section * W; (* what other goroutines ran since the last time *)
  EnvGetStream : Scope -> string -> Act W (result error (option Registration));
  EnvBlockSource : Scope -> string -> string -> Act W (result error unit);
  EnvEnsureSubscriptions : Scope -> list string -> Act W (result error unit);
  EnvSubscriptions : Scope -> Act W (result error (list DesiredSubscription));
  EnvSetDesired : Scope -> string -> string -> Act W (result error DesiredSubscription);
  EnvRenewLease : Scope -> string -> Z -> Act W (result error unit);
  EnvObserve : Scope -> string -> string -> Z -> string -> Act W (result error unit);
  EnvObserved : Scope -> string -> Z -> string -> Act W (result error bool);
  EnvReleaseLease : Scope -> string -> Act W (result error unit);
  EnvPing : Act W (result error unit);
  EnvInspectSource : Source -> Registration -> Act W (string * string);
  NewConsumer : Destination -> gmap string Registration -> Act W (result error nat);
  CancelConsumer : nat -> Act W unit;
  StopConsumer : nat -> Act W unit;
  ConsumerReady : nat -> Act W bool;
  ConsumerFinished : nat -> Act W bool;
  Tick : Act W (option error);          (* a select: the context's error, or a ticker or signal *)
  Signaled : W -> bool }.               (* whether it took the pending signal *)

(** A state the service was in, and the section that led to it. *)
Record Seen (W : Type) : Type := mkSeen { se_by : option section; se_svc : Svc; se_env : W; se_running : gmap nat string }.
Arguments mkSeen {W}. Arguments se_by {W}. Arguments se_svc {W}. Arguments se_env {W}. Arguments se_running {W}.

Record Machine (W : Type) : Type := mkMachine { svc : Svc; env : W; m_running : gmap nat string; m_seen : list (Seen W) }.
Arguments mkMachine {W}. Arguments svc {W}. Arguments env {W}. Arguments m_running {W}. Arguments m_seen {W}.

(** Every change of a machine is one of these; each is remembered. *)
Definition note {W : Type} (x : option section) (m : Machine W) : Machine W :=
  mkMachine (svc m) (env m) (m_running m) (m_seen m ++ [mkSeen x (svc m) (env m) (m_running m)]).
Definition outside {W : Type} (w : W) (m : Machine W) : Machine W := note None (mkMachine (svc m) w (m_running m) (m_seen m)).
Definition on_service {W : Type} (f : Svc -> Svc) (m : Machine W) : Machine W :=
  note None (mkMachine (f (svc m)) (env m) (m_running m) (m_seen m)).
Definition on_running {W : Type} (f : gmap nat string -> gmap nat string) (m : Machine W) : Machine W :=
  note None (mkMachine (svc m) (env m) (f (m_running m)) (m_seen m)).
Definition perform {W : Type} (x : section) (m : Machine W) : Machine W :=
  note (Some x) (mkMachine (run_section x (svc m)) (env m) (m_running m) (m_seen m)).

Definition leaseTTL : Z := 30 * 1000000000.

(** The dispatch fence at an instant. *)
Definition allows (s : Svc) (now : Z) (source : string) : bool :=
  st_Control (status s) && st_Kafka (status s) && (now <? leaseUntil s) && str_eqb (ss_State (state_of s source)) sourceRunning.

Section Programs.
Context {W : Type} `{Env W}.
Abbreviation M := (Machine W).

(** Other goroutines run. *)
Definition others_run : Act M unit := fun m =>
  let '(sections, w) := Interference (env m) in (tt, foldl (fun m x => perform x m) (outside w m) sections).

Definition call {A : Type} (f : Act W A) : Act M A := fun m =>
  let '(a, w) := f (env m) in let '(_, m) := others_run (outside w m) in (a, m).

Definition ret {A : Type} (a : A) : Act M A := fun m => (a, m).

(** A section under the lock, a read under it, and a read of what never
    changes. *)
Definition updating {A : Type} (f : Svc -> A * Svc) : Act M A :=
  _ ← others_run; ((fun m => ((f (svc m)).1, on_service (fun s => (f s).2) m)) : Act M A).
Definition locked (f : Svc -> Svc) : Act M unit := updating (fun s => (tt, f s)).
Definition section_of (x : section) : Act M unit := _ ← others_run; ((fun m => (tt, perform x m)) : Act M unit).
Definition reading {A : Type} (f : Svc -> A) : Act M A := fun m => (f (svc m), m).
Definition looking {A : Type} (f : Svc -> A) : Act M A := _ ← others_run; reading f.
Definition at_time (f : Svc -> Z -> Svc) : Act M unit :=
  _ ← others_run; ((fun m => (tt, on_service (fun s => f s (Now (env m))) m)) : Act M unit).
Definition started (c : nat) (id : string) : Act M unit := fun m => (tt, on_running (insert c id) m).
Definition stop (c : nat) : Act M unit := _ ← call (StopConsumer c); ((fun m => (tt, on_running (delete c) m)) : Act M unit).

Fixpoint each {A : Type} (f : A -> Act M unit) (l : list A) : Act M unit :=
  match l with [] => ret tt | x :: l => _ ← f x; each f l end.

Definition log_add (e : Entry) : Act M unit := section_of (SLog e).

Definition Signal : Act M unit := section_of SSignal.

(** ** Sources *)
Definition Block (source reason : string) : Act M unit :=
  _ ← section_of (SLatch source reason);
  _ ← section_of (SShow source reason);
  sc ← reading scope;
  _ ← call (EnvBlockSource sc source reason);
  Signal.

Definition inspectSource (source : Source) : Act M unit :=
  local ← looking (fun s => stream_of s (ID source));
  sc ← reading scope;
  if negb (str_eqb (Blocked local) "") then
    _ ← call (EnvBlockSource sc (ID source) (Blocked local)); ret tt
  else
    r ← call (EnvGetStream sc (ID source));
    match r with
    | Err _ => locked (sourceState (ID source) sourceUnavailable "control state unavailable")
    | Ok None => locked (sourceState (ID source) sourceBlocked "source must be provisioned")
    | Ok (Some registered) =>
        registered ← updating (cacheStream registered);
        if negb (str_eqb (Blocked registered) "") then
          locked (sourceState (ID source) sourceBlocked (Blocked registered))
        else
          '(state, reason) ← call (EnvInspectSource source registered);
          if str_eqb state sourceBlocked then Block (ID source) reason
          else locked (sourceState (ID source) state reason)
    end.

(** ** Dependencies *)
Definition refreshDependencies : Act M (list DesiredSubscription * bool) :=
  sc ← reading scope;
  w ← reading workerID;
  leaseErr ← call (EnvRenewLease sc w leaseTTL);
  desired ← call (EnvSubscriptions sc);
  kafkaErr ← call EnvPing;
  let controlHealthy := is_ok leaseErr && is_ok desired in
  let kafkaHealthy := is_ok kafkaErr in
  _ ← at_time (fun s now =>
        let s := set_status s (mkStatus (st_Status (status s)) kafkaHealthy controlHealthy) in
        if is_ok leaseErr then set_lease s (now + leaseTTL) else s);
  ret (match desired with Ok l => l | Err _ => [] end, controlHealthy && kafkaHealthy).

(** ** Consumers *)
Definition consumers_of (s : Svc) : list nat := omap (fun '(_, u) => su_consumer u) (map_to_list (subscriptions s)).

Definition mark_stopped (s : Svc) : Svc :=
  set_subs s ((fun u => match su_consumer u with
    | Some _ => with_consumer None (with_view (with_state StateBlocked "engine dependencies unavailable") u)
    | None => u
    end) <$> subscriptions s).

Definition stopAll : Act M unit :=
  consumers ← looking consumers_of;
  _ ← each (fun c => call (CancelConsumer c)) consumers;
  _ ← each stop consumers;
  locked mark_stopped.

Definition degrade : Act M unit :=
  _ ← locked (fun s => set_status s (mkStatus statusDegraded (st_Kafka (status s)) (st_Control (status s))));
  stopAll.

Definition shown_state (id : string) (s : Svc) : string := default "" (sb_State ∘ su_view <$> subscriptions s !! id).

Definition rest (id : string) (consumer : option nat) (desired : DesiredSubscription) (reason : string) : Act M unit :=
  _ ← match consumer with
      | None => ret tt
      | Some c =>
          _ ← locked (upd_sub id (with_view (only_state StatePausing)));
          _ ← stop c;
          locked (upd_sub id (with_consumer None))
      end;
  let '(state, err) := restingState desired reason in
  previous ← updating (fun s => (shown_state id s,
    upd_sub id (fun u => with_revision (ds_Revision desired) (with_view (with_state state err) u)) s));
  if negb (str_eqb previous state) then log_add (entry state "" (ds_ID desired) err 0) else ret tt.

Definition newConsumer (destination : Destination) : Act M (result error nat) :=
  registered ← looking (fun s => list_to_map (map (fun id => (id, stream_of s id)) (de_Sources destination)));
  call (NewConsumer destination registered).

Definition ensureConsumer (id : string) (consumer : option nat) (destination : Destination) : Act M (option nat) :=
  consumer ← (match consumer with
      | None => ret None
      | Some c =>
          finished ← call (ConsumerFinished c);
          if (finished : bool) then _ ← stop c; _ ← locked (upd_sub id (with_consumer None)); ret None
          else ret (Some c)
      end : Act M (option nat));
  match consumer with
  | Some c => ret (Some c)
  | None =>
      r ← newConsumer destination;
      match r with
      | Err _ => _ ← locked (upd_sub id (with_view (with_state StateBlocked "Kafka consumer unavailable"))); ret None
      | Ok c =>
          _ ← locked (upd_sub id (fun u => with_consumer (Some c) (with_view (with_state StateStarting "") u)));
          _ ← started c id;
          ret (Some c)
      end
  end.

Definition markProgress (id : string) (desired : DesiredSubscription) (ready : bool) : Act M unit :=
  if negb ready then locked (upd_sub id (with_view (only_state StateStarting)))
  else
    changed ← updating (fun s => (negb (str_eqb (shown_state id s) StateRunning),
      upd_sub id (fun u => with_revision (ds_Revision desired) (with_view (with_state StateRunning "") u)) s));
    if (changed : bool) then log_add (entry "running" "" (ds_ID desired) "" 0) else ret tt.

Definition reconcileSubscription (desired : DesiredSubscription) : Act M unit :=
  let id := ds_ID desired in
  s ← updating (fun s => (subscriptions s !! id, upd_sub id (with_view (with_desired (ds_Desired desired))) s));
  match s with
  | None => ret tt
  | Some u =>
      let consumer := su_consumer u in
      destination ← reading (fun s => findDestination (destinations s) id);
      '(ready, reason) ← looking (fun s => destinationReady s (de_Sources destination));
      if paused desired || negb ready then rest id consumer desired reason
      else
        c ← ensureConsumer id consumer destination;
        match c with
        | None => ret tt
        | Some c => ready ← call (ConsumerReady c); markProgress id desired ready
        end
  end.

(** ** Observations and the pass *)
Definition observations (s : Svc) : list DesiredSubscription :=
  omap (fun '(id, u) => if 0 <? su_revision u then Some (mkDesired id (sb_State (su_view u)) (su_revision u)) else None)
    (map_to_list (subscriptions s)).

Fixpoint report_loop (l : list DesiredSubscription) : Act M bool :=
  match l with
  | [] => ret true
  | o :: l =>
      sc ← reading scope; w ← reading workerID;
      r ← call (EnvObserve sc w (ds_ID o) (ds_Revision o) (ds_Desired o));
      match r with Err _ => ret false | Ok _ => report_loop l end
  end.

Definition reportObservations : Act M bool := l ← looking observations; report_loop l.

Definition reconcile : Act M unit :=
  '(desired, healthy) ← refreshDependencies;
  _ ← (if healthy then ss ← reading sources; each inspectSource ss else ret tt);
  over ← (fun m => (bool_decide (is_Some (ended (env m))), m));
  if negb healthy || over then degrade
  else
    _ ← each reconcileSubscription desired;
    reported ← reportObservations;
    if negb reported then
      _ ← locked (fun s => set_status s (mkStatus (st_Status (status s)) (st_Kafka (status s)) false));
      degrade
    else locked (fun s => set_status s (mkStatus (overallStatus (sourceStates s) (subscriptions s)) (st_Kafka (status s)) (st_Control (status s)))).

Definition releaseLease : Act M unit :=
  sc ← reading scope; w ← reading workerID; _ ← call (EnvReleaseLease sc w); ret tt.

(** The select's signal case takes the signal; the ticker's leaves it pending. *)
Definition take_signal (taken : bool) (s : Svc) : Svc := set_wake s (wake s && negb taken).

(** [Start]'s loop; fuel bounds its passes. *)
Fixpoint start_loop (fuel : nat) (m : M) : option M :=
  let '(_, m) := reconcile m in
  let '(over, m) := call Tick m in
  match over, fuel with
  | Some _, _ => Some (stopAll m).2
  | None, O => None
  | None, S fuel => start_loop fuel (on_service (take_signal (Signaled (env m))) m)
  end.

Definition announce : Act M unit := g ← reading (fun s => ScopeGeneration (scope s)); log_add (entry "engine started" "" "" "" g).

Definition Start (fuel : nat) (m : M) : option M :=
  let '(_, m) := announce m in
  m ← start_loop fuel m;
  Some (releaseLease m).2.

(** ** Reads *)
Definition Allowed (m : M) (source : string) : bool := allows (svc m) (Now (env m)) source.

Definition LeaseDeadline (m : M) : Z := leaseUntil (svc m).

Definition status_le (a b : SourceStatus) : Prop := str_le (ss_ID a) (ss_ID b).
#[export] Instance status_le_dec : RelDecision status_le := fun a b => decide (String.leb (ss_ID a) (ss_ID b) = true).
Definition StatusOf (s : Svc) : Status * list SourceStatus :=
  (status s, merge_sort status_le (map snd (map_to_list (sourceStates s)))).

Definition sub_le (a b : Subscription) : Prop := str_le (sb_ID a) (sb_ID b).
#[export] Instance sub_le_dec : RelDecision sub_le := fun a b => decide (String.leb (sb_ID a) (sb_ID b) = true).
Definition SubscriptionsOf (s : Svc) : list Subscription :=
  merge_sort sub_le (map (fun '(_, u) => su_view u) (map_to_list (subscriptions s))).

Definition snapshot (s : Svc) (id : string) : option (Subscription * Z) :=
  (fun u => (su_view u, su_revision u)) <$> subscriptions s !! id.

(** ** Change requests *)
Definition zeroSub : Subscription := mkSubscription "" "" "" "".

(** One look of the waiting loop: the view and error to return, or the view to
    show if the context ends while waiting for the next look. *)
Definition look (id state : string) (revision : Z) : Act M (Subscription * option error + Subscription) := fun m =>
  let '(view, applied) := default (zeroSub, 0) (snapshot (svc m) id) in
  let superseded := (revision <? applied) && negb (str_eqb (sb_DesiredState view) state) in
  let again (view : Subscription) : Subscription * option error + Subscription :=
    if superseded then inl (view, Some (Errorf "control request superseded" [])) else inr view in
  if (revision <=? applied) && str_eqb (sb_State view) state && str_eqb (sb_DesiredState view) state then
    let '(observed, m) := call (EnvObserved (scope (svc m)) id revision state) m in
    match observed with
    | Err _ => (inl (view, Some (Errorf "worker observation unavailable" [])), m)
    | Ok true => (inl (view, None), m)
    | Ok false => (again (only_state (pendingState state) view), m)
    end
  else (again view, m).

(** [others] is what the reconcile loop and other goroutines do between two
    looks. *)
Fixpoint awaitConvergence (fuel : nat) (others : M -> M) (id state : string) (revision : Z) (m : M) :
  option ((Subscription * option error) * M) :=
  let '(r, m) := look id state revision (others m) in
  match r with
  | inl answer => Some (answer, m)
  | inr view =>
      let '(over, m) := call Tick m in
      match over, fuel with
      | Some e, _ => Some ((view, Some e), m)
      | None, O => None
      | None, S fuel => awaitConvergence fuel others id state revision m
      end
  end.

Definition ErrNotFound : error := Errorf "subscription not found" [].

Definition Change (fuel : nat) (others : M -> M) (id state : string) (m : M) : option ((Subscription * option error) * M) :=
  match snapshot (svc m) id with
  | None => Some ((zeroSub, Some ErrNotFound), m)
  | Some _ =>
      let '(r, m) := call (EnvSetDesired (scope (svc m)) id state) m in
      match r with
      | Err _ => Some ((default zeroSub (fst <$> snapshot (svc m) id), Some (Errorf "control store unavailable" [])), m)
      | Ok desired =>
          let '(_, m) := Signal m in
          awaitConvergence fuel others id state (ds_Revision desired) m
      end
  end.

(** [New], with the random worker id given; [log] is the options' log. *)
Definition New (sc : Scope) (srcs : list Source) (dests : list Destination) (log : Activity.Log) (worker : string) (w : W) : result error M * W :=
  if negb (Stream.Valid (ScopeGeneration sc)) then (Err (Errorf "generation must be positive" []), w)
  else
    let subs := foldl (fun m d => <[ de_ID d := mkSub (mkSubscription (de_ID d) StateStarting "" "") 0 None ]> m) ∅ dests in
    let '(r, w) := EnvEnsureSubscriptions sc (map de_ID dests) w in
    match r with
    | Err _ => (Err (Errorf "subscriptions could not be initialized" []), w)
    | Ok _ =>
        let ss := foldl (fun m x => <[ ID x := mkSourceStatus (ID x) sourceStarting "" ]> m) ∅ srcs in
        let s := mkSvc srcs dests sc worker false (mkStatus statusStarting false false) ∅ ss subs 0 (mkJournal log []) in
        (Ok (note None (mkMachine s w ∅ [])), w)
    end.
End Programs.

(** ** Reasoning about sections *)
Section Logic.
Context {W : Type} `{Env W}.
Abbreviation M := (Machine W).

Lemma triple_ret {A : Type} (P : M -> Prop) (a : A) (Q : A -> M -> Prop) : (forall m, P m -> Q a m) -> triple P (ret a) Q.
Proof. intros HQ m Hm. by apply HQ. Qed.

Lemma triple_reading {A : Type} (P : M -> Prop) (f : Svc -> A) : triple P (reading f) (fun a m => P m /\ a = f (svc m)).
Proof. intros m Hm. done. Qed.

Lemma triple_each {A : Type} (P : M -> Prop) (f : A -> Act M unit) (l : list A) :
  (forall x, x ∈ l -> triple P (f x) (fun _ => P)) -> triple P (each f l) (fun _ => P).
Proof.
  induction l as [|x l IH]; intros Hf; [by intros m|]. cbn [each].
  eapply triple_bind; [apply Hf; by left|]. intros []. apply IH. intros y Hy. apply Hf. by right.
Qed.

(** Other goroutines' sections leave the world as [Interference] says. *)
Lemma others_run_env (m : M) : env (others_run m).2 = (Interference (env m)).2.
Proof.
  unfold others_run. destruct (Interference (env m)) as [l w]. cbn [snd]. assert (env (outside w m) = w) as Hw by done. revert Hw.
  generalize (outside w m). induction l as [|x l IH]; intros m1 Hw; [done|]. by apply IH.
Qed.

Lemma call_env {A : Type} (f : Act W A) (m : M) : (call f m).1 = (f (env m)).1 /\ env (call f m).2 = (Interference (f (env m)).2).2.
Proof.
  unfold call. destruct (f (env m)) as [a w]. pose proof (others_run_env (outside w m)) as Hi. by destruct (others_run (outside w m)).
Qed.

(** An assertion that holds whatever other goroutines do. *)
Class Lives (I : M -> Prop) : Prop := {
  lv_outside w m : I m -> I (outside w m);
  lv_section x m : (exists w, x ∈ (Interference w).1) -> I m -> I (perform x m) }.

Section Living.
Context (I : M -> Prop) `{!Lives I}.

Lemma triple_others : triple I others_run (fun _ => I).
Proof.
  intros m Hm. unfold others_run. pose proof (lv_section (I := I)) as Hsec.
  assert (forall x, x ∈ (Interference (env m)).1 -> exists w, x ∈ (Interference (W := W) w).1) as Hin by (intros x Hx; by exists (env m)).
  destruct (Interference (env m)) as [l w]. cbn [fst snd] in *. generalize (lv_outside w m Hm). generalize (outside w m). clear m Hm.
  induction l as [|x l IH]; intros m Hm; [done|]. cbn [foldl]. apply IH; [intros y Hy; apply Hin; by right|].
  apply Hsec; [apply Hin; by left|done].
Qed.

(** A call, remembering where the answer comes from. *)
Lemma triple_call_answer {A : Type} (f : Act W A) : triple I (call f) (fun a m => I m /\ exists w, a = (f w).1).
Proof.
  intros m Hm. unfold call. destruct (f (env m)) as [a w] eqn:Hf. pose proof (triple_others (outside w m) (lv_outside w m Hm)) as Hi.
  destruct (others_run (outside w m)) as [u m1]. split; [done|]. exists (env m). by rewrite Hf.
Qed.

Lemma triple_call {A : Type} (f : Act W A) : triple I (call f) (fun _ => I).
Proof. intros m Hm. by apply triple_call_answer. Qed.

Lemma triple_updating {A : Type} (f : Svc -> A * Svc) (Q : A -> M -> Prop) :
  (forall m, I m -> Q (f (svc m)).1 (on_service (fun s => (f s).2) m)) -> triple I (updating f) Q.
Proof. intros HQ. eapply triple_bind; [apply triple_others|]. intros [] m Hm. by apply HQ. Qed.

Lemma triple_locked (f : Svc -> Svc) (Q : M -> Prop) : (forall m, I m -> Q (on_service f m)) -> triple I (locked f) (fun _ => Q).
Proof. intros HQ. by apply triple_updating. Qed.

Lemma triple_at_time (f : Svc -> Z -> Svc) (Q : M -> Prop) :
  (forall m, I m -> Q (on_service (fun s => f s (Now (env m))) m)) -> triple I (at_time f) (fun _ => Q).
Proof. intros HQ. eapply triple_bind; [apply triple_others|]. intros [] m Hm. by apply HQ. Qed.

Lemma triple_section (x : section) (Q : M -> Prop) : (forall m, I m -> Q (perform x m)) -> triple I (section_of x) (fun _ => Q).
Proof. intros HQ. eapply triple_bind; [apply triple_others|]. intros [] m Hm. by apply HQ. Qed.

Lemma triple_looking {A : Type} (f : Svc -> A) : triple I (looking f) (fun a m => I m /\ a = f (svc m)).
Proof. eapply triple_bind; [apply triple_others|]. intros [] m Hm. done. Qed.

Lemma triple_stop (c : nat) (Q : M -> Prop) : (forall m, I m -> Q (on_running (delete c) m)) -> triple I (stop c) (fun _ => Q).
Proof. intros HQ. eapply triple_bind; [apply triple_call|]. intros a m Hm. by apply HQ. Qed.
End Living.

(** An assertion about the service and the running handles. *)
Definition on (P : Svc -> gmap nat string -> Prop) (m : M) : Prop := P (svc m) (m_running m).
End Logic.

(** ** The latch *)
Definition latched (src : string) (s : Svc) : Prop := Blocked (stream_of s src) <> "" /\ ss_State (state_of s src) <> sourceRunning.

Lemma stream_latch (src source reason : string) (s : Svc) :
  stream_of (latch source reason s) src = if decide (src = source) then with_blocked (stream_of s source) reason else stream_of s src.
Proof.
  unfold stream_of, latch, set_stream. cbn. destruct (decide (src = source)) as [->|Hne].
  - by rewrite lookup_insert_eq.
  - by rewrite lookup_insert_ne by done.
Qed.

(** What a section that records a source's state leaves. *)
Lemma sourceState_spec (id state reason : string) (s : Svc) :
  let s' := sourceState id state reason s in
  let blocked := Blocked (stream_of s id) in
  streams s' = streams s /\ subscriptions s' = subscriptions s /\ status s' = status s /\ leaseUntil s' = leaseUntil s /\
  sourceStates s' = <[ id := if str_eqb blocked "" then mkSourceStatus id state reason else mkSourceStatus id sourceBlocked blocked ]> (sourceStates s).
Proof.
  unfold sourceState. cbn zeta. destruct (str_eqb (Blocked (stream_of s id)) ""); cbn [negb]; case_match; cbn; done.
Qed.

Lemma state_shown (src id state reason : string) (s : Svc) :
  state_of (sourceState id state reason s) src =
  if decide (src = id) then
    (if str_eqb (Blocked (stream_of s id)) "" then mkSourceStatus id state reason
     else mkSourceStatus id sourceBlocked (Blocked (stream_of s id)))
  else state_of s src.
Proof.
  unfold state_of. destruct (sourceState_spec id state reason s) as (_ & _ & _ & _ & ->).
  destruct (decide (src = id)) as [->|Hne]; [by rewrite lookup_insert_eq|by rewrite lookup_insert_ne by done].
Qed.

Lemma stream_shown (src id state reason : string) (s : Svc) : stream_of (sourceState id state reason s) src = stream_of s src.
Proof. unfold stream_of. by destruct (sourceState_spec id state reason s) as (-> & _). Qed.

(** A latched source is shown as blocked, whatever was found. *)
Lemma show_latched (src state reason : string) (s : Svc) : Blocked (stream_of s src) <> "" -> latched src (sourceState src state reason s).
Proof.
  intros Hb. unfold latched. rewrite stream_shown, state_shown, decide_True by done. split; [done|]. by rewrite (proj2 (str_eqb_false _ _) Hb).
Qed.

Lemma sourceState_latched (src id state reason : string) (s : Svc) : latched src s -> latched src (sourceState id state reason s).
Proof.
  intros [Hb Hs]. destruct (decide (src = id)) as [<-|Hne]; [by apply show_latched|]. unfold latched.
  by rewrite stream_shown, state_shown, decide_False.
Qed.

Lemma latch_blocked (src source reason : string) (s : Svc) :
  reason <> "" -> src = source \/ Blocked (stream_of s src) <> "" -> Blocked (stream_of (latch source reason s) src) <> "".
Proof. intros Hr Hb. rewrite stream_latch. destruct (decide (src = source)); [done|]. by destruct Hb. Qed.

Lemma stream_cached (src : string) (reg : Registration) (s : Svc) :
  stream_of (cacheStream reg s).2 src = if decide (src = RegSourceID reg) then (cacheStream reg s).1 else stream_of s src.
Proof.
  unfold cacheStream, stream_of at 1, set_stream. cbn.
  assert (forall b : bool, RegSourceID (if b then with_blocked reg (Blocked (stream_of s (RegSourceID reg))) else reg) = RegSourceID reg) as Hid by by intros [].
  rewrite Hid. destruct (decide (src = RegSourceID reg)) as [->|Hne]; [by rewrite lookup_insert_eq|by rewrite lookup_insert_ne by done].
Qed.

(** What the store says never takes a latch back. *)
Lemma cacheStream_blocked (src : string) (reg : Registration) (s : Svc) :
  Blocked (stream_of s src) <> "" -> Blocked (stream_of (cacheStream reg s).2 src) <> "".
Proof.
  intros Hb. rewrite stream_cached. destruct (decide (src = RegSourceID reg)) as [->|]; [|done].
  unfold cacheStream. cbn. by rewrite (proj2 (str_eqb_false _ _) Hb).
Qed.

(** ** What every part of a pass keeps

    An invariant of the machine that survives each of the changes a pass and
    other goroutines make, one by one, survives every operation built from
    them. *)

(** [Block] gives a reason; any section. *)
Definition reasoned (x : section) : Prop := match x with SLatch _ reason | SShow _ reason => reason <> "" | _ => True end.

Definition whatever (_ : section) : Prop := True.

(** Updates that leave the sources, the flags and the choice of the log alone. *)
Definition gentle (f : Svc -> Svc) : Prop := forall s,
  streams (f s) = streams s /\ sourceStates (f s) = sourceStates s /\ status (f s) = status s /\ jn_log (journal (f s)) = jn_log (journal s).

(** [ok] is what is known of the sections that run. *)
Record framed {W : Type} (ok : section -> Prop) (I : Machine W -> Prop) : Prop := mkFramed {
  fr_outside w m : I m -> I (outside w m);
  fr_section x m : ok x -> I m -> I (perform x m);
  fr_show id state reason m : I m -> I (on_service (sourceState id state reason) m);
  fr_cache reg m : I m -> I (on_service (fun s => (cacheStream reg s).2) m);
  fr_gentle f m : gentle f -> I m -> I (on_service f m);
  fr_running f m : I m -> I (on_running f m) }.

(** ... and the flags' updates. *)
Definition flagged {W : Type} (I : Machine W -> Prop) : Prop := forall f m,
  (forall s, streams (f s) = streams s /\ sourceStates (f s) = sourceStates s /\ jn_log (journal (f s)) = jn_log (journal s)) ->
  I m -> I (on_service f m).

(** Blocking always gives a reason: other goroutines' and the monitor's. *)
Definition gives_reasons {W : Type} `{Env W} : Prop :=
  (forall w x, x ∈ (Interference (W := W) w).1 -> reasoned x) /\
  (forall source reg (w : W), (EnvInspectSource source reg w).1.1 = sourceBlocked -> (EnvInspectSource source reg w).1.2 <> "").

(** All sections that run are [ok]: others' and those of a block that the
    monitor asks for. *)
Record gives {W : Type} `{Env W} (ok : section -> Prop) : Prop := mkGives {
  gv_others w x : x ∈ (Interference (W := W) w).1 -> ok x;
  gv_monitor source reg (w : W) : (EnvInspectSource source reg w).1.1 = sourceBlocked ->
    forall id, ok (SLatch id (EnvInspectSource source reg w).1.2) /\ ok (SShow id (EnvInspectSource source reg w).1.2);
  gv_signal : ok SSignal;
  gv_log e : ok (SLog e) }.

Lemma gives_reasoned {W : Type} `{Env W} : gives_reasons (W := W) -> gives (W := W) reasoned.
Proof. intros [Hr Hm]. split; [done| |done..]. intros source reg w Hs id. split; by apply Hm in Hs. Qed.

Lemma gives_whatever {W : Type} `{Env W} : gives (W := W) whatever.
Proof. done. Qed.

Section Frame.
Context {W : Type} `{Env W}.
Abbreviation M := (Machine W).
Variable ok : section -> Prop.
Hypothesis reasons : gives (W := W) ok.
Variable I : M -> Prop.
Hypothesis frame : framed ok I.
Abbreviation kept f := (triple (M := Machine W) I f (fun _ => I)).

#[local] Instance frame_lives : Lives I.
Proof.
  split; [apply frame|]. intros x m [w Hx]. apply frame. by eapply reasons.
Qed.

Lemma kept_call {A : Type} (f : Act W A) : kept (call f).
Proof. apply triple_call, _. Qed.

Lemma kept_updating {A : Type} (f : Svc -> A * Svc) : gentle (fun s => (f s).2) -> kept (updating f).
Proof. intros Hf. apply (triple_updating I). intros m. by apply frame. Qed.

Lemma kept_locked (f : Svc -> Svc) : gentle f -> kept (locked f).
Proof. intros Hf. by apply kept_updating. Qed.

Lemma kept_show (id state reason : string) : kept (locked (sourceState id state reason)).
Proof. apply (triple_locked I). intros m. apply frame. Qed.

Lemma kept_section (x : section) : ok x -> kept (section_of x).
Proof. intros Hx. apply (triple_section I). intros m. by apply frame. Qed.

Lemma kept_looking {A : Type} (f : Svc -> A) : kept (looking f).
Proof. intros m Hm. by apply (triple_looking I f m Hm). Qed.

Lemma kept_stop (c : nat) : kept (stop c).
Proof. apply (triple_stop I). intros m. apply frame. Qed.

Lemma kept_started (c : nat) (id : string) : kept (started c id).
Proof. intros m. apply frame. Qed.

Lemma kept_each {A : Type} (f : A -> Act M unit) (l : list A) : (forall x, kept (f x)) -> kept (each f l).
Proof. intros Hf. apply triple_each. auto. Qed.

(** Walking through an operation. *)
Ltac walk := repeat match goal with
  | |- triple _ (mbind _ _) _ => apply kept_bind; [|intros ?]
  | |- triple _ (each _ _) _ => apply kept_each; intros ?
  | |- triple _ (call _) _ => apply kept_call
  | |- triple _ (stop _) _ => apply kept_stop
  | |- triple _ (started _ _) _ => apply kept_started
  | |- triple _ (looking _) _ => apply kept_looking
  | |- triple _ (locked (sourceState _ _ _)) _ => apply kept_show
  | |- triple _ (locked _) _ => apply kept_locked; done
  | |- triple _ (updating _) _ => apply kept_updating; done
  | |- triple _ (log_add _) _ => apply kept_section, reasons
  | |- triple _ (reading _) _ => by intros ?
  | |- triple _ (ret _) _ => by intros ?
  | |- triple _ (match _ with _ => _ end) _ => case_match
  end.

Lemma kept_Block (source reason : string) : ok (SLatch source reason) -> ok (SShow source reason) -> kept (Block source reason).
Proof. intros H1 H2. unfold Block, Signal. walk; apply kept_section; first [done|apply reasons]. Qed.

Lemma kept_inspectSource (source : Source) : kept (inspectSource source).
Proof.
  unfold inspectSource. apply kept_bind; [apply kept_looking|intros local]. apply kept_bind; [by intros m|intros sc].
  destruct (negb _); [walk|]. apply kept_bind; [apply kept_call|]. intros [[reg|]|e]; [|walk|walk].
  apply kept_bind; [apply (triple_updating I); intros m; apply frame|]. intros registered. destruct (negb _); [walk|].
  eapply triple_bind; [apply (triple_call_answer I)|].
  intros [state reason] m (Hm & w & Heq). destruct (str_eqb state sourceBlocked) eqn:Hs; [|by apply kept_show].
  apply str_eqb_true in Hs as ->. pose proof (gv_monitor ok reasons source registered w) as Hmr. rewrite <- Heq in Hmr.
  destruct (Hmr eq_refl (ID source)). by apply kept_Block.
Qed.

Lemma kept_stopAll : kept stopAll.
Proof. unfold stopAll. walk. Qed.

Lemma kept_reconcileSubscription (d : DesiredSubscription) : kept (reconcileSubscription d).
Proof. unfold reconcileSubscription, rest, ensureConsumer, newConsumer, markProgress. cbn zeta. walk. Qed.

Lemma kept_report (l : list DesiredSubscription) : kept (report_loop l).
Proof. induction l as [|o l IH]; cbn [report_loop]; walk; done. Qed.

Lemma kept_announce : kept announce.
Proof. unfold announce. walk. Qed.

Lemma kept_releaseLease : kept releaseLease.
Proof. unfold releaseLease. walk. Qed.

Hypothesis flags_kept : flagged I.

Lemma kept_refresh : kept refreshDependencies.
Proof.
  unfold refreshDependencies. walk. apply (triple_at_time I). intros m. apply flags_kept. intros s. by case_match.
Qed.

Lemma kept_degrade : kept degrade.
Proof. unfold degrade. apply kept_bind; [|intros _; apply kept_stopAll]. apply (triple_locked I). intros m. by apply flags_kept. Qed.

Lemma kept_reconcile : kept reconcile.
Proof.
  unfold reconcile. apply kept_bind; [apply kept_refresh|]. intros [desired healthy]. apply kept_bind; [walk; apply kept_inspectSource|].
  intros _. apply kept_bind; [by intros m|]. intros over. destruct (negb healthy || over); [apply kept_degrade|].
  apply kept_bind; [apply kept_each, kept_reconcileSubscription|]. intros _. apply kept_bind.
  { unfold reportObservations. walk. apply kept_report. }
  intros reported. destruct (negb reported); [apply kept_bind; [|intros _; apply kept_degrade]|];
    apply (triple_locked I); intros m; by apply flags_kept.
Qed.
End Frame.

(** ** Ownership of consumers *)

(** A paused subscription has no consumer, and every running handle is the
    consumer of its destination's subscription. *)
Definition owned (s : Svc) (r : gmap nat string) : Prop :=
  (forall id u, subscriptions s !! id = Some u -> sb_State (su_view u) = StatePaused -> su_consumer u = None) /\
  (forall c id, r !! c = Some id -> exists u, subscriptions s !! id = Some u /\ su_consumer u = Some c).

(** The consumer of one subscription is known. *)
Definition owns (id : string) (c : option nat) (s : Svc) (r : gmap nat string) : Prop :=
  owned s r /\ su_consumer <$> subscriptions s !! id = Some c.

(** ... and none of its handles runs. *)
Definition quiet (id : string) (r : gmap nat string) : Prop := forall c, r !! c <> Some id.

Lemma owned_same (s s' : Svc) (r : gmap nat string) : subscriptions s' = subscriptions s -> owned s r -> owned s' r.
Proof. unfold owned. by intros ->. Qed.

Lemma owns_same (id : string) (c : option nat) (s s' : Svc) (r : gmap nat string) :
  subscriptions s' = subscriptions s -> owns id c s r -> owns id c s' r.
Proof. unfold owns, owned. by intros ->. Qed.

Lemma section_subs (x : section) (s : Svc) : subscriptions (run_section x s) = subscriptions s.
Proof. destruct x as [source reason|source reason| |e]; try done. cbn. apply (sourceState_spec source sourceBlocked reason s). Qed.

Lemma show_subs (id state reason : string) (s : Svc) : subscriptions (sourceState id state reason s) = subscriptions s.
Proof. apply (sourceState_spec id state reason s). Qed.

Lemma lookup_upd (id k : string) (f : subscription -> subscription) (s : Svc) :
  subscriptions (upd_sub id f s) !! k = if decide (k = id) then f <$> subscriptions s !! id else subscriptions s !! k.
Proof.
  unfold upd_sub, set_subs. cbn. destruct (decide (k = id)) as [->|Hne]; [by rewrite lookup_alter_eq|by rewrite lookup_alter_ne by done].
Qed.

(** An update of one subscription that keeps its consumer. *)
Lemma upd_owns (id : string) (c : option nat) (f : subscription -> subscription) (s : Svc) (r : gmap nat string) :
  (forall u, su_consumer (f u) = su_consumer u) ->
  (forall u, c <> None -> sb_State (su_view (f u)) <> StatePaused) ->
  owns id c s r -> owns id c (upd_sub id f s) r.
Proof.
  intros Hc Hp [[Ho1 Ho2] Hid]. destruct (subscriptions s !! id) as [u|] eqn:Hu; [|done]. injection Hid as Hid. split; [split|].
  - intros k v. rewrite lookup_upd. destruct (decide (k = id)) as [->|]; [|by apply Ho1].
    rewrite Hu. cbn. intros [= <-] Hs. rewrite Hc. destruct c as [c|]; [|done]. by destruct (Hp u).
  - intros h k Hh. destruct (Ho2 h k Hh) as (v & Hv & Hvc). rewrite lookup_upd.
    destruct (decide (k = id)) as [->|]; [|by exists v]. rewrite Hu in Hv |- *. injection Hv as <-.
    exists (f u). split; [done|]. by rewrite Hc.
  - rewrite lookup_upd, decide_True by done. rewrite Hu. cbn. by rewrite Hc, Hid.
Qed.

(** Forgetting a consumer none of whose handles runs. *)
Lemma forget_owns (id : string) (c : option nat) (s : Svc) (r : gmap nat string) :
  owns id c s r -> quiet id r -> owns id None (upd_sub id (with_consumer None) s) r.
Proof.
  intros [[Ho1 Ho2] Hid] Hq. destruct (subscriptions s !! id) as [u|] eqn:Hu; [|done]. split; [split|].
  - intros k v. rewrite lookup_upd. destruct (decide (k = id)) as [->|]; [|by apply Ho1]. rewrite Hu. by intros [= <-].
  - intros h k Hh. destruct (Ho2 h k Hh) as (v & Hv & Hvc). rewrite lookup_upd.
    destruct (decide (k = id)) as [->|]; [by destruct (Hq h)|by exists v].
  - rewrite lookup_upd, decide_True by done. by rewrite Hu.
Qed.

Lemma owns_quiet (id : string) (s : Svc) (r : gmap nat string) : owns id None s r -> quiet id r.
Proof. intros [[_ Ho] Hid] c Hc. destruct (Ho c id Hc) as (u & Hu & Hcu). rewrite Hu in Hid. cbn in Hid. congruence. Qed.

Lemma delete_owns (id : string) (k : option nat) (c : nat) (s : Svc) (r : gmap nat string) : owns id k s r -> owns id k s (delete c r).
Proof. intros [[Ho1 Ho2] Hid]. split; [split; [done|]|done]. intros h j [_ Hh]%lookup_delete_Some. by apply Ho2. Qed.

Lemma delete_quiet (id : string) (c : nat) (s : Svc) (r : gmap nat string) : owns id (Some c) s r -> quiet id (delete c r).
Proof.
  intros [[_ Ho] Hid] h [Hne Hh]%lookup_delete_Some. destruct (Ho h id Hh) as (u & Hu & Hcu). rewrite Hu in Hid. cbn in Hid. congruence.
Qed.

(** Taking a new consumer and starting it. *)
Lemma take_owns (id : string) (c : nat) (s : Svc) (r : gmap nat string) : owns id None s r ->
  owns id (Some c) (upd_sub id (fun u => with_consumer (Some c) (with_view (with_state StateStarting "") u)) s) r.
Proof.
  intros Ho. pose proof (owns_quiet _ _ _ Ho) as Hq. destruct Ho as [[Ho1 Ho2] Hid].
  destruct (subscriptions s !! id) as [u|] eqn:Hu; [|done]. split; [split|].
  - intros k v. rewrite lookup_upd. destruct (decide (k = id)) as [->|]; [|by apply Ho1]. rewrite Hu. cbn. by intros [= <-].
  - intros h k Hh. destruct (Ho2 h k Hh) as (v & Hv & Hvc). rewrite lookup_upd.
    destruct (decide (k = id)) as [->|]; [by destruct (Hq h)|by exists v].
  - rewrite lookup_upd, decide_True by done. by rewrite Hu.
Qed.

Lemma start_owned (id : string) (c : nat) (s : Svc) (r : gmap nat string) : owns id (Some c) s r -> owns id (Some c) s (<[c := id]> r).
Proof.
  intros [[Ho1 Ho2] Hid]. split; [split; [done|]|done]. intros h k. rewrite lookup_insert_Some. intros [[<- <-]|[_ Hh]]; [|by apply Ho2].
  destruct (subscriptions s !! id) as [u|]; [|done]. injection Hid as Hid. by exists u.
Qed.

(** Stopping every consumer and marking them. *)
Lemma mark_owned (s : Svc) (r : gmap nat string) :
  owned s r -> (forall c id, r !! c = Some id -> c ∉ consumers_of s) ->
  owned (mark_stopped s) r /\ r = ∅ /\ (forall id u, subscriptions (mark_stopped s) !! id = Some u -> su_consumer u = None).
Proof.
  intros [Ho1 Ho2] Hr. assert (r = ∅) as ->.
  { apply map_empty. intros c. destruct (r !! c) as [id|] eqn:Hc; [|done]. destruct (Ho2 c id Hc) as (u & Hu & Huc).
    destruct (Hr c id Hc). unfold consumers_of. apply list_elem_of_omap. exists (id, u). by rewrite elem_of_map_to_list. }
  assert (forall id u, subscriptions (mark_stopped s) !! id = Some u -> su_consumer u = None) as Hnone.
  { intros id u. unfold mark_stopped, set_subs. cbn. rewrite lookup_fmap_Some. intros (v & <- & _). by destruct (su_consumer v) eqn:Hv. }
  split; [|done]. split; [|done]. intros id u Hu _. by eapply Hnone.
Qed.

(** Every consumer stopped, and marked. *)
Definition all_stopped (s : Svc) (r : gmap nat string) : Prop :=
  owned s r /\ r = ∅ /\ forall id u, subscriptions s !! id = Some u -> su_consumer u = None.

(** An assertion about the subscriptions that includes ownership. *)
Class Assertion (P : Svc -> gmap nat string -> Prop) : Prop := {
  as_same s s' r : subscriptions s' = subscriptions s -> P s r -> P s' r;
  as_owned s r : P s r -> owned s r }.

#[export] Instance owned_assertion : Assertion owned.
Proof. split; [apply owned_same|done]. Qed.
#[export] Instance owns_assertion (id : string) (c : option nat) : Assertion (owns id c).
Proof. split; [apply owns_same|by intros s r [? _]]. Qed.
#[export] Instance stopped_assertion : Assertion all_stopped.
Proof. split; [|by intros s r [? _]]. unfold all_stopped, owned. by intros s s' r ->. Qed.

(** A subscription whose consumer is known and whose handles have all ended. *)
Definition released (id : string) (c : nat) (s : Svc) (r : gmap nat string) : Prop := owns id (Some c) s r /\ quiet id r.
#[export] Instance released_assertion (id : string) (c : nat) : Assertion (released id c).
Proof. split; [|by intros s r [[? _] _]]. intros s s' r He [Ho Hq]. split; [by eapply owns_same|done]. Qed.

Section Ownership.
Context {W : Type} `{Env W}.
Abbreviation M := (Machine W).

(** [P] now, and ownership at every moment so far. *)
Definition always (P : Svc -> gmap nat string -> Prop) (m : M) : Prop := Forall (fun x => P (se_svc x) (se_running x)) (m_seen m).
Definition upon (P : Svc -> gmap nat string -> Prop) (m : M) : Prop := on P m /\ always owned m.
Abbreviation O := (upon owned).
Abbreviation keeps f := (triple (M := Machine W) O f (fun _ => O)).

Lemma upon_note (P Q : Svc -> gmap nat string -> Prop) `{!Assertion Q} (x : option section) (s : Svc) (w : W) (r : gmap nat string) (m : M) :
  Q s r -> upon P m -> upon Q (note x (mkMachine s w r (m_seen m))).
Proof.
  intros HQ [_ Ha]. split; [done|]. unfold always in *. cbn. apply Forall_app. split; [done|]. apply Forall_singleton. by apply as_owned.
Qed.

Lemma upon_weaken (P Q : Svc -> gmap nat string -> Prop) (m : M) : (forall s r, P s r -> Q s r) -> upon P m -> upon Q m.
Proof. intros HPQ [Hp Ha]. split; [by apply HPQ|done]. Qed.

Lemma upon_service (P Q : Svc -> gmap nat string -> Prop) `{!Assertion Q} (f : Svc -> Svc) (m : M) :
  (forall s r, P s r -> Q (f s) r) -> upon P m -> upon Q (on_service f m).
Proof. intros Hf Hm. apply (upon_note P Q); [|done]. apply Hf, Hm. Qed.

#[export] Instance upon_lives (P : Svc -> gmap nat string -> Prop) `{!Assertion P} : Lives (upon P).
Proof.
  split.
  - intros w m Hm. apply (upon_note P P); [apply Hm|done].
  - intros x m _ Hm. apply (upon_note P P); [|done]. eapply as_same; [apply section_subs|apply Hm].
Qed.

Lemma owned_locked (P Q : Svc -> gmap nat string -> Prop) `{!Assertion P, !Assertion Q} (f : Svc -> Svc) :
  (forall s r, P s r -> Q (f s) r) -> triple (upon P) (locked f) (fun _ => upon Q).
Proof. intros Hf. apply (triple_locked (upon P)). intros m. by apply (upon_service P Q). Qed.

Lemma owned_updating {A : Type} (P Q : Svc -> gmap nat string -> Prop) `{!Assertion P, !Assertion Q} (f : Svc -> A * Svc) :
  (forall s r, P s r -> Q (f s).2 r) -> triple (upon P) (updating f) (fun _ => upon Q).
Proof. intros Hf. apply (triple_updating (upon P)). intros m. by apply (upon_service P Q). Qed.

(** Sections that leave the subscriptions alone. *)
Lemma same_locked (P : Svc -> gmap nat string -> Prop) `{!Assertion P} (f : Svc -> Svc) :
  (forall s, subscriptions (f s) = subscriptions s) -> triple (upon P) (locked f) (fun _ => upon P).
Proof. intros Hf. apply (owned_locked P P). intros s r. by apply as_same. Qed.

Lemma same_section (P : Svc -> gmap nat string -> Prop) `{!Assertion P} (x : section) : triple (upon P) (section_of x) (fun _ => upon P).
Proof. apply (triple_section (upon P)). intros m Hm. apply (upon_note P P); [|done]. eapply as_same; [apply section_subs|apply Hm]. Qed.

Lemma same_looking (P : Svc -> gmap nat string -> Prop) `{!Assertion P} {A : Type} (f : Svc -> A) : triple (upon P) (looking f) (fun _ => upon P).
Proof. intros m Hm. by apply (triple_looking (upon P) f m Hm). Qed.

(** A running handle stops, one at a time. *)
Lemma owned_stop (P Q : Svc -> gmap nat string -> Prop) `{!Assertion P, !Assertion Q} (c : nat) :
  (forall s r, P s r -> Q s (delete c r)) -> triple (upon P) (stop c) (fun _ => upon Q).
Proof. intros HQ. apply (triple_stop (upon P)). intros m Hm. apply (upon_note P Q); [|done]. apply HQ, Hm. Qed.

Lemma keeps_call {A : Type} (f : Act W A) : keeps (call f).
Proof. apply (triple_call O). Qed.
Lemma keeps_bind {A B : Type} (f : Act M A) (k : A -> Act M B) : keeps f -> (forall a, keeps (k a)) -> keeps (f ≫= k).
Proof. apply triple_bind. Qed.
Lemma keeps_each {A : Type} (f : A -> Act M unit) (l : list A) : (forall x, keeps (f x)) -> keeps (each f l).
Proof. intros Hf. apply triple_each. auto. Qed.

(** What leaves the subscriptions alone keeps every assertion about them. *)
Ltac calm := repeat match goal with
  | |- triple _ (mbind _ _) _ => apply kept_bind; [|intros ?]
  | |- triple _ (each _ _) _ => apply triple_each; intros ? _
  | |- triple _ (call _) _ => by apply triple_call, _
  | |- triple _ (looking _) _ => by apply same_looking, _
  | |- triple _ (locked (sourceState _ _ _)) _ => apply same_locked; [apply _|apply show_subs]
  | |- triple _ (locked _) _ => by apply same_locked; [apply _|]
  | |- triple _ (section_of _) _ => apply same_section, _
  | |- triple _ (reading _) _ => by intros ?
  | |- triple _ (ret _) _ => by intros ?
  | |- triple _ (match _ with _ => _ end) _ => case_match
  end.

Lemma keeps_Block (source reason : string) : keeps (Block source reason).
Proof. unfold Block, Signal. calm. Qed.

Lemma keeps_inspectSource (source : Source) : keeps (inspectSource source).
Proof.
  unfold inspectSource. calm; [|apply keeps_Block]. apply owned_updating; [apply _..|]. intros s h. by apply owned_same.
Qed.

Lemma keeps_report (l : list DesiredSubscription) : keeps (report_loop l).
Proof. induction l as [|o l IH]; cbn [report_loop]; calm; exact IH. Qed.

Lemma keeps_refresh : keeps refreshDependencies.
Proof.
  unfold refreshDependencies. calm. apply (triple_at_time O). intros m. apply (upon_service owned owned). intros s r. apply owned_same. by case_match.
Qed.

(** Settling a subscription that has no consumer. *)
Lemma rest_owned (id : string) (consumer : option nat) (d : DesiredSubscription) (reason : string) :
  triple (upon (owns id consumer)) (rest id consumer d reason) (fun _ => O).
Proof.
  unfold rest. apply (triple_bind _ _ (fun _ => upon (owns id None))).
  - destruct consumer as [c|]; [|by intros m].
    eapply (triple_bind _ _ (fun _ => upon (owns id (Some c)))).
    { apply owned_locked; [apply _..|]. intros s r. apply upd_owns; [done|]. by intros u _. }
    intros _. eapply (triple_bind _ _ (fun _ => upon (released id c))).
    { apply owned_stop; [apply _..|]. intros s r Ho. split; [by apply delete_owns|by eapply delete_quiet]. }
    intros _. apply owned_locked; [apply _..|]. intros s r [Ho Hq]. by eapply forget_owns.
  - intros _. destruct (restingState d reason) as [state err]. eapply (triple_bind _ _ (fun _ => O)).
    { apply (owned_updating (owns id None)); [apply _..|]. intros s r Ho. by apply (upd_owns id None). }
    intros previous. unfold log_add. calm.
Qed.

(** After it, the subscription's consumer is the one returned. *)
Lemma ensure_owned (id : string) (consumer : option nat) (d : Destination) :
  triple (upon (owns id consumer)) (ensureConsumer id consumer d) (fun c => upon (owns id c)).
Proof.
  unfold ensureConsumer. apply (triple_bind _ _ (fun c => upon (owns id c))).
  - destruct consumer as [c|]; [|by intros m].
    eapply (triple_bind _ _ (fun _ => upon (owns id (Some c)))); [apply triple_call, _|]. intros []; [|by intros m].
    eapply (triple_bind _ _ (fun _ => upon (released id c))).
    { apply owned_stop; [apply _..|]. intros s r Ho. split; [by apply delete_owns|by eapply delete_quiet]. }
    intros _. eapply (triple_bind _ _ (fun _ => upon (owns id None))); [|by intros _ m].
    apply owned_locked; [apply _..|]. intros s r [Ho Hq]. by eapply forget_owns.
  - intros [c|]; [by intros m|]. unfold newConsumer.
    apply (triple_bind _ _ (fun _ => upon (owns id None))); [calm|].
    intros [c|e].
    + eapply (triple_bind _ _ (fun _ => upon (owns id (Some c)))); [apply owned_locked; [apply _..|]; intros s r; apply take_owns|].
      intros _. eapply (triple_bind _ _ (fun _ => upon (owns id (Some c)))); [|by intros _ m].
      intros m Hm. apply (upon_note (owns id (Some c)) (owns id (Some c))); [|done]. apply start_owned, Hm.
    + eapply (triple_bind _ _ (fun _ => upon (owns id None))); [|by intros _ m].
      apply owned_locked; [apply _..|]. intros s r. by apply upd_owns.
Qed.

Lemma markProgress_owned (id : string) (c : nat) (d : DesiredSubscription) (ready : bool) :
  triple (upon (owns id (Some c))) (markProgress id d ready) (fun _ => O).
Proof.
  unfold markProgress. destruct (negb ready).
  - apply owned_locked; [apply _..|]. intros s r Ho. by apply (upd_owns id (Some c)).
  - eapply (triple_bind _ _ (fun _ => O)).
    { apply (owned_updating (owns id (Some c))); [apply _..|]. intros s r Ho. by apply (upd_owns id (Some c)). }
    intros changed. unfold log_add. calm.
Qed.

(** The first section of [reconcileSubscription]. *)
Lemma desired_owned (id desired : string) (s : Svc) (r : gmap nat string) (u : subscription) :
  subscriptions s !! id = Some u -> owned s r -> owns id (su_consumer u) (upd_sub id (with_view (with_desired desired)) s) r.
Proof.
  intros Hu [Ho1 Ho2]. split; [split|].
  - intros k v. rewrite lookup_upd. destruct (decide (k = id)) as [->|]; [|by apply Ho1]. rewrite Hu. cbn.
    intros [= <-] Hs. by apply (Ho1 id u).
  - intros h k Hh. destruct (Ho2 h k Hh) as (v & Hv & Hvc). rewrite lookup_upd. destruct (decide (k = id)) as [->|]; [|by exists v].
    rewrite Hu in Hv |- *. injection Hv as <-. by eexists.
  - rewrite lookup_upd, decide_True by done. by rewrite Hu.
Qed.

Lemma keeps_reconcileSubscription (d : DesiredSubscription) : keeps (reconcileSubscription d).
Proof.
  unfold reconcileSubscription. set (id := ds_ID d).
  apply (triple_bind _ _ (fun u m => match u with Some u => upon (owns id (su_consumer u)) m | None => upon owned m end)).
  { apply (triple_updating O). intros m Hm. cbn [fst snd]. destruct (subscriptions (svc m) !! id) as [u|] eqn:Hu.
    - apply (upon_note owned (owns (ds_ID d) (su_consumer u))); [|done]. cbn. apply desired_owned; [done|apply Hm].
    - apply (upon_note owned owned); [|done]. eapply owned_same; [|apply Hm]. cbn. unfold upd_sub, set_subs. cbn. by rewrite alter_alt, Hu. }
  intros [u|]; [|by intros m].
  eapply (triple_bind _ _ (fun _ => upon (owns id (su_consumer u)))); [by intros m|]. intros destination.
  eapply (triple_bind _ _ (fun _ => upon (owns id (su_consumer u)))); [apply same_looking, _|]. intros [ready reason].
  destruct (paused d || negb ready); [apply rest_owned|].
  eapply triple_bind; [apply ensure_owned|]. intros [c|]; [|intros m; apply upon_weaken; by intros s r [? _]].
  eapply (triple_bind _ _ (fun _ => upon (owns id (Some c)))); [apply triple_call, _|]. intros r. apply markProgress_owned.
Qed.

(** Stopping the consumers of a list, the first ones stopped already. *)
Definition stopping (l k : list nat) (s : Svc) (r : gmap nat string) : Prop :=
  owned s r /\ consumers_of s = l /\ forall c, c ∈ k -> r !! c = None.

#[local] Instance stopping_assertion (l k : list nat) : Assertion (stopping l k).
Proof.
  split; [|by intros s r [? _]]. intros s s' r He (Ho & Hl & Hk). split; [by eapply owned_same|]. split; [|done]. unfold consumers_of in *. by rewrite He.
Qed.

Lemma stops_each (l k j : list nat) : triple (upon (stopping l k)) (each stop j) (fun _ => upon (stopping l (k ++ j))).
Proof.
  revert k. induction j as [|c j IH]; intros k; cbn [each]; [by rewrite app_nil_r; intros m|].
  eapply (triple_bind _ _ (fun _ => upon (stopping l (k ++ [c])))).
  - apply owned_stop; [apply _..|]. intros s r ([Ho1 Ho2] & Hl & Hk). split; [split; [done|]|split; [done|]].
    + intros h i [_ Hh]%lookup_delete_Some. by apply Ho2.
    + intros h [Hh| ->%list_elem_of_singleton]%elem_of_app; [|apply lookup_delete_eq]. apply lookup_delete_None. right. by apply Hk.
  - intros _. rewrite (app_assoc k [c] j : k ++ c :: j = _). apply IH.
Qed.

Lemma stopAll_stops : triple O (stopAll (W := W)) (fun _ => upon all_stopped).
Proof.
  unfold stopAll.
  apply (triple_bind _ _ (fun l => upon (stopping l []))).
  { intros m Hm. destruct (triple_looking O consumers_of m Hm) as [Ho Hl]. split; [|apply Ho]. split; [apply Ho|]. split; [done|]. by intros c ?%elem_of_nil. }
  intros l. eapply (triple_bind _ _ (fun _ => upon (stopping l []))); [calm|].
  intros _. eapply (triple_bind _ _ (fun _ => upon (stopping l l))); [apply (stops_each l [] l)|].
  intros _. apply owned_locked; [apply _..|]. intros s r (Ho & <- & Hr). apply mark_owned; [done|].
  intros c id Hc Hin. by rewrite Hr in Hc.
Qed.

Lemma degrade_stops : triple O (degrade (W := W)) (fun _ => upon all_stopped).
Proof. unfold degrade. eapply (triple_bind _ _ (fun _ => O)); [by apply same_locked; [apply _|]|]. intros _. apply stopAll_stops. Qed.

Lemma all_stopped_owned (m : M) : upon all_stopped m -> O m.
Proof. apply upon_weaken. by intros s r [? _]. Qed.

Lemma keeps_reconcile : keeps reconcile.
Proof.
  assert (keeps degrade) as Hdegrade.
  { eapply triple_weaken; [apply degrade_stops|done|]. intros a m. apply all_stopped_owned. }
  unfold reconcile. apply keeps_bind; [apply keeps_refresh|]. intros [desired healthy]. apply keeps_bind; [calm; apply keeps_inspectSource|].
  intros _. apply keeps_bind; [by intros m|]. intros over. destruct (negb healthy || over); [done|].
  apply keeps_bind; [apply keeps_each, keeps_reconcileSubscription|]. intros _. apply keeps_bind.
  { unfold reportObservations. calm. apply keeps_report. }
  intros reported. destruct (negb reported); [|by apply same_locked; [apply _|]]. apply keeps_bind; [by apply same_locked; [apply _|]|]. intros _. done.
Qed.
End Ownership.

(** ** Every state ever seen *)

(** How far a block of [src] has come: not begun, in the latch, shown. *)
Inductive progress : Type := Idle | Latched | Shown.
Definition advance (src : string) (p : progress) (x : option section) : progress :=
  match p, x with
  | Idle, Some (SLatch s _) => if decide (s = src) then Latched else Idle
  | Latched, Some (SShow s _) => if decide (s = src) then Shown else Latched
  | p, _ => p
  end.
Definition reached (p : progress) (src : string) (s : Svc) : Prop :=
  match p with Idle => True | Latched => Blocked (stream_of s src) <> "" | Shown => latched src s end.
Definition rank (p : progress) : nat := match p with Idle => 0 | Latched => 1 | Shown => 2 end.

Lemma reached_same (p : progress) (src : string) (s s' : Svc) :
  streams s' = streams s -> sourceStates s' = sourceStates s -> reached p src s -> reached p src s'.
Proof. unfold reached, latched, stream_of, state_of. by intros -> ->. Qed.

Lemma reached_show (p : progress) (src id state reason : string) (s : Svc) : reached p src s -> reached p src (sourceState id state reason s).
Proof. destruct p; cbn; [done|by rewrite stream_shown|apply sourceState_latched]. Qed.

Lemma reached_cache (p : progress) (src : string) (reg : Registration) (s : Svc) : reached p src s -> reached p src (cacheStream reg s).2.
Proof. destruct p; [done|apply cacheStream_blocked|]. intros [Hb Hs]. split; [by apply cacheStream_blocked|exact Hs]. Qed.

Lemma reached_section (p : progress) (src : string) (x : section) (s : Svc) :
  reasoned x -> reached p src s -> reached (advance src p (Some x)) src (run_section x s).
Proof.
  intros Hx Hs. destruct x as [id reason|id reason| |e]; [| |by destruct p; eapply reached_same..]; cbn in Hx.
  - destruct p; cbn.
    + destruct (decide (id = src)) as [->|]; [|done]. apply latch_blocked; auto.
    + apply latch_blocked; auto.
    + destruct Hs as [Hb Hs]. split; [apply latch_blocked; auto|exact Hs].
  - destruct p; cbn; [done| |by apply (reached_show Shown)]. destruct (decide (id = src)) as [->|]; [by apply show_latched|by apply (reached_show Latched)].
Qed.

Lemma advance_rank (src : string) (p : progress) (x : option section) : (rank p <= rank (advance src p x))%nat.
Proof. destruct p, x as [[]|]; cbn; try lia; by case_decide; cbn; lia. Qed.

Section History.
Context {W : Type}.
Implicit Types (h : list (Seen W)) (m : Machine W).

Definition progress_of (src : string) (h : list (Seen W)) : progress := foldl (fun p x => advance src p (se_by x)) Idle h.

#[local] Arguments progress_of : simpl never.

Lemma progress_snoc (src : string) h (x : Seen W) : progress_of src (h ++ [x]) = advance src (progress_of src h) (se_by x).
Proof. unfold progress_of. by rewrite foldl_app. Qed.

Lemma progress_take (src : string) h (i k : nat) : (i <= k)%nat -> (rank (progress_of src (take i h)) <= rank (progress_of src (take k h)))%nat.
Proof.
  intros Hik. replace k with (i + (k - i))%nat by lia. rewrite <- take_take_drop. generalize (take (k - i) (drop i h)). generalize (take i h).
  clear. intros h l. induction l as [|x l IH] using rev_ind; [by rewrite app_nil_r|]. rewrite app_assoc, progress_snoc.
  pose proof (advance_rank src (progress_of src (h ++ l)) (se_by x)). lia.
Qed.

(** After a block's two sections, in this order, there is nothing left to do. *)
Lemma progress_shown (src reason reason' : string) h (i j k : nat) (a b : Seen W) :
  h !! i = Some a -> se_by a = Some (SLatch src reason) -> h !! j = Some b -> se_by b = Some (SShow src reason') ->
  (i < j)%nat -> (j <= k)%nat -> progress_of src (take (S k) h) = Shown.
Proof.
  intros Ha Hla Hb Hsb Hij Hjk.
  assert (1 <= rank (progress_of src (take (S i) h)))%nat as H1.
  { rewrite (take_S_r _ _ _ Ha), progress_snoc, Hla. destruct (progress_of src (take i h)); cbn; try lia. rewrite decide_True by done. cbn. lia. }
  assert (2 <= rank (progress_of src (take (S j) h)))%nat as H2.
  { pose proof (progress_take src h (S i) j ltac:(lia)). rewrite (take_S_r _ _ _ Hb), progress_snoc, Hsb.
    destruct (progress_of src (take j h)); cbn in *; try lia. rewrite decide_True by done. cbn. lia. }
  pose proof (progress_take src h (S j) (S k) ltac:(lia)). destruct (progress_of src (take (S k) h)); cbn in *; [lia|lia|done].
Qed.

(** Every state seen so far, and the present one, is as far as the history says. *)
Definition honest (src : string) m : Prop :=
  reached (progress_of src (m_seen m)) src (svc m) /\
  forall k x, m_seen m !! k = Some x -> reached (progress_of src (take (S k) (m_seen m))) src (se_svc x).

Lemma truthful_note (src : string) (x : option section) (s : Svc) (w : W) (r : gmap nat string) m :
  honest src m -> reached (advance src (progress_of src (m_seen m)) x) src s -> honest src (note x (mkMachine s w r (m_seen m))).
Proof.
  intros [_ Hseen] Hs. split; cbn [note svc m_seen]; [by rewrite progress_snoc|].
  intros k y [Hy|[Hk [Hy <-]%list_lookup_singleton_Some]]%lookup_app_Some.
  - rewrite take_app_le; [by apply Hseen|]. apply lookup_lt_Some in Hy. lia.
  - replace k with (length (m_seen m)) by lia.
    rewrite take_app_ge by lia. replace (S (length (m_seen m)) - length (m_seen m))%nat with 1%nat by lia. cbn [take]. by rewrite progress_snoc.
Qed.

(** The block of [src] is over. *)
Definition closed (src : string) m : Prop := honest src m /\ progress_of src (m_seen m) = Shown.

Lemma closed_note (src : string) (x : option section) (s : Svc) (w : W) (r : gmap nat string) m :
  closed src m -> latched src s -> closed src (note x (mkMachine s w r (m_seen m))).
Proof.
  intros [Hh Hp] Hs. assert (forall y, advance src Shown y = Shown) as Hadv by done.
  split; [apply truthful_note; [done|]; by rewrite Hp, Hadv|]. cbn. by rewrite progress_snoc, Hp.
Qed.

Lemma framed_honest (src : string) : framed reasoned (honest src) /\ flagged (honest src).
Proof.
  assert (flagged (honest src)) as Hsame.
  { intros f m Hf Hm. apply truthful_note; [done|]. destruct (Hf (svc m)) as (? & ? & _). destruct (progress_of src (m_seen m)) eqn:Hp; cbn [advance];
      (eapply reached_same; [done..|]; rewrite <- Hp; apply Hm). }
  assert (forall p, advance src p None = p) as Hnone by by intros [].
  split; [split|exact Hsame].
  - intros w m Hm. apply truthful_note; [done|]. rewrite Hnone. apply Hm.
  - intros x m Hx Hm. apply truthful_note; [done|]. apply reached_section; [done|apply Hm].
  - intros id state reason m Hm. apply truthful_note; [done|]. rewrite Hnone. apply reached_show, Hm.
  - intros reg m Hm. apply truthful_note; [done|]. rewrite Hnone. apply reached_cache, Hm.
  - intros f m Hf. apply Hsame. intros s. by destruct (Hf s) as (? & ? & ? & ?).
  - intros f m Hm. apply truthful_note; [done|]. rewrite Hnone. apply Hm.
Qed.

Lemma framed_closed (src : string) : framed reasoned (closed src) /\ flagged (closed src).
Proof.
  assert (forall m, closed src m -> latched src (svc m)) as Hl by (intros m [[Hr _] Hp]; by rewrite Hp in Hr).
  split; [split|].
  - intros w m Hm. apply closed_note; [done|]. by apply Hl.
  - intros x m Hx Hm. apply closed_note; [done|]. apply (reached_section Shown); [done|]. by apply Hl.
  - intros id state reason m Hm. apply closed_note; [done|]. apply sourceState_latched. by apply Hl.
  - intros reg m Hm. apply closed_note; [done|]. apply (reached_cache Shown). by apply Hl.
  - intros f m Hf Hm. apply closed_note; [done|]. destruct (Hf (svc m)) as (? & ? & _). apply (reached_same Shown _ (svc m)); [done..|]. by apply Hl.
  - intros f m Hm. apply closed_note; [done|]. by apply Hl.
  - intros f m Hf Hm. apply closed_note; [done|]. destruct (Hf (svc m)) as (? & ? & _). apply (reached_same Shown _ (svc m)); [done..|]. by apply Hl.
Qed.

Lemma closed_shut (src : string) (s : Svc) (now : Z) : latched src s -> allows s now src = false.
Proof. intros [_ Hs]. unfold allows. rewrite (proj2 (str_eqb_false _ _) Hs). by rewrite andb_false_r. Qed.
End History.

(** ** Properties *)
Section Properties.
Context {W : Type} `{Env W}.
Abbreviation M := (Machine W).
#[local] Arguments progress_of : simpl never.

(** What happens to one worker, in any order: passes of the loop, blocks by
    its own workers, stopping everything, calls made for requests or for the
    lease, sections of other goroutines, signals taken, time and the world
    moving on. *)
Inductive acts (m : M) : M -> Prop :=
| act_announce : acts m (announce m).2
| act_pass : acts m (reconcile m).2
| act_block source reason : reason <> "" -> acts m (Block source reason m).2
| act_stop : acts m (stopAll m).2
| act_call A (f : Act W A) : acts m (call f m).2
| act_section x : reasoned x -> acts m (perform x m)
| act_woken signaled : acts m (on_service (take_signal signaled) m)
| act_world w : acts m (outside w m).

(** What every act keeps. *)
Lemma acts_keep (I : M -> Prop) (m m' : M) : gives_reasons -> framed reasoned I -> flagged I -> rtc acts m m' -> I m -> I m'.
Proof.
  intros Hr%gives_reasoned Hf Hflags. assert (forall x y, acts x y -> I x -> I y) as Hstep.
  { intros x y [| |source reason Hne| |A f|x0 Hx|signaled|w].
    - by apply (kept_announce _ Hr I Hf).
    - by apply (kept_reconcile _ Hr I Hf Hflags).
    - by apply (kept_Block _ Hr I Hf).
    - by apply (kept_stopAll _ Hr I Hf).
    - by apply (kept_call _ Hr I Hf).
    - by apply Hf.
    - by apply Hf.
    - by apply Hf. }
  induction 1 as [|x y z Hxy _ IH]; [done|]. intros Hx. apply IH. by eapply Hstep.
Qed.

Lemma new_shape (sc : Scope) (srcs : list Source) (dests : list Destination) (log : Activity.Log) (worker : string) (w w' : W) (m : M) :
  New sc srcs dests log worker w = (Ok m, w') -> exists s w1, m = note None (mkMachine s w1 ∅ []) /\
    subscriptions s = foldl (fun m d => <[ de_ID d := mkSub (mkSubscription (de_ID d) StateStarting "" "") 0 None ]> m) ∅ dests.
Proof.
  unfold New. destruct (negb _); [done|]. destruct (EnvEnsureSubscriptions sc (map de_ID dests) w) as [[u|e] w1]; [|done].
  intros [= <- <-]. by eexists _, _.
Qed.

Lemma new_honest (sc : Scope) (srcs : list Source) (dests : list Destination) (log : Activity.Log) (worker src : string) (w w' : W) (m : M) :
  New sc srcs dests log worker w = (Ok m, w') -> honest src m.
Proof. intros (s & w1 & -> & _)%new_shape. apply (truthful_note src None s w1 ∅ (mkMachine s w1 ∅ [])); [|done]. by split. Qed.

Lemma Block_closes (source reason : string) (m : M) :
  gives_reasons -> reason <> "" -> honest source m -> closed source (Block source reason m).2.
Proof.
  intros Hr%gives_reasoned Hne. destruct (framed_honest (W := W) source) as [Hf _]. destruct (framed_closed (W := W) source) as [Hc _].
  set (begun := fun m : M => honest source m /\ (1 <= rank (progress_of source (m_seen m)))%nat).
  assert (Lives begun) as Hl.
  { pose proof (frame_lives _ Hr _ Hf) as [H1 H2]. split.
    - intros w x [Hx Hp]. split; [by apply H1|]. cbn. rewrite progress_snoc. pose proof (advance_rank source (progress_of source (m_seen x)) None). cbn in *. lia.
    - intros s x Hs [Hx Hp]. split; [by apply H2|]. cbn. rewrite progress_snoc. pose proof (advance_rank source (progress_of source (m_seen x)) (Some s)). cbn in *. lia. }
  pose proof (frame_lives _ Hr _ Hf) as Hlh. pose proof (frame_lives _ Hr _ Hc) as Hlc.
  assert (triple (M := Machine W) (honest source) (Block source reason) (fun _ => closed source)) as Ht; [|by apply Ht].
  unfold Block, Signal. apply (triple_bind _ _ (fun _ => begun)).
  { apply (triple_section (honest source)). intros x Hx. split; [by apply Hf|]. cbn. rewrite progress_snoc. cbn.
    destruct (progress_of source (m_seen x)); cbn; try lia. rewrite decide_True by done. cbn. lia. }
  intros _. apply (triple_bind _ _ (fun _ => closed source)).
  { apply (triple_section begun). intros x [Hx Hp]. split; [by apply Hf|]. cbn. rewrite progress_snoc. cbn.
    destruct (progress_of source (m_seen x)); cbn in *; try lia; [|done]. by rewrite decide_True. }
  intros _. apply kept_bind; [by intros m2|]. intros sc. apply kept_bind; [by apply (kept_call _ Hr _ Hc)|]. intros _. by apply (kept_section _ Hr _ Hc).
Qed.

(** C9. A block is a latch, from the moment its second section has run and at every
    later moment, inside a pass or between passes: the source may not
    dispatch, whatever the clock says, whatever the store, Kafka and the
    monitor answer to an inspection under way or to later ones, and whether or
    not the block reached the store.  The block may be another goroutine's,
    in the middle of a pass; and when [Block] returns, its own two sections
    have run.  Blocks give a reason: the consumers', a fixed sentence, the
    delivery workers' ([App.refusal_reason]) and the monitor's
    ([Provision.inspect_reason]). *)
Theorem block_is_final (sc : Scope) (srcs : list Source) (dests : list Destination) (log : Activity.Log) (worker : string) (w w' : W)
  (source reason : string) (m0 m : M) :
  gives_reasons -> New sc srcs dests log worker w = (Ok m0, w') -> rtc acts m0 m ->
  (forall i j k a b x, m_seen m !! i = Some a -> se_by a = Some (SLatch source reason) ->
     m_seen m !! j = Some b -> se_by b = Some (SShow source reason) -> (i < j)%nat ->
     m_seen m !! k = Some x -> (j <= k)%nat -> forall now, allows (se_svc x) now source = false) /\
  (reason <> "" -> forall m', rtc acts (Block source reason m).2 m' -> forall now, allows (svc m') now source = false).
Proof.
  intros Hr Hnew Hsteps. destruct (framed_honest (W := W) source) as [Hf Hff]. destruct (framed_closed (W := W) source) as [Hc Hcf].
  assert (honest source m) as Hm by (eapply acts_keep; [done..|by eapply new_honest]). split.
  - intros i j k a b x Ha Hla Hb Hsb Hij Hx Hjk now. apply closed_shut. destruct Hm as [_ Hm]. specialize (Hm k x Hx).
    by rewrite (progress_shown source reason reason _ i j k a b) in Hm.
  - intros Hne m' Hsteps' now. apply closed_shut. assert (closed source m') as [[Hm' _] Hp]; [|by rewrite Hp in Hm'].
    eapply acts_keep; [done..|]. by apply Block_closes.
Qed.

Lemma owned_kept (m m' : M) : rtc acts m m' -> upon owned m -> upon owned m'.
Proof.
  induction 1 as [|x y z Hxy _ IH]; [done|]. intros Ho. apply IH. clear IH. destruct Hxy as [| |source reason _| |A f|x0 _|signaled|w].
  - revert Ho. apply keeps_bind; [by intros m0|]. intros g. apply same_section, _.
  - by apply keeps_reconcile.
  - by apply keeps_Block.
  - apply all_stopped_owned. by apply stopAll_stops.
  - by apply keeps_call.
  - apply (upon_note owned owned); [|done]. eapply owned_same; [apply section_subs|apply Ho].
  - apply (upon_note owned owned); [|done]. eapply owned_same; [|apply Ho]. done.
  - apply (upon_note owned owned); [|done]. apply Ho.
Qed.

Lemma new_owned (sc : Scope) (srcs : list Source) (dests : list Destination) (log : Activity.Log) (worker : string) (w w' : W) (m : M) :
  New sc srcs dests log worker w = (Ok m, w') -> upon owned m.
Proof.
  intros (s & w1 & -> & Hs)%new_shape. apply (upon_note (fun _ _ => True) owned None s w1 ∅ (mkMachine s w1 ∅ [])); [|by split; [|constructor]].
  split; [|by intros c id ?%lookup_empty_Some]. rewrite Hs.
  assert (forall l (m0 : gmap string subscription), (forall id u, m0 !! id = Some u -> su_consumer u = None) ->
    forall id u, foldl (fun m d => <[ de_ID d := mkSub (mkSubscription (de_ID d) StateStarting "" "") 0 None ]> m) m0 l !! id = Some u ->
    su_consumer u = None) as Hfold.
  { induction l as [|d l IH]; intros m0 H0; [done|]. cbn. apply IH. intros id v. rewrite lookup_insert_Some.
    intros [[_ <-]|[_ Hv]]; [done|by eapply H0]. }
  intros id v Hv _. eapply (Hfold dests ∅); [|exact Hv]. by intros ? ? ?%lookup_empty_Some.
Qed.

(** C10. In every state a worker is ever in — between passes, and at each moment in
    the middle of one, where a change request or the operator's API may look —
    a subscription shown as paused has no consumer, and no consumer of it that
    was ever started is still running: it was waited for before the state was
    shown. *)
Theorem paused_means_stopped (sc : Scope) (srcs : list Source) (dests : list Destination) (log : Activity.Log) (worker : string) (w w' : W)
  (m0 m : M) (x : Seen W) (id : string) (u : subscription) :
  New sc srcs dests log worker w = (Ok m0, w') -> rtc acts m0 m ->
  x ∈ m_seen m \/ x = mkSeen None (svc m) (env m) (m_running m) ->
  subscriptions (se_svc x) !! id = Some u -> sb_State (su_view u) = StatePaused ->
  su_consumer u = None /\ forall c, se_running x !! c <> Some id.
Proof.
  intros Hnew%new_owned Hsteps Hx Hu Hp. destruct (owned_kept _ _ Hsteps Hnew) as [Hnow Hseen].
  assert (owned (se_svc x) (se_running x)) as [Ho1 Ho2].
  { destruct Hx as [Hx| ->]; [|exact Hnow]. unfold always in Hseen. rewrite Forall_forall in Hseen. by apply Hseen. }
  pose proof (Ho1 id u Hu Hp) as Hnone. split; [done|]. intros c Hc. destruct (Ho2 c id Hc) as (v & Hv & Hvc). congruence.
Qed.

Definition flags (control kafka : bool) (s : Svc) (_ : gmap nat string) : Prop :=
  st_Control (status s) = control /\ st_Kafka (status s) = kafka.

Lemma framed_flags (c k : bool) : framed whatever (on (W := W) (flags c k)).
Proof.
  unfold on, flags. split; cbn; try done.
  - intros [id reason|id reason| |e] m _; cbn; try done. by destruct (sourceState_spec id sourceBlocked reason (svc m)) as (_ & _ & -> & _).
  - intros id state reason m. by destruct (sourceState_spec id state reason (svc m)) as (_ & _ & -> & _).
  - intros f m Hf. by destruct (Hf (svc m)) as (_ & _ & -> & _).
Qed.

(** A pass that could not renew the lease, read the desired state, reach Kafka
    or store its observations leaves the worker degraded with every consumer
    stopped and nothing allowed to dispatch from any source. *)
Theorem unhealthy_stops (m : M) :
  upon owned m ->
  let m' := (reconcile m).2 in
  st_Control (status (svc m')) && st_Kafka (status (svc m')) = false ->
  m_running m' = ∅ /\ (forall id u, subscriptions (svc m') !! id = Some u -> su_consumer u = None) /\
  forall source, Allowed m' source = false.
Proof.
  intros Ho. cbn zeta. intros Hflags. pose proof (gives_whatever (W := W)) as Hr.
  assert (upon all_stopped (reconcile m).2) as [(_ & H1 & H2) _];
    [|split; [done|]; split; [done|]; intros source; unfold Allowed, allows; by rewrite Hflags].
  set (Q := fun (_ : unit) (m2 : M) => st_Control (status (svc m2)) && st_Kafka (status (svc m2)) = false -> upon all_stopped m2).
  assert (triple (M := Machine W) (upon owned) reconcile Q) as Ht; [|exact (Ht m Ho Hflags)]. clear m Ho Hflags. unfold reconcile.
  apply (triple_bind _ _ (fun a m1 => upon owned m1 /\ exists c k, on (flags c k) m1 /\ a.2 = c && k)).
  { intros m Ho. split; [by apply keeps_refresh|]. unfold refreshDependencies, at_time, mbind, act_bind. cbn [reading].
    destruct (call (EnvRenewLease _ _ _) m) as [a1 m1]. destruct (call (EnvSubscriptions _) m1) as [a2 m2].
    destruct (call EnvPing m2) as [a3 m3]. destruct (others_run m3) as [u m4]. cbn. eexists _, _. split; [|done]. unfold on, flags. cbn. by case_match. }
  intros [desired healthy] m1 (Ho1 & c & k & Hf & Hh). cbn in Hh. subst healthy.
  set (P := fun m : M => upon owned m /\ on (flags c k) m).
  assert (Hboth : forall A (f : Act M A), triple (upon owned) f (fun _ => upon owned) ->
    triple (on (flags c k)) f (fun _ => on (flags c k)) -> triple P f (fun _ => P))
    by (intros A f Hf1 Hf2 m2 [H1 H2]; split; [by apply Hf1|by apply Hf2]).
  assert (Hstop : triple P degrade Q) by (intros m2 [H1 _] _; by apply degrade_stops).
  assert (HP : P m1) by done. clear Ho1 Hf. revert m1 HP. pose proof (framed_flags c k) as Hframe.
  apply (triple_bind P _ (fun _ => P) _ Q).
  { destruct (c && k); [|by intros m2]. apply kept_bind; [by intros m2|]. intros ss.
    apply triple_each. intros x _. apply Hboth; [apply keeps_inspectSource|by eapply kept_inspectSource]. }
  intros _. apply (triple_bind _ _ (fun _ => P)); [by intros m2|]. intros over. destruct (negb (c && k) || over) eqn:Hover; [done|].
  apply orb_false_iff in Hover as [Hck _]. apply negb_false_iff in Hck.
  apply (triple_bind _ _ (fun _ => P)).
  { apply triple_each. intros x _. apply Hboth; [apply keeps_reconcileSubscription|by eapply kept_reconcileSubscription]. }
  intros _. apply (triple_bind _ _ (fun _ => P)).
  { unfold reportObservations. apply kept_bind; [apply Hboth; [apply same_looking, _|by eapply kept_looking]|]. intros l.
    apply Hboth; [apply keeps_report|by eapply kept_report]. }
  intros reported. destruct (negb reported).
  - apply (triple_bind _ _ (fun _ => upon owned)); [intros m2 [H1 _]; by apply same_locked; [apply _|..]|]. intros _ m2 Hm2 _. by apply degrade_stops.
  - pose proof (frame_lives _ Hr _ Hframe) as Hlives. apply (triple_pre (on (flags c k)) _ _ (fun _ => Q tt)); [by intros m2 [_ ?]|].
    apply (triple_locked (on (flags c k)) _ (Q tt)). intros m2 [Hc Hkk] Hfalse. cbn in Hfalse. congruence.
Qed.

(** One look of the waiting loop: confirmed now, or looking again later. *)
Definition confirmed (id state : string) (revision : Z) (view : Subscription) (now : M) : Prop :=
  on owned now /\
  (exists u, subscriptions (svc now) !! id = Some u /\ su_view u = view /\ revision <= su_revision u) /\
  sb_State view = state /\ sb_DesiredState view = state /\
  (exists w, (EnvObserved (scope (svc now)) id revision state w).1 = Ok true).

Lemma look_confirms (id state : string) (revision : Z) (m : M) (view : Subscription) :
  state <> "" -> upon owned m ->
  upon owned (look id state revision m).2 /\
  ((look id state revision m).1 = inl (view, None) -> confirmed id state revision view m).
Proof.
  intros Hne Ho. unfold look, confirmed, snapshot.
  destruct (subscriptions (svc m) !! id) as [u|]; cbn [fmap option_fmap option_map from_option Datatypes.id].
  - destruct ((revision <=? su_revision u) && str_eqb (sb_State (su_view u)) state && str_eqb (sb_DesiredState (su_view u)) state) eqn:Hset.
    + pose proof (triple_call_answer (upon owned) (EnvObserved (scope (svc m)) id revision state) m Ho) as Hc.
      destruct (call _ m) as [[[]|e] m4]; destruct Hc as [Ho4 [w4 Hw4]]; cbn in Hw4; (split; [done|]); [|intros Hx; cbn in Hx; by case_match|done].
      cbn [fst]. intros [= <-]. rewrite !andb_true_iff, Z.leb_le, !str_eqb_true in Hset. destruct Hset as [[? ?] ?].
      split; [apply Ho|]. split; [by exists u|]. split; [done|]. split; [done|]. by exists w4.
    + split; [done|]. intros Hx. cbn in Hx. by case_match.
  - destruct ((revision <=? 0) && str_eqb (sb_State zeroSub) state && str_eqb (sb_DesiredState zeroSub) state) eqn:Hset.
    + exfalso. rewrite !andb_true_iff, !str_eqb_true in Hset. destruct Hset as [[_ He] _]. by apply Hne.
    + split; [done|]. intros Hx. cbn in Hx. by case_match.
Qed.

Lemma await_confirms (fuel : nat) (others : M -> M) (id state : string) (revision : Z) (m m' : M) (view : Subscription) :
  state <> "" -> (forall x, upon owned x -> upon owned (others x)) -> upon owned m ->
  awaitConvergence fuel others id state revision m = Some ((view, None), m') ->
  exists now, confirmed id state revision view now.
Proof.
  intros Hne Hothers. revert m. induction fuel as [|fuel IH]; intros m Ho; cbn [awaitConvergence];
    destruct (look_confirms id state revision (others m) view Hne (Hothers m Ho)) as [Ho2 Hl];
    destruct (look id state revision (others m)) as [[answer|v] m2]; cbn [fst snd] in *;
    try (intros [= -> <-]; eauto);
    pose proof (triple_call (upon owned) Tick m2 Ho2) as Ho3; destruct (call Tick m2) as [[e|] m3]; try done.
  by apply IH.
Qed.

(** A change request that returns without an error was confirmed at one
    moment: this worker showed the requested state for at least the revision
    the store gave the request, and right then the store answered that every
    live worker had reached it; for a pause, no consumer of the destination
    was running on this worker.  Other goroutines do as they like meanwhile,
    as long as consumers stay owned. *)
Theorem change_confirmed (fuel : nat) (others : M -> M) (id state : string) (m m' : M) (view : Subscription) :
  state = StateRunning \/ state = StatePaused ->
  (forall x, upon owned x -> upon owned (others x)) -> upon owned m ->
  Change fuel others id state m = Some ((view, None), m') ->
  exists desired now,
    (exists w, (EnvSetDesired (scope (svc m)) id state w).1 = Ok desired) /\
    confirmed id state (ds_Revision desired) view now /\
    (state = StatePaused -> forall c, m_running now !! c <> Some id).
Proof.
  intros Hstate Hothers Ho. unfold Change. destruct (snapshot (svc m) id); [|done].
  pose proof (triple_call_answer (upon owned) (EnvSetDesired (scope (svc m)) id state) m Ho) as Hc.
  destruct (call (EnvSetDesired (scope (svc m)) id state) m) as [[desired|e] m1]; [|done]. destruct Hc as [Ho1 [w0 Hw0]]. cbn in Hw0.
  pose proof (same_section owned SSignal m1 Ho1) as Ho2. unfold Signal. destruct (section_of SSignal m1) as [u1 m2]. cbn [snd] in Ho2.
  intros Hawait. apply await_confirms in Hawait as [now Hnow]; [|by destruct Hstate as [->| ->]|done|exact Ho2].
  exists desired, now. split; [by exists w0|]. split; [done|]. intros -> c Hcr.
  destruct Hnow as ([Hn1 Hn2] & (u & Hu & Hv & _) & Hs & _). destruct (Hn2 c id Hcr) as (v & Hvv & Hvc).
  rewrite Hu in Hvv. injection Hvv as <-. rewrite (Hn1 id u Hu) in Hvc; [done|]. by rewrite Hv.
Qed.
(** A change request returns: with a context that ends after at most [left_]
    looks, fuel for as many gives an answer, whatever the store says and
    whatever the service's other goroutines do. *)
Theorem change_returns (left_ : W -> nat) (fuel : nat) (others : M -> M) (id state : string) (m : M) :
  (forall w w', Tick w = (None, w') -> (left_ w' < left_ w)%nat) ->
  (forall w, (left_ (Interference w).2 <= left_ w)%nat) ->
  (forall m, (left_ (env (others m)) <= left_ (env m))%nat) ->
  (forall sc d w, (left_ (EnvSetDesired sc d state w).2 <= left_ w)%nat) ->
  (forall sc d rev w, (left_ (EnvObserved sc d rev state w).2 <= left_ w)%nat) ->
  (left_ (env m) <= fuel)%nat -> is_Some (Change fuel others id state m).
Proof.
  intros Htick Hint Hothers Hset Hobs Hf.
  assert (Hcall : forall A (f : Act W A) m, (forall w, (left_ (f w).2 <= left_ w)%nat) -> (left_ (env (call f m).2) <= left_ (env m))%nat).
  { intros A f m1 Hw. destruct (call_env f m1) as [_ ->]. specialize (Hw (env m1)). pose proof (Hint (f (env m1)).2). lia. }
  assert (Hlook : forall revision m, (left_ (env (look id state revision m).2) <= left_ (env m))%nat).
  { intros revision m1. unfold look. destruct (default (zeroSub, 0) (snapshot (svc m1) id)) as [view applied].
    destruct (_ && _); [|done]. specialize (Hcall _ (EnvObserved (scope (svc m1)) id revision state) m1 ltac:(auto)).
    destruct (call _ m1) as [[[]|] m2]; exact Hcall. }
  assert (Hawait : forall revision f m, (left_ (env m) <= f)%nat -> is_Some (awaitConvergence f others id state revision m)).
  { intros revision. induction f as [|f IH]; intros m1 Hm1; cbn [awaitConvergence];
      pose proof (Hothers m1); pose proof (Hlook revision (others m1)); destruct (look id state revision (others m1)) as [[a|view] m2];
      try (by eexists); cbn [snd] in *; destruct (call_env Tick m2) as [Ha He]; destruct (call Tick m2) as [over m3]; cbn [fst snd] in *;
      destruct (Tick (env m2)) as [o w] eqn:Ht; pose proof (Hint w); cbn [fst snd] in *; subst over; destruct o as [e|]; try (by eexists);
      apply Htick in Ht; [lia|apply IH; rewrite He; lia]. }
  unfold Change. destruct (snapshot (svc m) id); [|by eexists].
  pose proof (Hcall _ (EnvSetDesired (scope (svc m)) id state) m ltac:(auto)).
  destruct (call _ m) as [[desired|] m1]; [|by eexists]. unfold Signal, section_of, mbind, act_bind.
  pose proof (others_run_env m1) as He. destruct (others_run m1) as [u m2]. cbn [snd] in *. apply Hawait. cbn. rewrite He.
  pose proof (Hint (env m1)). lia.
Qed.

End Properties.

(** The engine is "ready" exactly when every source is running and every
    subscription is running or paused. *)
Lemma overallStatus_ready (ss : gmap string SourceStatus) (subs : gmap string subscription) :
  overallStatus ss subs = statusReady <->
  map_Forall (fun _ s => ss_State s = "running") ss /\
  map_Forall (fun _ u => sb_State (su_view u) = "running" \/ sb_State (su_view u) = "paused") subs.
Proof.
  unfold overallStatus, statusReady, statusDegraded, sourceRunning, StateRunning, StatePaused.
  rewrite !map_Forall_to_list, !Forall_forall.
  destruct (existsb _ (map_to_list ss)) eqn:H1.
  { split; [done|]. intros [Hs _]. apply existsb_exists in H1 as ([id s] & Hin%list_elem_of_In & Hn).
    specialize (Hs _ Hin). cbn in Hs. apply negb_true_iff in Hn. by apply (proj1 (str_eqb_false _ _)) in Hn. }
  destruct (existsb _ (map_to_list subs)) eqn:H2.
  { split; [done|]. intros [_ Hs]. apply existsb_exists in H2 as ([id u] & Hin%list_elem_of_In & Hn).
    specialize (Hs _ Hin). cbn in Hs. apply andb_true_iff in Hn as [Hn1 Hn2]. apply negb_true_iff in Hn1, Hn2.
    apply (proj1 (str_eqb_false _ _)) in Hn1, Hn2. naive_solver. }
  split; [|done]. intros _. split.
  - intros [id s] Hin. cbn. destruct (decide (ss_State s = "running")) as [|Hne]; [done|]. exfalso.
    assert (existsb (fun '(_, s) => negb (str_eqb (ss_State s) "running")) (map_to_list ss) = true) as Ht; [|congruence].
    apply existsb_exists. exists (id, s). split; [by apply list_elem_of_In|]. by apply negb_true_iff, str_eqb_false.
  - intros [id u] Hin. cbn.
    destruct (decide (sb_State (su_view u) = "running")) as [|Hn1]; [by left|].
    destruct (decide (sb_State (su_view u) = "paused")) as [|Hn2]; [by right|]. exfalso.
    assert (existsb (fun '(_, u) => negb (str_eqb (sb_State (su_view u)) "running") && negb (str_eqb (sb_State (su_view u)) "paused")) (map_to_list subs) = true) as Ht; [|congruence].
    apply existsb_exists. exists (id, u). split; [by apply list_elem_of_In|].
    rewrite (proj2 (str_eqb_false _ _) Hn1), (proj2 (str_eqb_false _ _) Hn2). done.
Qed.

(** ** A worker on the control store, with a clock

    Every call takes [ck_cost] on the clock both sides share; the store's
    statements read it when they start. *)
Record Clocked : Type := mkClocked {
  ck_tables : Tables; ck_now : Z; ck_cost : Z; ck_monitor : string; ck_kafka : bool }.

Definition timed {A : Type} (f : Z -> Tables -> A * Tables) : Act Clocked A := fun w =>
  let '(a, t) := f (ck_now w) (ck_tables w) in
  (a, mkClocked t (ck_now w + ck_cost w) (ck_cost w) (ck_monitor w) (ck_kafka w)).

#[export] Instance clocked_env : Env Clocked := {
  Now := ck_now;
  ended w := None;
  Interference w := ([], w);
  EnvGetStream sc id := timed (fun _ => GetStream None sc id);
  EnvBlockSource sc id reason := timed (fun _ => BlockSource None sc id reason);
  EnvEnsureSubscriptions sc ids := timed (fun _ => EnsureSubscriptions None sc ids);
  EnvSubscriptions sc := timed (fun _ => ControlStore.Subscriptions None sc);
  EnvSetDesired sc id state := timed (fun _ => SetDesired None sc id state);
  EnvRenewLease sc w ttl := timed (fun now => RenewLease None now sc w ttl);
  EnvObserve sc w d rev state := timed (fun _ => ObserveSubscription None sc w d rev state);
  EnvObserved sc d rev state := timed (fun now => SubscriptionObserved None now sc d rev state);
  EnvReleaseLease sc w := timed (fun _ => ReleaseLease None sc w);
  EnvPing w := timed (fun _ t => (if ck_kafka w then Ok tt else Err Canceled, t)) w;
  EnvInspectSource _ _ w := ((ck_monitor w, if str_eqb (ck_monitor w) sourceRunning then "" else "capture stopped"), w);
  NewConsumer _ _ w := (Ok 1%nat, w);
  CancelConsumer _ w := (tt, w);
  StopConsumer _ w := (tt, w);
  ConsumerReady _ w := (true, w);
  ConsumerFinished _ w := (false, w);
  Tick w := (Some Canceled, w);
  Signaled _ := false }.

(** C30. The fence outlives the lease it stands for: it is set thirty seconds from
    the end of the pass's dependency checks, the stored lease thirty seconds
    from the renewal.  When the calls take time, there is an interval in which
    the store counts the worker out — a pause can be confirmed without it —
    while the worker may still dispatch. *)
Theorem lease_outlives_store (m : Machine Clocked) (source : string) (t : Z) :
  validScope (scope (svc m)) = Ok tt -> workerID (svc m) <> "" -> ck_kafka (env m) = true ->
  ss_State (state_of (svc m) source) = sourceRunning ->
  ck_now (env m) + leaseTTL <= t < ck_now (env m) + leaseTTL + 3 * ck_cost (env m) ->
  let m' := (refreshDependencies m).2 in
  let w := mkClocked (ck_tables (env m')) t (ck_cost (env m)) (ck_monitor (env m)) true in
  live (ck_tables w) t (scope (svc m)) (workerID (svc m)) = false /\
  Allowed (outside w m') source = true.
Proof.
  intros Hsc Hw Hk Hs Ht. destruct m as [s w r h]. cbn in *.
  unfold refreshDependencies, at_time, mbind, act_bind, reading, call, others_run, EnvRenewLease, EnvSubscriptions, EnvPing, clocked_env, timed.
  cbn [svc env m_running]. unfold RenewLease, ControlStore.Subscriptions, stop_if, act_try, pure, exec, reject_if. rewrite Hsc.
  rewrite (proj2 (str_eqb_false _ _) Hw). change (leaseTTL <=? 0) with false. cbn -[leaseTTL]. rewrite Hk. cbn -[leaseTTL].
  unfold live, Allowed, allows. cbn -[leaseTTL]. rewrite lookup_insert_eq. split; [apply Z.ltb_ge; cbn -[leaseTTL] in *; lia|].
  unfold state_of in *. cbn -[leaseTTL]. rewrite Hs. cbn -[leaseTTL].
  rewrite (proj2 (Z.ltb_lt _ _)) by lia. done.
Qed.

(** ** Witnesses *)
Definition ex_tables : Tables :=
  mkTables {[ (ControlStore.ex_scope, "orders") := ControlStore.ex_registration ]}
    {[ (ControlStore.ex_scope, "billing") := ("running", 1) ]} ∅ ∅ ∅ ∅.
Definition ex_world (state : string) (kafka : bool) : Clocked := mkClocked ex_tables 0 1000000000 state kafka.
Definition ex_source : Source := mkSource "orders" "" "orders" [] "" "".
Definition ex_log : Activity.Log := Activity.New "b" true.
Definition ex_empty (state : string) (kafka : bool) : Machine Clocked :=
  mkMachine (mkSvc [] [] ControlStore.ex_scope "" false (mkStatus "" false false) ∅ ∅ ∅ 0 (mkJournal ex_log [])) (ex_world state kafka) ∅ [].
Definition ex_machine (state : string) (kafka : bool) : Machine Clocked :=
  match (New ControlStore.ex_scope [ex_source] [mkDestination "billing" ["orders"]] ex_log "w1" (ex_world state kafka)).1 with
  | Ok m => m
  | Err _ => ex_empty state kafka
  end.

Lemma clocked_reasons : gives_reasons (W := Clocked).
Proof.
  split; [intros w x; cbn; by intros ?%elem_of_nil|]. intros source reg w. cbn.
  intros ->. by vm_compute.
Qed.

(** The same world with other goroutines: which source they block at the next
    calls and sections, if any. *)
Record Busy : Type := mkBusy { bz_world : Clocked; bz_pending : list (option string) }.
Definition blocking (source : string) : list section := [SLatch source "history lost"; SShow source "history lost"].

Definition unseen {A : Type} (f : Act Clocked A) : Act Busy A := fun w => let '(a, c) := f (bz_world w) in (a, mkBusy c (bz_pending w)).

#[export] Instance busy_env : Env Busy := {
  Now w := Now (bz_world w);
  ended w := ended (bz_world w);
  Interference w := match bz_pending w with
    | [] => ([], w)
    | next :: rest => (match next with Some source => blocking source | None => [] end, mkBusy (bz_world w) rest)
    end;
  EnvGetStream sc id := unseen (EnvGetStream sc id);
  EnvBlockSource sc id reason := unseen (EnvBlockSource sc id reason);
  EnvEnsureSubscriptions sc ids := unseen (EnvEnsureSubscriptions sc ids);
  EnvSubscriptions sc := unseen (EnvSubscriptions sc);
  EnvSetDesired sc id state := unseen (EnvSetDesired sc id state);
  EnvRenewLease sc w ttl := unseen (EnvRenewLease sc w ttl);
  EnvObserve sc w d rev state := unseen (EnvObserve sc w d rev state);
  EnvObserved sc d rev state := unseen (EnvObserved sc d rev state);
  EnvReleaseLease sc w := unseen (EnvReleaseLease sc w);
  EnvPing := unseen EnvPing;
  EnvInspectSource s r := unseen (EnvInspectSource s r);
  NewConsumer d l := unseen (NewConsumer d l);
  CancelConsumer c := unseen (CancelConsumer c);
  StopConsumer c := unseen (StopConsumer c);
  ConsumerReady c := unseen (ConsumerReady c);
  ConsumerFinished c := unseen (ConsumerFinished c);
  Tick := unseen Tick;
  Signaled w := Signaled (bz_world w) }.

(** A worker blocks the source while the first pass waits for the monitor, whose
    answer is that it runs. *)
Definition ex_busy_world : Busy := mkBusy (ex_world "running" true) (replicate 7 None ++ [Some "orders"]).
Definition ex_busy : Machine Busy * Busy :=
  match New ControlStore.ex_scope [ex_source] [mkDestination "billing" ["orders"]] ex_log "w1" ex_busy_world with
  | (Ok m, w) => (m, w)
  | (Err _, w) => (mkMachine (svc (ex_empty "running" true)) w ∅ [], w)
  end.

Lemma busy_reasons : gives_reasons (W := Busy).
Proof.
  split.
  - intros w x. cbn. destruct (bz_pending w) as [|[source|] rest]; cbn; [by intros ?%elem_of_nil| |by intros ?%elem_of_nil].
    unfold blocking. rewrite !elem_of_cons, elem_of_nil. by intros [->|[->|[]]].
  - intros source reg w. cbn. intros ->. by vm_compute.
Qed.

Lemma busy_new : exists w',
  New ControlStore.ex_scope [ex_source] [mkDestination "billing" ["orders"]] ex_log "w1" ex_busy_world = (Ok ex_busy.1, w').
Proof.
  assert (is_ok (New ControlStore.ex_scope [ex_source] [mkDestination "billing" ["orders"]] ex_log "w1" ex_busy_world).1 = true) as Hok
    by (vm_compute; reflexivity).
  unfold ex_busy. destruct (New _ _ _ _ _ ex_busy_world) as [[m|e] w]; [by exists w|discriminate Hok].
Qed.

(** The block of another goroutine falls into the inspection of a pass, for
    which everything is healthy and the source runs; the block has not reached
    the store.  From then on the fence is shut, in the middle of the pass too. *)
Lemma block_is_final_witness :
  let m := (reconcile ex_busy.1).2 in
  Blocked <$> tb_streams (ck_tables (bz_world (env m))) !! (ControlStore.ex_scope, "orders") = Some "" /\ st_Control (status (svc m)) && st_Kafka (status (svc m)) = true /\
  (exists x, m_seen m !! 18%nat = Some x /\ forall now, allows (se_svc x) now "orders" = false) /\
  forall now, allows (svc (reconcile (Block "orders" "capture stopped" m).2).2) now "orders" = false.
Proof.
  intros m. split; [vm_compute; reflexivity|]. split; [vm_compute; reflexivity|].
  destruct busy_new as [w' Hnew].
  assert (rtc acts ex_busy.1 m) as Hm by (apply (rtc_l _ _ m); [apply act_pass|apply rtc_refl]).
  destruct (block_is_final ControlStore.ex_scope [ex_source] [mkDestination "billing" ["orders"]] ex_log "w1" ex_busy_world w'
    "orders" "history lost" ex_busy.1 m busy_reasons Hnew Hm) as [Hpast _].
  destruct (block_is_final ControlStore.ex_scope [ex_source] [mkDestination "billing" ["orders"]] ex_log "w1" ex_busy_world w'
    "orders" "capture stopped" ex_busy.1 m busy_reasons Hnew Hm) as [_ Hnext].
  split; [|apply Hnext; [discriminate|]; eapply rtc_l; [apply act_pass|apply rtc_refl]].
  assert (se_by <$> m_seen m !! 16%nat = Some (Some (SLatch "orders" "history lost"))) as H1 by (vm_compute; reflexivity).
  assert (se_by <$> m_seen m !! 17%nat = Some (Some (SShow "orders" "history lost"))) as H2 by (vm_compute; reflexivity).
  assert (match m_seen m !! 18%nat with Some _ => true | None => false end = true) as H3 by (vm_compute; reflexivity).
  destruct (m_seen m !! 18%nat) as [x|] eqn:Hx; [|discriminate H3].
  destruct (m_seen m !! 16%nat) as [a|] eqn:Ha; [|discriminate H1]. destruct (m_seen m !! 17%nat) as [b|] eqn:Hb; [|discriminate H2].
  injection H1 as H1. injection H2 as H2. exists x. split; [reflexivity|]. apply (Hpast 16%nat 17%nat 18%nat a b x); try assumption; lia.
Defined.

Definition ex_running : Machine Clocked := (reconcile (ex_machine "running" true)).2.
Definition ex_paused : Machine Clocked :=
  (reconcile (outside (EnvSetDesired ControlStore.ex_scope "billing" StatePaused (env ex_running)).2 ex_running)).2.

Lemma ex_new (state : string) (kafka : bool) : exists w',
  New ControlStore.ex_scope [ex_source] [mkDestination "billing" ["orders"]] ex_log "w1" (ex_world state kafka) = (Ok (ex_machine state kafka), w').
Proof. eexists. unfold ex_machine, New. by cbn. Qed.

Lemma ex_running_owned : upon owned ex_running.
Proof. destruct (ex_new "running" true) as [w' Hnew]. apply keeps_reconcile. by eapply new_owned. Qed.

(** The consumer ran; in the middle of the pass that stopped it, right after the
    pause is shown, it has ended. *)
Lemma paused_means_stopped_witness :
  m_running ex_running !! 1%nat = Some "billing" /\
  exists x u, m_seen ex_paused !! 67%nat = Some x /\ subscriptions (se_svc x) !! "billing" = Some u /\ sb_State (su_view u) = StatePaused /\
    forall c, se_running x !! c <> Some "billing".
Proof.
  split; [vm_compute; reflexivity|]. destruct (ex_new "running" true) as [w' Hnew].
  assert ((fun x => default "" (sb_State ∘ su_view <$> subscriptions (se_svc x) !! "billing")) <$> m_seen ex_paused !! 67%nat = Some StatePaused) as Hp
    by (vm_compute; reflexivity).
  destruct (m_seen ex_paused !! 67%nat) as [x|] eqn:Hx; [|discriminate Hp]. injection Hp as Hp.
  destruct (subscriptions (se_svc x) !! "billing") as [u|] eqn:Hu; [|discriminate Hp]. cbn in Hp. exists x, u. split_and!; [reflexivity|exact Hu|exact Hp|].
  refine (proj2 (paused_means_stopped ControlStore.ex_scope [ex_source] [mkDestination "billing" ["orders"]] ex_log "w1"
    (ex_world "running" true) w' (ex_machine "running" true) ex_paused x "billing" u Hnew _ (or_introl _) Hu Hp)).
  - apply (rtc_l _ _ ex_running); [apply act_pass|].
    eapply rtc_l; [apply (act_world _ (EnvSetDesired ControlStore.ex_scope "billing" StatePaused (env ex_running)).2)|].
    apply (rtc_l _ _ ex_paused); [apply act_pass|apply rtc_refl].
  - by apply list_elem_of_lookup_2 in Hx.
Defined.

Definition ex_no_kafka : Machine Clocked :=
  outside (mkClocked (ck_tables (env ex_running)) 7000000000 1000000000 "running" false) ex_running.

Lemma unhealthy_stops_witness : m_running ex_running <> ∅ /\ m_running (reconcile ex_no_kafka).2 = ∅.
Proof.
  split; [by vm_compute|].
  apply (unhealthy_stops ex_no_kafka); [apply (upon_note owned owned), ex_running_owned; apply ex_running_owned|vm_compute; reflexivity].
Defined.

Lemma change_confirmed_witness : exists view m' desired (now : Machine Clocked),
  Change 3 (fun m => (reconcile m).2) "billing" StatePaused ex_running = Some ((view, None), m') /\
  confirmed "billing" StatePaused (ds_Revision desired) view now.
Proof.
  assert (match Change 3 (fun m => (reconcile m).2) "billing" StatePaused ex_running with Some ((_, None), _) => true | _ => false end = true) as Hok
    by (vm_compute; reflexivity).
  destruct (Change 3 (fun m => (reconcile m).2) "billing" StatePaused ex_running) as [[[view [e|]] m']|] eqn:Hc; [discriminate Hok| |discriminate Hok].
  destruct (change_confirmed 3 (fun m => (reconcile m).2) "billing" StatePaused ex_running m' view
    (or_intror eq_refl) (fun x Hx => keeps_reconcile x Hx) ex_running_owned Hc) as (desired & now & _ & Hn & _).
  exists view, m', desired, now. by split.
Defined.

Lemma change_returns_witness : is_Some (Change 0 (fun m => m) "billing" StatePaused ex_running).
Proof.
  apply (change_returns (W := Clocked) (fun _ => 0%nat) 0 (fun m => m) "billing" StatePaused ex_running); try lia; try done.
Defined.

Lemma lease_outlives_store_witness :
  let m' := (refreshDependencies ex_running).2 in
  let w := mkClocked (ck_tables (env m')) 37000000000 (ck_cost (env ex_running)) (ck_monitor (env ex_running)) true in
  live (ck_tables w) 37000000000 (scope (svc ex_running)) (workerID (svc ex_running)) = false /\
  Allowed (outside w m') "orders" = true.
Proof.
  apply (lease_outlives_store ex_running "orders" 37000000000).
  - by vm_compute.
  - by vm_compute.
  - by vm_compute.
  - by vm_compute.
  - by vm_compute.
Defined.
