(* ===== verification/Fleet.v ===== *)
(** * Fleet: the workers of one scope on one control store

    Several processes run [Control] against the same tables.  A worker is
    abstracted to the protocol it follows; the fleet's steps are the store's
    statements, issued by any worker or client in any order, workers joining
    and dying, and time.  Here is what a confirmed pause means for the whole
    fleet; [Member] shows that [Control]'s service follows the protocol. *)

From S2P Require Import Prelude Strconv Stream JsonCodec Act ControlStore Control.
From stdpp Require Import relations sorting.
Local Open Scope Z_scope.

(** ** The protocol of one worker *)

(** The rows it has read from the store, those of its last read, and the
    consumers it runs with their destinations. *)
Record Proto : Type := mkProto {
  pr_seen : list DesiredSubscription;
  pr_read : list DesiredSubscription;
  pr_running : gmap nat string }.

Definition no_consumer (d : string) (p : Proto) : Prop := forall c, pr_running p !! c <> Some d.

(** The last read does not ask for [d] to run. *)
Definition not_wanted (d : string) (p : Proto) : Prop := forall e, e ∈ pr_read p -> ds_ID e = d -> paused e = true.

(** The worker may report [d] paused at a revision: the store asked for it, the
    last read agrees, and nothing of [d] is running. *)
Definition settled (d : string) (r : Z) (p : Proto) : Prop :=
  mkDesired d StatePaused r ∈ pr_seen p /\ not_wanted d p /\ no_consumer d p.

Record Fleet_ : Type := mkFleet { fl_tables : Tables; fl_now : Z; fl_workers : gmap string Proto }.

Definition with_tables (t : Tables) (f : Fleet_) : Fleet_ := mkFleet t (fl_now f) (fl_workers f).
Definition with_worker (b : string) (p : Proto) (f : Fleet_) : Fleet_ := mkFleet (fl_tables f) (fl_now f) (<[b := p]> (fl_workers f)).

Section Scoped.
Variable sc : Scope.

(** A step of worker [b], or of none of them. *)
Inductive fstep : option string -> Fleet_ -> Fleet_ -> Prop :=
(* any statement by anyone that is not an observation of this scope *)
| f_client f t' : step (fl_tables f) t' -> (forall k, k.1.1 = sc -> tb_observed t' !! k = tb_observed (fl_tables f) !! k) ->
    fstep None f (with_tables t' f)
| f_time f now : fl_now f <= now -> fstep None f (mkFleet (fl_tables f) now (fl_workers f))
(* worker ids are random: a new one has no rows *)
| f_join f b : fl_workers f !! b = None -> (forall d, tb_observed (fl_tables f) !! (sc, b, d) = None) ->
    fstep (Some b) f (with_worker b (mkProto [] [] ∅) f)
| f_crash f b : fstep (Some b) f (mkFleet (fl_tables f) (fl_now f) (delete b (fl_workers f)))
| f_read f b p l db : fl_workers f !! b = Some p -> Subscriptions db sc (fl_tables f) = (Ok l, fl_tables f) ->
    fstep (Some b) f (with_worker b (mkProto (l ++ pr_seen p) l (pr_running p)) f)
| f_start f b p e c : fl_workers f !! b = Some p -> e ∈ pr_read p -> paused e = false -> pr_running p !! c = None ->
    fstep (Some b) f (with_worker b (mkProto (pr_seen p) (pr_read p) (<[c := ds_ID e]> (pr_running p))) f)
| f_stop f b p c : fl_workers f !! b = Some p ->
    fstep (Some b) f (with_worker b (mkProto (pr_seen p) (pr_read p) (delete c (pr_running p))) f)
| f_observe f b p d r s db : fl_workers f !! b = Some p -> (s = StatePaused -> settled d r p) ->
    fstep (Some b) f (with_tables (ObserveSubscription db sc b d r s (fl_tables f)).2 f)
| f_release f b p db : fl_workers f !! b = Some p ->
    fstep (Some b) f (with_tables (ReleaseLease db sc b (fl_tables f)).2 f).

Definition moves : Fleet_ -> Fleet_ -> Prop := rtc (fun f f' => exists who, fstep who f f').

(** ** What the store and a worker agree on *)

(** The store has the row a worker read, or a later revision of it. *)
Definition passed (t : Tables) (e : DesiredSubscription) : Prop :=
  exists x r, tb_subscriptions t !! (sc, ds_ID e) = Some (x, r) /\ ds_Revision e <= r /\ (ds_Revision e = r -> ds_Desired e = x).

Record agrees (t : Tables) (b : string) (p : Proto) : Prop := mkAgrees {
  ag_seen : forall e, e ∈ pr_seen p -> passed t e;
  ag_read : pr_read p ⊆ pr_seen p;
  ag_paused : forall d r, tb_observed t !! (sc, b, d) = Some (r, StatePaused) ->
    (tb_subscriptions t !! (sc, d) = Some (StatePaused, r) -> no_consumer d p) /\
    (forall e, e ∈ pr_read p -> ds_ID e = d -> paused e = false -> r < ds_Revision e) }.

(** Every pause reported by anyone was asked for. *)
Definition asked (t : Tables) : Prop := forall b d r, tb_observed t !! (sc, b, d) = Some (r, StatePaused) -> passed t (mkDesired d StatePaused r).

Definition agree (f : Fleet_) : Prop :=
  asked (fl_tables f) /\ forall b p, fl_workers f !! b = Some p -> agrees (fl_tables f) b p.

(** ** Every step keeps the agreement *)
Lemma passed_durable (t t' : Tables) (e : DesiredSubscription) : durable t t' -> passed t e -> passed t' e.
Proof.
  intros Hd (x & r & Hr & Hle & He). apply (dur_subscriptions _ _ Hd) in Hr as (x' & r' & Hr & Hle' & He').
  exists x', r'. split; [done|]. split; [lia|]. intros Heq. rewrite He by lia. apply He'. lia.
Qed.

(** A row and the store at one revision want the same. *)
Lemma passed_row (t : Tables) (e : DesiredSubscription) (x : string) (r : Z) :
  passed t e -> tb_subscriptions t !! (sc, ds_ID e) = Some (x, r) -> ds_Revision e <= r /\ (ds_Revision e = r -> ds_Desired e = x).
Proof. intros (x' & r' & Hr & Hle & He) Hx. rewrite Hr in Hx. injection Hx as -> ->. done. Qed.

Lemma paused_iff (e : DesiredSubscription) : paused e = true <-> ds_Desired e = StatePaused.
Proof. apply str_eqb_true. Qed.

Lemma listed (db : option error) (t t' : Tables) (l : list DesiredSubscription) (e : DesiredSubscription) :
  Subscriptions db sc t = (Ok l, t') -> e ∈ l <-> tb_subscriptions t !! (sc, ds_ID e) = Some (ds_Desired e, ds_Revision e).
Proof.
  unfold Subscriptions, act_try, pure, exec. destruct (validScope sc); [|done]. destruct db; [done|]. intros [= <- _].
  rewrite list_elem_of_omap. split.
  - intros ([k [x r]] & Hin%elem_of_map_to_list & Hd). destruct (decide _) as [Hk|]; [|done]. injection Hd as <-. cbn. rewrite <- Hk.
    by destruct k.
  - intros Hr. exists ((sc, ds_ID e), (ds_Desired e, ds_Revision e)). split; [by apply elem_of_map_to_list|]. cbn.
    rewrite decide_True by done. by destruct e.
Qed.

Lemma agrees_durable (t t' : Tables) (b : string) (p : Proto) :
  durable t t' -> asked t -> (forall d, tb_observed t' !! (sc, b, d) = tb_observed t !! (sc, b, d)) -> agrees t b p -> agrees t' b p.
Proof.
  intros Hd Hask Ho [Hs Hr Hp]. split; [by intros e He; eapply passed_durable, Hs|done|].
  intros d r. rewrite Ho. intros Hobs. pose proof (Hask _ _ _ Hobs) as Hpass. destruct (Hp _ _ Hobs) as (Hno & Hw). split; [|done].
  intros Hrow. apply Hno. destruct Hpass as (x & v & Hx & Hle & Heq). cbn in *. pose proof Hx as Hx'.
  apply (dur_subscriptions _ _ Hd) in Hx' as (x' & v' & Hx' & Hle' & _). rewrite Hrow in Hx'. injection Hx' as <- <-.
  rewrite Hx. rewrite (Heq ltac:(lia)). by replace v with r by lia.
Qed.

Lemma observe_rows (db : option error) (t : Tables) (b d : string) (r : Z) (s : string) k :
  tb_observed (ObserveSubscription db sc b d r s t).2 !! k = tb_observed t !! k \/
  k = (sc, b, d) /\ tb_observed (ObserveSubscription db sc b d r s t).2 !! k = Some (r, s).
Proof.
  unfold ObserveSubscription. guards; try (by left). destruct (match tb_observed t !! (sc, b, d) with Some _ => _ | None => _ end); [|by left].
  cbn. destruct (decide (k = (sc, b, d))) as [->|Hne]; [right; by rewrite lookup_insert_eq|left; by rewrite lookup_insert_ne].
Qed.

Lemma release_rows (db : option error) (t : Tables) (b : string) k x :
  tb_observed (ReleaseLease db sc b t).2 !! k = Some x -> tb_observed t !! k = Some x.
Proof. unfold ReleaseLease. guards; try done. by intros [? _]%map_lookup_filter_Some. Qed.

Lemma release_other (db : option error) (t : Tables) (b b' d : string) : b' <> b ->
  tb_observed (ReleaseLease db sc b t).2 !! (sc, b', d) = tb_observed t !! (sc, b', d).
Proof.
  intros Hne. unfold ReleaseLease. guards; try done. destruct (tb_observed t !! (sc, b', d)) as [x|] eqn:Hx.
  - apply map_lookup_filter_Some. split; [done|]. cbn. naive_solver.
  - apply map_lookup_filter_None. by left.
Qed.

(** Only the row of the worker itself may change, and only to what it may report. *)
Lemma agrees_rows (t t' : Tables) (b : string) (p : Proto) :
  durable t t' -> asked t ->
  (forall d r, tb_observed t' !! (sc, b, d) = Some (r, StatePaused) ->
    tb_observed t !! (sc, b, d) = Some (r, StatePaused) \/ settled d r p) ->
  agrees t b p -> agrees t' b p.
Proof.
  intros Hd Hask Ho Ha. pose proof (agrees_durable t (set_observed t' (tb_observed t)) b p) as [Hs Hr Hp]; [by destruct Hd|done|done|done|].
  split; [done|done|]. intros d r [Hrow|(Hseen & Hnw & Hno)]%Ho; [by apply Hp|].
  split; [done|]. intros e He Hid Hpe. by rewrite (Hnw e He Hid) in Hpe.
Qed.

Lemma asked_rows (t t' : Tables) : durable t t' ->
  (forall b d r, tb_observed t' !! (sc, b, d) = Some (r, StatePaused) ->
    tb_observed t !! (sc, b, d) = Some (r, StatePaused) \/ passed t (mkDesired d StatePaused r)) -> asked t -> asked t'.
Proof. intros Hd Ho Ha b d r [Hrow|Hp]%Ho; eapply passed_durable; eauto. Qed.

Lemma fstep_durable (who : option string) (f f' : Fleet_) : fstep who f f' -> durable (fl_tables f) (fl_tables f').
Proof. intros []; cbn [fl_tables with_tables with_worker]; try done; apply step_durable; [done|apply step_observe|apply step_release]. Qed.

Lemma fstep_asked (who : option string) (f f' : Fleet_) : fstep who f f' -> agree f -> asked (fl_tables f').
Proof.
  intros Hstep [Hask Ha]. apply fstep_durable in Hstep as Hd. apply (asked_rows _ _ Hd); [|done]. intros b' d' r'.
  destruct Hstep as [f t' _ Hrows|f now _|f b _ _|f b|f b p l db Hb Hl|f b p e c _ _ _ _|f b p c _|f b p d r s db Hb Hs|f b p db Hb];
    cbn [fl_tables with_tables with_worker]; try by left.
  - rewrite Hrows by done. by left.
  - destruct (observe_rows db (fl_tables f) b d r s (sc, b', d')) as [->|[[= -> ->] ->]]; [by left|].
    intros [= <- Hpaused]. right. apply (ag_seen _ _ _ (Ha b p Hb)). by apply Hs.
  - intros Hrow. left. by apply release_rows in Hrow.
Qed.

Lemma fstep_agrees (who : option string) (f f' : Fleet_) (b' : string) (q : Proto) :
  fstep who f f' -> agree f -> fl_workers f' !! b' = Some q -> agrees (fl_tables f') b' q.
Proof.
  intros Hstep [Hask Ha]. destruct Hstep as [f t' Hst Hrows|f now Hnow|f b Hnew Hrows|f b|f b p l db Hb Hl|f b p e c Hb He Hpe Hc|f b p c Hb
    |f b p d r s db Hb Hs|f b p db Hb]; cbn [fl_tables fl_workers with_tables with_worker].
  - intros Hq. apply (agrees_durable (fl_tables f)); [by apply step_durable|done|intros d; by apply Hrows|by apply Ha].
  - apply Ha.
  - intros [[<- <-]|[Hne Hq]]%lookup_insert_Some; [|by apply Ha]. split; [by intros e ?%elem_of_nil|done|].
    intros d r. by rewrite Hrows.
  - intros [Hne Hq]%lookup_delete_Some. by apply Ha.
  - intros [[<- <-]|[Hne Hq]]%lookup_insert_Some; [|by apply Ha]. destruct (Ha b p Hb) as [Hs Hr Hp]. split; cbn.
    + intros e [Hin|Hin]%elem_of_app; [|by apply Hs]. apply (listed _ _ _ _ _ Hl) in Hin.
      exists (ds_Desired e), (ds_Revision e). split; [done|]. split; [lia|done].
    + intros e He. apply elem_of_app. by left.
    + intros d r Hobs. destruct (Hp d r Hobs) as (Hno & Hw). split; [done|]. intros e He <- Hpe.
      apply (listed _ _ _ _ _ Hl) in He. destruct (passed_row _ _ _ _ (Hask _ _ _ Hobs) He) as [Hle Heq]. cbn in *.
      destruct (decide (r = ds_Revision e)) as [Hre|]; [|lia]. apply Heq in Hre. symmetry in Hre. apply paused_iff in Hre. congruence.
  - intros [[<- <-]|[Hne Hq]]%lookup_insert_Some; [|by apply Ha]. destruct (Ha b p Hb) as [Hs Hr Hp]. split; [done|done|]. cbn.
    intros d r (Hno & Hw)%Hp. split; [|done]. intros Hrow k Hk. cbn in Hk.
    apply lookup_insert_Some in Hk as [[_ Hd]|[_ Hk]]; [|by apply (Hno Hrow k)].
    pose proof (Hw e He Hd Hpe) as Hlt. rewrite <- Hd in Hrow. destruct (passed_row _ _ _ _ (Hs e (Hr e He)) Hrow) as [Hle _]. lia.
  - intros [[<- <-]|[Hne Hq]]%lookup_insert_Some; [|by apply Ha]. destruct (Ha b p Hb) as [Hs Hr Hp]. split; [done|done|]. cbn.
    intros d r (Hno & Hw)%Hp. split; [|done]. intros Hrow k Hk. cbn in Hk. apply lookup_delete_Some in Hk as [_ Hk]. by apply (Hno Hrow k).
  - intros Hq. apply (agrees_rows (fl_tables f)); [apply step_durable, step_observe|done| |by apply Ha]. intros d' r'.
    destruct (observe_rows db (fl_tables f) b d r s (sc, b', d')) as [->|[[= -> ->] ->]]; [by left|].
    intros [= <- Hpaused]. right. rewrite Hb in Hq. injection Hq as <-. by apply Hs.
  - intros Hq. apply (agrees_rows (fl_tables f)); [apply step_durable, step_release|done| |by apply Ha]. intros d' r' Hrow.
    left. by apply release_rows in Hrow.
Qed.

Lemma moves_durable (f f' : Fleet_) : moves f f' -> durable (fl_tables f) (fl_tables f').
Proof. induction 1 as [|f1 f2 f3 [who H%fstep_durable] _ IH]; [done|]. by etrans. Qed.

Lemma moves_agree (f f' : Fleet_) : moves f f' -> agree f -> agree f'.
Proof. induction 1 as [|f1 f2 f3 [who H] _ IH]; [done|]. intros Ha. apply IH. split; [by eapply fstep_asked|by intros ? ? ?; eapply fstep_agrees]. Qed.

(** ** A confirmed pause *)

(** No consumer of [d], and no reason to start one. *)
Definition off (d : string) (p : Proto) : Prop := no_consumer d p /\ not_wanted d p.

(** Between two states with one revision the row does not change. *)
Lemma row_between (t t1 t2 : Tables) (k : Scope * string) (x y : string) (r : Z) :
  durable t t1 -> durable t1 t2 -> tb_subscriptions t !! k = Some (x, r) -> tb_subscriptions t2 !! k = Some (y, r) ->
  tb_subscriptions t1 !! k = Some (x, r).
Proof.
  intros H1 H2 Hx Hy. apply (dur_subscriptions _ _ H1) in Hx as (x1 & r1 & Hx1 & Hle1 & He1). pose proof Hx1 as Hx2.
  apply (dur_subscriptions _ _ H2) in Hx2 as (x2 & r2 & Hx2 & Hle2 & _). rewrite Hy in Hx2. injection Hx2 as -> ->.
  replace r1 with r2 in * by lia. by rewrite He1.
Qed.

Lemma step_off (who : option string) (f f' : Fleet_) (d : string) (r : Z) (stale : string -> Prop) :
  fstep who f f' -> tb_subscriptions (fl_tables f) !! (sc, d) = Some (StatePaused, r) ->
  (forall b p, fl_workers f !! b = Some p -> ~ stale b -> off d p) ->
  forall b p, fl_workers f' !! b = Some p -> ~ stale b -> off d p.
Proof.
  intros Hstep Hrow Hk b' q. destruct Hstep as [f t' _ _|f now _|f b _ _|f b|f b p l db Hb Hl|f b p e c Hb He Hpe _|f b p c Hb
    |f b p d' r' s db Hb _|f b p db Hb]; cbn [fl_tables fl_workers with_tables with_worker]; try apply Hk.
  - intros [[<- <-]|[_ Hq]]%lookup_insert_Some; [|by apply Hk]. intros _. split; [by intros c ?|by intros e ?%elem_of_nil].
  - intros [_ Hq]%lookup_delete_Some. by apply Hk.
  - intros [[<- <-]|[_ Hq]]%lookup_insert_Some Hn; [|by eapply Hk]. destruct (Hk b p Hb Hn) as [Hno _]. split; [done|].
    intros e He <-. apply (listed _ _ _ _ _ Hl) in He. rewrite Hrow in He. apply paused_iff. congruence.
  - intros [[<- <-]|[_ Hq]]%lookup_insert_Some Hn; [|by eapply Hk]. destruct (Hk b p Hb Hn) as [Hno Hnw]. split; [|done].
    intros k Hk'. cbn in Hk'. apply lookup_insert_Some in Hk' as [[_ Hd]|[_ Hk']]; [|by apply (Hno k)].
    rewrite (Hnw e He Hd) in Hpe. done.
  - intros [[<- <-]|[_ Hq]]%lookup_insert_Some Hn; [|by eapply Hk]. destruct (Hk b p Hb Hn) as [Hno Hnw]. split; [|done].
    intros k Hk'. cbn in Hk'. apply lookup_delete_Some in Hk' as [_ Hk']. by apply (Hno k).
Qed.

(** The first state of a fleet. *)
Definition launch (f : Fleet_) : Prop := fl_tables f = empty_tables /\ fl_workers f = ∅.

Lemma launch_agree (f f' : Fleet_) : launch f -> moves f f' -> agree f'.
Proof.
  intros [Ht Hw] Hf. eapply moves_agree; [exact Hf|]. split.
  - intros b d r. by rewrite Ht.
  - intros b p. by rewrite Hw, lookup_empty.
Qed.

(** The store's answer, when the row has not moved on: the row asks for the
    pause, and live workers are off. *)
Lemma observed_off (f : Fleet_) (db : option error) (d : string) (r : Z) :
  agree f -> (SubscriptionObserved db (fl_now f) sc d r StatePaused (fl_tables f)).1 = Ok true ->
  (forall x v, tb_subscriptions (fl_tables f) !! (sc, d) = Some (x, v) -> v <= r) ->
  tb_subscriptions (fl_tables f) !! (sc, d) = Some (StatePaused, r) /\
  forall b p, fl_workers f !! b = Some p -> live (fl_tables f) (fl_now f) sc b = true -> off d p.
Proof.
  intros [Hask Ha] Hobs Hle. destruct (proj1 (observed_iff _ _ _ _ _ _ _ _ Hobs) eq_refl) as [(w & Hw) Hall].
  assert (forall b, live (fl_tables f) (fl_now f) sc b = true -> tb_subscriptions (fl_tables f) !! (sc, d) = Some (StatePaused, r) /\
    tb_observed (fl_tables f) !! (sc, b, d) = Some (r, StatePaused)) as Hlive.
  { intros b Hb. destruct (Hall b Hb) as (v & Hv & Hrv). destruct (Hask _ _ _ Hv) as (x & u & Hu & Hvu & He). cbn in *.
    pose proof (Hle _ _ Hu). replace v with r in * by lia. replace u with r in * by lia. rewrite Hu, <- He by done. done. }
  destruct (Hlive w Hw) as (Hrow & _). split; [done|]. intros b p Hb Hl.
  destruct (Hlive b Hl) as (_ & Hobsb). destruct (Ha b p Hb) as [Hs Hr Hp]. destruct (Hp d r Hobsb) as [Hno Hnw].
  split; [by apply Hno|]. intros e He <-. destruct (paused e) eqn:Hpe; [done|]. pose proof (Hnw e He eq_refl Hpe).
  destruct (passed_row _ _ _ _ (Hs e (Hr e He)) Hrow) as [Hre _]. lia.
Qed.

Lemma off_kept (f f' : Fleet_) (d : string) (r : Z) (stale : string -> Prop) :
  moves f f' -> tb_subscriptions (fl_tables f) !! (sc, d) = Some (StatePaused, r) ->
  (exists x, tb_subscriptions (fl_tables f') !! (sc, d) = Some (x, r)) ->
  (forall b p, fl_workers f !! b = Some p -> ~ stale b -> off d p) ->
  forall b p, fl_workers f' !! b = Some p -> ~ stale b -> off d p.
Proof.
  intros Hf Hrow [x Hrow']. induction Hf as [|f f1 f2 [who Hs] Hr IH]; [done|]. intros Hk. apply IH; [|done|].
  - eapply row_between; [by eapply fstep_durable|by eapply moves_durable|done|done].
  - by eapply step_off.
Qed.

(** A pause holds for the whole fleet: from the moment the store says every live
    worker has observed it, and for as long as nobody asks for anything else,
    no worker that was live then or joined later runs a consumer of the
    destination. *)
Lemma off_global (f0 f f' : Fleet_) (db : option error) (d b : string) (r : Z) (x : string) (p : Proto) :
  launch f0 -> moves f0 f ->
  (SubscriptionObserved db (fl_now f) sc d r StatePaused (fl_tables f)).1 = Ok true ->
  moves f f' -> tb_subscriptions (fl_tables f') !! (sc, d) = Some (x, r) ->
  fl_workers f' !! b = Some p -> (is_Some (fl_workers f !! b) -> live (fl_tables f) (fl_now f) sc b = true) ->
  no_consumer d p.
Proof.
  intros H0 Hf Hobs Hf' Hrow' Hb Hlive. pose proof (launch_agree _ _ H0 Hf) as Ha.
  destruct (observed_off f db d r Ha Hobs) as [Hrow Hoff].
  { intros y v Hy. apply (dur_subscriptions _ _ (moves_durable _ _ Hf')) in Hy as (y' & v' & Hy & Hle & _). rewrite Hrow' in Hy.
    by injection Hy as <- <-. }
  apply (off_kept f f' d r (fun b => is_Some (fl_workers f !! b) /\ live (fl_tables f) (fl_now f) sc b = false)) with (b := b); try done.
  - by exists x.
  - intros c q Hq Hn. apply (Hoff c q Hq). destruct (live _ _ _ c) eqn:Hl; [done|]. exfalso. apply Hn. split; [by exists q|done].
  - intros [Hs Hl]. rewrite (Hlive Hs) in Hl. done.
Qed.
End Scoped.
