(* ===== verification/Member.v ===== *)
(** * Member: a service as a worker of the fleet

    [Control]'s service on the tables of [ControlStore], with the rest of the
    fleet moving between any two of its calls: an instance of the service's
    interface.  The service follows [Fleet]'s protocol at every moment, in the
    middle of a pass too: from one state it is in to the next it makes at most
    one of the protocol's steps.  So what it does is a run of the fleet, and a
    pause it confirms holds for every worker. *)

From S2P Require Import Prelude Strconv Stream Activity JsonCodec Act ControlStore Control Fleet.
From stdpp Require Import relations sorting.
Local Open Scope Z_scope.

(** ** A worker in the fleet *)

(** A step of the fleet that is not worker [me]'s own. *)
Definition elsewhere_step (sc : Scope) (me : string) (f f' : Fleet_) : Prop := exists who, who <> Some me /\ fstep sc who f f'.

(** One turn of worker [me]: whatever the rest of the fleet does, then at most
    one step of its own. *)
Definition turn (sc : Scope) (me : string) (f f' : Fleet_) : Prop :=
  exists g, rtc (elsewhere_step sc me) f g /\ (f' = g \/ fstep sc (Some me) g f').

Lemma elsewhere_moves (sc : Scope) (me : string) (f f' : Fleet_) : rtc (elsewhere_step sc me) f f' -> moves sc f f'.
Proof. induction 1 as [|f1 f2 f3 (who & _ & Hs) _ IH]; [done|]. eapply rtc_l; [by exists who|exact IH]. Qed.

Lemma turn_moves (sc : Scope) (me : string) (f f' : Fleet_) : turn sc me f f' -> moves sc f f'.
Proof.
  intros (g & Hg & Hf). apply elsewhere_moves in Hg. destruct Hf as [->|Hs]; [done|]. etrans; [exact Hg|]. apply rtc_once. by exists (Some me).
Qed.

(** What the rest of the fleet and the world outside the store do: [RsMoves]
    between two calls of worker [me], and the answers of everything else. *)
Class Rest (sc : Scope) (me : string) (W : Type) : Type := {
  RsMoves : Fleet_ -> Act W Fleet_;
  RsMoves_steps : forall f w, rtc (elsewhere_step sc me) f (RsMoves f w).1;
  RsOutcome : Act W Outcome;
  RsNow : W -> Z;
  RsEnded : W -> option error;
  RsSections : Act W (list section);
  RsPing : Act W (result error unit);
  RsInspect : Source -> Registration -> Act W (string * string);
  RsConsumer : Destination -> gmap string Registration -> Act W (option error);
  RsReady : nat -> Act W bool;
  RsFinished : nat -> Act W bool;
  RsTick : Act W (option error);
  RsSignaled : W -> bool }.

Record Shared (W : Type) : Type := mkShared { sh_fleet : Fleet_; sh_rest : W }.
Arguments mkShared {W}. Arguments sh_fleet {W}. Arguments sh_rest {W}.

Section OnFleet.
Context (sc : Scope) (me : string) {W : Type} `{!Rest sc me W}.
Abbreviation S := (Shared W).

Definition others : Act S unit := fun s => let '(f, w) := RsMoves (sh_fleet s) (sh_rest s) in (tt, mkShared f w).
Definition rest_call {A : Type} (f : Act W A) : Act S A := fun s => let '(a, w) := f (sh_rest s) in (a, mkShared (sh_fleet s) w).
Definition elsewhere {A : Type} (f : Act W A) : Act S A := _ ← others; rest_call f.

(** A statement on the tables. *)
Definition stored {A : Type} (f : option error -> Z -> Call A) : Act S (result error A) :=
  _ ← others;
  o ← rest_call RsOutcome;
  ((fun s => let '(a, t) := under o (fun db => f db (fl_now (sh_fleet s))) (fl_tables (sh_fleet s)) in
    (a, mkShared (with_tables t (sh_fleet s)) (sh_rest s))) : Act S (result error A)).

Definition my_proto (s : S) : Proto := default (mkProto [] [] ∅) (fl_workers (sh_fleet s) !! me).
Definition set_proto (p : Proto) : Act S unit := fun s => (tt, mkShared (with_worker me p (sh_fleet s)) (sh_rest s)).

Definition read_rows (sc' : Scope) : Act S (result error (list DesiredSubscription)) :=
  r ← stored (fun db _ => Subscriptions db sc');
  match r with
  | Err e => mret (Err e)
  | Ok l => p ← ((fun s => (my_proto s, s)) : Act S Proto);
            _ ← set_proto (mkProto (l ++ pr_seen p) l (pr_running p)); mret (Ok l)
  end.

Definition new_consumer (d : Destination) (registered : gmap string Registration) : Act S (result error nat) :=
  e ← elsewhere (RsConsumer d registered);
  match e with
  | Some e => mret (Err e)
  | None => p ← ((fun s => (my_proto s, s)) : Act S Proto);
            let c := fresh (dom (pr_running p) : gset nat) in
            _ ← set_proto (mkProto (pr_seen p) (pr_read p) (<[c := de_ID d]> (pr_running p))); mret (Ok c)
  end.

Definition stopped (c : nat) : Act S unit :=
  _ ← others; p ← ((fun s => (my_proto s, s)) : Act S Proto); set_proto (mkProto (pr_seen p) (pr_read p) (delete c (pr_running p))).

#[export] Instance fleet_env : Env S := {
  Now s := RsNow (sh_rest s);
  ended s := RsEnded (sh_rest s);
  Interference := rest_call RsSections;
  EnvGetStream sc' id := stored (fun db _ => GetStream db sc' id);
  EnvBlockSource sc' id reason := stored (fun db _ => BlockSource db sc' id reason);
  EnvEnsureSubscriptions sc' ids := stored (fun db _ => EnsureSubscriptions db sc' ids);
  EnvSubscriptions := read_rows;
  EnvSetDesired sc' id state := stored (fun db _ => SetDesired db sc' id state);
  EnvRenewLease sc' w ttl := stored (fun db now => RenewLease db now sc' w ttl);
  EnvObserve sc' w d rev state := stored (fun db _ => ObserveSubscription db sc' w d rev state);
  EnvObserved sc' d rev state := stored (fun db now => SubscriptionObserved db now sc' d rev state);
  EnvReleaseLease sc' w := stored (fun db _ => ReleaseLease db sc' w);
  EnvPing := elsewhere RsPing;
  EnvInspectSource s r := elsewhere (RsInspect s r);
  NewConsumer := new_consumer;
  CancelConsumer _ := others;
  StopConsumer := stopped;
  ConsumerReady c := elsewhere (RsReady c);
  ConsumerFinished c := elsewhere (RsFinished c);
  Tick := elsewhere RsTick;
  Signaled s := RsSignaled (sh_rest s) }.

(** ** What a call is in the fleet *)
Abbreviation els := (rtc (elsewhere_step sc me)).

(** [f] leaves the fleet to the others. *)
Definition quiet {A : Type} (f : Act S A) : Prop := forall s, els (sh_fleet s) (sh_fleet (f s).2).

Lemma quiet_bind {A B : Type} (f : Act S A) (k : A -> Act S B) : quiet f -> (forall a, quiet (k a)) -> quiet (f ≫= k).
Proof.
  intros Hf Hk s. unfold mbind, act_bind. pose proof (Hf s) as H1. destruct (f s) as [a s1]. pose proof (Hk a s1) as H2. by etrans.
Qed.

Lemma quiet_rest {A : Type} (f : Act W A) : quiet (rest_call f).
Proof. intros s. unfold rest_call. by destruct (f (sh_rest s)). Qed.

Lemma other_worker (f f' : Fleet_) : els f f' -> fl_workers f' !! me = fl_workers f !! me.
Proof.
  induction 1 as [|f1 f2 f3 (who & Hne & Hs) _ IH]; [done|]. rewrite IH. clear IH. revert Hne.
  destruct Hs; intros Hne; cbn; try done; (apply lookup_insert_ne || apply lookup_delete_ne); congruence.
Qed.

Lemma quiet_others : quiet others.
Proof.
  intros s. unfold others. pose proof (RsMoves_steps (sh_fleet s) (sh_rest s)) as Hs. by destruct (RsMoves (sh_fleet s) (sh_rest s)).
Qed.

Lemma quiet_elsewhere {A : Type} (f : Act W A) : quiet (elsewhere f).
Proof. apply quiet_bind; [apply quiet_others|]. intros _. apply quiet_rest. Qed.

(** A statement is quiet when each of its effects is a step of the fleet. *)
Lemma quiet_stored {A : Type} (f : option error -> Z -> Call A) :
  (forall db g, els g (with_tables (f db (fl_now g) (fl_tables g)).2 g)) -> quiet (stored f).
Proof.
  intros Hf. apply quiet_bind; [apply quiet_others|]. intros _. apply quiet_bind; [apply quiet_rest|]. intros o s.
  destruct (under_state o (fun db => f db (fl_now (sh_fleet s))) (fl_tables (sh_fleet s))) as [db Hdb].
  destruct (under o _ _) as [a t]. cbn in *. subst t. apply Hf.
Qed.

Lemma client_moves (g : Fleet_) (t : Tables) :
  step (fl_tables g) t -> tb_observed t = tb_observed (fl_tables g) -> els g (with_tables t g).
Proof. intros Hs Ho. apply rtc_once. exists None. split; [done|]. apply f_client; [done|]. intros k _. by rewrite Ho. Qed.

Lemma same_moves (g : Fleet_) : els g (with_tables (fl_tables g) g).
Proof. by destruct g. Qed.

(** ** Assertions about the service and its place in the fleet *)
Context (f0 : Fleet_) (dests : list Destination).
Abbreviation M := (Machine S).
Abbreviation Subs := (gmap string subscription).

(** An assertion about the history, kept by turns in which the worker stays in
    the fleet and by what leaves the fleet alone. *)
Record chart (K : M -> Prop) : Prop := mkChart {
  ch_turn w m : turn sc me (sh_fleet (env m)) (sh_fleet w) -> is_Some (fl_workers (sh_fleet w) !! me) -> K m -> K (outside w m);
  ch_same x s r m : is_Some (fl_workers (sh_fleet (env m)) !! me) -> K m -> K (note x (mkMachine s (env m) r (m_seen m))) }.
Context (K : M -> Prop) (HK : chart K).

(** Reached from [f0], in this scope, as worker [me]; [P] relates the
    service's subscriptions to the worker's protocol state. *)
Definition within (P : Subs -> Proto -> Prop) (m : M) : Prop :=
  moves sc f0 (sh_fleet (env m)) /\ scope (svc m) = sc /\ workerID (svc m) = me /\ destinations (svc m) = dests /\ K m /\
  exists p, fl_workers (sh_fleet (env m)) !! me = Some p /\ P (subscriptions (svc m)) p.

Lemma within_weaken (P Q : Subs -> Proto -> Prop) (m : M) : (forall s p, P s p -> Q s p) -> within P m -> within Q m.
Proof. unfold within. naive_solver. Qed.

(** What only changes other parts of the service. *)
Record aside (f : Svc -> Svc) : Prop := mkAside {
  as_scope : forall s, scope (f s) = scope s;
  as_worker : forall s, workerID (f s) = workerID s;
  as_dests : forall s, destinations (f s) = destinations s;
  as_subs : forall s, subscriptions (f s) = subscriptions s }.

Lemma within_note (P Q : Subs -> Proto -> Prop) (x : option section) (f : Svc -> Svc) (r : gmap nat string) (m : M) :
  (forall s, scope (f s) = scope s /\ workerID (f s) = workerID s /\ destinations (f s) = destinations s) ->
  (forall s p, P (subscriptions s) p -> Q (subscriptions (f s)) p) ->
  within P m -> within Q (note x (mkMachine (f (svc m)) (env m) r (m_seen m))).
Proof.
  intros Hf HQ (Hm & Hs & Hw & Hd & Hk & p & Hp & HP). destruct (Hf (svc m)) as (H1 & H2 & H3). unfold within. cbn. rewrite H1, H2, H3.
  split_and!; try done; [apply HK; [by exists p|done]|]. exists p. auto.
Qed.

Lemma within_aside (P : Subs -> Proto -> Prop) (x : option section) (f : Svc -> Svc) (r : gmap nat string) (m : M) :
  aside f -> within P m -> within P (note x (mkMachine (f (svc m)) (env m) r (m_seen m))).
Proof. intros [H1 H2 H3 H4]. apply within_note; [done|]. intros s p. by rewrite H4. Qed.

Lemma aside_show (id state reason : string) : aside (sourceState id state reason).
Proof. split; intros s; unfold sourceState; destruct (negb _); destruct (_ || _); done. Qed.

Lemma aside_section (x : section) : aside (run_section x).
Proof. destruct x as [id reason|id reason| |e]; try (by split). apply aside_show. Qed.

(** The world moves on by a turn. *)
Lemma within_turn (P Q : Subs -> Proto -> Prop) (w : S) (m : M) :
  turn sc me (sh_fleet (env m)) (sh_fleet w) -> (exists q, fl_workers (sh_fleet w) !! me = Some q /\ Q (subscriptions (svc m)) q) ->
  within P m -> within Q (outside w m).
Proof.
  intros Ht (q & Hq & HQ) (Hm & Hs & Hw & Hd & Hk & _). unfold within. cbn. split_and!; try done.
  - etrans; [exact Hm|]. by eapply turn_moves.
  - apply HK; [done|by exists q|done].
  - by exists q.
Qed.

Lemma within_quiet (P : Subs -> Proto -> Prop) (w : S) (m : M) : els (sh_fleet (env m)) (sh_fleet w) -> within P m -> within P (outside w m).
Proof.
  intros He Hm. apply (within_turn P); [by exists (sh_fleet w); auto| |done]. destruct Hm as (_ & _ & _ & _ & _ & p & Hp & HP).
  exists p. by rewrite (other_worker _ _ He).
Qed.

(** Other goroutines' sections. *)
Lemma within_others (P : Subs -> Proto -> Prop) : triple (within P) others_run (fun _ => within P).
Proof.
  intros m Hm. unfold others_run. cbn [Interference fleet_env]. pose proof (quiet_rest RsSections (env m)) as Hq.
  destruct (rest_call RsSections (env m)) as [l w]. apply (within_quiet P w m) in Hm; [|done]. revert Hm. generalize (outside w m). clear m w Hq.
  induction l as [|x l IH]; intros m Hm; [done|]. cbn [foldl]. apply IH. by apply within_aside; [apply aside_section|].
Qed.

(** A call: its effect on the fleet, then sections of other goroutines. *)
Lemma within_call {A : Type} (P : Subs -> Proto -> Prop) (Q : A -> Subs -> Proto -> Prop) (f : Act S A) :
  (forall s p subs, fl_workers (sh_fleet s) !! me = Some p -> P subs p ->
    turn sc me (sh_fleet s) (sh_fleet (f s).2) /\ exists q, fl_workers (sh_fleet (f s).2) !! me = Some q /\ Q (f s).1 subs q) ->
  triple (within P) (call f) (fun a => within (Q a)).
Proof.
  intros Hf m Hm. pose proof Hm as (_ & _ & _ & _ & _ & p & Hp & HP). destruct (Hf (env m) p _ Hp HP) as (Ht & Hq).
  unfold call. destruct (f (env m)) as [a w]. cbn [fst snd] in *. pose proof (within_others (Q a) (outside w m) (within_turn P (Q a) w m Ht Hq Hm)) as Hi.
  by destruct (others_run (outside w m)).
Qed.

(** Keeping every assertion. *)
Definition idle {A : Type} (f : Act M A) : Prop := forall P, triple (within P) f (fun _ => within P).

Lemma idle_call {A : Type} (f : Act S A) : quiet f -> idle (call f).
Proof.
  intros Hf P. apply (within_call P (fun _ => P)). intros s p subs Hp HP. specialize (Hf s). split; [by exists (sh_fleet (f s).2); auto|].
  exists p. by rewrite (other_worker _ _ Hf).
Qed.

Lemma idle_bind {A B : Type} (f : Act M A) (k : A -> Act M B) : idle f -> (forall a, idle (k a)) -> idle (f ≫= k).
Proof. intros Hf Hk P. eapply triple_bind; [apply Hf|]. intros a. apply Hk. Qed.
(** Doing something idle first; reading a field with a known value first. *)
Lemma idle_then {A B : Type} (f : Act M A) (k : A -> Act M B) (P : Subs -> Proto -> Prop) (Q : B -> M -> Prop) :
  idle f -> (forall a, triple (within P) (k a) Q) -> triple (within P) (f ≫= k) Q.
Proof. intros Hf Hk. eapply triple_bind; [apply Hf|exact Hk]. Qed.
Lemma scope_then {B : Type} (k : Scope -> Act M B) (P : Subs -> Proto -> Prop) (Q : B -> M -> Prop) :
  triple (within P) (k sc) Q -> triple (within P) (reading scope ≫= k) Q.
Proof. intros Hk m Hm. unfold mbind, act_bind, reading. pose proof Hm as (_ & -> & _). by apply Hk. Qed.
Lemma worker_then {B : Type} (k : string -> Act M B) (P : Subs -> Proto -> Prop) (Q : B -> M -> Prop) :
  triple (within P) (k me) Q -> triple (within P) (reading workerID ≫= k) Q.
Proof. intros Hk m Hm. unfold mbind, act_bind, reading. pose proof Hm as (_ & _ & -> & _). by apply Hk. Qed.
Lemma dests_then {A B : Type} (g : list Destination -> A) (k : A -> Act M B) (P : Subs -> Proto -> Prop) (Q : B -> M -> Prop) :
  triple (within P) (k (g dests)) Q -> triple (within P) (reading (fun s => g (destinations s)) ≫= k) Q.
Proof. intros Hk m Hm. unfold mbind, act_bind, reading. pose proof Hm as (_ & _ & _ & -> & _). by apply Hk. Qed.
Lemma idle_ret {A : Type} (a : A) : idle (ret a).
Proof. by intros P m. Qed.
Lemma idle_reading {A : Type} (f : Svc -> A) : idle (reading f).
Proof. by intros P m. Qed.
Lemma idle_updating {A : Type} (f : Svc -> A * Svc) : aside (fun s => (f s).2) -> idle (updating f).
Proof. intros Hf P. eapply triple_bind; [apply within_others|]. intros u m Hm. by apply (within_aside P None (fun s => (f s).2)). Qed.
Lemma idle_locked (f : Svc -> Svc) : aside f -> idle (locked f).
Proof. apply (idle_updating (fun s => (tt, f s))). Qed.
Lemma section_idle (x : section) : idle (section_of x).
Proof. intros P. eapply triple_bind; [apply within_others|]. intros u m Hm. apply (within_aside P (Some x)); [apply aside_section|done]. Qed.
Lemma idle_looking {A : Type} (f : Svc -> A) : idle (looking f).
Proof. intros P. eapply triple_bind; [apply within_others|]. by intros u m. Qed.
Lemma idle_each {A : Type} (f : A -> Act M unit) (l : list A) : (forall x, idle (f x)) -> idle (each f l).
Proof. intros Hf P. apply triple_each. intros x _. apply Hf. Qed.
Lemma idle_log (e : Entry) : idle (log_add e).
Proof. apply section_idle. Qed.

(** ** The calls a worker makes *)
Lemma quiet_get (id : string) : quiet (EnvGetStream sc id).
Proof. apply quiet_stored. intros db g. unfold GetStream. guards; apply same_moves. Qed.

Lemma block_observed (db : option error) (sc' : Scope) (id reason : string) (t : Tables) :
  tb_observed (BlockSource db sc' id reason t).2 = tb_observed t.
Proof. unfold BlockSource. guards. by destruct (tb_streams t !! (sc', id)). Qed.

Lemma quiet_block (id reason : string) : quiet (EnvBlockSource sc id reason).
Proof. apply quiet_stored. intros db g. apply client_moves; [apply step_block|apply block_observed]. Qed.

Lemma quiet_renew (ttl : Z) : quiet (EnvRenewLease sc me ttl).
Proof. apply quiet_stored. intros db g. apply client_moves; [apply step_renew|]. unfold RenewLease. by guards. Qed.

Lemma quiet_desired (id state : string) : quiet (EnvSetDesired sc id state).
Proof.
  apply quiet_stored. intros db g. apply client_moves; [apply step_desired|]. unfold SetDesired. guards.
  by destruct (tb_subscriptions _ !! _) as [[]|].
Qed.

Lemma quiet_ensure (ids : list string) : quiet (EnvEnsureSubscriptions sc ids).
Proof.
  apply quiet_stored. intros db g. apply client_moves; [apply step_ensure|]. unfold EnsureSubscriptions. guards.
  by destruct (ensure_loop _ _ _).
Qed.

Lemma quiet_observed (d : string) (r : Z) (state : string) : quiet (EnvObserved sc d r state).
Proof. apply quiet_stored. intros db g. unfold SubscriptionObserved. guards; apply same_moves. Qed.

(** A statement, opened up. *)
Lemma stored_spec {A : Type} (f : option error -> Z -> Call A) (s : S) : exists g o w,
  els (sh_fleet s) g /\ fl_workers g !! me = fl_workers (sh_fleet s) !! me /\
  stored f s = let '(a, t) := under o (fun db => f db (fl_now g)) (fl_tables g) in (a, mkShared (with_tables t g) w).
Proof.
  unfold stored, mbind, act_bind. pose proof (quiet_others s) as H1. destruct (others s) as [u s1]. unfold rest_call.
  destruct (RsOutcome (sh_rest s1)) as [o w]. exists (sh_fleet s1), o, w. split; [exact H1|]. split; [by apply other_worker|done].
Qed.

Lemma listed_unique (l : list ((Scope * string) * (string * Z))) : NoDup l.*1 ->
  NoDup (ds_ID <$> omap (fun '(k, (desired, revision)) => if decide (k.1 = sc) then Some (mkDesired k.2 desired revision) else None) l).
Proof.
  induction l as [|[k [x r]] l IH]; cbn; [constructor|]. intros [Hn Hd]%NoDup_cons. destruct (decide (k.1 = sc)) as [Hk|]; [|by apply IH].
  cbn. apply NoDup_cons. split; [|by apply IH]. rewrite list_elem_of_fmap. intros (e & He & Hin). apply Hn.
  apply list_elem_of_omap in Hin as ([k' [x' r']] & Hin & Hd'). destruct (decide (k'.1 = sc)) as [Hk'|]; [|done]. injection Hd' as <-. cbn in He.
  apply list_elem_of_fmap. exists (k', (x', r')). split; [|done]. cbn. destruct k, k'. cbn in *. congruence.
Qed.

Lemma read_call (P : Subs -> Proto -> Prop) :
  triple (within P) (call (EnvSubscriptions sc)) (fun r => within (fun subs p =>
    match r with
    | Ok l => (exists p0, P subs p0 /\ p = mkProto (l ++ pr_seen p0) l (pr_running p0)) /\ NoDup (ds_ID <$> l)
    | Err _ => P subs p
    end)).
Proof.
  apply within_call. intros s p subs Hp HP. cbn [EnvSubscriptions fleet_env]. unfold read_rows, mbind, act_bind.
  destruct (stored_spec (fun db _ => Subscriptions db sc) s) as (g & o & w & Hm & Hw & ->). rewrite <- Hw in Hp.
  assert (forall e t, exists e', Subscriptions (Some e) sc t = (Err e', t)) as Hfail
    by (intros e t; unfold Subscriptions; guards; by eexists).
  assert (forall t, Subscriptions None sc t = ((Subscriptions None sc t).1, t)) as Hsame by (intros t; unfold Subscriptions; guards).
  assert ((exists e, under o (fun db => Subscriptions db sc) (fl_tables g) = (Err e, fl_tables g)) \/
    exists l, under o (fun db => Subscriptions db sc) (fl_tables g) = (Ok l, fl_tables g) /\ Subscriptions None sc (fl_tables g) = (Ok l, fl_tables g))
    as [[e ->]|(l & -> & Hl)].
  { destruct o as [|e|e]; cbn [under].
    - rewrite (Hsame (fl_tables g)). destruct (Subscriptions None sc (fl_tables g)).1 as [l|e]; [right; by exists l|left; by exists e].
    - destruct (Hfail e (fl_tables g)) as [e' ->]. left. by exists e'.
    - destruct (Hfail e (fl_tables g)) as [e' ->]. rewrite Hsame. left. by exists e'. }
  - cbn. split; [eexists; split; [etrans; [exact Hm|apply same_moves]|by left]|]. exists p. done.
  - cbn. unfold my_proto. cbn [sh_fleet with_tables fl_workers]. rewrite Hp. cbn [default]. split.
    + eexists. split; [etrans; [exact Hm|apply same_moves]|]. right. by eapply f_read.
    + eexists. split; [apply lookup_insert_eq|]. split; [by exists p|]. revert Hl. unfold Subscriptions. guards. intros [= <-].
      apply listed_unique, NoDup_fst_map_to_list.
Qed.

Lemma observe_call (P : Subs -> Proto -> Prop) (d : string) (r : Z) (state : string) :
  (forall subs p, P subs p -> state = StatePaused -> settled d r p) ->
  triple (within P) (call (EnvObserve sc me d r state)) (fun _ => within P).
Proof.
  intros HP. apply (within_call P (fun _ => P)). intros s p subs Hp Hs. cbn [EnvObserve fleet_env].
  destruct (stored_spec (fun db _ => ObserveSubscription db sc me d r state) s) as (g & o & w & Hm & Hw & ->).
  destruct (under_state o (fun db => ObserveSubscription db sc me d r state) (fl_tables g)) as [db Hdb].
  destruct (under o _ _) as [a t]. cbn in Hdb |- *. subst t. rewrite <- Hw in Hp. split; [|by exists p].
  exists g. split; [exact Hm|]. right. eapply f_observe; [exact Hp|]. by apply (HP subs).
Qed.

Lemma release_call (P : Subs -> Proto -> Prop) : triple (within P) (call (EnvReleaseLease sc me)) (fun _ => within P).
Proof.
  apply (within_call P (fun _ => P)). intros s p subs Hp Hs. cbn [EnvReleaseLease fleet_env].
  destruct (stored_spec (fun db _ => ReleaseLease db sc me) s) as (g & o & w & Hm & Hw & ->).
  destruct (under_state o (fun db => ReleaseLease db sc me) (fl_tables g)) as [db Hdb].
  destruct (under o _ _) as [a t]. cbn in Hdb |- *. subst t. rewrite <- Hw in Hp. split; [|by exists p].
  exists g. split; [exact Hm|]. right. by eapply f_release.
Qed.

Lemma start_call (P : Subs -> Proto -> Prop) (d : Destination) (registered : gmap string Registration) :
  (forall subs p, P subs p -> exists e, e ∈ pr_read p /\ paused e = false /\ ds_ID e = de_ID d) ->
  triple (within P) (call (NewConsumer d registered)) (fun r => within (fun subs p =>
    match r with
    | Err _ => P subs p
    | Ok c => exists p0, P subs p0 /\ pr_running p0 !! c = None /\ p = mkProto (pr_seen p0) (pr_read p0) (<[c := de_ID d]> (pr_running p0))
    end)).
Proof.
  intros HP. apply within_call. intros s p subs Hp Hs. cbn [NewConsumer fleet_env]. unfold new_consumer, mbind, act_bind.
  pose proof (quiet_elsewhere (RsConsumer d registered) s) as H1. pose proof (other_worker _ _ H1) as H2.
  destruct (elsewhere (RsConsumer d registered) s) as [[e|] s1].
  - cbn in *. split; [exists (sh_fleet s1); split; [exact H1|by left]|]. exists p. by rewrite H2.
  - cbn in *. rewrite <- H2 in Hp. unfold my_proto. rewrite Hp. cbn [default].
    assert (pr_running p !! fresh (dom (pr_running p) : gset nat) = None) as Hfresh by (apply not_elem_of_dom, is_fresh).
    destruct (HP subs p Hs) as (e & He & Hpe & Hid). split.
    + eexists. split; [exact H1|]. right. rewrite <- Hid. by eapply f_start.
    + eexists. split; [apply lookup_insert_eq|]. by exists p.
Qed.

Lemma stop_within (P : Subs -> Proto -> Prop) (c : nat) :
  triple (within P) (stop c) (fun _ => within (fun subs p =>
    exists p0, P subs p0 /\ p = mkProto (pr_seen p0) (pr_read p0) (delete c (pr_running p0)))).
Proof.
  eapply triple_bind.
  - apply (within_call P (fun _ subs p => exists p0, P subs p0 /\ p = mkProto (pr_seen p0) (pr_read p0) (delete c (pr_running p0)))).
    intros s p subs Hp Hs. cbn [StopConsumer fleet_env]. unfold stopped, mbind, act_bind. pose proof (quiet_others s) as H1.
    pose proof (other_worker _ _ H1) as H2. destruct (others s) as [u s1]. cbn in *. rewrite <- H2 in Hp. unfold my_proto. rewrite Hp. cbn [default]. split.
    + eexists. split; [exact H1|]. right. by eapply f_stop.
    + eexists. split; [apply lookup_insert_eq|]. by exists p.
  - intros u m Hm. by apply (within_aside _ None id).
Qed.

(** ** The service follows the protocol *)
Definition state_is (d state : string) (subs : Subs) : Prop := exists u, subs !! d = Some u /\ sb_State (su_view u) = state.

(** Running consumers are those of their subscriptions; a subscription shown as
    paused has none, and the store asked for the pause at its revision. *)
Record base (subs : Subs) (p : Proto) : Prop := mkBase {
  ba_known : forall d u, subs !! d = Some u -> de_ID (findDestination dests d) = d;
  ba_owned : forall c d, pr_running p !! c = Some d -> exists u, subs !! d = Some u /\ su_consumer u = Some c;
  ba_paused : forall d u, subs !! d = Some u -> sb_State (su_view u) = StatePaused ->
    su_consumer u = None /\ mkDesired d StatePaused (su_revision u) ∈ pr_seen p }.

Lemma base_none (subs : Subs) (p : Proto) (d : string) (u : subscription) :
  base subs p -> subs !! d = Some u -> su_consumer u = None -> no_consumer d p.
Proof. intros Hb Hu Hn c Hc. destruct (ba_owned _ _ Hb c d Hc) as (v & Hv & Hvc). congruence. Qed.

Lemma base_seen (subs : Subs) (p p' : Proto) : base subs p -> pr_running p' = pr_running p -> pr_seen p ⊆ pr_seen p' -> base subs p'.
Proof.
  intros [Hk Ho Hp] Hr Hs. split; [done|by rewrite Hr|]. intros d u Hu Hst. destruct (Hp d u Hu Hst) as [H1 H2]. split; [done|by apply Hs].
Qed.

(** Fewer consumers. *)
Lemma base_delete (subs : Subs) (p : Proto) (c : nat) : base subs p -> base subs (mkProto (pr_seen p) (pr_read p) (delete c (pr_running p))).
Proof. intros [Hk Ho Hp]. split; [done| |done]. cbn. intros c' d [_ Hc]%lookup_delete_Some. by apply Ho. Qed.

(** One subscription changes. *)
Lemma base_alter (subs : Subs) (p : Proto) (d : string) (f : subscription -> subscription) :
  base subs p ->
  (forall u, subs !! d = Some u -> no_consumer d p \/ su_consumer (f u) = su_consumer u) ->
  (forall u, subs !! d = Some u -> sb_State (su_view (f u)) = StatePaused ->
    su_consumer (f u) = None /\ mkDesired d StatePaused (su_revision (f u)) ∈ pr_seen p) ->
  base (alter f d subs) p.
Proof.
  intros [Hk Ho Hp] Hc Hs. split.
  - intros k u. rewrite lookup_alter_Some. intros [(<- & v & Hv & ->)|[_ Hu]]; by eapply Hk.
  - intros c k Hr. destruct (Ho c k Hr) as (u & Hu & Huc). destruct (decide (k = d)) as [->|Hne].
    + exists (f u). rewrite lookup_alter_eq, Hu. split; [done|]. destruct (Hc u Hu) as [Hno| ->]; [by destruct (Hno c)|done].
    + exists u. by rewrite lookup_alter_ne.
  - intros k u. rewrite lookup_alter_Some. intros [(<- & v & Hv & ->)|[_ Hu]]; [by apply Hs|by apply Hp].
Qed.

Lemma within_updating {A : Type} (P Q : Subs -> Proto -> Prop) (g : Svc -> A) (d : string) (f : subscription -> subscription) :
  (forall subs p, P subs p -> Q (alter f d subs) p) -> triple (within P) (updating (fun s => (g s, upd_sub d f s))) (fun _ => within Q).
Proof.
  intros Hf. eapply triple_bind; [apply within_others|]. intros u m. apply (within_note P Q None (upd_sub d f)); [done|]. intros s p. apply Hf.
Qed.

Lemma within_upd (P Q : Subs -> Proto -> Prop) (d : string) (f : subscription -> subscription) :
  (forall subs p, P subs p -> Q (alter f d subs) p) -> triple (within P) (locked (upd_sub d f)) (fun _ => within Q).
Proof. apply (within_updating P Q (fun _ => tt)). Qed.

Lemma idle_Block (source reason : string) : idle (Block source reason).
Proof.
  intros P. unfold Block. apply idle_then; [apply section_idle|]. intros u1. apply idle_then; [apply section_idle|]. intros u2. apply scope_then.
  apply idle_then; [apply idle_call, quiet_block|]. intros r. apply section_idle.
Qed.

Lemma idle_inspectSource (source : Source) : idle (inspectSource source).
Proof.
  intros P. unfold inspectSource. apply idle_then; [apply idle_looking|]. intros local. apply scope_then.
  destruct (negb _); [apply idle_then; [apply idle_call, quiet_block|intros r; apply idle_ret]|].
  apply idle_then; [apply idle_call, quiet_get|]. intros [[registered|]|e]; try apply idle_locked, aside_show.
  apply idle_then; [by apply idle_updating|]. intros reg. destruct (negb _); [apply idle_locked, aside_show|].
  apply idle_then; [apply idle_call, quiet_elsewhere|]. intros [state reason].
  destruct (str_eqb _ _); [apply idle_Block|apply idle_locked, aside_show].
Qed.

Lemma idle_at_time (f : Svc -> Z -> Svc) : (forall now, aside (fun s => f s now)) -> idle (at_time f).
Proof.
  intros Hf P. eapply triple_bind; [apply within_others|]. intros u m Hm. by apply (within_aside P None (fun s => f s (Now (env m)))).
Qed.

(** The worker's read is what the pass goes on with. *)
Definition has_read (l : list DesiredSubscription) (p : Proto) : Prop := pr_read p = l /\ NoDup (ds_ID <$> l) /\ l ⊆ pr_seen p.

Lemma refresh_reads : triple (within base) refreshDependencies (fun r => within (fun subs p =>
  base subs p /\ (r.2 = true -> has_read r.1 p))).
Proof.
  unfold refreshDependencies. apply scope_then, worker_then. apply idle_then; [apply idle_call, quiet_renew|]. intros leaseErr.
  eapply triple_bind; [apply read_call|]. intros desired. apply idle_then; [apply idle_call, quiet_elsewhere|]. intros kafkaErr.
  apply idle_then; [apply idle_at_time; intros now; by destruct (is_ok leaseErr)|]. intros u m Hm. cbn. revert Hm. apply within_weaken.
  intros subs p. destruct desired as [l|e]; cbn; [|rewrite andb_false_r; done].
  intros [(p0 & Hb & ->) Hd]. split; [|intros _; split_and!; [done|done|set_solver]].
  eapply base_seen; [exact Hb|done|]. set_solver.
Qed.

Lemma stops (P : Subs -> Proto -> Prop) (k : list nat) :
  (forall subs p c, P subs p -> P subs (mkProto (pr_seen p) (pr_read p) (delete c (pr_running p)))) ->
  triple (within P) (each stop k) (fun _ => within (fun subs p => P subs p /\ forall c, c ∈ k -> pr_running p !! c = None)).
Proof.
  revert P. induction k as [|c k IH]; intros P Hc; cbn [each].
  - intros m. cbn. apply within_weaken. intros subs p Hp. split; [done|]. by intros c ?%elem_of_nil.
  - eapply triple_bind; [apply stop_within|]. intros u.
    eapply triple_weaken; [apply (IH (fun subs p => P subs p /\ pr_running p !! c = None))| |].
    + intros subs p x [Hp Hn]. split; [by apply Hc|]. cbn. apply lookup_delete_None. by right.
    + intros m. apply within_weaken. intros subs p (p0 & Hp & ->). split; [by apply Hc|]. apply lookup_delete_eq.
    + intros [] m. apply within_weaken. intros subs p [[Hp Hn] Hk]. split; [done|]. intros x [->|Hx]%elem_of_cons; [done|by apply Hk].
Qed.

Definition handles (subs : Subs) : list nat := omap (fun '(_, u) => su_consumer u) (map_to_list subs).

Lemma handles_in (subs : Subs) (d : string) (u : subscription) (c : nat) : subs !! d = Some u -> su_consumer u = Some c -> c ∈ handles subs.
Proof. intros Hu Hc. apply list_elem_of_omap. exists (d, u). split; [by apply elem_of_map_to_list|done]. Qed.

Lemma base_stopped (subs : Subs) (p : Proto) : base subs p -> pr_running p = ∅ ->
  base ((fun u => match su_consumer u with
    | Some _ => with_consumer None (with_view (with_state StateBlocked "engine dependencies unavailable") u)
    | None => u
    end) <$> subs) p.
Proof.
  intros [Hk Ho Hp] Hr. split.
  - intros d u. rewrite lookup_fmap_Some. intros (v & <- & Hv). by eapply Hk.
  - intros c d. by rewrite Hr, lookup_empty.
  - intros d u. rewrite lookup_fmap_Some. intros (v & <- & Hv). destruct (su_consumer v) eqn:Hc; [done|]. by apply Hp.
Qed.

Lemma keeps_stopAll : triple (within base) stopAll (fun _ => within base).
Proof.
  unfold stopAll. apply (triple_bind _ _ (fun l => within (fun subs p => base subs p /\ handles subs = l))).
  { eapply triple_bind; [apply within_others|]. intros u m (Hm & Hs & Hw & Hd & Hk & p & Hp & Hb). unfold within. split_and!; try done. by exists p. }
  intros l. apply idle_then; [apply idle_each; intros c; apply idle_call, quiet_others|]. intros u.
  eapply triple_bind; [apply (stops (fun subs p => base subs p /\ handles subs = l))|].
  { intros subs p c [Hb Hl]. split; [by apply base_delete|done]. }
  intros u2. eapply triple_bind; [apply within_others|]. intros u3 m. apply (within_note _ _ None mark_stopped); [done|]. intros s p [[Hb Hl] Hn].
  apply base_stopped; [done|]. apply map_eq. intros c. rewrite lookup_empty. destruct (pr_running p !! c) as [d|] eqn:Hc; [|done].
  destruct (ba_owned _ _ Hb c d Hc) as (v & Hv & Hvc). rewrite Hn in Hc; [done|]. rewrite <- Hl. by eapply handles_in.
Qed.

Lemma keeps_degrade : triple (within base) degrade (fun _ => within base).
Proof. unfold degrade. apply idle_then; [by apply idle_locked|]. intros u. apply keeps_stopAll. Qed.

(** ** One subscription of a pass *)

(** The rows of [done] have been dealt with: none that should run is shown as
    paused. *)
Definition passing (l done : list DesiredSubscription) (subs : Subs) (p : Proto) : Prop :=
  base subs p /\ has_read l p /\ forall e, e ∈ done -> paused e = false -> ~ state_is (ds_ID e) StatePaused subs.

Section OneSubscription.
Context (l done : list DesiredSubscription) (desired : DesiredSubscription).
Hypothesis in_list : desired ∈ l.
Hypothesis is_new : forall e, e ∈ done -> ds_ID e <> ds_ID desired.
Abbreviation id := (ds_ID desired).

Lemma passing_alter (subs : Subs) (p : Proto) (f : subscription -> subscription) :
  passing l done subs p ->
  (forall u, subs !! id = Some u -> no_consumer id p \/ su_consumer (f u) = su_consumer u) ->
  (forall u, subs !! id = Some u -> sb_State (su_view (f u)) = StatePaused ->
    su_consumer (f u) = None /\ mkDesired id StatePaused (su_revision (f u)) ∈ pr_seen p) ->
  passing l done (alter f id subs) p.
Proof.
  intros (Hb & Hr & Hd) Hc Hs. split; [by apply base_alter|]. split; [done|]. intros e He Hpe (u & Hu & Hst).
  rewrite lookup_alter_ne in Hu by (symmetry; by apply is_new). apply (Hd e He Hpe). by exists u.
Qed.

Lemma passing_delete (subs : Subs) (p : Proto) (c : nat) :
  passing l done subs p -> passing l done subs (mkProto (pr_seen p) (pr_read p) (delete c (pr_running p))).
Proof. intros (Hb & Hr & Hd). split; [by apply base_delete|done]. Qed.

(** With what is known of the subscription at hand. *)
Definition holding (R : subscription -> Proto -> Prop) (subs : Subs) (p : Proto) : Prop :=
  passing l done subs p /\ exists u, subs !! id = Some u /\ R u p.

Lemma holding_updating {A : Type} (g : Svc -> A) (R R' : subscription -> Proto -> Prop) (f : subscription -> subscription) :
  (forall u p, R u p -> no_consumer id p \/ su_consumer (f u) = su_consumer u) ->
  (forall u p, R u p -> mkDesired id (ds_Desired desired) (ds_Revision desired) ∈ pr_seen p -> R' (f u) p /\
    (sb_State (su_view (f u)) = StatePaused ->
      sb_State (su_view u) = StatePaused /\ su_revision (f u) = su_revision u /\ su_consumer (f u) = su_consumer u \/
      su_consumer (f u) = None /\ mkDesired id StatePaused (su_revision (f u)) ∈ pr_seen p)) ->
  triple (within (holding R)) (updating (fun s => (g s, upd_sub id f s))) (fun _ => within (holding R')).
Proof.
  intros Hc HR. apply within_updating. intros subs p (Hp & u & Hu & Hru).
  assert (mkDesired id (ds_Desired desired) (ds_Revision desired) ∈ pr_seen p) as Hseen.
  { destruct Hp as (_ & (_ & _ & Hl) & _). apply Hl. by destruct desired. }
  destruct (HR u p Hru Hseen) as [Hr' Hs]. split.
  - apply passing_alter; [done| |]; intros v Hv; rewrite Hu in Hv; injection Hv as <-; [by apply Hc|]. intros Hst.
    destruct (Hs Hst) as [(Hold & -> & ->)|Hin]; [|done]. destruct Hp as (Hb & _). by apply (ba_paused _ _ Hb id u Hu).
  - exists (f u). by rewrite lookup_alter_eq, Hu.
Qed.

Lemma holding_upd (R R' : subscription -> Proto -> Prop) (f : subscription -> subscription) :
  (forall u p, R u p -> no_consumer id p \/ su_consumer (f u) = su_consumer u) ->
  (forall u p, R u p -> mkDesired id (ds_Desired desired) (ds_Revision desired) ∈ pr_seen p -> R' (f u) p /\
    (sb_State (su_view (f u)) = StatePaused ->
      sb_State (su_view u) = StatePaused /\ su_revision (f u) = su_revision u /\ su_consumer (f u) = su_consumer u \/
      su_consumer (f u) = None /\ mkDesired id StatePaused (su_revision (f u)) ∈ pr_seen p)) ->
  triple (within (holding R)) (locked (upd_sub id f)) (fun _ => within (holding R')).
Proof. apply (holding_updating (fun _ => tt)). Qed.

Definition consumed (c : option nat) (u : subscription) (p : Proto) : Prop := su_consumer u = c.
Definition cleared (u : subscription) (p : Proto) : Prop := su_consumer u = None /\ no_consumer id p.
Definition moved_on (u : subscription) (p : Proto) : Prop := paused desired = false -> sb_State (su_view u) <> StatePaused.

(** Stopping the one consumer, then forgetting it. *)
Definition stopped_one (u : subscription) (p : Proto) : Prop := no_consumer id p /\ sb_State (su_view u) <> StatePaused.

Lemma stop_one (c : nat) :
  triple (within (holding (fun u p => su_consumer u = Some c /\ sb_State (su_view u) <> StatePaused))) (stop c)
    (fun _ => within (holding stopped_one)).
Proof.
  intros m Hm. pose proof (stop_within _ c m Hm) as Hs. revert Hs. apply within_weaken. intros subs p (p0 & (Hp & u & Hu & Hc & Hst) & ->).
  split; [by apply passing_delete|]. exists u. split; [done|]. split; [|done].
  intros c' Hc'. cbn in Hc'. apply lookup_delete_Some in Hc' as [Hne Hc']. destruct Hp as (Hb & _).
  destruct (ba_owned _ _ Hb c' id Hc') as (v & Hv & Hvc). congruence.
Qed.

Lemma forget_one : triple (within (holding stopped_one)) (locked (upd_sub id (with_consumer None))) (fun _ => within (holding cleared)).
Proof. apply holding_upd; [by intros v p [Hno _]; left|]. intros v p [Hno Hst] _. split; [done|]. intros Hp. by destruct Hst. Qed.

Lemma rest_moves (consumer : option nat) (reason : string) :
  triple (within (holding (consumed consumer))) (Control.rest id consumer desired reason) (fun _ => within (holding moved_on)).
Proof.
  unfold Control.rest. apply (triple_bind _ _ (fun _ => within (holding cleared))).
  - destruct consumer as [c|].
    + eapply (triple_bind _ _ (fun _ => within (holding (fun u p => su_consumer u = Some c /\ sb_State (su_view u) <> StatePaused)))).
      * apply holding_upd; [by right|]. intros u p Hc _. split; [done|]. by cbn.
      * intros u. eapply triple_bind; [apply stop_one|]. intros v. apply forget_one.
    + intros m. apply within_weaken. intros subs p (Hp & u & Hu & Hc). split; [done|]. exists u. split; [done|]. split; [done|].
      destruct Hp as (Hb & _). by eapply base_none.
  - intros u. destruct (restingState desired reason) as [state err] eqn:Hrs.
    eapply (triple_bind _ _ (fun _ => within (holding moved_on))).
    + apply (holding_updating (shown_state id)); [by intros ? ? [_ ?]; left|]. intros v p [Hc Hno] Hseen. unfold restingState in Hrs. unfold moved_on.
      destruct (paused desired) eqn:Hpd; injection Hrs as <- <-; cbn; (split; [done|]); [|done]. intros _. right. split; [done|].
      apply paused_iff in Hpd. by rewrite <- Hpd.
    + intros v. destruct (negb _); [apply idle_log|apply idle_ret].
Qed.

(** A consumer the protocol runs before the service knows its handle. *)
Definition fresh_one (c : nat) (subs : Subs) (p : Proto) : Prop :=
  exists p0, holding cleared subs p0 /\ pr_running p0 !! c = None /\ p = mkProto (pr_seen p0) (pr_read p0) (<[c := id]> (pr_running p0)).

Lemma take_one (c : nat) :
  triple (within (fresh_one c))
    (locked (upd_sub id (fun u => with_consumer (Some c) (with_view (with_state StateStarting "") u))))
    (fun _ => within (holding (fun u p => su_consumer u = Some c /\ sb_State (su_view u) <> StatePaused))).
Proof.
  apply within_upd. intros subs p (p0 & (Hp & u & Hu & Hcu & Hno) & Hc & ->). split.
  - assert (passing l done (alter (fun u => with_consumer (Some c) (with_view (with_state StateStarting "") u)) id subs) p0) as ([Hk Ho Hps] & Hr & Hd).
    { by apply passing_alter; [|intros; left|]. }
    split; [|done]. split; [done| |done]. cbn. intros c' d [[<- <-]|[_ Hc']]%lookup_insert_Some; [|by apply Ho].
    eexists. rewrite lookup_alter_eq, Hu. done.
  - eexists. rewrite lookup_alter_eq, Hu. done.
Qed.

Lemma ensure_takes (consumer : option nat) (destination : Destination) :
  de_ID destination = id -> paused desired = false ->
  triple (within (holding (consumed consumer))) (ensureConsumer id consumer destination)
    (fun r => within (holding (fun u p => sb_State (su_view u) <> StatePaused))).
Proof.
  intros Hdest Hpd. unfold ensureConsumer.
  apply (triple_bind _ _ (fun r => within (holding (match r with
    | Some c => fun u p => sb_State (su_view u) <> StatePaused
    | None => cleared end)))).
  - destruct consumer as [c|].
    + eapply (triple_pre (within (holding (fun u p => su_consumer u = Some c /\ sb_State (su_view u) <> StatePaused)))).
      { intros m. apply within_weaken. intros subs p (Hp & u & Hu & Hc). split; [done|]. exists u. split; [done|]. split; [done|].
        intros Hst. destruct Hp as (Hb & _). destruct (ba_paused _ _ Hb id u Hu Hst) as [Hn _]. unfold consumed in Hc. congruence. }
      apply idle_then; [apply idle_call, quiet_elsewhere|]. intros [].
      * eapply triple_bind; [apply stop_one|]. intros u. eapply triple_bind; [apply forget_one|]. by intros v m.
      * intros m. apply within_weaken. intros subs p (Hp & u & Hu & _ & Hst). split; [done|]. by exists u.
    + intros m. apply within_weaken. intros subs p (Hp & u & Hu & Hc). split; [done|]. exists u. split; [done|]. split; [done|].
      destruct Hp as (Hb & _). by eapply base_none.
  - intros [c|]; [apply idle_ret|]. unfold newConsumer.
    apply (triple_bind _ _ (fun r => within (match r with Ok c => fresh_one c | Err _ => holding cleared end))).
    + apply idle_then; [apply idle_looking|]. intros registered. intros m Hm.
      pose proof (start_call (holding cleared) destination registered) as Hs.
      assert (forall subs p, holding cleared subs p -> exists e, e ∈ pr_read p /\ paused e = false /\ ds_ID e = de_ID destination) as Hask.
      { intros subs p ((_ & (Hr & _) & _) & _). exists desired. rewrite Hr. done. }
      specialize (Hs Hask m Hm). destruct (call (NewConsumer destination registered) m) as [[c|e] m1]; [|exact Hs]. rewrite Hdest in Hs. exact Hs.
    + intros [c|e].
      * eapply triple_bind; [apply take_one|]. intros u.
        apply idle_then; [intros P m Hm; by apply (within_aside P None (fun s => s))|]. intros v m. apply within_weaken.
        intros subs p (Hp & x & Hx & _ & Hst). split; [done|]. by exists x.
      * eapply (triple_bind _ _ (fun _ => within (holding (fun u p => sb_State (su_view u) <> StatePaused)))); [|intros u; apply idle_ret].
        apply holding_upd; [by right|]. intros u p _ _. split; [done|]. by cbn.
Qed.

Lemma progress_moves (ready : bool) :
  triple (within (holding (fun u p => sb_State (su_view u) <> StatePaused))) (markProgress id desired ready) (fun _ => within (holding moved_on)).
Proof.
  unfold markProgress. destruct (negb ready).
  - apply holding_upd; [by right|]. intros u p _ _. split; [by intros _|]. by cbn.
  - eapply (triple_bind _ _ (fun _ => within (holding moved_on))).
    + apply (holding_updating (fun s => negb (str_eqb (shown_state id s) StateRunning))); [by right|]. intros u p _ _. split; [by intros _|]. by cbn.
    + intros changed. destruct changed; [apply idle_log|apply idle_ret].
Qed.

Lemma subscription_moves :
  triple (within (passing l done)) (reconcileSubscription desired) (fun _ => within (passing l (desired :: done))).
Proof.
  assert (forall m, within (holding moved_on) m -> within (passing l (desired :: done)) m) as Hend.
  { intros m. apply within_weaken. intros subs p ((Hb & Hr & Hd) & u & Hu & Hm). split; [done|]. split; [done|].
    intros e [->|He]%elem_of_cons Hpe; [|by apply Hd]. intros (v & Hv & Hst). rewrite Hu in Hv. injection Hv as <-. by apply Hm. }
  unfold reconcileSubscription.
  apply (triple_bind _ _ (fun u m => match u with
    | Some u => within (holding (consumed (su_consumer u))) m /\ de_ID (findDestination dests id) = id
    | None => within (passing l (desired :: done)) m
    end)).
  { eapply triple_bind; [apply within_others|]. intros u0 m Hm. cbn [fst snd]. destruct (subscriptions (svc m) !! id) as [u|] eqn:Hu.
    - pose proof Hm as (_ & _ & _ & _ & Hk & p & Hp & HP). split; [|by eapply (ba_known _ _ (proj1 HP))].
      assert (within (fun subs p => passing l done subs p /\ subs !! id = Some u) m) as Hm2.
      { destruct Hm as (Hmv & Hs & Hw & Hd & _). unfold within. split_and!; try done. by exists p. }
      revert Hm2. apply (within_note _ _ None (upd_sub id (with_view (with_desired (ds_Desired desired))))); [done|].
      intros s q [Hq Hsu]. split; [|eexists; cbn; rewrite lookup_alter_eq, Hsu; done].
      apply passing_alter; [done|by right|]. intros v Hv Hst. rewrite Hsu in Hv. injection Hv as <-. by apply (ba_paused _ _ (proj1 Hq) id u).
    - assert (within (fun subs p => passing l done subs p /\ subs !! id = None) m) as Hm2.
      { destruct Hm as (Hmv & Hs & Hw & Hd & Hk & p & Hp & HP). unfold within. split_and!; try done. by exists p. }
      revert Hm2. apply (within_note _ _ None (upd_sub id (with_view (with_desired (ds_Desired desired))))); [done|].
      intros s q [(Hb & Hr & HD) Hsu]. cbn. rewrite alter_alt, Hsu. split; [done|]. split; [done|].
      intros e [->|He]%elem_of_cons Hpe; [|by apply HD]. intros (v & Hv & _). congruence. }
  intros [u|]; [|by intros m]. intros m [Hm Hknown]. apply Hend. revert m Hm.
  change (triple (within (holding (consumed (su_consumer u))))
    (destination ← reading (fun s => findDestination (destinations s) id);
     '(ready, reason) ← looking (fun s => destinationReady s (de_Sources destination));
     if paused desired || negb ready then Control.rest id (su_consumer u) desired reason
     else
       c ← ensureConsumer id (su_consumer u) destination;
       match c with None => ret tt | Some c => ready ← call (ConsumerReady c); markProgress id desired ready end)
    (fun _ => within (holding moved_on))).
  apply (dests_then (fun ds => findDestination ds id)). apply idle_then; [apply idle_looking|]. intros [ready reason].
  destruct (paused desired || negb ready) eqn:Hready; [apply rest_moves|]. apply orb_false_iff in Hready as [Hpd _].
  eapply triple_bind; [by apply ensure_takes|]. intros [c|].
  + apply idle_then; [apply idle_call, quiet_elsewhere|]. intros r. apply progress_moves.
  + intros x. apply within_weaken. intros subs p (Hp & v & Hv & Hst). split; [done|]. exists v. split; [done|]. by intros _.
Qed.
End OneSubscription.

(** ** A pass, and the whole of [Start] *)
Lemma pass_moves (l todo done : list DesiredSubscription) :
  todo ⊆ l -> NoDup (ds_ID <$> todo) -> (forall x e, x ∈ todo -> e ∈ done -> ds_ID e <> ds_ID x) ->
  triple (within (passing l done)) (each reconcileSubscription todo) (fun _ => within (passing l (reverse todo ++ done))).
Proof.
  revert done. induction todo as [|x todo IH]; intros done Hin Hd Hnew; [by intros m|]. cbn [each]. cbn in Hd.
  apply NoDup_cons in Hd as [Hx Hd]. eapply triple_bind.
  { apply subscription_moves; [apply Hin; by left|]. intros e He. by apply Hnew; [left|]. }
  intros u. rewrite reverse_cons, <- app_assoc. cbn. apply IH; [set_solver|done|].
  intros y e Hy [->|He]%elem_of_cons; [|apply Hnew; [by right|done]]. intros Heq. apply Hx. rewrite Heq. by apply list_elem_of_fmap_2.
Qed.

(** What a pass reports. *)
Lemma report_moves (l : list DesiredSubscription) (os : list DesiredSubscription) :
  triple (within (fun subs p => passing l l subs p /\ forall o, o ∈ os -> ds_Desired o = StatePaused -> settled (ds_ID o) (ds_Revision o) p))
    (report_loop os) (fun _ => within base).
Proof.
  induction os as [|o os IH]; cbn [report_loop].
  - intros m. apply within_weaken. by intros subs p [[Hb _] _].
  - apply scope_then, worker_then. eapply triple_bind.
    + apply observe_call. intros subs p [_ Ho] Hst. apply Ho; [by left|done].
    + intros [u|e].
      * eapply triple_pre; [|apply IH]. intros m. apply within_weaken. intros subs p [Hp Ho]. split; [done|]. intros x Hx. apply Ho. by right.
      * intros m. apply within_weaken. by intros subs p [[Hb _] _].
Qed.

Lemma observations_settled (l : list DesiredSubscription) (s : Svc) (p : Proto) (o : DesiredSubscription) :
  passing l l (subscriptions s) p -> o ∈ observations s -> ds_Desired o = StatePaused -> settled (ds_ID o) (ds_Revision o) p.
Proof.
  intros (Hb & (Hr & _ & _) & Hd) Ho Hst. apply list_elem_of_omap in Ho as ([d u] & Hu%elem_of_map_to_list & Ho).
  destruct (0 <? su_revision u); [|done]. injection Ho as <-. cbn in *. destruct (ba_paused _ _ Hb d u Hu Hst) as [Hn Hin].
  split; [done|]. split; [|by eapply base_none]. intros e He Hid. rewrite Hr in He. destruct (paused e) eqn:Hpe; [done|].
  exfalso. apply (Hd e He Hpe). exists u. by rewrite Hid.
Qed.

Lemma reportObservations_moves (l : list DesiredSubscription) : triple (within (passing l l)) reportObservations (fun _ => within base).
Proof.
  unfold reportObservations.
  apply (triple_bind _ _ (fun os => within (fun subs p => passing l l subs p /\
    forall o, o ∈ os -> ds_Desired o = StatePaused -> settled (ds_ID o) (ds_Revision o) p))); [|intros os; apply report_moves].
  eapply triple_bind; [apply within_others|]. intros u m (Hm & Hs & Hw & Hd & Hk & p & Hp & HP). unfold within. split_and!; try done.
  exists p. split; [done|]. split; [done|]. intros o Ho. by eapply observations_settled.
Qed.

Lemma keeps_pass : triple (within base) reconcile (fun _ => within base).
Proof.
  unfold reconcile. eapply triple_bind; [apply refresh_reads|]. intros [l healthy]. cbn [fst snd].
  apply idle_then.
  { destruct healthy; [|apply idle_ret]. apply idle_bind; [apply idle_reading|]. intros ss. apply idle_each, idle_inspectSource. }
  intros u. apply idle_then; [by intros P m|]. intros over. destruct healthy; cbn [negb orb].
  2:{ eapply triple_pre; [|apply keeps_degrade]. intros m. apply within_weaken. by intros subs p [Hb _]. }
  destruct over.
  { eapply triple_pre; [|apply keeps_degrade]. intros m. apply within_weaken. by intros subs p [Hb _]. }
  intros m Hm. assert (exists p, fl_workers (sh_fleet (env m)) !! me = Some p /\ has_read l p) as (p0 & _ & _ & Hnd & _).
  { destruct Hm as (_ & _ & _ & _ & _ & p & Hp & _ & Hr). exists p. split; [done|]. by apply Hr. }
  revert m Hm. change (triple (within (fun subs p => base subs p /\ (true = true -> has_read l p)))
    (_ ← each reconcileSubscription l;
     reported ← reportObservations;
     if negb reported then
       _ ← locked (fun s => set_status s (mkStatus (st_Status (status s)) (st_Kafka (status s)) false)); degrade
     else locked (fun s => set_status s (mkStatus (overallStatus (sourceStates s) (subscriptions s)) (st_Kafka (status s)) (st_Control (status s)))))
    (fun _ => within base)).
  eapply (triple_bind _ _ (fun _ => within (passing l l))).
  - eapply triple_weaken; [apply (pass_moves l l []); [done|done|by intros x e _ ?%elem_of_nil]| |].
    + intros m. apply within_weaken. intros subs p [Hb Hr]. split; [done|]. split; [by apply Hr|]. by intros e ?%elem_of_nil.
    + intros [] m. apply within_weaken. intros subs p (Hb & Hr & Hd). split; [done|]. split; [done|]. intros e He. apply Hd.
      apply elem_of_app. left. by apply elem_of_reverse.
  - intros u'. eapply triple_bind; [apply reportObservations_moves|]. intros [].
    + by apply idle_locked.
    + apply idle_then; [by apply idle_locked|]. intros x. apply keeps_degrade.
Qed.

Lemma keeps_announce : triple (within base) announce (fun _ => within base).
Proof. unfold announce. apply idle_then; [apply idle_reading|]. intros g. apply idle_log. Qed.

Lemma keeps_release : triple (within base) releaseLease (fun _ => within base).
Proof.
  unfold releaseLease. apply scope_then, worker_then.
  eapply (triple_bind _ _ (fun _ => within base)); [apply release_call|]. by intros r m.
Qed.

Lemma keeps_loop (fuel : nat) (m m' : M) : within base m -> start_loop fuel m = Some m' -> within base m'.
Proof.
  revert m. induction fuel as [|fuel IH]; intros m Hm; cbn [start_loop]; pose proof (keeps_pass m Hm) as H1;
    destruct (reconcile m) as [u m1]; cbn in H1; pose proof (idle_call Tick (quiet_elsewhere RsTick) base m1 H1) as H2;
    destruct (call Tick m1) as [[e|] m2]; cbn in H2; try done; try (intros [= <-]; by apply keeps_stopAll).
  intros Hl. apply (IH _) in Hl; [done|]. by apply (within_aside base None (take_signal (Signaled (env m2))) (m_running m2) m2).
Qed.

Lemma keeps_start (fuel : nat) (m m' : M) : within base m -> Start fuel m = Some m' -> within base m'.
Proof.
  intros Hm. unfold Start. pose proof (keeps_announce m Hm) as H1. destruct (announce m) as [u m1]. cbn in H1.
  destruct (start_loop fuel m1) as [m2|] eqn:Hl; [|done]. intros [= <-]. apply keeps_release. by eapply keeps_loop.
Qed.
End OnFleet.
#[export] Existing Instance fleet_env.

(** ** Properties of a worker in the fleet *)
Section Worker.
Context (sc : Scope) (me : string) {W : Type} `{!Rest sc me W} (dests : list Destination).
Abbreviation M := (Machine (Shared W)).
Abbreviation fleet m := (sh_fleet (env m)).

(** A service that agrees with its place in the fleet. *)
Definition anyhow (_ : M) : Prop := True.
Lemma anyhow_chart : chart sc me anyhow.
Proof. done. Qed.
#[local] Hint Resolve anyhow_chart : core.

Definition in_place (m : M) : Prop := within sc me (fleet m) dests anyhow (base dests) m.

Lemma place_from (f : Fleet_) (m : M) : within sc me f dests anyhow (base dests) m -> moves sc f (fleet m) /\ in_place m.
Proof. intros (Hm & H). split; [done|]. split; [done|exact H]. Qed.

Lemma find_known (ds : list Destination) (d : Destination) : d ∈ ds -> de_ID (findDestination ds (de_ID d)) = de_ID d.
Proof.
  induction ds as [|x ds IH]; [by intros ?%elem_of_nil|]. cbn. destruct (str_eqb (de_ID x) (de_ID d)) eqn:He; [by apply str_eqb_true in He|].
  intros [->|Hin]%elem_of_cons; [|by apply IH]. by rewrite (proj2 (str_eqb_true _ _) eq_refl) in He.
Qed.

Lemma new_subs (m0 : gmap string subscription) (l : list Destination) (k : string) (u : subscription) :
  foldl (fun m d => <[ de_ID d := mkSub (mkSubscription (de_ID d) StateStarting "" "") 0 None ]> m) m0 l !! k = Some u ->
  m0 !! k = Some u \/ (exists d, d ∈ l /\ de_ID d = k) /\ sb_State (su_view u) = StateStarting.
Proof.
  revert m0. induction l as [|d l IH]; intros m0; cbn; [by left|]. intros [Hu|[(x & Hx & Hk) Hs]]%IH.
  - apply lookup_insert_Some in Hu as [[<- <-]|[_ Hu]]; [|by left]. right. split; [|done]. exists d. split; [by left|done].
  - right. split; [|done]. exists x. split; [by right|done].
Qed.

Lemma new_within (K : M -> Prop) (srcs : list Source) (log : Activity.Log) (w w' : Shared W) (m : M) :
  (forall s w1, is_Some (fl_workers (sh_fleet w1) !! me) -> K (note None (mkMachine s w1 ∅ []))) ->
  New sc srcs dests log me w = (Ok m, w') -> fl_workers (sh_fleet w) !! me = Some (mkProto [] [] ∅) ->
  within sc me (sh_fleet w) dests K (base dests) m.
Proof.
  intros HK. unfold New. destruct (negb _); [done|]. pose proof (quiet_ensure sc me (map de_ID dests) w) as Hq.
  pose proof (other_worker sc me _ _ Hq) as Hw. pose proof (elsewhere_moves sc me _ _ Hq) as Hm.
  destruct (EnvEnsureSubscriptions sc (map de_ID dests) w) as [[u|e] w1]; [|done]. intros [= <- <-] Hme. cbn in Hm, Hw.
  unfold within. cbn. split_and!; try done; [apply HK; rewrite Hw; by eexists|]. exists (mkProto [] [] ∅). rewrite Hw. split; [done|]. split.
  - intros d v [Hv|[(x & Hx & <-) _]]%new_subs; [by rewrite lookup_empty in Hv|by apply find_known].
  - intros c d Hc. cbn in Hc. by rewrite lookup_empty in Hc.
  - intros d v [Hv|[_ Hs]]%new_subs; [by rewrite lookup_empty in Hv|]. by rewrite Hs.
Qed.

Lemma new_in_place (srcs : list Source) (log : Activity.Log) (w w' : Shared W) (m : M) :
  New sc srcs dests log me w = (Ok m, w') -> fl_workers (sh_fleet w) !! me = Some (mkProto [] [] ∅) ->
  within sc me (sh_fleet w) dests anyhow (base dests) m.
Proof. by apply new_within. Qed.

(** *** Every moment of the service, in the fleet *)

(** From one moment of the history to the next is a turn, and the worker is in
    the fleet all along. *)
Definition charted (m : M) : Prop :=
  (forall k x y, m_seen m !! k = Some x -> m_seen m !! S k = Some y -> turn sc me (sh_fleet (se_env x)) (sh_fleet (se_env y))) /\
  (forall x, x ∈ m_seen m -> is_Some (fl_workers (sh_fleet (se_env x)) !! me)) /\
  (forall x, last (m_seen m) = Some x -> sh_fleet (se_env x) = fleet m).

Lemma charted_note (x : option section) (s : Svc) (w : Shared W) (r : gmap nat string) (m : M) :
  charted m -> turn sc me (fleet m) (sh_fleet w) -> is_Some (fl_workers (sh_fleet w) !! me) ->
  charted (note x (mkMachine s w r (m_seen m))).
Proof.
  intros (Ht & Hin & Hl) Hw Hme. split; [|split]; cbn.
  - intros k y z Hy Hz. apply lookup_app_Some in Hz as [Hz|[Hk [Hk' <-]%list_lookup_singleton_Some]].
    + rewrite lookup_app_l in Hy by (apply lookup_lt_Some in Hz; lia). by eapply Ht.
    + rewrite lookup_app_l in Hy by lia. rewrite (Hl y); [done|]. rewrite last_lookup. by replace (pred (length (m_seen m))) with k by lia.
  - intros y [Hy|Hy%list_elem_of_singleton]%elem_of_app; [by apply Hin|by subst y].
  - intros y. rewrite last_snoc. by intros [= <-].
Qed.

Lemma turn_refl (f : Fleet_) : turn sc me f f.
Proof. exists f. split; [done|by left]. Qed.

Lemma charted_chart : chart sc me charted.
Proof.
  split.
  - intros w m Ht Hw Hm. by apply charted_note.
  - intros x s r m Hw Hm. by apply charted_note; [|apply turn_refl|].
Qed.

(** What the rest of the fleet cannot do: change this worker's rows. *)
Lemma elsewhere_rows (f f' : Fleet_) (d : string) : rtc (elsewhere_step sc me) f f' ->
  tb_observed (fl_tables f') !! (sc, me, d) = tb_observed (fl_tables f) !! (sc, me, d).
Proof.
  induction 1 as [|f1 f2 f3 (who & Hne & Hs) _ IH]; [done|]. rewrite IH. clear IH. revert Hne.
  destruct Hs as [f t' _ Hrows|f now _|f b _ _|f b|f b p l db _ _|f b p e c _ _ _ _|f b p c _|f b p d' r s db _ _|f b p db _]; intros Hne;
    cbn [fl_tables with_tables with_worker]; try done.
  - by apply Hrows.
  - destruct (observe_rows sc db (fl_tables f) b d' r s (sc, me, d)) as [->|[[= <- _] _]]; done.
  - apply release_other. congruence.
Qed.

(** What a turn may do with this worker's reports and consumers. *)
Lemma turn_discipline (f f' : Fleet_) (p p' : Proto) : turn sc me f f' -> fl_workers f !! me = Some p -> fl_workers f' !! me = Some p' ->
  (forall d r, tb_observed (fl_tables f') !! (sc, me, d) = Some (r, StatePaused) ->
     tb_observed (fl_tables f) !! (sc, me, d) = Some (r, StatePaused) \/ settled d r p') /\
  (forall c d, pr_running p' !! c = Some d -> pr_running p !! c = Some d \/ exists e, e ∈ pr_read p /\ ds_ID e = d /\ paused e = false).
Proof.
  intros (g & Hg & Hf) Hp Hp'. pose proof (other_worker sc me f g Hg) as Hw. pose proof (fun d => elsewhere_rows f g d Hg) as Hrows.
  rewrite Hp in Hw. destruct Hf as [->|Hs].
  { rewrite Hw in Hp'. injection Hp' as <-. split; [intros d r; rewrite Hrows; by left|by left]. }
  remember (Some me) as who eqn:Hwho. destruct Hs as [f0 t' _ _|f0 now _|f0 b Hnone _|f0 b|f0 b q l db Hq _|f0 b q e c Hq He Hpe _|f0 b q c Hq|f0 b q d' r' s db Hq Hset|f0 b q db Hq];
    try discriminate Hwho; injection Hwho as ->; cbn [fl_tables fl_workers with_tables with_worker] in *; try (rewrite Hw in Hq; injection Hq as <-).
  - congruence.
  - by rewrite lookup_delete_eq in Hp'.
  - rewrite lookup_insert_eq in Hp'. injection Hp' as <-. split; [intros d r; rewrite Hrows; by left|by left].
  - rewrite lookup_insert_eq in Hp'. injection Hp' as <-. split; [intros d r; rewrite Hrows; by left|]. cbn.
    intros c' d [[<- <-]|[_ Hc]]%lookup_insert_Some; [right; by exists e|by left].
  - rewrite lookup_insert_eq in Hp'. injection Hp' as <-. split; [intros d r; rewrite Hrows; by left|]. cbn.
    intros c' d [_ Hc]%lookup_delete_Some. by left.
  - rewrite Hw in Hp'. injection Hp' as <-. split; [|by left]. intros d r.
    destruct (observe_rows sc db (fl_tables f0) me d' r' s (sc, me, d)) as [->|[[= ->] ->]]; [rewrite Hrows; by left|].
    intros [= <- Hst]. right. by apply Hset.
  - rewrite Hw in Hp'. injection Hp' as <-. split; [|by left]. intros d r Hr%release_rows. rewrite Hrows in Hr. by left.
Qed.

(** What a service does, in any order and cut off anywhere: the steps of
    [Start], and the calls of the requests it serves. *)
Inductive deeds (m : M) : M -> Prop :=
| d_announce : deeds m (announce m).2
| d_pass : deeds m (reconcile m).2
| d_tick : deeds m (call Tick m).2
| d_woken signaled : deeds m (on_service (take_signal signaled) m)
| d_stop : deeds m (stopAll m).2
| d_release : deeds m (releaseLease m).2
| d_block source reason : deeds m (Block source reason m).2
| d_signal : deeds m (Signal m).2
| d_request id state : deeds m (call (EnvSetDesired sc id state) m).2
| d_look id revision state : deeds m (call (EnvObserved sc id revision state) m).2
| d_section x : deeds m (perform x m).

Lemma deeds_within (K : M -> Prop) (f0 : Fleet_) (m m' : M) : chart sc me K -> rtc deeds m m' ->
  within sc me f0 dests K (base dests) m -> within sc me f0 dests K (base dests) m'.
Proof.
  intros HK. induction 1 as [|x y z Hxy _ IH]; [done|]. intros Hx. apply IH. clear IH.
  destruct Hxy as [| | |signaled| | |source reason| |id state|id revision state|x0].
  - by apply keeps_announce.
  - by apply keeps_pass.
  - by apply idle_call; [|apply quiet_elsewhere|].
  - by apply (within_aside sc me f0 dests K HK _ None).
  - by apply keeps_stopAll.
  - by apply keeps_release.
  - by apply idle_Block.
  - by apply section_idle.
  - by apply idle_call; [|apply quiet_desired|].
  - by apply idle_call; [|apply quiet_observed|].
  - by apply within_aside; [|apply aside_section|].
Qed.

(** All of [Start] is such a run. *)
Lemma start_deeds (fuel : nat) (m m' : M) : Start fuel m = Some m' -> rtc deeds m m'.
Proof.
  assert (forall m m', start_loop fuel m = Some m' -> rtc deeds m m') as Hloop.
  { induction fuel as [|fuel IH]; intros x y; cbn [start_loop]; pose proof (d_pass x) as H1; destruct (reconcile x) as [u x1];
      pose proof (d_tick x1) as H2; destruct (call Tick x1) as [[e|] x2]; cbn [snd] in *; try done.
    1, 2: intros [= <-]; eapply rtc_l; [exact H1|]; eapply rtc_l; [exact H2|]; apply rtc_once, d_stop.
    intros Hl. eapply rtc_l; [exact H1|]. eapply rtc_l; [exact H2|]. eapply rtc_l; [apply (d_woken _ (Signaled (env x2)))|]. by apply IH. }
  unfold Start. pose proof (d_announce m) as H1. destruct (announce m) as [u m1]. destruct (start_loop fuel m1) as [m2|] eqn:Hl; [|done].
  intros [= <-]. eapply rtc_l; [exact H1|]. etrans; [by apply Hloop|]. apply rtc_once, d_release.
Qed.

(** C11. The service follows the protocol, at every moment of whatever it does and
    wherever it is cut off: from one state it is in to the next, in the middle
    of a pass too, the fleet makes a turn — any steps of the rest, then at most
    one of this worker — in which this worker reports a destination as paused
    only when the store asked for it, its last read agrees and it runs no
    consumer of it, and starts a consumer only when its last read asks for its
    destination to run.  The rest of the fleet, Kafka, the monitor and the
    database do as they like between and during its calls. *)
Theorem service_in_fleet (srcs : list Source) (log : Activity.Log) (w w' : Shared W) (m m' : M) :
  fl_workers (sh_fleet w) !! me = Some (mkProto [] [] ∅) -> New sc srcs dests log me w = (Ok m, w') -> rtc deeds m m' ->
  moves sc (sh_fleet w) (fleet m') /\
  forall k x y, m_seen m' !! k = Some x -> m_seen m' !! S k = Some y ->
    let f := sh_fleet (se_env x) in let f' := sh_fleet (se_env y) in
    turn sc me f f' /\ exists p p', fl_workers f !! me = Some p /\ fl_workers f' !! me = Some p' /\
      (forall d r, tb_observed (fl_tables f') !! (sc, me, d) = Some (r, StatePaused) ->
         tb_observed (fl_tables f) !! (sc, me, d) = Some (r, StatePaused) \/
         mkDesired d StatePaused r ∈ pr_seen p' /\ not_wanted d p' /\ no_consumer d p') /\
      (forall c d, pr_running p' !! c = Some d -> pr_running p !! c = Some d \/ exists e, e ∈ pr_read p /\ ds_ID e = d /\ paused e = false).
Proof.
  intros Hme Hnew Hs. assert (within sc me (sh_fleet w) dests charted (base dests) m') as (Hm & _ & _ & _ & (Ht & Hin & _) & _).
  { eapply deeds_within; [apply charted_chart|exact Hs|]. eapply new_within; [|done|done]. intros s w1 Hw1. split; [|split]; cbn.
    - by intros [|k] x y.
    - by intros x ->%list_elem_of_singleton.
    - by intros x [= <-]. }
  split; [done|]. intros k x y Hx Hy. pose proof (Ht k x y Hx Hy) as Hturn. split; [done|].
  destruct (Hin x) as [p Hp]; [by eapply list_elem_of_lookup_2|]. destruct (Hin y) as [p' Hp']; [by eapply list_elem_of_lookup_2|].
  exists p, p'. split; [done|]. split; [done|]. by apply turn_discipline.
Qed.

(** Passes of the loop keep the service in place; other goroutines must. *)
Definition peaceful (others : M -> M) : Prop := forall x, in_place x -> moves sc (fleet x) (fleet (others x)) /\ in_place (others x).

Lemma pass_peaceful : peaceful (fun m => (reconcile m).2).
Proof. intros m Hm. apply place_from. by apply keeps_pass. Qed.

Lemma call_place {A : Type} (f : Act (Shared W) A) (m : M) : quiet sc me f -> in_place m ->
  moves sc (fleet m) (fleet (call f m).2) /\ in_place (call f m).2.
Proof. intros Hf Hm. apply place_from. by apply idle_call. Qed.

(** Other goroutines' sections leave the fleet alone. *)
Lemma call_fleet {A : Type} (f : Act (Shared W) A) (m : M) :
  (call f m).1 = (f (env m)).1 /\ fleet (call f m).2 = sh_fleet (f (env m)).2.
Proof.
  destruct (call_env f m) as [-> ->]. split; [done|]. cbn [Interference fleet_env]. unfold rest_call. by destruct (RsSections _).
Qed.

Lemma under_ok {A : Type} (o : Outcome) (f : option error -> Call A) (t : Tables) (a : A) :
  (forall e, is_ok (f (Some e) t).1 = false) -> (under o f t).1 = Ok a -> (f None t).1 = Ok a.
Proof. intros Hf. destruct o as [|e|e]; [done|..]; cbn; intros Ha; specialize (Hf e); by rewrite Ha in Hf. Qed.

(** An answer that every live worker is there was the store's at one moment. *)
Lemma observed_when (d state : string) (r : Z) (m : M) : in_place m ->
  (call (EnvObserved sc d r state) m).1 = Ok true ->
  exists f, moves sc (fleet m) f /\ moves sc f (fleet (call (EnvObserved sc d r state) m).2) /\
    (SubscriptionObserved None (fl_now f) sc d r state (fl_tables f)).1 = Ok true.
Proof.
  intros _. destruct (call_fleet (EnvObserved sc d r state) m) as [-> ->]. cbn [EnvObserved fleet_env]. destruct (stored_spec sc me (fun db now => SubscriptionObserved db now sc d r state) (env m))
    as (g & o & w & Hm%elsewhere_moves & _ & ->).
  destruct (under_state o (fun db => SubscriptionObserved db (fl_now g) sc d r state) (fl_tables g)) as [db Hdb].
  pose proof (under_ok o (fun db => SubscriptionObserved db (fl_now g) sc d r state) (fl_tables g) true) as Hok.
  destruct (under o _ _) as [a t]. cbn [fst snd sh_fleet] in *. subst t. intros ->.
  exists g. split; [done|]. split.
  - replace (SubscriptionObserved db (fl_now g) sc d r state (fl_tables g)).2 with (fl_tables g); [eapply elsewhere_moves, (same_moves sc me)|].
    unfold SubscriptionObserved. guards.
  - apply Hok; [|done]. intros e. unfold SubscriptionObserved. guards.
Qed.

Lemma look_when (d state : string) (r : Z) (m : M) : in_place m ->
  moves sc (fleet m) (fleet (look d state r m).2) /\ in_place (look d state r m).2 /\
  (forall view, state <> "" -> (look d state r m).1 = inl (view, None) ->
    exists f, moves sc (fleet m) f /\ moves sc f (fleet (look d state r m).2) /\
      (SubscriptionObserved None (fl_now f) sc d r state (fl_tables f)).1 = Ok true).
Proof.
  intros Hm. unfold look. assert (scope (svc m) = sc) as -> by apply Hm. destruct (default (zeroSub, 0) _) as [v applied].
  destruct ((r <=? applied) && str_eqb (sb_State v) state && str_eqb (sb_DesiredState v) state).
  - destruct (call_place (EnvObserved sc d r state) m (quiet_observed sc me d r state) Hm) as [H1 H2].
    pose proof (observed_when d state r m Hm) as Hwhen. destruct (call (EnvObserved sc d r state) m) as [[[]|e] m1]; cbn in *;
      (split; [exact H1|]; split; [exact H2|]); intros view _; [intros _; by apply Hwhen|by destruct (_ && _)|done].
  - cbn. split; [done|]. split; [done|]. intros view _. by destruct (_ && _).
Qed.

(** The waiting loop: a run of the fleet, in which the store gave the answer. *)
Lemma await_when (fuel : nat) (others : M -> M) (d state : string) (r : Z) (m m' : M) (view : Subscription) :
  state <> "" -> peaceful others -> in_place m -> awaitConvergence fuel others d state r m = Some ((view, None), m') ->
  exists f, moves sc (fleet m) f /\ moves sc f (fleet m') /\
    (SubscriptionObserved None (fl_now f) sc d r state (fl_tables f)).1 = Ok true.
Proof.
  intros Hne Hpeace. revert m. induction fuel as [|fuel IH]; intros m Hm; cbn [awaitConvergence];
    destruct (Hpeace m Hm) as [H1 H2]; destruct (look_when d state r (others m) H2) as (H3 & H4 & H5);
    destruct (look d state r (others m)) as [[answer|v] m1]; cbn [fst snd] in *;
    try (intros [= -> <-]; destruct (H5 view Hne eq_refl) as (f & Hf1 & Hf2 & Hf3); exists f; split; [by etrans|done]);
    destruct (call_place (elsewhere sc me RsTick) m1 (quiet_elsewhere sc me RsTick) H4) as [H6 H7]; change (elsewhere sc me RsTick) with (Tick (W := Shared W)) in *; destruct (call Tick m1) as [[e|] m2]; try done.
  intros Ha. cbn [snd] in *. destruct (IH m2 H7 Ha) as (f & Hf1 & Hf2 & Hf3). exists f. split; [|done].
  etrans; [exact H1|]. etrans; [exact H3|]. by etrans.
Qed.

(** The request is the store's row right after the statement. *)
Lemma desired_when (d state : string) (m : M) (desired : DesiredSubscription) :
  (call (EnvSetDesired sc d state) m).1 = Ok desired ->
  exists g, moves sc (fleet m) g /\ moves sc g (fleet (call (EnvSetDesired sc d state) m).2) /\
    tb_subscriptions (fl_tables g) !! (sc, d) = Some (state, ds_Revision desired).
Proof.
  destruct (call_fleet (EnvSetDesired sc d state) m) as [-> ->]. cbn [EnvSetDesired fleet_env].
  destruct (stored_spec sc me (fun db _ => SetDesired db sc d state) (env m)) as (g & o & w & Hm%elsewhere_moves & _ & ->).
  assert (forall e, is_ok (SetDesired (Some e) sc d state (fl_tables g)).1 = false) as Hfail.
  { intros e. unfold SetDesired. guards. }
  destruct o as [|e|e]; cbn [under].
  - pose proof (desired_revision sc d state None (fl_tables g) desired) as Hrev.
    destruct (SetDesired None sc d state (fl_tables g)) as [a t] eqn:Hset. cbn [fst snd sh_fleet] in *. intros ->.
    destruct (Hrev eq_refl) as (x & v & Hrow & -> & _ & ->). eexists. split; [|split; [reflexivity|]].
    + etrans; [exact Hm|]. eapply elsewhere_moves, (client_moves sc me).
      * change (set_subscriptions _ _) with ((@Ok error _ (mkDesired d state (if decide (x = state) then v else v + 1)),
          set_subscriptions (fl_tables g) (<[(sc, d) := (state, ds_Revision (mkDesired d state (if decide (x = state) then v else v + 1)))]> (tb_subscriptions (fl_tables g)))).2).
        rewrite <- Hset. apply step_desired.
      * done.
    + cbn. apply lookup_insert_eq.
  - specialize (Hfail e). destruct (SetDesired (Some e) sc d state (fl_tables g)) as [[a|e'] t]; [done|]. by cbn.
  - specialize (Hfail e). destruct (SetDesired (Some e) sc d state (fl_tables g)) as [[a|e'] t]; [done|]. by cbn.
Qed.

(** A pause that [Change] confirms, for the fleet: the store held the request,
    at a revision [r]; at a later moment the store had it from every live
    worker; and from that moment on, for as long as the row stays at [r], no
    worker live at that moment and no worker joining later runs a consumer of
    the destination. *)
Theorem pause_confirmed (f0 : Fleet_) (fuel : nat) (others : M -> M) (d : string) (m m' : M) (view : Subscription) :
  launch f0 -> moves sc f0 (fleet m) -> in_place m -> peaceful others ->
  Change fuel others d StatePaused m = Some ((view, None), m') ->
  exists r g f, moves sc (fleet m) g /\ moves sc g f /\ moves sc f (fleet m') /\
    tb_subscriptions (fl_tables g) !! (sc, d) = Some (StatePaused, r) /\
    forall f' x b p, moves sc f f' -> tb_subscriptions (fl_tables f') !! (sc, d) = Some (x, r) ->
      fl_workers f' !! b = Some p -> (is_Some (fl_workers f !! b) -> live (fl_tables f) (fl_now f) sc b = true) ->
      no_consumer d p.
Proof.
  intros H0 Hf0 Hm Hpeace. unfold Change. destruct (snapshot (svc m) d) as [old|]; [|done].
  assert (scope (svc m) = sc) as -> by apply Hm. destruct (call_place (EnvSetDesired sc d StatePaused) m (quiet_desired sc me d StatePaused) Hm) as [H1 H2].
  pose proof (desired_when d StatePaused m) as Hwhen.
  destruct (call (EnvSetDesired sc d StatePaused) m) as [[desired|e] m1]; [|done]. cbn [fst snd] in *.
  destruct (Hwhen desired eq_refl) as (g & Hg1 & Hg2 & Hrow0).
  pose proof (section_idle sc me (fleet m1) dests anyhow anyhow_chart SSignal (base dests) m1 H2) as [H4 H3]%place_from. unfold Signal.
  destruct (section_of SSignal m1) as [u2 m2]. cbn [snd] in *. intros Ha.
  apply await_when in Ha as (f & Hf1 & Hf2 & Hobs); [|discriminate|done|exact H3].
  assert (moves sc g f) as Hgf by (etrans; [exact Hg2|]; by etrans).
  assert (moves sc (fleet m1) f) as Hmf by by etrans.
  exists (ds_Revision desired), g, f. split; [done|]. split; [exact Hgf|]. split; [done|]. split; [done|]. intros f' x b p Hf' Hrow Hb Hlive.
  eapply off_global; [exact H0| |exact Hobs|exact Hf'|exact Hrow|exact Hb|exact Hlive].
  etrans; [exact Hf0|]. etrans; [exact H1|exact Hmf].
Qed.
End Worker.

(** ** Witnesses: one worker with one destination, run by hand *)
Module FleetSim.
Definition sc : Scope := ControlStore.ex_scope.
#[export] Instance alone : Rest sc "w1" unit := {
  RsMoves f w := (f, w);
  RsMoves_steps f w := rtc_refl _ f;
  RsOutcome w := (Fine, w);
  RsNow w := 0;
  RsEnded w := None;
  RsSections w := ([], w);
  RsPing w := (Ok tt, w);
  RsInspect _ _ w := ((sourceRunning, ""), w);
  RsConsumer _ _ w := (None, w);
  RsReady _ w := (true, w);
  RsFinished _ w := (false, w);
  RsTick w := (Some Canceled, w);
  RsSignaled _ := false }.
Definition empty : Fleet_ := mkFleet empty_tables 0 ∅.
Definition joined : Shared unit := mkShared (with_worker "w1" (mkProto [] [] ∅) empty) tt.
Definition dests : list Destination := [mkDestination "billing" []].
Definition created : result error (Machine (Shared unit)) * Shared unit := New sc [] dests ex_log "w1" joined.
Definition service : Machine (Shared unit) :=
  match created.1 with
  | Ok m => m
  | Err _ => mkMachine (mkSvc [] [] sc "" false (mkStatus "" false false) ∅ ∅ ∅ 0 (mkJournal ex_log [])) joined ∅ []
  end.
Lemma created_ok : created = (Ok service, created.2).
Proof.
  assert (is_ok created.1 = true) as Hok by (vm_compute; reflexivity). unfold service. revert Hok. by destruct created as [[m|e] w].
Qed.

(** After a pass the destination is delivered to. *)
Definition delivering : Machine (Shared unit) := (reconcile service).2.
Abbreviation change := (Change 3 (fun m => (reconcile m).2) "billing" StatePaused delivering).
Definition running_of (m : Machine (Shared unit)) : list (nat * string) :=
  map_to_list (pr_running (my_proto "w1" (env m))).
End FleetSim.
#[export] Existing Instance FleetSim.alone.

Lemma delivering_in_place : moves FleetSim.sc FleetSim.empty (sh_fleet (env FleetSim.delivering)) /\
  in_place FleetSim.sc "w1" FleetSim.dests FleetSim.delivering.
Proof.
  assert (within FleetSim.sc "w1" (sh_fleet FleetSim.joined) FleetSim.dests anyhow (base FleetSim.dests) FleetSim.delivering) as Hin.
  { apply keeps_pass; [apply anyhow_chart|].
    exact (new_in_place FleetSim.sc "w1" FleetSim.dests [] ex_log FleetSim.joined FleetSim.created.2 FleetSim.service FleetSim.created_ok eq_refl). }
  apply place_from in Hin as [Hmv Hin]. split; [|exact Hin]. eapply rtc_l; [|exact Hmv]. exists (Some "w1"). by apply f_join.
Qed.

(** The moment of the first pass in which the consumer starts: the last read asks
    for its destination to run. *)
Lemma service_in_fleet_witness : exists x y p e,
  m_seen FleetSim.delivering !! 12%nat = Some x /\ m_seen FleetSim.delivering !! 13%nat = Some y /\
  turn FleetSim.sc "w1" (sh_fleet (se_env x)) (sh_fleet (se_env y)) /\
  fl_workers (sh_fleet (se_env x)) !! "w1" = Some p /\ e ∈ pr_read p /\ ds_ID e = "billing" /\ paused e = false.
Proof.
  assert (rtc (deeds FleetSim.sc "w1") FleetSim.service FleetSim.delivering) as Hd by (apply rtc_once, d_pass).
  destruct (service_in_fleet FleetSim.sc "w1" FleetSim.dests [] ex_log FleetSim.joined FleetSim.created.2 FleetSim.service FleetSim.delivering
    eq_refl FleetSim.created_ok Hd) as [_ Hall].
  assert ((fun x => pr_running (my_proto "w1" (se_env x)) !! 0%nat) <$> m_seen FleetSim.delivering !! 12%nat = Some None) as H1 by (vm_compute; reflexivity).
  assert ((fun x => pr_running (my_proto "w1" (se_env x)) !! 0%nat) <$> m_seen FleetSim.delivering !! 13%nat = Some (Some "billing")) as H2
    by (vm_compute; reflexivity).
  destruct (m_seen FleetSim.delivering !! 12%nat) as [x|] eqn:Hx; [|discriminate H1].
  destruct (m_seen FleetSim.delivering !! 13%nat) as [y|] eqn:Hy; [|discriminate H2]. injection H1 as H1. injection H2 as H2.
  destruct (Hall 12%nat x y Hx Hy) as (Ht & p & p' & Hp & Hp' & _ & Hstart). unfold my_proto in H1, H2. rewrite Hp in H1. rewrite Hp' in H2.
  destruct (Hstart 0%nat "billing" H2) as [Hold|(e & He & Hid & Hpe)]; [cbn in H1; congruence|].
  exists x, y, p, e. split_and!; try assumption; reflexivity.
Defined.

(** The consumer ran before the pause and does not after it. *)
Lemma pause_confirmed_witness :
  FleetSim.running_of FleetSim.delivering = [(0%nat, "billing")] /\
  exists view m', FleetSim.change = Some ((view, None), m') /\ sb_State view = StatePaused /\
  exists r g f, moves FleetSim.sc g f /\ tb_subscriptions (fl_tables g) !! (FleetSim.sc, "billing") = Some (StatePaused, r).
Proof.
  split; [vm_compute; reflexivity|].
  assert (match FleetSim.change with Some ((v, None), _) => str_eqb (sb_State v) StatePaused | _ => false end = true) as Hc by (vm_compute; reflexivity).
  destruct FleetSim.change as [[[view [e|]] m']|] eqn:Hm; try discriminate Hc. exists view, m'. split; [reflexivity|].
  split; [by apply str_eqb_true in Hc|].
  destruct delivering_in_place as [Hm0 Hin].
  assert (launch FleetSim.empty) as Hl by (split; reflexivity).
  pose proof (pass_peaceful FleetSim.sc "w1" FleetSim.dests) as Hp.
  destruct (pause_confirmed FleetSim.sc "w1" FleetSim.dests FleetSim.empty 3 (fun m => (reconcile m).2) "billing" FleetSim.delivering m' view
    Hl Hm0 Hin Hp Hm) as (r & g & f & _ & Hgf & _ & Hrow & _). exists r, g, f. split; [exact Hgf|exact Hrow].
Defined.
