(* ===== verification/Lifecycle.v ===== *)
(** * Lifecycle: starting, running and stopping an engine

    Models [New], [Close] and [Run] of [internal/app/app.go].  [Run]'s
    goroutines — its own, the control service's [Start], the HTTP server and
    the request handlers — are one state and an executable step per label; the
    service's machine is [Control]'s.  What a step of the worker does is
    [Control]'s code.  The activity log is the one [New] makes, on the writer
    it is given: [Run]'s is the standard output. *)

From S2P Require Import Prelude Strconv GoFmt GoTime Stream Config Act App ControlStore Bootstrap Control.
From stdpp Require Import relations.
Local Open Scope Z_scope.

(** [http.ErrServerClosed]. *)
Definition ErrServerClosed : error := Errorf "http: Server closed" [].

(** Where [Run] is, after [New] has succeeded; [err] is its variable. *)
Inductive place : Type :=
| Selecting
| Stopped (err : option error)     (* left the select; stop() called *)
| Joined (err : option error)      (* <-done *)
| Draining (err : option error)    (* in server.Shutdown *)
| Drained (err : option error)
| Returned (r : result error unit).

(** Where the goroutine of [Start] is. *)
Inductive phase : Type := Starting | Reconciling | Waiting | Releasing | Finished.

(** [ListenAndServe]: accepting, told to shut down, or returned. *)
Inductive listener : Type := Listening | Closing | Ended (err : error).

Record Running (W : Type) : Type := mkRunning {
  rn_main : place;
  rn_worker : phase;
  rn_server : listener;
  rn_over : bool;                  (* [Run]'s ctx is done *)
  rn_stopped : bool;               (* stop() has been called *)
  rn_requests : nat;               (* handlers in flight *)
  rn_open : bool;                  (* the resources *)
  rn_machine : Machine W }.
Arguments mkRunning {W}. Arguments rn_main {W}. Arguments rn_worker {W}. Arguments rn_server {W}. Arguments rn_over {W}.
Arguments rn_stopped {W}. Arguments rn_requests {W}. Arguments rn_open {W}. Arguments rn_machine {W}.

(** One step: of the outside, of [Start], of the server and its handlers, of
    another goroutine's [Block], of [Run]. *)
Inductive label (W : Type) : Type :=
| LContext
| LWorld (w : W)
| LBegin | LPass | LWoken (signaled : bool) | LTold | LLease
| LServerFails (err : error) | LServerClosed
| LRequest | LSignal | LReply
| LSection (x : section)
| LContextSeen | LErrorSeen | LJoin | LShutdown | LDrain (timeout : bool) | LReturn.
Arguments LContext {W}. Arguments LWorld {W}. Arguments LBegin {W}. Arguments LPass {W}. Arguments LWoken {W}.
Arguments LTold {W}. Arguments LLease {W}. Arguments LServerFails {W}. Arguments LServerClosed {W}. Arguments LRequest {W}.
Arguments LSignal {W}. Arguments LReply {W}. Arguments LSection {W}. Arguments LContextSeen {W}. Arguments LErrorSeen {W}.
Arguments LJoin {W}. Arguments LShutdown {W}. Arguments LDrain {W}. Arguments LReturn {W}.

Section Programs.
Context {W : Type} `{Startup W} `{Env W}.
Abbreviation M := (Machine W).

(** [New]; [writer] is whether it was given one, [boot] the random text of the
    activity log it makes and [worker] the service's random id. *)
Definition NewApp (engine : Engine) (application : Application) (generation : Generation) (writer : bool) (boot worker : string) :
  Act W (result error (Resources * M)) := fun w =>
  let '(started, w) := Bootstrap engine application generation w in
  match started with
  | Err e => (Err (startupError e), w)
  | Ok resources =>
      let '(service, w) := Control.New (rs_scope resources)
        (orderedSources (app_Sources application) (rs_sources resources))
        (map (fun '(id, sources) => Control.mkDestination id sources) (controlDestinations (app_Destinations application))) (Activity.New boot writer) worker w in
      match service with
      | Err e => let '(_, w) := Close resources w in (Err e, w)
      | Ok m => (Ok (resources, m), w)
      end
  end.

(** ** [Run] *)
Context (resources : Resources).

Definition set_main (p : place) (s : Running W) : Running W :=
  mkRunning p (rn_worker s) (rn_server s) (rn_over s) (rn_stopped s) (rn_requests s) (rn_open s) (rn_machine s).
Definition set_worker (p : phase) (m : M) (s : Running W) : Running W :=
  mkRunning (rn_main s) p (rn_server s) (rn_over s) (rn_stopped s) (rn_requests s) (rn_open s) m.
Definition set_server (l : listener) (n : nat) (s : Running W) : Running W :=
  mkRunning (rn_main s) (rn_worker s) l (rn_over s) (rn_stopped s) n (rn_open s) (rn_machine s).
Definition stop_called (s : Running W) : Running W :=
  mkRunning (rn_main s) (rn_worker s) (rn_server s) (rn_over s) true (rn_requests s) (rn_open s) (rn_machine s).

(** [errors.Is(err, http.ErrServerClosed)] at the end of [Run]. *)
Definition result_of (err : option error) : result error unit :=
  match err with
  | None => Ok tt
  | Some e => if error_is e ErrServerClosed then Ok tt else Err e
  end.

(** [workerCtx] is done. *)
Definition told (s : Running W) : bool := rn_over s || rn_stopped s.

(** [ListenAndServe] returns [ErrServerClosed] only once the server was shut
    down; an engine's handlers change the service only by [Signal], the rest
    of a change being calls to the store. *)
Definition step (l : label W) (s : Running W) : option (Running W) :=
  let m := rn_machine s in
  match l with
  | LContext => Some (mkRunning (rn_main s) (rn_worker s) (rn_server s) true (rn_stopped s) (rn_requests s) (rn_open s) m)
  | LWorld w => Some (set_worker (rn_worker s) (outside w m) s)
  | LSection x => Some (set_worker (rn_worker s) (perform x m) s)
  | LBegin => match rn_worker s with Starting => Some (set_worker Reconciling (announce m).2 s) | _ => None end
  | LPass => match rn_worker s with Reconciling => Some (set_worker Waiting (reconcile m).2 s) | _ => None end
  | LWoken signaled =>
      match rn_worker s with Waiting => Some (set_worker Reconciling (on_service (take_signal signaled) m) s) | _ => None end
  | LTold =>
      match rn_worker s with Waiting => if told s then Some (set_worker Releasing (stopAll m).2 s) else None | _ => None end
  | LLease => match rn_worker s with Releasing => Some (set_worker Finished (releaseLease m).2 s) | _ => None end
  | LServerFails e =>
      match rn_server s with
      | Listening => if error_is e ErrServerClosed then None else Some (set_server (Ended e) (rn_requests s) s)
      | _ => None
      end
  | LServerClosed => match rn_server s with Closing => Some (set_server (Ended ErrServerClosed) (rn_requests s) s) | _ => None end
  | LRequest => match rn_server s with Listening => Some (set_server Listening (S (rn_requests s)) s) | _ => None end
  | LSignal => match rn_requests s with S _ => Some (set_worker (rn_worker s) (Signal m).2 s) | O => None end
  | LReply => match rn_requests s with S n => Some (set_server (rn_server s) n s) | O => None end
  | LContextSeen =>
      match rn_main s with Selecting => if rn_over s then Some (stop_called (set_main (Stopped None) s)) else None | _ => None end
  | LErrorSeen =>
      match rn_main s, rn_server s with Selecting, Ended e => Some (stop_called (set_main (Stopped (Some e)) s)) | _, _ => None end
  | LJoin => match rn_main s, rn_worker s with Stopped err, Finished => Some (set_main (Joined err) s) | _, _ => None end
  | LShutdown =>
      match rn_main s with
      | Joined err =>
          Some (set_server (match rn_server s with Ended e => Ended e | _ => Closing end) (rn_requests s) (set_main (Draining err) s))
      | _ => None
      end
  | LDrain timeout =>
      match rn_main s with
      | Draining err => if timeout || (rn_requests s =? 0)%nat then Some (set_main (Drained err) s) else None
      | _ => None
      end
  | LReturn =>
      match rn_main s with
      | Drained err =>
          Some (mkRunning (Returned (result_of err)) (rn_worker s) (rn_server s) (rn_over s) true (rn_requests s) false
            (outside (Close resources (env m)).2 m))
      | _ => None
      end
  end.

Definition steps : Running W -> Running W -> Prop := rtc (fun s s' => exists l, step l s = Some s').

(** [Run] right after its two goroutines are started. *)
Definition launched (m : M) : Running W := mkRunning Selecting Starting Listening false false 0 true m.

(** Running a list of labels. *)
Definition run_labels (ls : list (label W)) (s : Running W) : option (Running W) :=
  foldl (fun s l => s ≫= step l) (Some s) ls.
End Programs.

(** [Run], on a schedule of its goroutines, with what was written to its standard
    output, the activity log's writer; [clock] gives the times of the log's
    entries.  [None] is a schedule that is not one or stops before [Run]
    returns. *)
Definition Run {W : Type} `{Startup W} `{Env W} (schedule : list (label W)) (engine : Engine) (application : Application)
  (generation : Generation) (clock : nat -> Time) (boot worker : string) (w : W) : option (result error unit * list Activity.Entry * W) :=
  let '(started, w) := NewApp engine application generation true boot worker w in
  match started with
  | Err e => Some (Err e, [], w)
  | Ok (resources, m) =>
      s ← run_labels resources schedule (launched m);
      match rn_main s with
      | Returned r => Some (r, Activity.written (activity clock (svc (rn_machine s))), env (rn_machine s))
      | _ => None
      end
  end.

(** ** The invariant of a running engine *)
Section Invariant.
Context {W : Type} `{Startup W} `{Env W} (resources : Resources).
Implicit Types (s : Running W).

(** [Run] has joined the worker. *)
Definition joined (p : place) : bool := match p with Selecting | Stopped _ => false | _ => true end.

(** The listener was told to shut down. *)
Definition shut (l : listener) : bool := match l with Listening => false | Closing => true | Ended e => error_is e ErrServerClosed end.

Definition worker_inv s : Prop :=
  upon owned (rn_machine s) /\
  (rn_worker s = Releasing \/ rn_worker s = Finished -> upon all_stopped (rn_machine s)) /\
  (joined (rn_main s) = true -> rn_worker s = Finished).

(** Leaving for the context or for an error of the server. *)
Definition left_with (sv : listener) (over : bool) (err : option error) : Prop :=
  match err with
  | None => over = true
  | Some e => sv = Ended e /\ error_is e ErrServerClosed = false
  end.

Definition main_inv (p : place) (sv : listener) (over stopped op : bool) : Prop :=
  match p with
  | Selecting => shut sv = false /\ op = true
  | Stopped err | Joined err => shut sv = false /\ left_with sv over err /\ stopped = true /\ op = true
  | Draining err | Drained err => sv <> Listening /\ left_with sv over err /\ stopped = true /\ op = true
  | Returned r => sv <> Listening /\ op = false /\ exists err, left_with sv over err /\ r = match err with None => Ok tt | Some e => Err e end
  end.

Lemma releaseLease_stopped : triple (upon all_stopped) (releaseLease (W := W)) (fun _ => upon all_stopped).
Proof.
  unfold releaseLease. apply kept_bind; [by intros m|]. intros sc. apply kept_bind; [by intros m|]. intros w.
  apply kept_bind; [apply (triple_call (upon all_stopped))|by intros _ m].
Qed.

Lemma announce_owned : triple (upon owned) (announce (W := W)) (fun _ => upon owned).
Proof. unfold announce, log_add. apply kept_bind; [by intros m|]. intros g. apply same_section, _. Qed.

(** What changes the service outside the worker leaves its subscriptions. *)
Lemma steady (f : Svc -> Svc) (x : option section) (w : W) (m : Machine W) : (forall v, subscriptions (f v) = subscriptions v) ->
  (upon owned m -> upon owned (note x (mkMachine (f (svc m)) w (m_running m) (m_seen m)))) /\
  (upon all_stopped m -> upon all_stopped (note x (mkMachine (f (svc m)) w (m_running m) (m_seen m)))).
Proof.
  intros Hf. split; intros Hm; [apply (upon_note owned owned)|apply (upon_note all_stopped all_stopped)]; try done; (eapply as_same; [apply Hf|apply Hm]).
Qed.

Lemma step_worker_inv (l : label W) s s' : step resources l s = Some s' -> worker_inv s -> worker_inv s'.
Proof.
  destruct s as [p ph sv over stopped n op m]. unfold worker_inv. intros Hs (Ho & Hst & Hj). cbn in *.
  destruct l; cbn in Hs; repeat case_match; simplify_eq; cbn.
  all: try solve [split_and!; [assumption|naive_solver|naive_solver]].
  - destruct (steady id None w m (fun _ => eq_refl)). split_and!; auto.
  - split_and!; [by apply announce_owned|naive_solver|naive_solver].
  - split_and!; [by apply keeps_reconcile|naive_solver|naive_solver].
  - destruct (steady (take_signal signaled) None (env m) m (fun _ => eq_refl)). split_and!; [auto|naive_solver|naive_solver].
  - apply stopAll_stops in Ho. split_and!; [by apply all_stopped_owned|done|naive_solver].
  - assert (upon all_stopped (releaseLease m).2) as Hr by (apply releaseLease_stopped, Hst; by left).
    split_and!; [by apply all_stopped_owned|done|done].
  - split_and!; [by apply same_section; [apply _|]|intros Hp; apply same_section; [apply _|by apply Hst]|done].
  - destruct (steady (run_section x) (Some x) (env m) m (section_subs x)). split_and!; auto.
  - destruct (steady id None (Close resources (env m)).2 m (fun _ => eq_refl)). split_and!; auto.
Qed.

Lemma main_inv_kept (p : place) (sv sv' : listener) (over over' stopped op : bool) :
  (forall err, left_with sv over err -> left_with sv' over' err) ->
  (shut sv = false -> shut sv' = false) /\ (sv <> Listening -> sv' <> Listening) ->
  main_inv p sv over stopped op -> main_inv p sv' over' stopped op.
Proof. intros Hl Hs. destruct p; cbn; naive_solver. Qed.

Lemma step_main_inv (l : label W) s s' : step resources l s = Some s' ->
  main_inv (rn_main s) (rn_server s) (rn_over s) (rn_stopped s) (rn_open s) ->
  main_inv (rn_main s') (rn_server s') (rn_over s') (rn_stopped s') (rn_open s').
Proof.
  destruct s as [p ph sv over stopped n op m]. intros Hs Hi. cbn in *.
  destruct l; cbn in Hs; repeat case_match; simplify_eq; try exact Hi; cbn in *.
  1-3: revert Hi; apply main_inv_kept; cbn; try naive_solver; intros []; naive_solver.
  - naive_solver.
  - naive_solver.
  - destruct err; naive_solver.
  - destruct err; naive_solver.
  - destruct err; naive_solver.
  - destruct Hi as (? & Hl & _). split_and!; try done. exists err. split; [done|]. destruct err as [e|]; [|done]. cbn in *.
    by destruct Hl as [_ ->].
Qed.

(** A running engine has a service built by [control.New]. *)
Lemma newapp_owned (engine : Engine) (application : Application) (generation : Generation) (writer : bool) (boot worker : string) (w w' : W)
  (r : Resources) (m : Machine W) :
  NewApp engine application generation writer boot worker w = (Ok (r, m), w') -> upon owned m.
Proof.
  unfold NewApp. destruct (Bootstrap engine application generation w) as [[r0|e] w1]; [|done].
  destruct (Control.New _ _ _ _ worker w1) as [[m0|e] w2] eqn:Hnew; [|by destruct (Close r0 w2)].
  intros [= -> -> ->]. by apply new_owned in Hnew.
Qed.

Lemma run_labels_steps (ls : list (label W)) s s' : run_labels resources ls s = Some s' -> steps resources s s'.
Proof.
  unfold run_labels. revert s. induction ls as [|l ls IH]; intros s; [by intros [= ->]|]. cbn [foldl]. cbn [mbind option_bind].
  destruct (step resources l s) as [s1|] eqn:Hl.
  - intros Hs. eapply rtc_l; [by exists l|by apply IH].
  - enough (foldl (fun (o : option (Running W)) l => o ≫= step resources l) None ls = None) as -> by done. clear. by induction ls.
Qed.

(** Every state an engine reaches. *)
Lemma reached (m : Machine W) s :
  upon owned m -> steps resources (launched m) s ->
  worker_inv s /\ main_inv (rn_main s) (rn_server s) (rn_over s) (rn_stopped s) (rn_open s).
Proof.
  intros Hnew Hsteps. assert (worker_inv (launched m) /\ main_inv Selecting Listening false false true) as Hi.
  { split; [|done]. split; [exact Hnew|]. split; [by intros [?|?]|done]. }
  change (worker_inv (launched m) /\ main_inv (rn_main (launched m)) (rn_server (launched m)) (rn_over (launched m))
    (rn_stopped (launched m)) (rn_open (launched m))) in Hi.
  induction Hsteps as [s|s1 s2 s3 (l & Hl) _ IH]; [done|]. apply IH. destruct Hi as [Hw Hm].
  split; [by eapply step_worker_inv|by eapply step_main_inv].
Qed.
End Invariant.

(** ** The log is the one [New] made *)
Section Logging.
Context {W : Type} `{Startup W} `{Env W} (resources : Resources).
Implicit Types (s : Running W) (m : Machine W).

Definition logs_to (l : Activity.Log) m : Prop := jn_log (journal (svc m)) = l.

Lemma framed_logs (l : Activity.Log) : framed whatever (logs_to l) /\ flagged (logs_to l).
Proof.
  assert (flagged (logs_to l)) as Hflag.
  { intros f m Hf Hm. unfold logs_to. cbn. by destruct (Hf (svc m)) as (_ & _ & ->). }
  assert (forall id state reason v, jn_log (journal (sourceState id state reason v)) = jn_log (journal v)) as Hshow.
  { intros id state reason v. unfold sourceState. cbn zeta. destruct (str_eqb _ _); cbn [negb]; by case_match. }
  split; [|done]. split; try done; unfold logs_to; cbn.
  - intros [id reason|id reason| |e] m _ Hm; cbn; [done|by rewrite Hshow|done..].
  - intros id state reason m. by rewrite Hshow.
  - intros f m Hf Hm. by destruct (Hf (svc m)) as (_ & _ & _ & ->).
Qed.

Lemma step_logs (l : Activity.Log) (x : label W) s s' : step resources x s = Some s' -> logs_to l (rn_machine s) -> logs_to l (rn_machine s').
Proof.
  destruct (framed_logs l) as [Hf Hff]. pose proof (gives_whatever (W := W)) as Hg.
  destruct s as [p ph sv over stopped n op m]. intros Hs Hm. cbn in *.
  destruct x; cbn in Hs; repeat case_match; simplify_eq; cbn; try exact Hm.
  - by apply (kept_announce _ Hg _ Hf).
  - by apply (kept_reconcile _ Hg _ Hf Hff).
  - by apply (kept_stopAll _ Hg _ Hf).
  - by apply (kept_releaseLease _ Hg _ Hf).
  - by apply (kept_section _ Hg _ Hf).
  - by apply Hf.
Qed.

(** Everything a running engine logs goes to the log [New] made. *)
Lemma engine_logs (engine : Engine) (application : Application) (generation : Generation) (writer : bool) (boot worker : string) (w w' : W)
  m s : NewApp engine application generation writer boot worker w = (Ok (resources, m), w') -> steps resources (launched m) s ->
  logs_to (Activity.New boot writer) (rn_machine s).
Proof.
  intros Hnew Hs. assert (logs_to (Activity.New boot writer) (rn_machine (launched m))) as Hm.
  { revert Hnew. unfold NewApp. destruct (Bootstrap engine application generation w) as [[r0|e] w1]; [|done].
    destruct (Control.New _ _ _ _ worker w1) as [[m0|e] w2] eqn:Hn; [|by destruct (Close r0 w2)].
    intros [= _ -> _]. revert Hn. unfold Control.New. destruct (negb _); [done|].
    destruct (EnvEnsureSubscriptions _ _ w1) as [[u|e] w3]; [|done]. by intros [= <- _]. }
  induction Hs as [s|s1 s2 s3 (x & Hx) _ IH]; [done|]. apply IH. by eapply step_logs.
Qed.
End Logging.

(** ** Coming to an end *)
Section Ending.
Context {W : Type} `{Startup W} `{Env W} (resources : Resources).
Implicit Types (s : Running W).

(** A step of [Run]'s own two goroutines. *)
Definition own (l : label W) : bool :=
  match l with LBegin | LPass | LTold | LLease | LContextSeen | LErrorSeen | LJoin | LShutdown | LDrain _ | LReturn => true | _ => false end.

(** [n] own steps are enough for [Run] to return. *)
Fixpoint can_return (n : nat) s : Prop :=
  match n with
  | O => exists r, rn_main s = Returned r
  | S n => exists l s', own l = true /\ step resources l s = Some s' /\ can_return n s'
  end.

Lemma drains s (err : option error) : rn_main s = Joined err -> can_return 3 s.
Proof.
  destruct s as [p ph sv over stopped k op m]. cbn [rn_main]. intros ->.
  exists LShutdown. eexists. split; [done|]. split; [done|].
  exists (LDrain true). eexists. split; [done|]. split; [done|].
  exists LReturn. eexists. split; [done|]. split; [done|]. by eexists.
Qed.

(** Steps the worker still has to do before it is joined. *)
Definition left_to_do (p : phase) : nat := match p with Starting => 4 | Reconciling => 3 | Waiting => 2 | Releasing => 1 | Finished => 0 end.

Lemma joins s (err : option error) : rn_main s = Stopped err -> rn_stopped s = true -> can_return (left_to_do (rn_worker s) + 4) s.
Proof.
  remember (left_to_do (rn_worker s)) as k eqn:Hk. revert s Hk. induction k as [|k IH]; intros s Hk Hm Hst.
  - destruct (rn_worker s) eqn:Hw; try done. exists LJoin, (set_main (Joined err) s). cbn [own step]. rewrite Hm, Hw.
    split; [done|]. split; [done|]. by eapply drains.
  - destruct (rn_worker s) eqn:Hw; try done; injection Hk as ->.
    + eexists LBegin, _. cbn [own step]. rewrite Hw. split; [done|]. split; [done|]. by apply IH.
    + eexists LPass, _. cbn [own step]. rewrite Hw. split; [done|]. split; [done|]. by apply IH.
    + eexists LTold, _. cbn [own step]. unfold told. rewrite Hw, Hst, orb_true_r. split; [done|]. split; [done|]. by apply IH.
    + eexists LLease, _. cbn [own step]. rewrite Hw. split; [done|]. split; [done|]. by apply IH.
Qed.
End Ending.

(** ** The worker is [Control]'s *)
Section Follows.
Context {W : Type} `{Startup W} `{Env W} (resources : Resources).
Implicit Types (s : Running W) (m : Machine W).
Abbreviation moves := (steps (W := W) resources).

Lemma move (l : label W) s s' : step resources l s = Some s' -> moves s s'.
Proof. intros Hs. eapply rtc_once. by exists l. Qed.

(** What other goroutines do meanwhile are moves of the world and of theirs. *)
Lemma others_moves (p : phase) m s : moves (set_worker p m s) (set_worker p (others_run m).2 s).
Proof.
  unfold others_run. destruct (Interference (env m)) as [l w]. cbn [snd].
  transitivity (set_worker p (outside w m) s); [by apply (move (LWorld w))|].
  generalize (outside w m). induction l as [|x l IH]; intros m1; [done|]. cbn [foldl].
  transitivity (set_worker p (perform x m1) s); [by apply (move (LSection x))|]. apply IH.
Qed.

(** So is a call. *)
Lemma call_moves {A : Type} (f : Act W A) (p : phase) m s : moves (set_worker p m s) (set_worker p (call f m).2 s).
Proof.
  unfold call. destruct (f (env m)) as [a w]. transitivity (set_worker p (outside w m) s); [by apply (move (LWorld w))|].
  pose proof (others_moves p (outside w m) s) as Hi. by destruct (others_run (outside w m)).
Qed.

Lemma loop_moves (fuel : nat) m m' s : told s = true ->
  start_loop fuel m = Some m' -> moves (set_worker Reconciling m s) (set_worker Releasing m' s).
Proof.
  intros Ht. revert m. induction fuel as [|fuel IH]; intros m; cbn [start_loop]; destruct (reconcile m) as [u m1] eqn:Hr;
    pose proof (call_moves Tick Waiting m1 s) as Htick; destruct (call Tick m1) as [over m2]; cbn [snd] in Htick;
    (assert (moves (set_worker Reconciling m s) (set_worker Waiting m2 s)) as Hpass
      by (etransitivity; [apply (move LPass); cbn; by rewrite Hr|exact Htick]));
    destruct over as [e|]; try done; intros Hs; (etransitivity; [exact Hpass|]).
  1, 2: injection Hs as <-; apply (move LTold); cbn; unfold told in *; cbn; by rewrite Ht.
  transitivity (set_worker Reconciling (on_service (take_signal (Signaled (env m2))) m2) s); [by apply (move (LWoken (Signaled (env m2))))|]. by apply IH.
Qed.

(** Whatever [control.Start] does from its first line to its last, on a world
    whose select answers as it likes, is a run of the worker's goroutine here:
    passes, wakings, then stopping everything and releasing the lease. *)
Theorem start_followed (fuel : nat) m m' s :
  told s = true -> Start fuel m = Some m' -> moves (set_worker Starting m s) (set_worker Finished m' s).
Proof.
  intros Ht. unfold Start. destruct (announce m) as [u m1] eqn:Ha. destruct (start_loop fuel m1) as [m2|] eqn:Hl; [|done].
  cbn. intros [= <-]. transitivity (set_worker Reconciling m1 s); [apply (move LBegin); cbn; by rewrite Ha|].
  transitivity (set_worker Releasing m2 s); [by eapply loop_moves|]. by apply (move LLease).
Qed.
End Follows.

(** ** Properties *)
Section Properties.
Context {W : Type} `{Startup W} `{Env W}.
Implicit Types (s : Running W).

(** [New] fails with one of four fixed sentences, whatever the Kafka client and
    the database driver report: nothing of a connection string is in them. *)
Theorem startup_errors (engine : Engine) (application : Application) (generation : Generation) (writer : bool) (boot worker : string) (w w' : W) (e : error) :
  NewApp engine application generation writer boot worker w = (Err e, w') ->
  error_text e ∈ ["generation must be positive"; "Kafka client could not be created"; "control store could not be opened";
    "subscriptions could not be initialized"].
Proof.
  unfold NewApp, Bootstrap, stop_if, act_try, pure, reject_if, mbind, act_bind.
  destruct (Stream.Valid generation) eqn:Hv; cbn [negb]; [|intros [= <- _]; set_solver].
  destruct (NewAdmin _ w) as [[[]|e1] w1]; [|intros [= <- _]; set_solver].
  destruct (OpenStore _ w1) as [[[]|e2] w2]; [|destruct (CloseAdmin w2) as [[] w3]; intros [= <- _]; set_solver].
  destruct (openPools _ w2) as [[] w2']. unfold give, Control.New. cbn [rs_scope ScopeGeneration]. rewrite Hv. cbn [negb].
  destruct (EnvEnsureSubscriptions _ _ w2') as [[u|e3] w3]; [done|].
  destruct (Close _ w3) as [[] w4]. intros [= <- _]. set_solver.
Qed.

(** C22. The order of shutting down, at every moment of every interleaving: when the
    HTTP server is told to shut down, and when the resources are closed, the
    service's goroutine has returned and every consumer it ever started has
    been waited for; and nothing is accepted once the resources are closed. *)
Theorem shutdown_order (engine : Engine) (application : Application) (generation : Generation) (writer : bool) (boot worker : string) (w w' : W)
  (resources : Resources) (m : Machine W) s :
  NewApp engine application generation writer boot worker w = (Ok (resources, m), w') -> steps resources (launched m) s ->
  (shut (rn_server s) = true \/ rn_open s = false -> rn_worker s = Finished /\ m_running (rn_machine s) = ∅) /\
  (rn_open s = false -> rn_server s <> Listening).
Proof.
  intros Hnew%newapp_owned Hs. destruct (reached resources m s Hnew Hs) as ((_ & Hst & Hj) & Hm).
  assert (joined (rn_main s) = true -> rn_worker s = Finished /\ m_running (rn_machine s) = ∅) as Hjoined.
  { intros Hf%Hj. split; [done|]. by destruct Hst as [(_ & ? & _) _]; [right|]. }
  destruct (rn_main s); cbn in Hm; (split; [intros Hc|intros Hc]); try by apply Hjoined.
  all: destruct_and?; destruct_or?; congruence.
Qed.

(** Everything the engine ran is over: the service's goroutine, its consumers,
    the listener, the resources. *)
Definition clean s : Prop := rn_worker s = Finished /\ m_running (rn_machine s) = ∅ /\ rn_server s <> Listening /\ rn_open s = false.

Lemma returned_clean (resources : Resources) (m : Machine W) s (r : result error unit) :
  upon owned m -> steps resources (launched m) s -> rn_main s = Returned r -> clean s.
Proof.
  intros Hnew Hs Hr. destruct (reached resources m s Hnew Hs) as ((_ & Hst & Hj) & Hm). rewrite Hr in *.
  specialize (Hj eq_refl). destruct (Hst (or_intror Hj)) as [(_ & Hrun & _) _]. destruct Hm as (Hl & Ho & _). done.
Qed.

(** [Run] returns nil exactly when it left for its context; otherwise it returns
    the server's own failure.  The server's [ErrServerClosed] never reaches its
    result. *)
Theorem run_result (engine : Engine) (application : Application) (generation : Generation) (writer : bool) (boot worker : string) (w w' : W)
  (resources : Resources) (m : Machine W) s (r : result error unit) :
  NewApp engine application generation writer boot worker w = (Ok (resources, m), w') -> steps resources (launched m) s ->
  rn_main s = Returned r ->
  r = Ok tt /\ rn_over s = true \/
  exists e, r = Err e /\ rn_server s = Ended e /\ error_is e ErrServerClosed = false.
Proof.
  intros Hnew%newapp_owned Hs Hr. destruct (reached resources m s Hnew Hs) as [_ Hm]. rewrite Hr in Hm.
  destruct Hm as (_ & _ & [e|] & Hl & ->); [right|by left]. by exists e.
Qed.

(** C27. [Run] ends: once its context is done or the server has failed, it is at
    most nine steps of its own goroutines from returning, wherever it is and
    whatever the world, the handlers and other goroutines did before: no
    goroutine waits for another that waits for it. *)
Theorem run_returns (engine : Engine) (application : Application) (generation : Generation) (writer : bool) (boot worker : string) (w w' : W)
  (resources : Resources) (m : Machine W) s :
  NewApp engine application generation writer boot worker w = (Ok (resources, m), w') -> steps resources (launched m) s ->
  rn_over s = true \/ (exists e, rn_server s = Ended e) -> exists n, (n <= 9)%nat /\ can_return resources n s.
Proof.
  intros Hnew%newapp_owned Hs Hend. destruct (reached resources m s Hnew Hs) as [(_ & _ & Hj) Hm].
  assert (forall p, left_to_do p <= 4)%nat as Hk by (intros []; cbn; lia).
  destruct (rn_main s) as [|err|err|err|err|r] eqn:Hp.
  - pose proof (Hk (rn_worker s)). exists (S (left_to_do (rn_worker s) + 4))%nat. split; [lia|].
    destruct Hend as [Ho|[e He]]; [eexists LContextSeen, _|eexists LErrorSeen, _]; cbn [own step]; rewrite Hp, ?Ho, ?He;
      (split; [done|]; split; [done|]); [by eapply (joins resources (stop_called (set_main (Stopped None) s)))|].
    by eapply (joins resources (stop_called (set_main (Stopped (Some e)) s))).
  - pose proof (Hk (rn_worker s)). exists (left_to_do (rn_worker s) + 4)%nat. split; [lia|]. eapply joins; [done|]. apply Hm.
  - exists 3%nat. split; [lia|]. by eapply drains.
  - exists 2%nat. split; [lia|]. eexists (LDrain true), _. cbn [own step]. rewrite Hp. split; [done|]. split; [done|].
    eexists LReturn, _. cbn. split; [done|]. split; [done|]. by eexists.
  - exists 1%nat. split; [lia|]. eexists LReturn, _. cbn [own step]. rewrite Hp. split; [done|]. split; [done|]. by eexists.
  - exists 0%nat. split; [lia|]. by exists r.
Qed.
End Properties.

(** ** Witnesses: an engine on the control store *)
Module LifeSim.
(** Without brokers there is no Kafka client. *)
#[export] Instance clocked_startup : Startup Clocked := {
  NewAdmin brokers w := (match brokers with [] => Err Canceled | _ => Ok tt end, w);
  OpenStore _ w := (Ok tt, w); OpenPool _ _ w := (tt, w); CloseAdmin w := (tt, w); CloseStore w := (tt, w); ClosePools _ w := (tt, w);
  RecordSubscriptions _ _ w := (Ok tt, w) }.

Definition engine (brokers : list string) : Engine :=
  mkEngine 1 "acme" "production" "app.yaml" brokers 2 1 "http://connect" ":8080" "" "postgres://" 1 1 [].
Definition world : Clocked := ex_world "running" true.
Definition app : result error (Resources * Machine Clocked) := (NewApp (engine ["k"]) StoreSim.application 1 true "b" "w1" world).1.
Definition resources : Resources := match app with Ok (r, _) => r | Err _ => Bootstrap.mkResources (Provision.mkService ex_scope 1 1 ∅) ∅ ∅ [] ex_scope end.
Definition machine : Machine Clocked := match app with Ok (_, m) => m | Err _ => ex_empty "running" true end.

(** A pass with a consumer running; a request arrives and is still in flight
    when the context ends and the drain times out. *)
Definition running : list (label Clocked) := [LBegin; LPass; LRequest; LContext].
Definition stopping : list (label Clocked) :=
  [LContextSeen; LTold; LLease; LJoin; LShutdown; LServerClosed; LDrain true; LReturn].
Definition failing : list (label Clocked) :=
  [LBegin; LServerFails DeadlineExceeded; LErrorSeen; LPass; LTold; LLease; LJoin; LShutdown; LDrain false; LReturn].
Definition after (ls : list (label Clocked)) : Running Clocked := default (launched machine) (run_labels resources ls (launched machine)).

End LifeSim.
#[export] Existing Instance LifeSim.clocked_startup.

Lemma startup_errors_witness : exists e w',
  NewApp (LifeSim.engine []) StoreSim.application 1 true "b" "w1" LifeSim.world = (Err e, w') /\
  error_text e ∈ ["generation must be positive"; "Kafka client could not be created"; "control store could not be opened";
    "subscriptions could not be initialized"].
Proof. eexists _, _. split; [reflexivity|]. eapply (startup_errors (LifeSim.engine []) StoreSim.application 1 true "b" "w1" LifeSim.world). reflexivity. Defined.

Lemma app_started : exists w',
  NewApp (LifeSim.engine ["k"]) StoreSim.application 1 true "b" "w1" LifeSim.world = (Ok (LifeSim.resources, LifeSim.machine), w').
Proof. by eexists. Defined.

Lemma after_steps (ls : list (label Clocked)) :
  match run_labels LifeSim.resources ls (launched LifeSim.machine) with Some _ => true | None => false end = true -> steps LifeSim.resources (launched LifeSim.machine) (LifeSim.after ls).
Proof. destruct (run_labels _ ls _) as [s|] eqn:Hs; [intros _|done]. apply (run_labels_steps LifeSim.resources ls). unfold LifeSim.after. by rewrite Hs. Qed.

(** A consumer was running before; none is when the resources are closed. *)
Lemma shutdown_order_witness :
  m_running (rn_machine (LifeSim.after LifeSim.running)) !! 1%nat = Some "billing" /\
  let s := LifeSim.after (LifeSim.running ++ LifeSim.stopping) in
  rn_open s = false /\ m_running (rn_machine s) = ∅.
Proof.
  split; [vm_compute; reflexivity|]. intros s. assert (rn_open s = false) as Ho by (vm_compute; reflexivity). split; [exact Ho|].
  destruct app_started as [w' Hnew].
  refine (proj2 (proj1 (shutdown_order (LifeSim.engine ["k"]) StoreSim.application 1 true "b" "w1" LifeSim.world w' LifeSim.resources
    LifeSim.machine s Hnew _) (or_intror Ho))).
  apply after_steps. vm_compute. reflexivity.
Defined.

(** An engine whose server fails while nothing asked it to stop. *)
Lemma run_result_witness :
  let s := LifeSim.after LifeSim.failing in
  rn_main s = Returned (Err DeadlineExceeded) /\ rn_server s = Ended DeadlineExceeded.
Proof.
  intros s. assert (rn_main s = Returned (Err DeadlineExceeded)) as Hr by (vm_compute; reflexivity). split; [exact Hr|].
  destruct app_started as [w' Hnew].
  destruct (run_result (LifeSim.engine ["k"]) StoreSim.application 1 true "b" "w1" LifeSim.world w' LifeSim.resources LifeSim.machine s (Err DeadlineExceeded) Hnew) as
    [[Hn _]|(e & [= <-] & He & _)]; [apply after_steps; vm_compute; reflexivity|exact Hr|discriminate Hn|exact He].
Defined.

Lemma run_returns_witness :
  exists n, (n <= 9)%nat /\ can_return LifeSim.resources n (LifeSim.after LifeSim.running).
Proof.
  destruct app_started as [w' Hnew].
  apply (run_returns (LifeSim.engine ["k"]) StoreSim.application 1 true "b" "w1" LifeSim.world w' LifeSim.resources LifeSim.machine _ Hnew).
  - apply after_steps. vm_compute. reflexivity.
  - left. vm_compute. reflexivity.
Defined.

(** A handler still in flight when the drain times out outlives the resources. *)
Example requests_outlive :
  let s := LifeSim.after (LifeSim.running ++ LifeSim.stopping) in
  rn_main s = Returned (Ok tt) /\ rn_open s = false /\ rn_requests s = 1%nat.
Proof. vm_compute. auto. Qed.

Lemma start_followed_witness : exists m',
  Start 0 LifeSim.machine = Some m' /\ m_running m' = ∅ /\
  steps LifeSim.resources (set_worker Starting LifeSim.machine (LifeSim.after [LContext]))
    (set_worker Finished m' (LifeSim.after [LContext])).
Proof.
  assert (match Start 0 LifeSim.machine with Some m' => bool_decide (m_running m' = ∅) | None => false end = true) as He
    by (vm_compute; reflexivity).
  destruct (Start 0 LifeSim.machine) as [m'|] eqn:Hs; [|discriminate He]. exists m'. split; [exact eq_refl|].
  split; [by apply bool_decide_eq_true in He|].
  apply (start_followed LifeSim.resources 0 LifeSim.machine m' (LifeSim.after [LContext])); [reflexivity|exact Hs].
Defined.
