(* ===== verification/Handles.v ===== *)
(** * Handles: the connections a process owns

    Models who opens and who closes what: [Open], [Close] and [Ping] of
    [internal/adapters/controlpg/store.go], [NewAdmin], [Ping] and [Close] of
    [internal/adapters/kafka/admin.go], [Open] and [Close] of
    [internal/adapters/sourcepg/sourcepg.go].  [Owner] is the interface: what
    the calls that [Bootstrap] makes promise about the handles in use; under
    it, a start that fails and a provision command leave none behind, and an
    engine's [Close] returns all it opened.  [Held] discharges it with those
    functions over a driver that hands out handles. *)

From S2P Require Import Prelude Strconv GoFmt Stream Config Act Provision App Connector Catalog ControlStore Bootstrap Control Lifecycle.
Local Open Scope Z_scope.

(** ** The interface *)

(** The handles in use, and the ones [Resources] holds. *)
Record Holdings : Type := mkHoldings {
  hl_live : gset nat;
  hl_admin : option nat;
  hl_store : option nat;
  hl_pools : list nat }.

Definition drop_handles (l : list nat) (h : Holdings) : Holdings :=
  mkHoldings (hl_live h ∖ list_to_set l) (hl_admin h) (hl_store h) (hl_pools h).

Class Owner (W : Type) `{Startup W} (hold : W -> Holdings) : Prop := {
  own_admin b w : let h := hold w in match NewAdmin b w with
    | (Ok _, w') => exists x, (x ∉ hl_live h) /\ hold w' = mkHoldings ({[x]} ∪ hl_live h) (Some x) (hl_store h) (hl_pools h)
    | (Err _, w') => hold w' = h
    end;
  own_store u w : let h := hold w in match OpenStore u w with
    | (Ok _, w') => exists x, (x ∉ hl_live h) /\ hold w' = mkHoldings ({[x]} ∪ hl_live h) (hl_admin h) (Some x) (hl_pools h)
    | (Err _, w') => hold w' = h
    end;
  own_pool s c w : let h := hold w in let h' := hold ((OpenPool s c w).2) in
    h' = h \/ exists x, (x ∉ hl_live h) /\ h' = mkHoldings ({[x]} ∪ hl_live h) (hl_admin h) (hl_store h) (hl_pools h ++ [x]);
  own_close_admin w : hold ((CloseAdmin w).2) = drop_handles (option_list (hl_admin (hold w))) (hold w);
  own_close_store w : hold ((CloseStore w).2) = drop_handles (option_list (hl_store (hold w))) (hold w);
  own_close_pools ids w : hold ((ClosePools ids w).2) = drop_handles (hl_pools (hold w)) (hold w);
  own_record sc ids w : hold ((RecordSubscriptions sc ids w).2) = hold w }.

(** Provisioning's calls borrow connections and return them. *)
Record borrows (W : Type) `{Infra W} (hold : W -> Holdings) : Prop := mkBorrows {
  br_table s w : hold ((Provision.InspectTable s w).2) = hold w;
  br_slot s n w : hold ((Provision.SlotHealth s n w).2) = hold w;
  br_ensure n p r w : hold ((EnsureTopic n p r w).2) = hold w;
  br_topic n w : hold ((TopicOf n w).2) = hold w;
  br_connector s i n m w : hold ((EnsureConnector s i n m w).2) = hold w;
  br_status n w : hold ((ConnectorStatus n w).2) = hold w;
  br_get sc s w : hold ((Provision.GetStream sc s w).2) = hold w;
  br_register sc r w : hold ((Provision.RegisterStream sc r w).2) = hold w;
  br_block sc s r w : hold ((Provision.BlockSource sc s r w).2) = hold w;
  br_wait w : hold ((PollWait w).2) = hold w }.

(** ** The driver

    What pgx and franz-go answer; a handle is in use from the call that gives
    it to the one that closes it. *)
Class Driver (W : Type) : Type := {
  KgoNewClient : list string -> Act W (option error);
  KgoPing : nat -> Act W (option error);
  BrokerMetadata : nat -> Act W (option error);
  PgxNew : string -> Act W (option error);              (* pgxpool.New *)
  PgxParseConfig : string -> option error;
  PgxNewWithConfig : string -> Act W (option error);
  PgxPing : nat -> Act W (option error);
  ExecSchema : nat -> Act W (option error);
  DriverRecord : Scope -> list string -> Act W (result error unit) }.

Record Held (W : Type) : Type := mkHeld { outside : W; holdings : Holdings }.
Arguments mkHeld {W}. Arguments outside {W}. Arguments holdings {W}.

Section Adapters.
Context {W : Type} `{Driver W}.
Abbreviation X := (Held W).

Definition on_driver {A : Type} (f : Act W A) : Act X A := fun x => let '(a, w) := f (outside x) in (a, mkHeld w (holdings x)).
Definition update (f : Holdings -> Holdings) : Act X unit := fun x => (tt, mkHeld (outside x) (f (holdings x))).

(** A new handle. *)
Definition acquire : Act X nat := fun x =>
  let h := holdings x in let n := fresh (hl_live h) in
  (n, mkHeld (outside x) (mkHoldings ({[n]} ∪ hl_live h) (hl_admin h) (hl_store h) (hl_pools h))).

(** *** The control store *)

(** A [*Store]: its pool, if it has one. *)
Definition StorePing (s : option nat) : Act X (option error) :=
  match s with
  | None => mret (Some (Errorf "control: store is closed" []))
  | Some pool => err ← on_driver (PgxPing pool); mret (Wrapf "control: ping store: %w" [] <$> err)
  end.

Definition StoreClose (s : option nat) : Act X unit := update (drop_handles (option_list s)).

Definition StoreOpen (databaseURL : string) : Act X (result error nat) :=
  _ <~ stop_if (str_eqb (TrimSpace databaseURL) "") (Errorf "control: database URL is required" []);
  err ← on_driver (PgxNew databaseURL);
  match err with
  | Some e => throw (Wrapf "control: open store: %w" [] e)
  | None =>
      p ← acquire;
      err ← StorePing (Some p);
      match err with
      | Some e => _ ← StoreClose (Some p); throw e
      | None =>
          err ← on_driver (ExecSchema p);
          match err with
          | Some e => _ ← StoreClose (Some p); throw (Wrapf "control: initialize schema: %w" [] e)
          | None => give p
          end
      end
  end.

(** *** The Kafka admin client: both of its fields *)
Record AdminClient : Type := mkAdminClient { ac_Client : option nat; ac_client : option nat }.

Definition AdminNew (brokers : list string) : Act X (result error AdminClient) :=
  err ← on_driver (KgoNewClient brokers);
  match err with
  | Some e => throw e
  | None => client ← acquire; give (mkAdminClient (Some client) (Some client))
  end.

Definition AdminPing (a : AdminClient) : Act X (option error) :=
  match ac_client a with
  | Some client => on_driver (KgoPing client)
  | None => on_driver (BrokerMetadata (default O (ac_Client a)))
  end.

(** [None]: a nil [*Admin]. *)
Definition AdminClose (a : option AdminClient) : Act X unit := update (drop_handles (option_list (a ≫= ac_Client))).

(** *** A source's pool, beside its [Client] *)
Definition SourceOpen (source : Source) (connection : Connection) : Act X (Catalog.Client * option nat) :=
  match PgxParseConfig (connString connection) with
  | Some e => mret (Catalog.Open source (Err (true, e)), None)
  | None =>
      err ← on_driver (PgxNewWithConfig (connString connection));
      match err with
      | Some e => mret (Catalog.Open source (Err (false, e)), None)
      | None => pool ← acquire; mret (Catalog.Open source (Ok tt), Some pool)
      end
  end.

Definition SourceClose (pool : option nat) : Act X unit :=
  match pool with Some p => update (drop_handles [p]) | None => mret tt end.

Fixpoint close_each (pools : list nat) : Act X unit :=
  match pools with [] => mret tt | p :: pools => _ ← SourceClose (Some p); close_each pools end.

(** *** What [Bootstrap] calls, keeping the results in [Resources] *)
Definition keep_admin (a : AdminClient) (h : Holdings) : Holdings := mkHoldings (hl_live h) (ac_Client a) (hl_store h) (hl_pools h).
Definition keep_store (p : nat) (h : Holdings) : Holdings := mkHoldings (hl_live h) (hl_admin h) (Some p) (hl_pools h).
Definition keep_pool (p : option nat) (h : Holdings) : Holdings :=
  mkHoldings (hl_live h) (hl_admin h) (hl_store h) (hl_pools h ++ option_list p).

#[export] Instance held_startup : Startup X := {
  NewAdmin brokers := a <~ AdminNew brokers; _ ← update (keep_admin a); give tt;
  OpenStore url := p <~ StoreOpen url; _ ← update (keep_store p); give tt;
  OpenPool s c := '(_, pool) ← SourceOpen s c; update (keep_pool pool);
  CloseAdmin x := AdminClose ((fun c => mkAdminClient (Some c) (Some c)) <$> hl_admin (holdings x)) x;
  CloseStore x := StoreClose (hl_store (holdings x)) x;
  ClosePools _ x := close_each (hl_pools (holdings x)) x;
  RecordSubscriptions sc ids := on_driver (DriverRecord sc ids) }.

(** Provisioning's calls go through the connections already open. *)
#[export] Instance held_infra `{Infra W} : Infra X := {
  Provision.InspectTable s := on_driver (Provision.InspectTable s);
  Provision.SlotHealth s n := on_driver (Provision.SlotHealth s n);
  EnsureTopic n p r := on_driver (EnsureTopic n p r);
  TopicOf n := on_driver (TopicOf n);
  EnsureConnector s i n m := on_driver (EnsureConnector s i n m);
  ConnectorStatus n := on_driver (ConnectorStatus n);
  Provision.GetStream sc s := on_driver (Provision.GetStream sc s);
  Provision.RegisterStream sc r := on_driver (Provision.RegisterStream sc r);
  Provision.BlockSource sc s r := on_driver (Provision.BlockSource sc s r);
  PollWait := on_driver PollWait }.

(** So do the service's. *)
#[export] Instance held_env `{Env W} : Env X := {
  Now x := Now (outside x);
  ended x := ended (outside x);
  Interference := on_driver Interference;
  EnvGetStream sc s := on_driver (EnvGetStream sc s);
  EnvBlockSource sc s r := on_driver (EnvBlockSource sc s r);
  EnvEnsureSubscriptions sc l := on_driver (EnvEnsureSubscriptions sc l);
  EnvSubscriptions sc := on_driver (EnvSubscriptions sc);
  EnvSetDesired sc id st := on_driver (EnvSetDesired sc id st);
  EnvRenewLease sc w ttl := on_driver (EnvRenewLease sc w ttl);
  EnvObserve sc w id v st := on_driver (EnvObserve sc w id v st);
  EnvObserved sc id v st := on_driver (EnvObserved sc id v st);
  EnvReleaseLease sc w := on_driver (EnvReleaseLease sc w);
  EnvPing := on_driver EnvPing;
  EnvInspectSource s r := on_driver (EnvInspectSource s r);
  NewConsumer d l := on_driver (NewConsumer d l);
  CancelConsumer c := on_driver (CancelConsumer c);
  StopConsumer c := on_driver (StopConsumer c);
  ConsumerReady c := on_driver (ConsumerReady c);
  ConsumerFinished c := on_driver (ConsumerFinished c);
  Tick := on_driver Tick;
  Signaled x := Signaled (outside x) }.
End Adapters.

(** ** The adapters keep the promise *)
Section Implementation.
Context {W : Type} `{Driver W}.
Implicit Types (x : Held W) (h : Holdings).

Lemma on_driver_holdings {A : Type} (f : Act W A) x : holdings (on_driver f x).2 = holdings x.
Proof. unfold on_driver. by destruct (f (outside x)). Qed.

(** Closing a handle that was just taken. *)
Lemma drop_fresh (n : nat) h : n ∉ hl_live h ->
  drop_handles [n] (mkHoldings ({[n]} ∪ hl_live h) (hl_admin h) (hl_store h) (hl_pools h)) = h.
Proof. destruct h as [l a s p]. unfold drop_handles. cbn. intros Hn. f_equal. set_solver. Qed.

Lemma drop_app (l l' : list nat) h : drop_handles l' (drop_handles l h) = drop_handles (l ++ l') h.
Proof. destruct h. unfold drop_handles. cbn. f_equal. set_solver. Qed.

Lemma drop_nil h : drop_handles [] h = h.
Proof. destruct h. unfold drop_handles. cbn. f_equal. set_solver. Qed.

Lemma close_each_drops (pools : list nat) x : holdings (close_each pools x).2 = drop_handles pools (holdings x).
Proof.
  revert x. induction pools as [|p pools IH]; intros x; [by rewrite drop_nil|]. cbn [close_each]. unfold mbind, act_bind. cbn.
  rewrite IH. cbn. by rewrite drop_app.
Qed.
End Implementation.

#[export] Instance held_owner {W : Type} `{Driver W} : Owner (Held W) holdings.
Proof.
  split; cbn.
  - intros b x. unfold AdminNew, act_try, mbind, act_bind, on_driver. destruct (KgoNewClient b (outside x)) as [[e|] w1]; cbn; [done|].
    eexists. split; [apply is_fresh|done].
  - intros u x. unfold StoreOpen, StorePing, stop_if, act_try, pure, reject_if, mbind, act_bind, on_driver.
    destruct (str_eqb _ _); [done|]. destruct (PgxNew u (outside x)) as [[e|] w1]; [done|]. cbn.
    destruct (PgxPing _ w1) as [[e|] w2]; cbn; [by rewrite drop_fresh by apply is_fresh|].
    destruct (ExecSchema _ w2) as [[e|] w3]; cbn; [by rewrite drop_fresh by apply is_fresh|].
    eexists. split; [apply is_fresh|done].
  - intros s c x. unfold SourceOpen, mbind, act_bind. destruct (PgxParseConfig _) as [e|]; cbn.
    { left. destruct (holdings x). unfold keep_pool. cbn. by rewrite app_nil_r. }
    unfold on_driver. destruct (PgxNewWithConfig _ (outside x)) as [[e|] w1]; cbn.
    + left. destruct (holdings x). unfold keep_pool. cbn. by rewrite app_nil_r.
    + right. eexists. split; [apply is_fresh|done].
  - intros x. unfold AdminClose, update. cbn. by destruct (hl_admin (holdings x)).
  - intros x. done.
  - intros ids x. apply close_each_drops.
  - intros sc ids x. apply on_driver_holdings.
Qed.

Lemma held_borrows {W : Type} `{Driver W} `{Infra W} : borrows (Held W) holdings.
Proof. split; intros; apply on_driver_holdings. Qed.

(** ** Under the interface, nothing is left behind *)
Section Clients.
Context {W : Type} `{Startup W} (hold : W -> Holdings) `{!Owner W hold}.
Implicit Types (h : Holdings).

(** What a started process holds beyond [l]: its own handles, none of them in
    use before. *)
Definition owns (l : gset nat) h : Prop :=
  exists a s, hl_admin h = Some a /\ hl_store h = Some s /\
    let own : gset nat := {[a; s]} ∪ list_to_set (hl_pools h) in hl_live h = l ∪ own /\ l ## own.

Lemma openPools_owns (l : gset nat) (sources : list ConfigSource) :
  triple (fun w => owns l (hold w)) (openPools sources) (fun _ w => owns l (hold w)).
Proof.
  induction sources as [|s sources IH]; cbn [openPools]; [by intros w|]. apply kept_bind; [|done]. intros w (a & st & Ha & Hs & Hl & Hd).
  destruct (own_pool (sourceOf s) (connectionOf s) w) as [->|(x & Hx & ->)]; [by exists a, st|].
  exists a, st. cbn in *. rewrite list_to_set_app_L. cbn. rewrite Hl in Hx |- *. split_and!; [done|done|set_solver|set_solver].
Qed.

Lemma bootstrap_owns (engine : Engine) (application : Application) (g : Generation) (w w' : W) (r : result StartError Resources) :
  hl_pools (hold w) = [] -> Bootstrap engine application g w = (r, w') ->
  match r with Ok _ => owns (hl_live (hold w)) (hold w') | Err _ => hl_live (hold w') = hl_live (hold w) end.
Proof.
  intros Hp. unfold Bootstrap, act_try, stop_if, pure, reject_if, mbind, act_bind. destruct (negb _); [by intros [= <- <-]|].
  pose proof (own_admin (en_Brokers engine) w) as Ha. cbn zeta in Ha. destruct (NewAdmin _ w) as [[u|e] w1]; [|intros [= <- <-]; by rewrite Ha].
  destruct Ha as (a & Ha & Hh). pose proof (own_store (en_DatabaseURL engine) w1) as Hs. cbn zeta in Hs.
  destruct (OpenStore _ w1) as [[u'|e] w2].
  - destruct Hs as (s & Hs & Hh2). rewrite Hh in Hs, Hh2. cbn in Hs, Hh2.
    assert (owns (hl_live (hold w)) (hold w2)) as Ho.
    { rewrite Hh2. exists a, s. cbn. rewrite Hp. cbn. split_and!; [done|done|set_solver|set_solver]. }
    destruct (openPools _ w2) as [v w3] eqn:Hop. apply (triple_run _ _ _ _ _ _ (openPools_owns _ _) Ho) in Hop. by intros [= <- <-].
  - pose proof (own_close_admin w2) as Hc. destruct (CloseAdmin w2) as [v w3]. intros [= <- <-]. cbn in Hc. rewrite Hc, Hs, Hh. cbn. set_solver.
Qed.

Lemma close_returns (l : gset nat) (r : Resources) (w : W) : owns l (hold w) -> hl_live (hold (Close r w).2) = l.
Proof.
  intros (a & s & Ha & Hs & Hl & Hd). unfold Close, mbind, act_bind.
  pose proof (own_close_admin w) as H1. destruct (CloseAdmin w) as [u1 w1]. pose proof (own_close_store w1) as H2. destruct (CloseStore w1) as [u2 w2].
  rewrite own_close_pools. cbn in H1, H2. rewrite H2, H1. unfold drop_handles. cbn. rewrite Ha, Hs. cbn. set_solver.
Qed.

Lemma loop_holds `{Infra W} (l : gset nat) (fuel : nat) (r : Resources) (sources : list (ConfigSource * result Provision.Error Registration)) (w w' : W) :
  borrows W hold -> runs fuel r sources w w' -> owns l (hold w) -> owns l (hold w').
Proof.
  intros Hb Hr. assert (forall A (f : Act W A), (forall x, hold (f x).2 = hold x) ->
    triple (fun w => owns l (hold w)) f (fun _ w => owns l (hold w))) as Hk by (intros A f Hf x Hx; by rewrite Hf).
  induction Hr as [|s a sources w w1 w2 Hp _ IH]; [done|]. intros Ho. apply IH. revert Hp.
  apply (provision_kept (fun w => owns l (hold w))); [..|done]; intros; apply Hk; apply Hb.
Qed.
End Clients.

(** ** A running service *)
Section Service.
Context {W : Type} `{Env W}.
Abbreviation M := (Machine W).

(** What every call of the service, and what runs during it, keeps. *)
Record calls_keep (Q : W -> Prop) : Prop := mkCallsKeep {
  ck_interference w : Q w -> Q (Interference w).2;
  ck_get sc s : triple Q (EnvGetStream sc s) (fun _ => Q);
  ck_block sc s r : triple Q (EnvBlockSource sc s r) (fun _ => Q);
  ck_ensure sc l : triple Q (EnvEnsureSubscriptions sc l) (fun _ => Q);
  ck_subscriptions sc : triple Q (EnvSubscriptions sc) (fun _ => Q);
  ck_renew sc w ttl : triple Q (EnvRenewLease sc w ttl) (fun _ => Q);
  ck_observe sc w id v st : triple Q (EnvObserve sc w id v st) (fun _ => Q);
  ck_release sc w : triple Q (EnvReleaseLease sc w) (fun _ => Q);
  ck_ping : triple Q EnvPing (fun _ => Q);
  ck_inspect s reg : triple Q (EnvInspectSource s reg) (fun _ => Q);
  ck_consumer d l : triple Q (NewConsumer d l) (fun _ => Q);
  ck_cancel c : triple Q (CancelConsumer c) (fun _ => Q);
  ck_stop c : triple Q (StopConsumer c) (fun _ => Q);
  ck_ready c : triple Q (ConsumerReady c) (fun _ => Q);
  ck_finished c : triple Q (ConsumerFinished c) (fun _ => Q) }.

Section Keeps.
Context (Q : W -> Prop) (HQ : calls_keep Q).
Abbreviation kept f := (triple (M := M) (fun m => Q (env m)) f (fun _ m => Q (env m))).

Lemma world_others : kept others_run.
Proof. intros m Hm. rewrite others_run_env. by apply (ck_interference Q HQ). Qed.

Lemma world_call {A : Type} (f : Act W A) : triple Q f (fun _ => Q) -> kept (call f).
Proof. intros Hf m Hm. destruct (call_env f m) as [_ ->]. apply (ck_interference Q HQ). by apply Hf. Qed.

(** Whatever does not touch the world. *)
Lemma world_local {A : Type} (f : Act M A) : (forall m, env (f m).2 = env m) -> kept f.
Proof. intros Hf m Hm. by rewrite Hf. Qed.

Lemma world_updating {A : Type} (f : Svc -> A * Svc) : kept (updating f).
Proof. apply kept_bind; [apply world_others|]. intros []. by apply world_local. Qed.

Lemma world_section (x : section) : kept (section_of x).
Proof. apply kept_bind; [apply world_others|]. intros []. by apply world_local. Qed.

Lemma world_looking {A : Type} (f : Svc -> A) : kept (looking f).
Proof. apply kept_bind; [apply world_others|]. intros []. by apply world_local. Qed.

Lemma world_at_time (f : Svc -> Z -> Svc) : kept (at_time f).
Proof. apply kept_bind; [apply world_others|]. intros []. by apply world_local. Qed.

Lemma world_stop (c : nat) : kept (stop c).
Proof. apply kept_bind; [apply world_call, HQ|]. intros []. by apply world_local. Qed.

Lemma world_each {A : Type} (f : A -> Act M unit) (l : list A) : (forall x, kept (f x)) -> kept (each f l).
Proof. intros Hf. apply triple_each. auto. Qed.

Ltac walk := repeat match goal with
  | |- triple _ (mbind _ _) _ => apply kept_bind; [|intros ?]
  | |- triple _ (stop _) _ => apply world_stop
  | |- triple _ (each _ _) _ => apply world_each; intros ?
  | |- triple _ (call _) _ => apply world_call, HQ
  | |- triple _ (updating _) _ => apply world_updating
  | |- triple _ (locked _) _ => apply world_updating
  | |- triple _ (section_of _) _ => apply world_section
  | |- triple _ (looking _) _ => apply world_looking
  | |- triple _ (at_time _) _ => apply world_at_time
  | |- triple _ (reading _) _ => by apply world_local
  | |- triple _ (ret _) _ => by apply world_local
  | |- triple _ (started _ _) _ => by apply world_local
  | |- triple _ (match _ with _ => _ end) _ => case_match
  end.

Lemma world_Block (source reason : string) : kept (Block source reason).
Proof. unfold Block, Signal. walk. Qed.

Lemma world_inspectSource (source : Source) : kept (inspectSource source).
Proof. unfold inspectSource. walk. apply world_Block. Qed.

Lemma world_stopAll : kept stopAll.
Proof. unfold stopAll. walk. Qed.

Lemma world_reconcileSubscription (d : DesiredSubscription) : kept (reconcileSubscription d).
Proof. unfold reconcileSubscription, rest, ensureConsumer, newConsumer, markProgress, log_add. cbn zeta. walk. Qed.

Lemma world_report (l : list DesiredSubscription) : kept (report_loop l).
Proof. induction l; cbn [report_loop]; walk; done. Qed.

Lemma world_reconcile : kept reconcile.
Proof.
  unfold reconcile, refreshDependencies, degrade, reportObservations. walk.
  all: first [apply world_inspectSource|apply world_stopAll|apply world_reconcileSubscription|apply world_report|by apply world_local].
Qed.

Lemma world_announce : kept announce.
Proof. unfold announce, log_add. walk. Qed.

Lemma world_Signal : kept Signal.
Proof. unfold Signal. walk. Qed.

Lemma world_releaseLease : kept releaseLease.
Proof. unfold releaseLease. walk. Qed.
End Keeps.
End Service.

(** Reporting a failed start only prints. *)
Lemma report_world {W : Type} (sources : list ConfigSource) (e : StartError) (m : Term W) :
  world (reportBootstrapFailure sources e m) = world m.
Proof.
  unfold reportBootstrapFailure. assert (forall m : Term W, world (foldl (fun m s =>
    print_err (Sprintf "%s: %v" [cs_ID s; StartErrorText e]) m) m sources) = world m) as Hall
    by (induction sources as [|s l IH]; intros n; [done|]; cbn [foldl]; by rewrite IH).
  by destruct e as [|[]].
Qed.

(** A provision command closes what it opened. *)
Lemma provision_returns_handles {W : Type} `{Startup W} (hold : W -> Holdings) `{!Owner W hold} `{Infra W} (fuel : nat)
  (engine : Engine) (application : Application) (generation : Generation) (m m' : Term W) (code : Z) :
  borrows W hold -> hl_pools (hold (world m)) = [] ->
  Bootstrap.Provision fuel engine application generation m = Some (code, m') ->
  hl_live (hold (world m')) = hl_live (hold (world m)).
Proof.
  intros Hb Hm. unfold Bootstrap.Provision, on_world. destruct (Bootstrap _ _ _ (world m)) as [[r|e] w1] eqn:Hs;
    apply (bootstrap_owns hold) in Hs; try done.
  - assert (forall (x : Term W) c, owns (hl_live (hold (world m))) (hold (world x)) ->
      (let '(_, x') := on_world (Close r) x in Some (c, x')) = Some (code, m') -> hl_live (hold (world m')) = hl_live (hold (world m))) as Hc.
    { intros x c Ho. unfold on_world. pose proof (close_returns hold _ r _ Ho) as Hcl. destruct (Close r _) as [u w2].
      by intros [= _ <-]. }
    intros ([ok m1] & Hl & Hr)%bind_Some. apply loop_runs in Hl as (l & _ & Hl & _). eapply loop_holds in Hl; [|exact Hb|exact Hs].
    destruct ok; [|by eapply Hc in Hr]. unfold ensureSubscriptions, on_world, mbind, act_bind in Hr.
    pose proof (own_record (rs_scope r) (destinationIDs (app_Destinations application)) (world m1)) as Hrec.
    destruct (RecordSubscriptions _ _ (world m1)) as [[u|e] w2]; cbn in Hr, Hrec; rewrite <- Hrec in Hl.
    + by apply (Hc (mkTerm w2 (stdout m1) (stderr m1)) 0 Hl).
    + by apply (Hc (print_err (Sprintf "subscriptions: %v" [error_text e]) (mkTerm w2 (stdout m1) (stderr m1))) 1 Hl).
  - intros [= _ <-]. by rewrite report_world.
Qed.

(** *** A running engine *)
Section Run.
Context {W : Type} `{Startup W} (hold : W -> Holdings) `{!Owner W hold} `{Env W}.
Hypothesis service_borrows : forall h, calls_keep (fun w => hold w = h).
Implicit Types (s : Running W).

(** The moves of the outside leave the handles alone. *)
Definition borrowing (l : label W) s : Prop :=
  match l with LWorld w => hold w = hold (env (rn_machine s)) | _ => True end.

Definition follows (resources : Resources) : Running W -> Running W -> Prop :=
  rtc (fun s s' => exists l, borrowing l s /\ step resources l s = Some s').

(** The engine's own handles on top of [l] until its resources are closed. *)
Definition holding (l : gset nat) s : Prop :=
  let h := hold (env (rn_machine s)) in if rn_open s then owns l h else hl_live h = l.

Lemma keeps_hold {A : Type} (f : Act (Machine W) A) (m : Machine W) :
  (forall Q, calls_keep Q -> triple (fun m => Q (env m)) f (fun _ m => Q (env m))) -> hold (env (f m).2) = hold (env m).
Proof. intros Hf. by apply (Hf _ (service_borrows (hold (env m)))). Qed.

(** The resources are open until [Run] closes them. *)
Lemma step_holding (resources : Resources) (lab : label W) (l : gset nat) s s' :
  main_inv (rn_main s) (rn_server s) (rn_over s) (rn_stopped s) (rn_open s) ->
  borrowing lab s -> step resources lab s = Some s' -> holding l s -> holding l s'.
Proof.
  destruct s as [p ph sv over stopped n op m]. unfold holding. intros Hi Hb Hs Hh. cbn in *.
  destruct lab; cbn in Hs; repeat case_match; simplify_eq; cbn in *; try exact Hh; try done; try (by rewrite Hb);
    try (by destruct Hi as (_ & _ & _ & ?)); try (rewrite keeps_hold; [first [exact Hh|done]|intros Q HQ]).
  all: try first [by apply world_announce|by apply world_reconcile|by apply world_stopAll|by apply world_releaseLease|by apply world_Signal].
  all: by apply close_returns.
Qed.

Lemma follows_holding (resources : Resources) (l : gset nat) s s' :
  follows resources s s' -> main_inv (rn_main s) (rn_server s) (rn_over s) (rn_stopped s) (rn_open s) -> holding l s ->
  main_inv (rn_main s') (rn_server s') (rn_over s') (rn_stopped s') (rn_open s') /\ holding l s'.
Proof.
  induction 1 as [|s s1 s2 (lab & Hb & Hs) _ IH]; [done|]. intros Hi Hh. apply IH; [by eapply step_main_inv|by eapply step_holding].
Qed.
End Run.

(** What [New] leaves: nothing, or the handles of the engine. *)
Lemma newapp_owns {W : Type} `{Startup W} (hold : W -> Holdings) `{!Owner W hold} `{Env W}
  (engine : Engine) (application : Application) (generation : Generation) (writer : bool) (boot worker : string) (w w' : W) (r : result error (Resources * Machine W)) :
  (forall h, calls_keep (fun w => hold w = h)) -> hl_pools (hold w) = [] ->
  NewApp engine application generation writer boot worker w = (r, w') ->
  match r with
  | Err _ => hl_live (hold w') = hl_live (hold w)
  | Ok (_, m) => env m = w' /\ owns (hl_live (hold w)) (hold w')
  end.
Proof.
  intros Hk Hw. unfold NewApp. destruct (Bootstrap _ _ _ w) as [[rs|e] w1] eqn:Hs; apply (bootstrap_owns hold) in Hs; try done;
    [|by intros [= <- <-]]. unfold Control.New. destruct (negb _).
  - pose proof (close_returns hold _ rs _ Hs) as Hc. destruct (Close rs w1) as [u w2]. by intros [= <- <-].
  - destruct (EnvEnsureSubscriptions _ _ w1) as [u w2] eqn:Hen.
    apply (triple_run _ _ _ _ _ _ (ck_ensure _ (Hk (hold w1)) _ _) eq_refl) in Hen. rewrite <- Hen in Hs. destruct u as [u|e].
    + intros [= <- <-]. by split.
    + pose proof (close_returns hold _ rs _ Hs) as Hc. destruct (Close rs w2) as [v w3]. by intros [= <- <-].
Qed.

(** So does an engine. *)
Lemma engine_returns_handles {W : Type} `{Startup W} (hold : W -> Holdings) `{!Owner W hold} `{Env W}
  (engine : Engine) (application : Application) (generation : Generation) (writer : bool) (boot worker : string) (w w' : W) (r : result error (Resources * Machine W)) :
  (forall h, calls_keep (fun w => hold w = h)) -> hl_pools (hold w) = [] ->
  NewApp engine application generation writer boot worker w = (r, w') ->
  match r with
  | Err _ => hl_live (hold w') = hl_live (hold w)
  | Ok (resources, m) => forall s, follows hold resources (launched m) s ->
      let h := hold (env (rn_machine s)) in
      (rn_open s = true -> owns (hl_live (hold w)) h) /\
      (forall res, rn_main s = Returned res -> hl_live h = hl_live (hold w))
  end.
Proof.
  intros Hk Hw Hn. apply (newapp_owns hold) in Hn; [|done..]. destruct r as [[resources m]|e]; [|done]. destruct Hn as [<- Ho].
  intros s Hs. apply (follows_holding hold Hk resources (hl_live (hold w))) in Hs as [Hi Hh]; [|done|exact Ho]. unfold holding in Hh.
  split; [by intros Hop; rewrite Hop in Hh|]. intros res Hres. rewrite Hres in Hi. destruct Hi as (_ & Hop & _). by rewrite Hop in Hh.
Qed.

Lemma held_calls_keep {W : Type} `{Driver W} `{Env W} (h : Holdings) : calls_keep (fun x : Held W => holdings x = h).
Proof. split; intros; intros; try (intros x Hx); cbn; by rewrite on_driver_holdings. Qed.

(** ** Properties *)

(** A provision command that ends has closed whatever it opened, and nothing
    else: the Kafka client, the control store's pool and the pool of every
    source that could be configured, whatever the drivers, the database and
    provisioning answered on the way. *)
Theorem provision_closes {W : Type} `{Driver W} `{Infra W} (fuel : nat) (engine : Engine) (application : Application)
  (generation : Generation) (m m' : Term (Held W)) (code : Z) :
  hl_pools (holdings (world m)) = [] ->
  Bootstrap.Provision fuel engine application generation m = Some (code, m') ->
  hl_live (holdings (world m')) = hl_live (holdings (world m)).
Proof. intros Hm Hp. exact (provision_returns_handles holdings fuel engine application generation m m' code held_borrows Hm Hp). Qed.

(** C23. An engine that fails to start leaves nothing open.  One that starts owns,
    for as long as its resources are open, exactly its Kafka client, its control
    store's pool and its source pools, none of them in use before; once [Run]
    has returned all are closed, and nothing else is. *)
Theorem engine_closes {W : Type} `{Driver W} `{Env W} (engine : Engine) (application : Application) (generation : Generation)
  (writer : bool) (boot worker : string) (w w' : Held W) (r : result error (Resources * Machine (Held W))) :
  hl_pools (holdings w) = [] -> NewApp engine application generation writer boot worker w = (r, w') ->
  match r with
  | Err _ => hl_live (holdings w') = hl_live (holdings w)
  | Ok (resources, m) => forall s, follows holdings resources (launched m) s ->
      let h := holdings (env (rn_machine s)) in
      (rn_open s = true -> owns (hl_live (holdings w)) h) /\
      (forall res, rn_main s = Returned res -> hl_live h = hl_live (holdings w))
  end.
Proof.
  intros Hw Hn. exact (engine_returns_handles holdings engine application generation writer boot worker w w' r held_calls_keep Hw Hn).
Qed.

(** ** Witnesses *)
Module HandleSim.
(** Pools open; the schema statement fails when [broken]. *)
Definition driver {W : Type} (broken : W -> bool) : Driver W := {|
  KgoNewClient _ w := (None, w); KgoPing _ w := (None, w); BrokerMetadata _ w := (None, w);
  PgxNew _ w := (None, w); PgxParseConfig _ := None; PgxNewWithConfig _ w := (None, w); PgxPing _ w := (None, w);
  ExecSchema _ w := (if broken w then Some DeadlineExceeded else None, w);
  DriverRecord _ _ w := (Ok tt, w) |}.
#[export] Instance live_driver : Driver Provision.Sim.Live := driver (fun _ => false).
#[export] Instance clocked_driver : Driver Clocked := driver (fun w => negb (ck_kafka w)).

(** Handle 7 was open before. *)
Definition before {W : Type} (w : W) : Held W := mkHeld w (mkHoldings {[7%nat]} None None []).
Definition start : Term (Held Provision.Sim.Live) := mkTerm (before Provision.Sim.good) [] [].
Definition app (kafka : bool) := NewApp (LifeSim.engine ["k"]) StoreSim.application 1 true "b" "w1" (before (ex_world "running" kafka)).
Definition resources : Resources := match (app true).1 with Ok (r, _) => r | Err _ => LifeSim.resources end.
Definition machine : Machine (Held Clocked) :=
  match (app true).1 with Ok (_, m) => m | Err _ => mkMachine (svc LifeSim.machine) (before LifeSim.world) ∅ [] end.
Definition labels : list (label (Held Clocked)) :=
  [LBegin; LPass; LContext; LContextSeen; LTold; LLease; LJoin; LShutdown; LDrain true; LReturn].
Definition ended : Running (Held Clocked) := default (launched machine) (run_labels resources labels (launched machine)).

Lemma labels_follow (ls : list (label (Held Clocked))) s s' : Forall (fun l => match l with LWorld _ => False | _ => True end) ls ->
  run_labels resources ls s = Some s' -> follows holdings resources s s'.
Proof.
  unfold run_labels. intros Hls. revert s. induction Hls as [|l ls Hl _ IH]; intros s; [by intros [= ->]|]. cbn [foldl mbind option_bind].
  destruct (step resources l s) as [s1|] eqn:Hstep; [intros Hs; eapply rtc_l; [|by apply IH]; exists l; by destruct l|].
  enough (foldl (fun s l => s ≫= step resources l) None ls = None) as -> by done. clear. by induction ls.
Qed.

Lemma started_ok : app true = (Ok (resources, machine), (app true).2).
Proof.
  assert (is_ok (app true).1 = true) as Hok by (vm_compute; reflexivity). unfold resources, machine. revert Hok.
  by destruct (app true) as [[[r m]|e] w].
Qed.

Lemma started_err : app false = (Err (Errorf "control store could not be opened" []), (app false).2).
Proof.
  assert ((app false).1 = Err (Errorf "control store could not be opened" [])) as Hok by (vm_compute; reflexivity). revert Hok.
  destruct (app false) as [r w]. by intros [= ->].
Qed.

Lemma ended_followed : follows holdings resources (launched machine) ended.
Proof.
  assert (match run_labels resources labels (launched machine) with Some _ => true | None => false end = true) as Hok by (vm_compute; reflexivity).
  apply (labels_follow labels); [by repeat constructor|]. unfold ended. by destruct (run_labels resources labels (launched machine)).
Qed.
End HandleSim.
#[export] Existing Instance HandleSim.live_driver.
#[export] Existing Instance HandleSim.clocked_driver.

(** Three handles were taken on the way. *)
Lemma provision_closes_witness : exists code m',
  Bootstrap.Provision 1 StoreSim.engine StoreSim.application 1 HandleSim.start = Some (code, m') /\
  size (hl_live (holdings (Bootstrap StoreSim.engine StoreSim.application 1 (world HandleSim.start)).2)) = 4%nat /\
  hl_live (holdings (world m')) = {[7%nat]}.
Proof.
  assert (exists code m', Bootstrap.Provision 1 StoreSim.engine StoreSim.application 1 HandleSim.start = Some (code, m')) as (code & m' & Hp)
    by (eexists _, _; vm_compute; reflexivity).
  exists code, m'. split; [exact Hp|]. split; [vm_compute; reflexivity|].
  exact (provision_closes 1 StoreSim.engine StoreSim.application 1 HandleSim.start m' code eq_refl Hp).
Defined.

(** One engine runs and returns; another's control store fails its schema. *)
Lemma engine_closes_witness :
  (exists r, rn_main HandleSim.ended = Returned r) /\ hl_live (holdings (env (rn_machine HandleSim.ended))) = {[7%nat]} /\
  hl_live (holdings (HandleSim.app false).2) = {[7%nat]}.
Proof.
  assert (rn_main HandleSim.ended = Returned (Ok tt)) as Hr by (vm_compute; reflexivity).
  split; [by exists (Ok tt)|]. split.
  - refine (proj2 (engine_closes (LifeSim.engine ["k"]) StoreSim.application 1 true "b" "w1" (HandleSim.before (ex_world "running" true)) _ _
      eq_refl HandleSim.started_ok HandleSim.ended _) (Ok tt) Hr). exact HandleSim.ended_followed.
  - exact (engine_closes (LifeSim.engine ["k"]) StoreSim.application 1 true "b" "w1" (HandleSim.before (ex_world "running" false)) _ _
      eq_refl HandleSim.started_err).
Defined.
