(* ===== verification/Operator.v ===== *)
(** * Operator: the HTTP operator API

    Models [internal/adapters/operator/server.go]: authentication, the routes
    and what each handler answers, over an interface of the engine.  A body is
    the value given to the JSON encoder.  Routing is [http.ServeMux]'s for
    request paths without percent escapes: a path that is not clean is
    redirected, the longest pattern wins, and a pattern ending in a slash
    matches everything below it. *)

From S2P Require Import Prelude Strconv Stream JsonCodec Activity Act ControlStore Control.
Local Open Scope Z_scope.

(** ** Requests and replies *)
Record OpRequest : Type := mkOpRequest {
  rq_Method : string;
  rq_Path : string;
  rq_Authorization : string;            (* "" without the header *)
  rq_After : string }.                  (* the query's "after" *)

Inductive Body : Type :=
| NoBody
| PlainText (text : string)
| JsonStatus (s : Control.Status * list SourceStatus)
| JsonSubscription (s : Subscription)
| JsonSubscriptions (l : list Subscription)
| JsonPage (p : Page)
| JsonFailure (message : string) (s : Subscription).

Inductive Reply : Type :=
| Respond (code : Z) (body : Body)
| Redirect (path : string).

Definition StatusOK : Z := 200.
Definition StatusBadRequest : Z := 400.
Definition StatusUnauthorized : Z := 401.
Definition StatusNotFound : Z := 404.
Definition StatusServiceUnavailable : Z := 503.
Definition StatusGatewayTimeout : Z := 504.

(** What the API needs of the engine. *)
Class Backend (W : Type) : Type := {
  BackStatus : Act W (Control.Status * list SourceStatus);
  BackSubscriptions : Act W (list Subscription);
  BackChange : string -> string -> Act W (Subscription * option error);
  BackLogs : string -> Act W (result error Page) }.

(** ** Paths *)
Fixpoint split_slash (s : string) : list string :=
  match s with
  | EmptyString => [""]
  | String c r =>
      if Ascii.eqb c "/" then "" :: split_slash r
      else match split_slash r with seg :: segs => String c seg :: segs | [] => [String c ""] end
  end.

Fixpoint join_slash (l : list string) : string :=
  match l with [] => "" | [s] => s | s :: l => s +:+ String "/" (join_slash l) end.

(** [path.Clean] of a rooted path: empty and dot segments dropped, a dot-dot
    takes the one before it. *)
Fixpoint clean_segments (segs done : list string) : list string :=
  match segs with
  | [] => rev done
  | s :: segs =>
      if str_eqb s "" || str_eqb s "." then clean_segments segs done
      else if str_eqb s ".." then clean_segments segs (tail done)
      else clean_segments segs (s :: done)
  end.

Definition ends_slash (s : string) : bool := match str_rev s with String c _ => Ascii.eqb c "/" | EmptyString => false end.

Definition cleanPath (p : string) : string :=
  let p := match p with String "/" _ => p | _ => String "/" p end in
  let np := String "/" (join_slash (clean_segments (split_slash p) [])) in
  if ends_slash p && negb (str_eqb np "/") then np +:+ "/" else np.

(** [strings.TrimPrefix]. *)
Definition TrimPrefix (s prefix : string) : string := default s (strip_prefix prefix s).

Definition subscriptionAction (path : string) : option (string * string) :=
  match split_slash (TrimPrefix path "/v1/subscriptions/") with
  | [id; action] =>
      if str_eqb action "pause" then Some (id, StatePaused)
      else if str_eqb action "resume" then Some (id, StateRunning)
      else None
  | _ => None
  end.

Definition changeFailureStatus (err : error) : Z :=
  if error_is err DeadlineExceeded || error_is err Canceled then StatusGatewayTimeout else StatusServiceUnavailable.

Definition NotFound : Reply := Respond StatusNotFound (PlainText "404 page not found").

Section Handlers.
Context {W : Type} `{Backend W}.

Definition reply (r : Reply) : Act W Reply := fun w => (r, w).

Definition live (_ : OpRequest) : Act W Reply := reply (Respond StatusOK NoBody).

Definition ready (_ : OpRequest) : Act W Reply :=
  s ← BackStatus;
  reply (if negb (str_eqb (st_Status s.1) "ready") then Respond StatusServiceUnavailable NoBody else Respond StatusOK NoBody).

Definition status_ (_ : OpRequest) : Act W Reply := s ← BackStatus; reply (Respond StatusOK (JsonStatus s)).

Definition subscriptions_ (_ : OpRequest) : Act W Reply := l ← BackSubscriptions; reply (Respond StatusOK (JsonSubscriptions l)).

Definition logs (r : OpRequest) : Act W Reply :=
  page ← BackLogs (rq_After r);
  reply match page with
  | Err _ => Respond StatusBadRequest (PlainText "invalid log cursor")
  | Ok page => Respond StatusOK (JsonPage page)
  end.

Definition subscription_ (r : OpRequest) : Act W Reply :=
  match subscriptionAction (rq_Path r) with
  | None => reply NotFound
  | Some (id, state) =>
      if negb (str_eqb (rq_Method r) "POST") then reply NotFound
      else
        '(item, err) ← BackChange id state;
        reply match err with
        | None => Respond StatusOK (JsonSubscription item)
        | Some e =>
            if error_is e ErrNotFound then NotFound
            else Respond (changeFailureStatus e) (JsonFailure "control operation incomplete" item)
        end
  end.

Definition auth (token : string) (next : OpRequest -> Act W Reply) (r : OpRequest) : Act W Reply :=
  let value := TrimPrefix (rq_Authorization r) "Bearer " in
  if str_eqb token "" || negb (str_eqb value token) then reply (Respond StatusUnauthorized (PlainText "unauthorized"))
  else next r.

(** The route table: a pattern and its handler. *)
Definition routes (token : string) : list (string * (OpRequest -> Act W Reply)) := [
  ("/health/live", live);
  ("/health/ready", ready);
  ("/v1/status", auth token status_);
  ("/v1/subscriptions", auth token subscriptions_);
  ("/v1/subscriptions/", auth token subscription_);
  ("/v1/logs", auth token logs) ].

Definition matches (path pattern : string) : bool :=
  if ends_slash pattern then HasPrefix path pattern else str_eqb path pattern.

(** The longest pattern that matches. *)
Definition longer (path : string) (best : option (string * (OpRequest -> Act W Reply))) (r : string * (OpRequest -> Act W Reply)) :=
  if matches path r.1 then
    match best with Some b => if (String.length b.1 <? String.length r.1)%nat then Some r else best | None => Some r end
  else best.

Definition Handler (token : string) (r : OpRequest) : Act W Reply :=
  let path := if str_eqb (rq_Method r) "CONNECT" then rq_Path r else cleanPath (rq_Path r) in
  if negb (str_eqb path (rq_Path r)) then reply (Redirect path)
  else
    match foldl (longer path) None (routes token) with
    | Some (_, handler) => handler r
    | None => reply NotFound
    end.
End Handlers.

(** ** Lemmas *)
Lemma split_join (l : list string) : l <> [] -> Forall (fun s => str_forallb (fun c => negb (Ascii.eqb c "/")) s = true) l ->
  split_slash (join_slash l) = l.
Proof.
  intros Hne Hall. induction Hall as [|s l Hs Hl IH]; [done|]. clear Hne. destruct l as [|t l].
  - cbn [join_slash]. clear IH Hl. induction s as [|c s IH]; [done|]. cbn in *. apply andb_true_iff in Hs as [Hc Hs]. apply negb_true_iff in Hc.
    rewrite Hc. by rewrite IH.
  - change (join_slash (s :: t :: l)) with (s +:+ String "/" (join_slash (t :: l))). specialize (IH ltac:(done)).
    induction s as [|c s IHs]; [cbn [String.append split_slash]; by rewrite Ascii.eqb_refl, IH|].
    cbn in Hs. apply andb_true_iff in Hs as [Hc Hs]. apply negb_true_iff in Hc. cbn [String.append split_slash]. rewrite Hc.
    by rewrite (IHs Hs).
Qed.

Lemma split_slash_spec (s : string) :
  split_slash s <> [] /\ join_slash (split_slash s) = s /\ Forall (fun t => str_forallb (fun c => negb (Ascii.eqb c "/")) t = true) (split_slash s).
Proof.
  induction s as [|c s (Hne & Hj & Hall)]; [split_and!; [done|done|by repeat constructor]|]. cbn [split_slash].
  destruct (Ascii.eqb_spec c "/") as [->|Hc].
  - split; [done|]. split; [|by constructor]. destruct (split_slash s) as [|t l]; [done|]. cbn in *. by rewrite Hj.
  - destruct (split_slash s) as [|t l]; [done|]. inversion_clear Hall as [|? ? Ht Hl]. split; [done|]. split.
    + destruct l; cbn in *; by rewrite <- Hj.
    + constructor; [|done]. cbn. by rewrite (proj2 (Ascii.eqb_neq c "/") Hc), Ht.
Qed.

(** What a presented header has to be for a token. *)
Definition authorized (token : string) (r : OpRequest) : Prop :=
  token <> "" /\ TrimPrefix (rq_Authorization r) "Bearer " = token.

#[export] Instance authorized_dec (token : string) (r : OpRequest) : Decision (authorized token r).
Proof. unfold authorized. apply _. Defined.

(** A reply that carries none of the engine's data. *)
Definition discloses_nothing (r : Reply) : Prop :=
  match r with
  | Redirect _ | Respond _ NoBody | Respond _ (PlainText _) => True
  | Respond _ _ => False
  end.

Section Routing.
Context {W : Type} `{Backend W}.

Lemma TrimPrefix_spec (s p v : string) :
  TrimPrefix s p = v <-> s = p +:+ v \/ (s = v /\ forall r, s <> p +:+ r).
Proof.
  unfold TrimPrefix. destruct (strip_prefix p s) as [r|] eqn:Hr; cbn.
  - apply strip_prefix_Some in Hr as ->. split; [intros ->; by left|]. intros [Heq|[_ Hno]]; [|by destruct (Hno r)].
    apply (f_equal (strip_prefix p)) in Heq. rewrite !strip_prefix_app in Heq. by injection Heq.
  - split; [intros ->; right; split; [done|] | intros [->|[-> _]]; [|done]].
    + intros r ->. by rewrite strip_prefix_app in Hr.
    + by rewrite strip_prefix_app in Hr.
Qed.

Lemma auth_refused (token : string) (next : OpRequest -> Act W Reply) (r : OpRequest) (w : W) :
  ~ authorized token r -> auth token next r w = (Respond StatusUnauthorized (PlainText "unauthorized"), w).
Proof.
  unfold authorized, auth. intros Hno. destruct (str_eqb token "") eqn:He; [done|]. apply str_eqb_false in He.
  destruct (str_eqb (TrimPrefix (rq_Authorization r) "Bearer ") token) eqn:Hv; [|done]. apply str_eqb_true in Hv. by destruct Hno.
Qed.

Lemma auth_granted (token : string) (next : OpRequest -> Act W Reply) (r : OpRequest) : authorized token r -> auth token next r = next r.
Proof.
  unfold auth. intros [Hne ->]. rewrite (proj2 (str_eqb_false _ _) Hne), (proj2 (str_eqb_true _ _) eq_refl). done.
Qed.

(** The route chosen is one of the table and matches the path. *)
Lemma longest_matches (path : string) (rs : list (string * (OpRequest -> Act W Reply))) (best : option _) r :
  foldl (longer path) best rs = Some r -> best = Some r \/ (In r rs /\ matches path r.1 = true).
Proof.
  revert best. induction rs as [|r0 rs IH]; intros best; [by left|]. cbn. intros Hf. apply IH in Hf as [Hb|[Hin Hm]]; [|by eauto].
  unfold longer in Hb. destruct (matches path r0.1) eqn:Hm; [|by left].
  destruct best as [b|]; [destruct (_ <? _)%nat; [|by left]|]; injection Hb as <-; eauto.
Qed.

Lemma str_rev_nil (s : string) : str_rev s = "" -> s = "".
Proof. intros Heq. rewrite <- (str_rev_involutive s), Heq. done. Qed.

Lemma ends_slash_app (p s : string) : s <> "" -> ends_slash (p +:+ s) = ends_slash s.
Proof.
  intros Hne. unfold ends_slash. rewrite str_rev_app. destruct (str_rev s) as [|c t] eqn:Hs; [|done]. by apply str_rev_nil in Hs.
Qed.

(** A name usable as one path segment. *)
Definition segment (s : string) : Prop :=
  s <> "" /\ s <> "." /\ s <> ".." /\ str_forallb (fun c => negb (Ascii.eqb c "/")) s = true.

Lemma clean_segment (s : string) (segs done : list string) :
  segment s -> clean_segments (s :: segs) done = clean_segments segs (s :: done).
Proof.
  intros (H1 & H2 & H3 & _). cbn [clean_segments].
  by rewrite (proj2 (str_eqb_false _ _) H1), (proj2 (str_eqb_false _ _) H2), (proj2 (str_eqb_false _ _) H3).
Qed.
End Routing.

(** The action a path names: exactly "{id}/pause" and "{id}/resume" below the
    collection, for an id without a slash. *)
Lemma subscriptionAction_spec (rest id state : string) :
  subscriptionAction ("/v1/subscriptions/" +:+ rest) = Some (id, state)
  <-> str_forallb (fun c => negb (Ascii.eqb c "/")) id = true
      /\ ((rest = id +:+ "/pause" /\ state = StatePaused) \/ (rest = id +:+ "/resume" /\ state = StateRunning)).
Proof.
  unfold subscriptionAction, TrimPrefix. rewrite strip_prefix_app. cbn [default from_option]. unfold Datatypes.id. split.
  - intros Hs. destruct (split_slash_spec rest) as (_ & Hj & Hall). destruct (split_slash rest) as [|i [|a [|b l]]]; try discriminate Hs.
    apply Forall_cons in Hall as [Hi _]. cbn [join_slash] in Hj. rewrite <- Hj. clear Hj rest.
    destruct (str_eqb a "pause") eqn:Hp; [apply str_eqb_true in Hp as ->; injection Hs as <- <-; eauto|].
    destruct (str_eqb a "resume") eqn:Hr; [apply str_eqb_true in Hr as ->; injection Hs as <- <-; eauto|]. done.
  - intros [Hi [[-> ->]|[-> ->]]].
    + change (id +:+ "/pause") with (join_slash [id; "pause"]). by rewrite (split_join [id; "pause"] ltac:(done) ltac:(by repeat constructor)).
    + change (id +:+ "/resume") with (join_slash [id; "resume"]). by rewrite (split_join [id; "resume"] ltac:(done) ltac:(by repeat constructor)).
Qed.

(** The word of each action and the state it asks for. *)
Definition action_state (action : string) : string := if str_eqb action "pause" then StatePaused else StateRunning.

Section Requests.
Context {W : Type} `{Backend W}.

Lemma clean_action_path (id action : string) : segment id -> action = "pause" \/ action = "resume" ->
  cleanPath ("/v1/subscriptions/" +:+ id +:+ String "/" action) = "/v1/subscriptions/" +:+ id +:+ String "/" action.
Proof.
  intros Hid Ha. assert (Hs : segment action) by (destruct Ha as [-> | ->]; repeat split; done).
  assert (Hsplit : split_slash ("/v1/subscriptions/" +:+ id +:+ String "/" action) = ["" ; "v1"; "subscriptions"; id; action]).
  { apply (split_join ["" ; "v1"; "subscriptions"; id; action]); [done|]. destruct Hid as (_ & _ & _ & ?), Hs as (_ & _ & _ & ?). by repeat constructor. }
  assert (Hend : ends_slash ("/v1/subscriptions/" +:+ id +:+ String "/" action) = false).
  { rewrite ends_slash_app by (by destruct id). rewrite ends_slash_app by done. by destruct Ha as [-> | ->]. }
  unfold cleanPath. change ("/v1/subscriptions/" +:+ id +:+ String "/" action) with (String "/" ("v1/subscriptions/" +:+ id +:+ String "/" action)) in *.
  cbv iota. rewrite Hend, Hsplit. change (clean_segments ["" ; "v1"; "subscriptions"; id; action] []) with (clean_segments [id; action] ["subscriptions"; "v1"]).
  rewrite !clean_segment by done. done.
Qed.

(** A request for an action reaches the subscription handler behind the
    token check. *)
Lemma action_route (token id action : string) (r : OpRequest) : segment id -> action = "pause" \/ action = "resume" ->
  rq_Path r = "/v1/subscriptions/" +:+ id +:+ String "/" action ->
  Handler token r = auth token subscription_ r.
Proof.
  intros Hid Ha Hp. unfold Handler. rewrite Hp, clean_action_path by done.
  replace (if str_eqb (rq_Method r) "CONNECT" then _ else _) with ("/v1/subscriptions/" +:+ id +:+ String "/" action) by (by destruct (str_eqb _ _)).
  rewrite (proj2 (str_eqb_true _ _) eq_refl). cbn [negb].
  set (path := "/v1/subscriptions/" +:+ id +:+ String "/" action).
  assert (Hex : forall q, ends_slash q = false -> strip_prefix "/v1/subscriptions/" q = None -> matches path q = false).
  { intros q Hq Hpre. unfold matches. rewrite Hq. apply str_eqb_false. intros Heq. rewrite <- Heq in Hpre. unfold path in Hpre.
    by rewrite strip_prefix_app in Hpre. }
  assert (Hin : matches path "/v1/subscriptions/" = true) by (unfold matches, HasPrefix, path; cbn [ends_slash]; change (ends_slash "/v1/subscriptions/") with true; cbv iota; rewrite strip_prefix_app; by apply bool_decide_eq_true).
  unfold routes. cbn [foldl]. unfold longer; cbn [fst snd]. rewrite Hin, !Hex by reflexivity. done.
Qed.

Lemma action_names (id action : string) : segment id -> action = "pause" \/ action = "resume" ->
  subscriptionAction ("/v1/subscriptions/" +:+ id +:+ String "/" action) = Some (id, action_state action).
Proof. intros (_ & _ & _ & Hid) Ha. apply subscriptionAction_spec. split; [done|]. by destruct Ha as [-> | ->]; [left|right]. Qed.

(** What a request for an action comes to. *)
Lemma action_call (token id action : string) (r : OpRequest) (w : W) : segment id -> action = "pause" \/ action = "resume" ->
  rq_Path r = "/v1/subscriptions/" +:+ id +:+ String "/" action ->
  Handler token r w =
    if bool_decide (authorized token r) then
      if str_eqb (rq_Method r) "POST" then
        let '((item, err), w') := BackChange id (action_state action) w in
        (match err with
         | None => Respond StatusOK (JsonSubscription item)
         | Some e => if error_is e ErrNotFound then NotFound else Respond (changeFailureStatus e) (JsonFailure "control operation incomplete" item)
         end, w')
      else (NotFound, w)
    else (Respond StatusUnauthorized (PlainText "unauthorized"), w).
Proof.
  intros Hid Ha Hp. rewrite (action_route token id action) by done. case_bool_decide as Hauth; [|by rewrite auth_refused].
  rewrite auth_granted by done. unfold subscription_. rewrite Hp, action_names by done.
  destruct (str_eqb (rq_Method r) "POST"); [|done]. cbn [negb]. unfold mbind, act_bind.
  by destruct (BackChange id (action_state action) w) as [[item err] w'].
Qed.
End Requests.

(** ** Properties *)

(** C15. Without the token a request changes nothing and learns nothing: it never
    gets a JSON body, and the engine is not called at all, except that
    "/health/ready" asks for the status.  With an empty token this is every
    request. *)
Theorem token_required {W : Type} `{Backend W} (token : string) (r : OpRequest) (w : W) :
  ~ authorized token r ->
  let '(rep, w') := Handler token r w in
  discloses_nothing rep /\ (w' = w \/ rq_Path r = "/health/ready" /\ w' = (BackStatus w).2).
Proof.
  intros Hno. unfold Handler. set (path := if str_eqb _ "CONNECT" then _ else _).
  destruct (negb (str_eqb path (rq_Path r))) eqn:Hp; [split; [done|by left]|].
  apply negb_false_iff, str_eqb_true in Hp.
  destruct (foldl (longer path) None (routes token)) as [[pat h]|] eqn:Hf; [|split; [done|by left]].
  apply longest_matches in Hf as [Hf|[Hin Hm]]; [done|]. cbn [fst] in Hm.
  assert (Hauth : forall next, discloses_nothing (auth token next r w).1 /\ (auth token next r w).2 = w)
    by (intros next; by rewrite auth_refused).
  unfold routes in Hin. cbn [In] in Hin.
  destruct Hin as [Heq|[Heq|[Heq|[Heq|[Heq|[Heq|[]]]]]]]; apply pair_equal_spec in Heq as [<- <-].
  - by split; [|left].
  - unfold ready, mbind, act_bind. destruct (BackStatus w) as [s w1] eqn:Hb. unfold reply. split; [by destruct (negb (str_eqb _ _))|]. right.
    apply str_eqb_true in Hm. split; [by rewrite <- Hp|done].
  - destruct (Hauth status_) as [? ?]. destruct (auth _ _ _ _); auto.
  - destruct (Hauth subscriptions_) as [? ?]. destruct (auth _ _ _ _); auto.
  - destruct (Hauth subscription_) as [? ?]. destruct (auth _ _ _ _); auto.
  - destruct (Hauth logs) as [? ?]. destruct (auth _ _ _ _); auto.
Qed.

(** A POST with the token to "/v1/subscriptions/{id}/pause" or ".../resume" is
    one change of that subscription to that state, and the reply tells its
    outcome: 200 with the subscription, 404 for an unknown one, 504 when the
    request ended before the change was applied everywhere, 503 otherwise,
    the last two with the subscription as it stands. *)
Theorem change_reply {W : Type} `{Backend W} (token id action : string) (r : OpRequest) (w : W) :
  authorized token r -> segment id -> action = "pause" \/ action = "resume" ->
  rq_Method r = "POST" -> rq_Path r = "/v1/subscriptions/" +:+ id +:+ String "/" action ->
  let '((item, err), w') := BackChange id (action_state action) w in
  exists rep, Handler token r w = (rep, w') /\
    match err with
    | None => rep = Respond 200 (JsonSubscription item)
    | Some e =>
        if error_is e ErrNotFound then rep = Respond 404 (PlainText "404 page not found")
        else if error_is e DeadlineExceeded || error_is e Canceled then rep = Respond 504 (JsonFailure "control operation incomplete" item)
        else rep = Respond 503 (JsonFailure "control operation incomplete" item)
    end.
Proof.
  intros Hauth Hid Ha Hm Hp. rewrite (action_call token id action) by done. rewrite bool_decide_true, Hm by done.
  change (str_eqb "POST" "POST") with true. cbv iota. destruct (BackChange id (action_state action) w) as [[item err] w'].
  eexists. split; [reflexivity|]. destruct err as [e|]; [|done]. unfold changeFailureStatus.
  destruct (error_is e ErrNotFound); [done|]. by destruct (error_is e DeadlineExceeded || error_is e Canceled).
Qed.

(** ** Witnesses *)

(** A backend that counts the changes and reports one as incomplete. *)
#[local] Instance demo_backend : Backend (list (string * string)) := {
  BackStatus w := ((mkStatus "starting" false false, []), w);
  BackSubscriptions w := ([], w);
  BackChange id state w := ((zeroSub, Some DeadlineExceeded), w ++ [(id, state)]);
  BackLogs _ w := (Err Canceled, w) }.

Definition demo_request : OpRequest := mkOpRequest "POST" "/v1/subscriptions/billing/pause" "Bearer s3cret" "".

Lemma token_required_witness :
  Handler "other" demo_request [] = (Respond 401 (PlainText "unauthorized"), [])
  /\ let '(rep, w') := Handler "other" demo_request [] in
     discloses_nothing rep /\ (w' = [] \/ rq_Path demo_request = "/health/ready" /\ w' = (BackStatus (W := list (string * string)) []).2).
Proof.
  split; [vm_compute; reflexivity|]. apply (token_required (W := list (string * string)) "other" demo_request []).
  unfold authorized. cbn. intros [_ Heq]. discriminate Heq.
Defined.

Lemma change_reply_witness :
  exists rep, Handler "s3cret" demo_request [] = (rep, [("billing", StatePaused)])
    /\ rep = Respond 504 (JsonFailure "control operation incomplete" zeroSub).
Proof.
  exact (change_reply (W := list (string * string)) "s3cret" "billing" "pause" demo_request []
    ltac:(split; [discriminate | vm_compute; reflexivity]) ltac:(repeat split; discriminate) (or_introl eq_refl) eq_refl eq_refl).
Defined.
