(* ===== verification/Serving.v ===== *)
(** * Serving: the operator API on the control service

    [Operator]'s handlers over [Control]'s machine: the engine that
    [internal/app/app.go] gives to [operator.New] is the service, and its
    activity log is [Activity]'s.  With [Member]'s fleet below the service, a
    reply to a request says what the fleet does. *)

From S2P Require Import Prelude Strconv GoTime Stream JsonCodec Act ControlStore Control Fleet Member Operator.
From S2P Require Activity.
From stdpp Require Import relations.
Local Open Scope Z_scope.

(** ** The backend of [operator.New(token, r)] *)
Section Api.
Context {W : Type} `{Env W}.

(** How many looks a change may take, what other goroutines do between two of
    them, and what the process has added to its log by then. *)
Context (fuel : nat) (others : Machine W -> Machine W) (history : Machine W -> list (Time * Activity.Entry)) (boot : string).

Definition activityLog (m : Machine W) : Activity.Log := Activity.add_all (Activity.New boot true) (history m).

(** [None] is a request cut short by its fuel. *)
Definition asking {A : Type} (none : A) (f : Machine W -> option (A * Machine W)) : Act (option (Machine W)) A := fun w =>
  match w with
  | Some m => match f m with Some (a, m) => (a, Some m) | None => (none, None) end
  | None => (none, None)
  end.

#[export] Instance service_backend : Backend (option (Machine W)) := {
  BackStatus := asking (mkStatus "" false false, []) (fun m => Some (StatusOf (svc m), m));
  BackSubscriptions := asking [] (fun m => Some (SubscriptionsOf (svc m), m));
  BackChange id state := asking (zeroSub, None) (Change fuel others id state);
  BackLogs cursor := asking (Err Canceled) (fun m =>
    '(page, err) ← Activity.Read (activityLog m) cursor;
    Some (match err with None => Ok page | Some e => Err e end, m)) }.

(** Serving one request. *)
Definition serve_request (token : string) (r : OpRequest) (m : Machine W) : option (Reply * Machine W) :=
  let '(rep, w) := Handler token r (Some m) in (fun m => (rep, m)) <$> w.

(** A request for an action, answered. *)
Lemma action_served (token id action : string) (r : OpRequest) (m m' : Machine W) (rep : Reply) :
  segment id -> action = "pause" \/ action = "resume" -> rq_Path r = "/v1/subscriptions/" +:+ id +:+ String "/" action ->
  serve_request token r m = Some (rep, m') ->
  (~ authorized token r /\ rep = Respond StatusUnauthorized (PlainText "unauthorized") /\ m' = m) \/
  (authorized token r /\ rq_Method r <> "POST" /\ rep = NotFound /\ m' = m) \/
  (authorized token r /\ rq_Method r = "POST" /\ exists item err, Change fuel others id (action_state action) m = Some ((item, err), m') /\
    rep = match err with
          | None => Respond StatusOK (JsonSubscription item)
          | Some e => if error_is e ErrNotFound then NotFound else Respond (changeFailureStatus e) (JsonFailure "control operation incomplete" item)
          end).
Proof.
  intros Hid Ha Hp. unfold serve_request. rewrite (action_call token id action) by done. case_bool_decide; [|intros [= <- <-]; by left].
  destruct (str_eqb (rq_Method r) "POST") eqn:Hm; [apply str_eqb_true in Hm|apply str_eqb_false in Hm; intros [= <- <-]; right; by left].
  cbn [BackChange service_backend asking]. destruct (Change fuel others id (action_state action) m) as [[[item err] m1]|]; [|done].
  intros [= <- <-]. right. right. split; [done|]. split; [done|]. by exists item, err.
Qed.
End Api.

(** ** Properties *)

(** With the token, the log is served as its history says it, whatever the
    cursor: the page of the entries after it, or 400 for one that cannot be
    read.  Serving it changes nothing, and always ends. *)
Theorem logs_reply {W : Type} `{Env W} (fuel : nat) (others : Machine W -> Machine W)
  (history : Machine W -> list (Time * Activity.Entry)) (boot token : string) (r : OpRequest) (m : Machine W) :
  authorized token r -> rq_Path r = "/v1/logs" -> Z.of_nat (length (history m)) < 2 ^ 64 - 1 ->
  let '(page, err) := Activity.read_spec boot (Activity.stamped boot 1 (history m)) (rq_After r) in
  serve_request fuel others history boot token r m =
    Some (match err with None => Respond StatusOK (JsonPage page) | Some _ => Respond StatusBadRequest (PlainText "invalid log cursor") end, m).
Proof.
  intros Hauth Hp Hlen. destruct (Activity.read_spec _ _ _) as [page err] eqn:Hread.
  set (B := service_backend fuel others history boot).
  assert (Handler (H := B) token r = auth token (logs (H := B)) r) as Hh.
  { unfold Handler. rewrite Hp. destruct (str_eqb _ "CONNECT"); reflexivity. }
  unfold serve_request. fold B. rewrite Hh, auth_granted by done. unfold logs, mbind, act_bind, B. cbn [BackLogs service_backend asking].
  destruct (Activity.add_all_represents (Activity.New boot true) [] (history m) (Activity.represents_New boot true) Hlen) as [Hb Hr].
  unfold activityLog. rewrite (Activity.Read_spec _ boot (Activity.stamped boot 1 (history m)) _ Hb Hr), Hread. cbn. by destruct err.
Qed.

Section Served.
Context (sc : Scope) (me : string) {W : Type} `{!Rest sc me W} (dests : list Destination).
Context (history : Machine (Shared W) -> list (Time * Activity.Entry)) (boot token : string).
Abbreviation fleet m := (sh_fleet (env m)).

(** C5. A request to pause that is answered with 200, for the fleet.  Only a POST
    with the token gets that answer; and then the store held the request at a
    revision [v], later had it from every live worker, and from that moment
    on, for as long as the row stays at [v], no worker live at that moment and
    none joining later runs a consumer of the destination. *)
Theorem pause_reply (f0 : Fleet_) (fuel : nat) (others : Machine (Shared W) -> Machine (Shared W)) (d : string) (r : OpRequest)
  (m m' : Machine (Shared W)) (body : Body) :
  launch f0 -> moves sc f0 (fleet m) -> in_place sc me dests m -> peaceful sc me dests others ->
  segment d -> rq_Path r = "/v1/subscriptions/" +:+ d +:+ "/pause" ->
  serve_request fuel others history boot token r m = Some (Respond 200 body, m') ->
  authorized token r /\ rq_Method r = "POST" /\
  exists v g f, moves sc (fleet m) g /\ moves sc g f /\ moves sc f (fleet m') /\
    tb_subscriptions (fl_tables g) !! (sc, d) = Some (StatePaused, v) /\
    forall f' x b p, moves sc f f' -> tb_subscriptions (fl_tables f') !! (sc, d) = Some (x, v) ->
      fl_workers f' !! b = Some p -> (is_Some (fl_workers f !! b) -> ControlStore.live (fl_tables f) (fl_now f) sc b = true) ->
      no_consumer d p.
Proof.
  intros H0 Hf0 Hm Hpeace Hd Hp Hs.
  destruct (action_served _ _ _ _ token d "pause" r m m' _ Hd (or_introl eq_refl) Hp Hs) as
    [(_ & [=] & _)|[(_ & _ & [=] & _)|(Hauth & Hpost & item & err & Hc & Hrep)]].
  split; [done|]. split; [done|]. destruct err as [e|].
  - destruct (error_is e ErrNotFound); [done|]. unfold changeFailureStatus in Hrep. by destruct (_ || _).
  - by eapply pause_confirmed.
Qed.
End Served.

(** ** Witnesses *)
Module ApiSim.
Definition history (m : Machine (Shared unit)) : list (Time * Activity.Entry) := [Activity.some_entry "engine started"; Activity.some_entry "running"].
Definition get_logs (after : string) : OpRequest := mkOpRequest "GET" "/v1/logs" "Bearer k" after.
Definition pause : OpRequest := mkOpRequest "POST" "/v1/subscriptions/billing/pause" "Bearer k" "".
Definition passes (m : Machine (Shared unit)) : Machine (Shared unit) := (reconcile m).2.
Abbreviation answer := (serve_request 3 passes history "b" "k" pause FleetSim.delivering).
End ApiSim.

Lemma logs_reply_witness :
  serve_request 0 ApiSim.passes ApiSim.history "b" "k" (ApiSim.get_logs "b:1") FleetSim.service =
    Some (Respond StatusOK (JsonPage (Activity.mkPage [Activity.stamp "b" 2 (mkTime 0 0) (Activity.some_entry "running").2] "b:2" false)), FleetSim.service).
Proof.
  exact (logs_reply (W := Shared unit) 0 ApiSim.passes ApiSim.history "b" "k" (ApiSim.get_logs "b:1") FleetSim.service
    ltac:(split; [discriminate|reflexivity]) eq_refl eq_refl).
Defined.

(** The consumer ran before the request and does not after the reply. *)
Lemma pause_reply_witness :
  FleetSim.running_of FleetSim.delivering = [(0%nat, "billing")] /\
  exists body m', ApiSim.answer = Some (Respond 200 body, m') /\ FleetSim.running_of m' = [] /\
  exists v g f, moves FleetSim.sc g f /\ tb_subscriptions (fl_tables g) !! (FleetSim.sc, "billing") = Some (StatePaused, v).
Proof.
  split; [vm_compute; reflexivity|].
  assert (match ApiSim.answer with Some (Respond c _, m') => (c =? 200) && bool_decide (FleetSim.running_of m' = []) | _ => false end = true) as Ha
    by (vm_compute; reflexivity).
  destruct ApiSim.answer as [[[code body|path] m']|] eqn:Hs; try discriminate Ha.
  apply andb_true_iff in Ha as [Hcode Hrun]. apply Z.eqb_eq in Hcode. subst code. exists body, m'. split; [reflexivity|].
  split; [by apply bool_decide_eq_true in Hrun|].
  destruct delivering_in_place as [Hmv Hin].
  assert (launch FleetSim.empty) as Hl by (split; reflexivity).
  destruct (pause_reply FleetSim.sc "w1" FleetSim.dests ApiSim.history "b" "k" FleetSim.empty 3 ApiSim.passes "billing" ApiSim.pause
    FleetSim.delivering m' body Hl Hmv Hin (pass_peaceful FleetSim.sc "w1" FleetSim.dests) ltac:(repeat split; discriminate) eq_refl Hs)
    as (_ & _ & v & g & f & _ & Hgf & _ & Hrow & _). exists v, g, f. split; [exact Hgf|exact Hrow].
Defined.
