(* ===== verification/Cli.v ===== *)
(** * Cli: flags, loading the configuration, and the commands

    Models [cmd/postie/main.go] and the loading of [internal/config/load.go]:
    which command runs, the flag package's parsing, the exit codes.  Reading
    files, the environment and the YAML decoder are the interface [Command];
    the engine is [Lifecycle]'s, on a schedule of its goroutines, and its
    activity log is written to the standard output. *)

From S2P Require Import Prelude Strconv Json JsonCodec GoFmt GoTime Stream Activity LogLine Config Act Provision Bootstrap Control Lifecycle.
Local Open Scope Z_scope.

(** ** [strconv.ParseInt] with base 0 *)
Definition lower (c : ascii) : ascii := if in_range 65 90 c then byte_of (byte_val c + 32) else c.

Definition digit_of (c : ascii) : option Z :=
  if is_digit c then Some (digit_val c)
  else let c := lower c in if in_range 97 122 c then Some (byte_val c - 87) else None.

(** The digits of a number; underscores are skipped here. *)
Fixpoint digits_in (base : Z) (s : string) (n : Z) : result num_error Z :=
  match s with
  | EmptyString => Ok n
  | String c s =>
      if Ascii.eqb c "_" then digits_in base s n
      else match digit_of c with
      | Some d =>
          if base <=? d then Err ErrSyntax
          else let n := n * base + d in if 2 ^ 64 <=? n then Err ErrRange else digits_in base s n
      | None => Err ErrSyntax
      end
  end.

(** Base and digits of an unsigned literal. *)
Definition split_base (s : string) : Z * string :=
  match s with
  | String "0" (String x (String y r)) =>
      let x := lower x in
      if Ascii.eqb x "b" then (2, String y r) else if Ascii.eqb x "o" then (8, String y r)
      else if Ascii.eqb x "x" then (16, String y r) else (8, match s with String _ r => r | _ => s end)
  | String "0" r => (8, r)
  | _ => (10, s)
  end.

(** [underscoreOK], after the base prefix: the last character seen was a digit,
    an underscore or something else. *)
Inductive seen : Type := SawDigit | SawUnderscore | SawOther.

Fixpoint underscores (hex : bool) (s : string) (last : seen) : bool :=
  match s with
  | EmptyString => match last with SawUnderscore => false | _ => true end
  | String c s =>
      if is_digit c || (hex && in_range 97 102 (lower c)) then underscores hex s SawDigit
      else if Ascii.eqb c "_" then match last with SawDigit => underscores hex s SawUnderscore | _ => false end
      else match last with SawUnderscore => false | _ => underscores hex s SawOther end
  end.

Definition underscoreOK (s : string) : bool :=
  match s with
  | String "0" (String x r) =>
      let x := lower x in
      if Ascii.eqb x "b" || Ascii.eqb x "o" || Ascii.eqb x "x" then underscores (Ascii.eqb x "x") r SawDigit else underscores false s SawOther
  | _ => underscores false s SawOther
  end.

Definition has_underscore (s : string) : bool := negb (str_forallb (fun c => negb (Ascii.eqb c "_")) s).

(** A 64-bit value. *)
Definition ParseInt0 (s : string) : result num_error Z :=
  let '(neg, digits) := split_plus_minus s in
  if str_eqb digits "" then Err ErrSyntax
  else
    let '(base, r) := split_base digits in
    n ← digits_in base r 0;
    _ ← reject_if (has_underscore r && negb (underscoreOK digits)) ErrSyntax;
    if (if neg then n <=? 2 ^ 63 else n <? 2 ^ 63) then Ok (if neg then - n else n) else Err ErrRange.

(** ** The flag package *)
Inductive flagKind : Type := StringFlag | IntFlag.

Inductive FlagError : Type :=
| BadSyntax (arg : string)
| NotDefined (name : string)
| ErrHelp
| NeedsArgument (name : string)
| InvalidValue (value name : string) (e : num_error).

Definition flag_text (e : FlagError) : list string :=
  match e with
  | BadSyntax arg => [Sprintf "bad flag syntax: %s" [arg]]
  | NotDefined name => [Sprintf "flag provided but not defined: -%s" [name]]
  | ErrHelp => []
  | NeedsArgument name => [Sprintf "flag needs an argument: -%s" [name]]
  | InvalidValue value name e => [Sprintf "invalid value %q for flag -%s: %v" [value; name;
      match e with ErrSyntax => "parse error" | ErrRange => "value out of range" end]]
  end.

Definition check_value (k : flagKind) (v : string) : result num_error unit :=
  match k with StringFlag => Ok tt | IntFlag => _ ← ParseInt0 v; Ok tt end.

(** A flag's text without its dashes, if the argument is one. *)
Definition flag_body (s : string) : option string :=
  match s with
  | String "-" (String "-" EmptyString) => None
  | String "-" (String "-" r) => Some r
  | String "-" (String c r) => Some (String c r)
  | _ => None
  end.

(** Name and value at the first equals sign after the first character. *)
Definition split_value (body : string) : string * option string :=
  match body with
  | EmptyString => ("", None)
  | String c r =>
      let '(name, rest) := str_span (fun d => negb (Ascii.eqb d "=")) r in
      match rest with String _ v => (String c name, Some v) | EmptyString => (body, None) end
  end.

Definition bad_name (body : string) : bool :=
  match body with EmptyString => true | String c _ => Ascii.eqb c "-" || Ascii.eqb c "=" end.

(** [FlagSet.Parse]: the flags set, in order. *)
Fixpoint ParseFlags (flags : list (string * flagKind)) (args : list string) (set_ : list (string * string)) :
  result FlagError (list (string * string)) :=
  match args with
  | [] => Ok set_
  | arg :: args =>
      match flag_body arg with
      | None => Ok set_
      | Some body =>
          if bad_name body then Err (BadSyntax arg)
          else
            let '(name, value) := split_value body in
            match (list_to_map flags : gmap string flagKind) !! name with
            | None => Err (if str_eqb name "help" || str_eqb name "h" then ErrHelp else NotDefined name)
            | Some kind =>
                match value, args with
                | Some v, args =>
                    match check_value kind v with Ok _ => ParseFlags flags args (set_ ++ [(name, v)]) | Err e => Err (InvalidValue v name e) end
                | None, v :: args =>
                    match check_value kind v with Ok _ => ParseFlags flags args (set_ ++ [(name, v)]) | Err e => Err (InvalidValue v name e) end
                | None, [] => Err (NeedsArgument name)
                end
            end
      end
  end.

(** The last value a flag was set to. *)
Definition flag_value (name default_ : string) (set_ : list (string * string)) : string :=
  default default_ (foldl (fun acc kv => if str_eqb kv.1 name then Some kv.2 else acc) None set_).

Definition configFlag : string * flagKind := ("config", StringFlag).
Definition generationFlag : string * flagKind := ("generation", IntFlag).
Definition config_of (set_ : list (string * string)) : string := flag_value "config" "postie.yaml" set_.
Definition generation_of (set_ : list (string * string)) : Z :=
  match ParseInt0 (flag_value "generation" "1" set_) with Ok n => n | Err _ => 0 end.

(** ** The commands *)
Class Command (W : Type) : Type := {
  ReadFile : string -> Act W (result error string);
  LookupEnv : string -> W -> option string;
  Unmarshal : string -> result error node;             (* the YAML library *)
  DecodeEngine : node -> result error Engine;
  DecodeApplication : node -> result error Application }.

Definition usage : list string := [
  "usage: postie [--config POSTIE.yaml] [--generation N]";
  "       postie config validate --config POSTIE.yaml";
  "       postie provision --config POSTIE.yaml [--generation N]" ].

(** What a flag set prints about its flags; the default set prints the
    program's own path as its name. *)
Definition flag_usage (name : string) (flags : list (string * flagKind)) : list string :=
  ("Usage of " +:+ name +:+ ":") :: flat_map (fun f => if str_eqb f.1 "config"
    then ["  -config string"; String (byte_of 32) (String (byte_of 32) (String (byte_of 32) (String (byte_of 32) (String (byte_of 9) ("Postie configuration (default " +:+ Json.qstr "postie.yaml" +:+ ")")))))]
    else ["  -generation int"; String (byte_of 32) (String (byte_of 32) (String (byte_of 32) (String (byte_of 32) (String (byte_of 9) "stream generation (default 1)"))))]) flags.

Section Commands.
Context {W : Type} `{Command W} `{Infra W} `{Startup W} `{Env W}.

(** [load]. *)
Definition load {A : Type} (path : string) (decode : node -> result error A) : Act W (result error A) :=
  b <~ ReadFile path;
  document <~ pure (Unmarshal b);
  lookup ← ((fun w => (fun x => LookupEnv x w, w)) : Act W (string -> option string));
  match expandScalars document lookup with
  | Err e => throw (Wrapf "%s: %w" [path] e)
  | Ok document => pure (decode document)
  end.

(** The returned engine is the one [Validate] filled in. *)
Definition LoadEngine (path : string) : Act W (result error Engine) :=
  c <~ load path DecodeEngine; let '(c, r) := EngineValidate c in _ <~ pure r; give c.

Definition LoadApplication (path : string) : Act W (result error Application) :=
  c <~ load path DecodeApplication; _ <~ pure (ApplicationValidate c); give c.

Definition Load (path : string) : Act W (result error (Engine * Application)) :=
  engine <~ LoadEngine path;
  application <~ LoadApplication (en_ApplicationConfig engine);
  give (engine, application).

Definition print_errs (lines : list string) (m : Term W) : Term W := foldl (fun m l => print_err l m) m lines.

Definition runConfigValidate (args : list string) (m : Term W) : Z * Term W :=
  match ParseFlags [configFlag] args [] with
  | Err e => (2, print_errs (flag_text e ++ flag_usage "validate" [configFlag]) m)
  | Ok set_ =>
      let '(r, m) := on_world (Load (config_of set_)) m in
      match r with
      | Err e => (1, print_err (error_text e) m)
      | Ok (_, app) => (0, print_out (Sprintf "valid: %d PostgreSQL sources, %d HTTP destinations"
          [Itoa (Z.of_nat (length (app_Sources app))); Itoa (Z.of_nat (length (app_Destinations app)))]) m)
      end
  end.

Definition provisionFlags (args : list string) (m : Term W) : option (string * Generation) * Term W :=
  match ParseFlags [configFlag; generationFlag] args [] with
  | Err e => (None, print_errs (flag_text e ++ flag_usage "provision" [configFlag; generationFlag]) m)
  | Ok set_ =>
      if negb (Stream.Valid (generation_of set_)) then (None, print_err "generation must be 1 or greater" m)
      else (Some (config_of set_, generation_of set_), m)
  end.

Definition runProvision (fuel : nat) (args : list string) (m : Term W) : option (Z * Term W) :=
  let '(flags, m) := provisionFlags args m in
  match flags with
  | None => Some (2, m)
  | Some (path, generation) =>
      let '(r, m) := on_world (Load path) m in
      match r with
      | Err e => Some (1, print_err (error_text e) m)
      | Ok (engine, application) => Provision fuel engine application generation m
      end
  end.

Definition run (fuel : nat) (args : list string) (m : Term W) : option (Z * Term W) :=
  match args with
  | [] => Some (2, print_errs usage m)
  | command :: args =>
      if str_eqb command "config" then
        match args with
        | sub :: args => if str_eqb sub "validate" then Some (runConfigValidate args m) else Some (2, print_errs usage m)
        | [] => Some (2, print_errs usage m)
        end
      else if str_eqb command "provision" then runProvision fuel args m
      else Some (2, print_errs usage m)
  end.

(** The call of [config.OperatorToken] in [serve]. *)
Definition operatorToken (engine : Engine) : Act W (result error string) := fun w =>
  let '(file, w) := (if str_eqb (en_TokenFile engine) "" then (Ok "", w) else ReadFile (en_TokenFile engine) w) in
  (OperatorToken (default "" (LookupEnv "POSTIE_OPERATOR_TOKEN" w)) (en_TokenFile engine) (fun _ => file), w).

(** [log.Fatal]; [date] is what the standard logger puts before the line. *)
Definition Fatal (date : string) (e : error) (m : Term W) : Z * Term W := (1, print_err (date +:+ error_text e) m).

(** [serve]; the default flag set exits with 2, or 0 for help.  [boot] and
    [worker] are the engine's two random texts, [clock] the times of its
    activity log, which [Run] gives the standard output; its requests are
    [Operator]'s, which has the token. *)
Definition serve (schedule : list (label W)) (clock : nat -> Time) (boot worker date : string) (args : list string) (m : Term W) :
  option (Z * Term W) :=
  match ParseFlags [configFlag; generationFlag] args [] with
  | Err e => Some ((match e with ErrHelp => 0 | _ => 2 end), print_errs (flag_text e ++ flag_usage "postie" [configFlag; generationFlag]) m)
  | Ok set_ =>
      let '(r, m) := on_world (Load (config_of set_)) m in
      match r with
      | Err e => Some (Fatal date e m)
      | Ok (engine, application) =>
          let '(token, m) := on_world (operatorToken engine) m in
          match token with
          | Err e => Some (Fatal date e m)
          | Ok _ =>
              '(r, written, w) ← Run schedule engine application (generation_of set_) clock boot worker (world m);
              let m := mkTerm w (stdout m ++ log_lines written) (stderr m) in
              Some match r with Err e => Fatal date e m | Ok _ => (0, m) end
          end
      end
  end.

(** [main], with the arguments after the program's name. *)
Definition main (fuel : nat) (schedule : list (label W)) (clock : nat -> Time) (boot worker date : string) (args : list string) (m : Term W) :
  option (Z * Term W) :=
  match args with
  | a :: _ => if negb (HasPrefix a "-") then run fuel args m else serve schedule clock boot worker date args m
  | [] => serve schedule clock boot worker date args m
  end.
End Commands.

(** ** Lemmas: numbers *)
Lemma digits_value (s : string) (n : Z) :
  all_digits s = true -> 0 <= n -> dec_acc s n < 2 ^ 64 -> digits_in 10 s n = Ok (dec_acc s n).
Proof.
  revert n. induction s as [|c s IH]; intros n Hs Hn Hlt; [done|]. unfold all_digits in Hs. cbn [str_forallb] in Hs.
  apply andb_true_iff in Hs as [Hc Hs]. cbn [dec_acc] in *. cbn [digits_in]. apply is_digit_spec in Hc as Hd.
  rewrite (proj2 (Ascii.eqb_neq c "_")) by (intros ->; discriminate Hc). unfold digit_of. rewrite Hc.
  rewrite (proj2 (Z.leb_gt _ _)) by lia.
  replace (n * 10 + digit_val c) with (10 * n + digit_val c) by lia.
  assert (10 * n + digit_val c <= dec_acc s (10 * n + digit_val c)) as Hle.
  { rewrite dec_acc_split. pose proof (dec_value_bounds s Hs). pose proof (Z.pow_pos_nonneg 10 (Z.of_nat (String.length s)) ltac:(lia) ltac:(lia)). nia. }
  rewrite (proj2 (Z.leb_gt _ _)) by lia. apply IH; [done|lia|done].
Qed.

Lemma no_underscore (s : string) : all_digits s = true -> has_underscore s = false.
Proof.
  intros Hs. unfold has_underscore. apply negb_false_iff. revert Hs. apply str_forallb_impl. intros c Hc.
  apply negb_true_iff, Ascii.eqb_neq. by intros ->.
Qed.

Lemma digits_unsigned (n : Z) : 0 <= n < 2 ^ 64 ->
  let s := FormatUint n in exists base r, split_base s = (base, r) /\ digits_in base r 0 = Ok n /\ has_underscore r = false.
Proof.
  intros Hn s. destruct (decide (n = 0)) as [->|Hz]; [by exists 8, ""|].
  destruct (FormatUint_spec n) as (Hd & Hne & Hv & _); [lia|]. exists 10, s. split.
  - pose proof (FormatUint_head n ltac:(lia)) as Hh. unfold split_base, s. destruct (FormatUint n) as [|c r]; [done|].
    destruct c as [[] [] [] [] [] [] [] []]; try reflexivity. by destruct (Hh r).
  - split; [|by apply no_underscore]. unfold s. rewrite digits_value; [|done|lia|]; change (dec_acc (FormatUint n) 0) with (dec_value (FormatUint n)); rewrite Hv; [done|lia].
Qed.

Lemma ParseInt0_Itoa (n : Z) : - 2 ^ 63 <= n < 2 ^ 63 -> ParseInt0 (Itoa n) = Ok n.
Proof.
  intros Hn. unfold ParseInt0, Itoa. destruct (Z.ltb_spec n 0) as [Hneg|Hpos].
  - cbn [split_plus_minus]. destruct (FormatUint_spec (- n)) as (_ & Hne & _); [lia|]. rewrite (proj2 (str_eqb_false _ _) Hne).
    destruct (digits_unsigned (- n)) as (base & r & Hs & Hd & Hu); [lia|]. cbn zeta in Hs. rewrite Hs, Hd. cbn. rewrite Hu. cbn.
    rewrite (proj2 (Z.leb_le _ _)) by lia. f_equal. lia.
  - destruct (FormatUint_spec n) as (Had & Hne & _); [lia|].
    assert (split_plus_minus (FormatUint n) = (false, FormatUint n)) as ->.
    { destruct (FormatUint n) as [|c r]; [done|]. unfold all_digits in Had. cbn in Had. apply andb_true_iff in Had as [Hc _].
      destruct c as [[] [] [] [] [] [] [] []]; try reflexivity; discriminate Hc. }
    rewrite (proj2 (str_eqb_false _ _) Hne). destruct (digits_unsigned n) as (base & r & Hs & Hd & Hu); [lia|]. cbn zeta in Hs. rewrite Hs, Hd. cbn. rewrite Hu. cbn.
    rewrite (proj2 (Z.ltb_lt _ _)) by lia. done.
Qed.

#[global] Arguments ParseInt0 : simpl never.
#[local] Arguments Itoa : simpl never.

(** ** Lemmas: flags *)

(** One flag with its value in the same argument or the next. *)
Lemma parse_joined (flags : list (string * flagKind)) (name v : string) (k : flagKind) (dashes : string) (rest : list string) (set_ : list (string * string)) :
  dashes = "-" \/ dashes = "--" -> (list_to_map flags : gmap string flagKind) !! name = Some k ->
  bad_name name = false -> str_forallb (fun d => negb (Ascii.eqb d "=")) name = true ->
  ParseFlags flags ((dashes +:+ name +:+ String "=" v) :: rest) set_ =
    match check_value k v with Ok _ => ParseFlags flags rest (set_ ++ [(name, v)]) | Err e => Err (InvalidValue v name e) end.
Proof.
  intros Hdash Hk Hb He. destruct name as [|c name]; [done|]. cbn in Hb, He. apply andb_true_iff in He as [_ He].
  apply orb_false_iff in Hb as [Hb1 Hb2].
  assert (flag_body (dashes +:+ String c name +:+ String "=" v) = Some (String c (name +:+ String "=" v))) as Hbody.
  { destruct Hdash as [-> | ->]; [|reflexivity]. cbn. destruct c as [[] [] [] [] [] [] [] []]; try reflexivity. discriminate Hb1. }
  cbn [ParseFlags]. rewrite Hbody. unfold bad_name, split_value. rewrite Hb1, Hb2. cbn [orb].
  rewrite str_span_app by done. by rewrite Hk.
Qed.

Lemma parse_split (flags : list (string * flagKind)) (name v : string) (k : flagKind) (dashes : string) (rest : list string) (set_ : list (string * string)) :
  dashes = "-" \/ dashes = "--" -> (list_to_map flags : gmap string flagKind) !! name = Some k ->
  bad_name name = false -> str_forallb (fun d => negb (Ascii.eqb d "=")) name = true ->
  ParseFlags flags ((dashes +:+ name) :: v :: rest) set_ =
    match check_value k v with Ok _ => ParseFlags flags rest (set_ ++ [(name, v)]) | Err e => Err (InvalidValue v name e) end.
Proof.
  intros Hdash Hk Hb He. destruct name as [|c name]; [done|]. cbn in Hb, He. apply andb_true_iff in He as [_ He].
  apply orb_false_iff in Hb as [Hb1 Hb2].
  assert (flag_body (dashes +:+ String c name) = Some (String c name)) as Hbody.
  { destruct Hdash as [-> | ->]; [|reflexivity]. cbn. destruct c as [[] [] [] [] [] [] [] []]; try reflexivity. discriminate Hb1. }
  cbn [ParseFlags]. rewrite Hbody. unfold bad_name, split_value. rewrite Hb1, Hb2. cbn [orb].
  rewrite <- (str_app_nil_r name) at 1. rewrite str_span_app by done. by rewrite Hk.
Qed.

Lemma loop_codes {W : Type} `{Infra W} `{Startup W} (fuel : nat) (engine : Engine) (application : Application) (g : Generation) (m m' : Term W) (code : Z) :
  Provision fuel engine application g m = Some (code, m') -> code = 0 \/ code = 1.
Proof.
  unfold Provision, on_world. destruct (Bootstrap _ _ _ (world m)) as [[r|e] w]; [|intros [= <- <-]; auto].
  intros ([ok m1] & _ & Hr)%bind_Some. destruct ok.
  - unfold ensureSubscriptions, on_world, mbind, act_bind in Hr. destruct (RecordSubscriptions _ _ (world m1)) as [[u|e] w1];
      cbn -[Close] in Hr; destruct (Close r w1); injection Hr as <- <-; auto.
  - cbn -[Close] in Hr. destruct (Close r _). injection Hr as <- <-. auto.
Qed.

Section Properties.
Context {W : Type} `{Command W} `{Infra W} `{Startup W}.

Lemma print_errs_world (lines : list string) (m : Term W) : world (print_errs lines m) = world m /\ stdout (print_errs lines m) = stdout m.
Proof. unfold print_errs. revert m. induction lines as [|l lines IH]; intros m; [done|]. cbn [foldl]. by destruct (IH (print_err l m)) as [-> ->]. Qed.

(** ** Properties *)

(** The flags a user writes are the values the commands get: a configuration
    path of any text and a generation of any 64-bit value, after one dash or
    two, joined by an equals sign or as the next argument. *)
Theorem flags_round_trip (path : string) (n : Z) (d1 d2 : string) :
  d1 = "-" \/ d1 = "--" -> d2 = "-" \/ d2 = "--" -> - 2 ^ 63 <= n < 2 ^ 63 ->
  forall args, args = [d1 +:+ "config"; path; d2 +:+ "generation"; Itoa n] \/
    args = [d2 +:+ "generation=" +:+ Itoa n; d1 +:+ "config=" +:+ path] ->
  exists set_, ParseFlags [configFlag; generationFlag] args [] = Ok set_ /\ config_of set_ = path /\ generation_of set_ = n.
Proof.
  intros H1' H2' Hn args [-> | ->].
  - rewrite (parse_split _ "config" path StringFlag) by done. cbn [check_value app].
    rewrite (parse_split _ "generation" (Itoa n) IntFlag) by done. cbn [check_value app]. rewrite ParseInt0_Itoa by done. cbn.
    eexists. split; [reflexivity|]. split; [done|]. unfold generation_of. change (flag_value "generation" "1" _) with (Itoa n). by rewrite ParseInt0_Itoa.
  - change (d2 +:+ "generation=" +:+ Itoa n) with (d2 +:+ "generation" +:+ String "=" (Itoa n)).
    change (d1 +:+ "config=" +:+ path) with (d1 +:+ "config" +:+ String "=" path).
    rewrite (parse_joined _ "generation" (Itoa n) IntFlag) by done. cbn [check_value app]. rewrite ParseInt0_Itoa by done. cbn [mbind result_bind].
    rewrite (parse_joined _ "config" path StringFlag) by done. cbn.
    eexists. split; [reflexivity|]. split; [done|]. unfold generation_of. change (flag_value "generation" "1" _) with (Itoa n). by rewrite ParseInt0_Itoa.
Qed.

(** Bad usage of a subcommand exits with 2, and an exit of 2 has read and
    changed nothing and printed nothing to the output; any other exit is 0 or
    1, after flags that parsed, and provisioning only ever runs with a
    generation of at least 1. *)
Theorem bad_usage_inert (fuel : nat) (args : list string) (m m' : Term W) (code : Z) :
  run fuel args m = Some (code, m') ->
  (code = 0 \/ code = 1 \/ code = 2) /\
  (code = 2 -> world m' = world m /\ stdout m' = stdout m) /\
  (code <> 2 -> (exists set_ rest, args = "config" :: "validate" :: rest /\ ParseFlags [configFlag] rest [] = Ok set_) \/
    (exists set_ rest, args = "provision" :: rest /\ ParseFlags [configFlag; generationFlag] rest [] = Ok set_ /\ 1 <= generation_of set_)).
Proof.
  assert (forall lines Q, Some (2, print_errs lines m) = Some (code, m') -> (code = 0 \/ code = 1 \/ code = 2) /\
    (code = 2 -> world m' = world m /\ stdout m' = stdout m) /\ (code <> 2 -> Q)) as Herr.
  { intros lines Q [= <- <-]. split; [auto|]. split; [intros _; apply print_errs_world|done]. }
  unfold run. destruct args as [|command args]; [apply Herr|].
  destruct (str_eqb command "config") eqn:Hc; [apply str_eqb_true in Hc as ->|destruct (str_eqb command "provision") eqn:Hp].
  - destruct args as [|sub args]; [apply Herr|]. destruct (str_eqb sub "validate") eqn:Hs; [apply str_eqb_true in Hs as ->|apply Herr].
    unfold runConfigValidate. destruct (ParseFlags _ args []) as [set_|e] eqn:Hf; [|apply Herr].
    unfold on_world. destruct (Load _ (world m)) as [[[engine app]|e] w]; intros [= <- <-];
      (split; [auto|split; [done|intros _; left; by exists set_, args]]).
  - apply str_eqb_true in Hp as ->. unfold runProvision, provisionFlags. destruct (ParseFlags _ args []) as [set_|e] eqn:Hf; [|apply Herr].
    destruct (negb (Stream.Valid (generation_of set_))) eqn:Hv; [intros [= <- <-]; split; [auto|split; [done|done]]|].
    apply negb_false_iff in Hv. unfold Stream.Valid in Hv. unfold on_world. destruct (Load _ (world m)) as [[[engine app]|e] w].
    + intros Hr. apply loop_codes in Hr as Hcode. split; [tauto|]. split; [lia|]. intros _. right. exists set_, args.
      split; [done|]. split; [done|]. lia.
    + intros [= <- <-]. split; [auto|]. split; [done|]. intros _. right. exists set_, args.
      split; [done|]. split; [done|]. lia.
  - apply Herr.
Qed.
End Properties.

(** ** The engine the command runs *)
Section Serving.
Context {W : Type} `{Command W} `{Startup W} `{Env W}.

(** Loading gives validated configurations. *)
Lemma load_valid (path : string) (w w' : W) (engine : Engine) (application : Application) :
  Load path w = (Ok (engine, application), w') -> engine_ok engine /\ ApplicationValidate application = Ok tt.
Proof.
  unfold Load, LoadEngine, LoadApplication. rewrite try_Ok. intros (e & w1 & He & Ha).
  apply try_Ok in Ha as (a & w2 & Ha & [= -> -> ->]).
  apply try_Ok in He as (c & w3 & _ & He). pose proof (engine_validated c) as Hv.
  destruct (EngineValidate c) as [c' r]. apply try_Ok in He as ([] & w4 & [= -> ->] & [= -> ->]).
  apply try_Ok in Ha as (a & w5 & _ & Ha). apply try_Ok in Ha as ([] & w6 & [= Ha ->] & [= -> ->]).
  split; [by apply Hv|done].
Qed.

(** [Run] on [w] starts an engine and returns [r] with it in state [s]. *)
Definition ran (engine : Engine) (application : Application) (generation : Generation) (boot worker : string) (w : W)
  (r : result error unit) (s : Running W) : Prop :=
  exists w' resources service, NewApp engine application generation true boot worker w = (Ok (resources, service), w') /\
    steps resources (launched service) s /\ rn_main s = Returned r /\ clean s.

(** The lines of everything an engine logged until [s], oldest first: each
    addition identified by its number, timed and written once. *)
Definition logged (clock : nat -> Time) (boot : string) (s : Running W) : list string :=
  log_lines (Activity.written (Activity.add_all (Activity.New boot true) (imap (fun n e => (clock n, e)) (jn_added (journal (svc (rn_machine s))))))).

Lemma run_cases (schedule : list (label W)) (engine : Engine) (application : Application) (generation : Generation)
  (clock : nat -> Time) (boot worker : string) (w w' : W) (r : result error unit) (written : list Activity.Entry) :
  Run schedule engine application generation clock boot worker w = Some (r, written, w') ->
  (exists e, r = Err e /\ written = [] /\ (NewApp engine application generation true boot worker w).1 = Err e) \/
  (exists s, ran engine application generation boot worker w r s /\ w' = env (rn_machine s) /\ log_lines written = logged clock boot s /\
    (r = Ok tt /\ rn_over s = true \/ exists e, r = Err e /\ rn_server s = Ended e)).
Proof.
  unfold Run. destruct (NewApp engine application generation true boot worker w) as [[[resources service]|e] w1] eqn:Hn.
  - intros (s & Hs%run_labels_steps & Hr)%bind_Some. destruct (rn_main s) eqn:Hm; try done. injection Hr as -> <- <-. right. exists s.
    pose proof Hn as Ho%newapp_owned. split; [exists w1, resources, service; split_and!; try done; by eapply returned_clean|].
    split; [done|]. split.
    { unfold logged, activity. by rewrite (engine_logs resources _ _ _ _ _ _ _ _ _ _ Hn Hs). }
    destruct (reached resources service s Ho Hs) as [_ Hi]. rewrite Hm in Hi.
    destruct Hi as (_ & _ & [e|] & Hl & ->); [right|by left]. exists e. split; [done|apply Hl].
  - intros [= <- <- <-]. left. by exists e.
Qed.

(** C34. What the command exits with.  Bad flags are 2, or 0 for help, and touch
    nothing.  Otherwise 0 says that both configurations loaded and hold their
    rules, that there is a token, that the engine started and left because it
    was told to, with its service's goroutine returned, no consumer running,
    no listener and the resources closed, and that nothing went to the error
    output.  1 comes with one line there: what loading or the token lacks, one
    of the four sentences of a failed start, or the failure of a server behind
    which everything was stopped in the same way.  The standard output gets
    the activity log of the engine that ran, in order, each entry one line of
    JSON, and nothing else: nothing at all when none was started. *)
Theorem serve_exit (schedule : list (label W)) (clock : nat -> Time) (boot worker date : string) (args : list string) (m m' : Term W) (code : Z) :
  serve schedule clock boot worker date args m = Some (code, m') ->
  match ParseFlags [configFlag; generationFlag] args [] with
  | Err e => world m' = world m /\ stdout m' = stdout m /\ code = match e with ErrHelp => 0 | _ => 2 end
  | Ok set_ =>
      exists lines, stdout m' = stdout m ++ lines /\ Forall is_raw lines /\
      let '(loaded, w1) := Load (config_of set_) (world m) in
      (code = 0 /\ stderr m' = stderr m /\ exists engine application token w2 s,
        loaded = Ok (engine, application) /\ engine_ok engine /\ ApplicationValidate application = Ok tt /\
        operatorToken engine w1 = (Ok token, w2) /\ token <> "" /\
        ran engine application (generation_of set_) boot worker w2 (Ok tt) s /\ rn_over s = true /\ world m' = env (rn_machine s) /\
        lines = logged clock boot s) \/
      (code = 1 /\ exists e, stderr m' = stderr m ++ [date +:+ error_text e] /\
        (loaded = Err e /\ lines = [] \/
         exists engine application, loaded = Ok (engine, application) /\
          ((operatorToken engine w1).1 = Err e /\ lines = [] \/
           exists token w2, operatorToken engine w1 = (Ok token, w2) /\
            (error_text e ∈ ["generation must be positive"; "Kafka client could not be created"; "control store could not be opened";
               "subscriptions could not be initialized"] /\ lines = [] \/
             exists s, ran engine application (generation_of set_) boot worker w2 (Err e) s /\ rn_server s = Ended e /\
               lines = logged clock boot s))))
  end.
Proof.
  unfold serve. destruct (ParseFlags _ args []) as [set_|e].
  2: { intros [= <- <-]. destruct (print_errs_world (flag_text e ++ flag_usage "postie" [configFlag; generationFlag]) m). done. }
  unfold on_world, Fatal. destruct (Load (config_of set_) (world m)) as [[[engine application]|e] w1] eqn:Hl; cbn [world stdout stderr].
  2: { intros [= <- <-]. exists []. split; [by rewrite app_nil_r|]. split; [done|]. right. split; [done|]. exists e. split; [done|by left]. }
  apply load_valid in Hl as [Hengine Happlication].
  destruct (operatorToken engine w1) as [[token|e] w2] eqn:Ht; cbn [world stdout stderr].
  2: { intros [= <- <-]. exists []. split; [by rewrite app_nil_r|]. split; [done|]. right. split; [done|]. exists e. split; [done|].
    right. exists engine, application. split; [done|left; by rewrite Ht]. }
  assert (token <> "") as Hne.
  { unfold operatorToken in Ht. destruct (if str_eqb _ _ then _ else _) as [file w3]. injection Ht as Ht%operator_token_sound _. apply Ht. }
  intros ([[r written] w] & Hr & Hcode)%bind_Some.
  assert (stdout m' = stdout m ++ log_lines written) as Hout by (destruct r; by injection Hcode as _ <-).
  exists (log_lines written). split; [exact Hout|]. split; [apply lines_valid|]. clear Hout.
  apply run_cases in Hr as [(e & -> & -> & Hn)|(s & Hran & -> & Hlog & [[-> Hover]|(e & -> & Hend)])]; injection Hcode as <- <-.
  - right. split; [done|]. exists e. split; [done|]. right. exists engine, application. split; [done|]. right. exists token, w2. split; [done|].
    left. split; [|done]. destruct (NewApp _ _ _ _ _ _ _) as [a w3] eqn:Hnew. cbn in Hn. subst a. by eapply startup_errors.
  - left. split; [done|]. split; [done|]. by exists engine, application, token, w2, s.
  - right. split; [done|]. exists e. split; [done|]. right. exists engine, application. split; [done|]. right. exists token, w2. split; [done|].
    right. by exists s.
Qed.
End Serving.

(** ** Witnesses *)
Lemma flags_round_trip_witness :
  exists set_, ParseFlags [configFlag; generationFlag] ["-generation=7"; "--config=a=b.yaml"] [] = Ok set_ /\
    config_of set_ = "a=b.yaml" /\ generation_of set_ = 7.
Proof. apply (flags_round_trip "a=b.yaml" 7 "--" "-"); [by right|by left|lia|by right]. Defined.

Example numbers : map ParseInt0 ["0x1F"; "-0b101"; "1_000"; "017"; "1__0"; "_1"; "0x"; "9223372036854775808"; "-9223372036854775808"] =
  [Ok 31; Ok (-5); Ok 1000; Ok 15; Err ErrSyntax; Err ErrSyntax; Err ErrSyntax; Err ErrRange; Ok (- 2 ^ 63)].
Proof. reflexivity. Qed.

#[local] Instance demo_command : Command Provision.Sim.Live := {
  ReadFile _ w := (Err Canceled, w);
  LookupEnv _ _ := None;
  Unmarshal _ := Err Canceled;
  DecodeEngine _ := Err Canceled;
  DecodeApplication _ := Err Canceled }.

#[local] Instance demo_startup : Startup Provision.Sim.Live := {
  NewAdmin _ w := (Ok tt, w); OpenStore _ w := (Ok tt, w); OpenPool _ _ w := (tt, w); CloseAdmin w := (tt, w); CloseStore w := (tt, w);
  ClosePools _ w := (tt, w); RecordSubscriptions _ _ w := (Ok tt, w) }.

Lemma bad_usage_inert_witness :
  let m := mkTerm Provision.Sim.good [] [] in
  (run 1 ["provision"; "--generation"; "0"] m = Some (2, mkTerm Provision.Sim.good [] ["generation must be 1 or greater"])) /\
  world (mkTerm Provision.Sim.good [] ["generation must be 1 or greater"]) = world m.
Proof.
  intros m. assert (run 1 ["provision"; "--generation"; "0"] m = Some (2, mkTerm Provision.Sim.good [] ["generation must be 1 or greater"])) as Hr by (vm_compute; reflexivity).
  split; [exact Hr|]. destruct (bad_usage_inert 1 ["provision"; "--generation"; "0"] m _ 2 Hr) as (_ & Hw & _). exact (proj1 (Hw eq_refl)).
Defined.

(** An engine served on the control store from a file, until its context ends. *)
Module ServeSim.
Definition token_engine : Engine := mkEngine 1 "acme" "staging" "app.yaml" ["k"] 2 1 "http://connect" ":8080" "" "postgres://" 1 1 [].
Definition files : gmap string string := list_to_map [("postie.yaml", "engine"); ("app.yaml", "app")].
#[export] Instance commands : Command Clocked := {
  ReadFile path w := (match files !! path with Some b => Ok b | None => Err Canceled end, w);
  LookupEnv name _ := if str_eqb name "POSTIE_OPERATOR_TOKEN" then Some "k" else None;
  Unmarshal b := Ok (Scalar "!!str" b);
  DecodeEngine _ := Ok token_engine;
  DecodeApplication _ := Ok StoreSim.application }.
Definition start : Term Clocked := mkTerm LifeSim.world [] [].
Definition schedule : list (label Clocked) := LifeSim.running ++ LifeSim.stopping.
End ServeSim.
#[export] Existing Instance ServeSim.commands.

Abbreviation served := (serve ServeSim.schedule (fun n => mkTime (Z.of_nat n) 0) "B" "w1" "" ["-generation"; "1"] ServeSim.start).

Lemma serve_exit_witness : exists m' s,
  served = Some (0, m') /\ clean s /\ world m' = env (rn_machine s) /\ stdout m' = logged (fun n => mkTime (Z.of_nat n) 0) "B" s /\
  stdout m' !! 0%nat = EncodeEntry (Activity.stamp "B" 1 (mkTime 0 0) (Control.entry "engine started" "" "" "" 1)).
Proof.
  assert (match served with Some (0, m') => bool_decide (stdout m' !! 0%nat = EncodeEntry (Activity.stamp "B" 1 (mkTime 0 0)
    (Control.entry "engine started" "" "" "" 1))) | _ => false end = true) as Hs by (vm_compute; reflexivity).
  destruct served as [[code m']|] eqn:Hr; [|discriminate Hs]. destruct code as [|p|p]; try discriminate Hs. apply bool_decide_eq_true in Hs.
  destruct (serve_exit ServeSim.schedule (fun n => mkTime (Z.of_nat n) 0) "B" "w1" "" ["-generation"; "1"] ServeSim.start m' 0 Hr) as
    (lines & Hout & _ & [(_ & _ & engine & application & token & w2 & s & _ & _ & _ & _ & _ & (w3 & rs & service & _ & _ & _ & Hc) & _ & Hw & Hl)|(Hcode & _)]);
    [|discriminate Hcode].
  exists m', s. split; [reflexivity|]. split; [exact Hc|]. split; [exact Hw|]. split; [rewrite <- Hl; exact Hout|exact Hs].
Defined.
